(* ===== verification/_CoqProject ===== *)
-Q . S2P
Prelude.v
LibC.v
Heap.v
IntervalSplay.v
SplayTree.v
Locks.v
Preload.v
ByteIO.v
HpcFmt.v
Xml.v
HomoXml.v
Support.v
OutBuf.v
OutputFile.v
RingBuffer.v
PerfEvents.v
Metrics.v
ContextTree.v
CallTree.v
BranchDecode.v
RangeSet.v
CodeCache.v
Report.v
Config.v
Methods.v
Offline.v
Timeline.v
Watchpoint.v
Tracer.v
Traces.v
Lifecycle.v
Agent.v
Session.v
