(* ===== verification/Prelude.v ===== *)
(** * A verification development of Trace4J

    Trace4J is a JVMTI agent that traces Java methods with hardware counters and debug registers:
    perf events sample a running method, the profiler decodes its code to the next
    control transfer, sets a watchpoint there, and follows calls and returns from trap to trap;
    the counts go to calling contexts, which are written as XML when a thread ends and read by
    offline tools.

    ** The program's parts and the files that model them

    This file holds what every other one uses: machine integers ([u32], [i64], ... over [wrap] and [swrap]),
    little-endian bytes, the outcome type [exc], tactics and hints. [RET a] is a result; [EXC]
    is the end of the process in a failed assertion, an [exit] or an exception, or a use of memory
    that C or C++ does not define. [None] is, where a file says so, fuel used up or a call that
    does not come back.

    - Bytes and files. LibC.v (streams and files of the C library, not mapped), ByteIO.v
      (hpcio.c, big-endian.h), HpcFmt.v (hpcfmt.c), OutBuf.v (hpcio-buffer.c), OutputFile.v
      ([OUTPUT] of profiler/io.cpp).
    - Locks. Locks.v (spinlock.h, util/lock.h): steps of threads, which interleave. Preload.v
      (src/preload: the table of moves that such a lock protects).
    - Data structures. Heap.v (a memory of nodes and rules that run pointer code), IntervalSplay.v
      (profiler/splay.cpp), SplayTree.v (util/splay-tree.h), RangeSet.v (util/range.h).
    - Perf events. RingBuffer.v (perf_mmap.cpp, watchpoint_mmap.c: the ring of samples),
      PerfEvents.v (the signal handler of perf_interface.cpp, perf_util.cpp, safe-sampling.h), Metrics.v
      (metrics.cpp, welford.h, [SetupWatermarkMetric]).
    - Watchpoints. Watchpoint.v (thirdparty/watchpoint-lib): the slots of a thread, the
      descriptors of the kernel, and the trap handler with its client as a function.
    - Following a method. BranchDecode.v (where a control transfer of profiler.cpp goes),
      Tracer.v ([OnSample], [decoder], [OnBranchWatchPoint], [OnRetWatchPoint]): the client
      of Watchpoint.v, an instance of its class [WP_Client].
    - Contexts, methods, reports. ContextTree.v (context.cpp, [constructContext]), CallTree.v (the shape
      of the trees the profiler builds: only callees have metrics), CodeCache.v
      (code_cache.cpp), Xml.v (xml.cpp, and the reader pylib/xml.py), Report.v ([createXMLObj]
      and the walk of [threadEnd], its texts as [OUTPUT::writef] prints them).
    - The offline tools. HomoXml.v (pylib/special_xml.py: a whole file), Methods.v
      (pylib/code_cache.py and [load_method]: the methods and their lines), Offline.v
      (pylib/context.py and [load_context]: the tree of a thread), Timeline.v ([output_to_pftrace], _tgen.py, _core.py:
      the slices of a track), Traces.v (interpreter.py, [output_to_file]: the rows of recorded calls).
    - The life of a thread and of the agent. Support.v (profiler_support.cpp), Lifecycle.v
      (thread_data.cpp, [threadStart], [threadEnd], [setupEvents], [closeEvents]), Agent.v (the callbacks
      of agent.cpp, and the reader of methods), Config.v (argument.cpp, [process_event_list]),
      Session.v ([Agent_OnLoad] to [Agent_OnUnload]).

    State is a record per component, and an operation is a function of it with the name of the
    code's. Objects that are shared through pointers live in a map from addresses ([heap] of a
    context tree, [cc_heap] of the code cache, the blocks of thread data, the nodes of
    Heap.v). Where threads or events interleave there is a step relation: Locks.v, Preload.v, the kernel
    and the reader of RingBuffer.v, the client calls of Watchpoint.v, the samples and traps of Tracer.v,
    [sys_step] of Agent.v, [history] of Session.v.

    Components meet in classes and their instances: [LockProto] (Locks.v), [ByteSink] (OutBuf.v, used by
    OutputFile.v), [DoubleOps] (Metrics.v), [RBTree] with its laws (Methods.v, for a package of the
    reader), [PyFloat] (Traces.v, Python's conversions of floating-point numbers), [WP_Client] (Watchpoint.v,
    implemented by Tracer.v) and [ThreadWatch] with its laws (Lifecycle.v, implemented by Watchpoint.v).

    ** What the theorems show

    - Refinement: the ring buffer is a queue of bytes, [RangeSet] a map from points, the splay tree a sorted list of keys,
      the code cache a table from methods and from ranges; the interval tree finds, inserts and deletes
      what the list of its intervals says; [Tokenize] is splitting; the decoder stops at
      the first control transfer of the path, and goes on behind a jump where the manual of the processor says
      ([branch_next_correct], with its exceptions).
    - Reading what was written: name-value pairs, files of XML objects ([homo_roundtrip]), methods with their
      lines ([methods_roundtrip]), the contexts of a thread and their tree ([contexts_rebuilt]), the
      option string. [methods_found] and [whole_run] put the parts together: after any
      history of loads, unloads and threads the offline reader makes a tree of every file and finds
      the method of every context, with its names and lines. For the calls of a thread [tree_recorded]
      says what its samples and traps leave in the tree, [calls_traced] that every call of such a tree is a row of
      the offline tools, and [timeline_innermost] that the track drawn of them shows at every moment the innermost one.
    - Resources: a thread and the watchpoint library close what they opened ([WP_thread_lifetime],
      [thread_lifetime], [thread_watchpoints]); what the agent does not give back ([agent_sessions]).
    - Safety of handlers: the signal handler restores what it suspended and delivers just the samples
      that the bytes of a ring hold for the event's sample type ([perf_event_handler_contract], against a
      specification of its own; with the attributes that the program sets the kernel's layout is another one, and
      [perf_real_layout] says what is lost), the trap handler leaves the slots in order, the shadow stacks stay below the decode threshold; threads at a spin lock exclude
      one another and cannot keep each other spinning when it is free ([lock_mutual_exclusion], [lock_progress]).
    - Termination: the parse loop of the handler, the walk of [threadEnd]; bounds of writes into
      buffers and arrays.
    - Errors: what happens when a disk is full, an event cannot be opened, options are too
      many, or a budget is used up. Several theorems state a defect; the manifest's findings
      name them.

    ** Fuel

    Every loop of the code is structural recursion on a list or has fuel, and then a theorem says
    that the fuel given is enough: the walks over trees take the size of the tree, the parse loop the bytes
    that are left, the tokenizer the length of the string, the XML reader the length of its text.
    The decoder's loop can run forever in the program; its theorem is for
    paths that reach a control transfer. The loop of [writeb] ends unless the disk fails, which
    [writeb_spins] shows.

    ** What is not modelled

    Third-party code is a parameter where it is called: XED, libpfm, JVMTI, AsyncGetCallTrace, the kernel and the C library. Not
    modelled are src/perfetto and src/thirdparty/libpfm (vendored), profiler/data_centric.cpp and what else
    is compiled only with DATA_CENTRIC, COUNT_OVERHEAD or one of the PRINT_ macros (none is set by the
    build), the [main] of the offline scripts that collects their input files, the serialization of a
    timeline's packets (generated code, a parameter), messages to stderr, destructors that only free memory, and memory orders weaker than sequential
    consistency.

    Some steps are coarser than the program's. A thread's file in Lifecycle.v is its number with what was printed to it: the
    search for a free name and a failing disk are in OutputFile.v only. [call_real_memmove] of Preload.v moves
    all bytes at once, so that overlapping moves of two threads do not mix. [load_end] of Agent.v
    commits a method to the cache and prints it in one step. The theorems on watchpoints that say so are for a kernel that
    accepts every attribute that [CreateWatchPoint] makes; a real one refuses ranges that are not aligned, and the
    refusal ends the process, as the definition has it. *)
From stdpp Require Import base numbers list gmap strings relations.
From Stdlib Require Import ZArith Lia.
From Stdlib Require Init.Byte Strings.Byte.

Declare Scope t4j_scope.
Delimit Scope t4j_scope with t4j.

(** Hint and rewrite databases of the development. *)
Create HintDb t4j discriminated.
Create Rewrite HintDb t4j_len.

(** ** Tactics shared by every file *)

(** Case analysis on the boolean tests a definition takes, turning each test
    into an (in)equation for [lia]. *)
Ltac cases_Z :=
  repeat match goal with
  | H : context [if ?b then _ else _] |- _ => destruct b eqn:?
  | |- context [if ?b then _ else _] => destruct b eqn:?
  end;
  repeat match goal with
  | H : (_ =? _)%Z = true |- _ => apply Z.eqb_eq in H
  | H : (_ =? _)%Z = false |- _ => apply Z.eqb_neq in H
  | H : (_ <? _)%Z = true |- _ => apply Z.ltb_lt in H
  | H : (_ <? _)%Z = false |- _ => apply Z.ltb_ge in H
  | H : (_ <=? _)%Z = true |- _ => apply Z.leb_le in H
  | H : (_ <=? _)%Z = false |- _ => apply Z.leb_gt in H
  end.

(** Turn boolean comparisons of the hypotheses into propositions. *)
Ltac reflect_Z :=
  repeat match goal with
  | H : (_ =? _)%Z = true |- _ => apply Z.eqb_eq in H
  | H : (_ =? _)%Z = false |- _ => apply Z.eqb_neq in H
  | H : (_ <? _)%Z = true |- _ => apply Z.ltb_lt in H
  | H : (_ <? _)%Z = false |- _ => apply Z.ltb_ge in H
  | H : (_ <=? _)%Z = true |- _ => apply Z.leb_le in H
  | H : (_ <=? _)%Z = false |- _ => apply Z.leb_gt in H
  | H : (_ && _)%bool = true |- _ => apply andb_true_iff in H as [? ?]
  | H : (_ || _)%bool = false |- _ => apply orb_false_iff in H as [? ?]
  | H : negb _ = true |- _ => apply negb_true_iff in H
  | H : negb _ = false |- _ => apply negb_false_iff in H
  end.

(** ** Machine integers

    A [w]-bit C integer is a [Z]; [wrap w] is the conversion to the unsigned
    type of that width and [swrap w] the conversion to the signed one. *)
Section machine_ints.
Local Open Scope Z_scope.

Definition wrap (w z : Z) : Z := z mod 2 ^ w.

Definition swrap (w z : Z) : Z :=
  let m := wrap w z in if m <? 2 ^ (w - 1) then m else m - 2 ^ w.

Definition u8 : Z -> Z := wrap 8.
Definition u16 : Z -> Z := wrap 16.
Definition u32 : Z -> Z := wrap 32.
Definition u64 : Z -> Z := wrap 64.
Definition i32 : Z -> Z := swrap 32.
Definition i64 : Z -> Z := swrap 64.

Lemma wrap_range w z : 0 <= w -> 0 <= wrap w z < 2 ^ w.
Proof. intros. apply Z.mod_pos_bound, Z.pow_pos_nonneg; lia. Qed.

Lemma wrap_small w z : 0 <= z < 2 ^ w -> wrap w z = z.
Proof. apply Z.mod_small. Qed.

Lemma wrap_wrap w z : wrap w (wrap w z) = wrap w z.
Proof. unfold wrap. apply Zmod_mod. Qed.

Lemma wrap_add_l w a b : wrap w (wrap w a + b) = wrap w (a + b).
Proof. unfold wrap. apply Zplus_mod_idemp_l. Qed.

Lemma wrap_add_r w a b : wrap w (a + wrap w b) = wrap w (a + b).
Proof. unfold wrap. apply Zplus_mod_idemp_r. Qed.

Lemma wrap_sub_l w a b : wrap w (wrap w a - b) = wrap w (a - b).
Proof. unfold wrap. apply Zminus_mod_idemp_l. Qed.

Lemma wrap_sub_r w a b : wrap w (a - wrap w b) = wrap w (a - b).
Proof. unfold wrap. apply Zminus_mod_idemp_r. Qed.

Lemma wrap_add_period w z k : wrap w (z + k * 2 ^ w) = wrap w z.
Proof. unfold wrap. apply Z_mod_plus_full. Qed.

Lemma swrap_range w z : 0 < w -> - 2 ^ (w - 1) <= swrap w z < 2 ^ (w - 1).
Proof.
  intros Hw. unfold swrap. pose proof (wrap_range w z ltac:(lia)) as Hr.
  assert (2 ^ w = 2 * 2 ^ (w - 1)) by (rewrite <- Z.pow_succ_r by lia; f_equal; lia).
  cases_Z; lia.
Qed.

Lemma swrap_small w z : 0 < w -> - 2 ^ (w - 1) <= z < 2 ^ (w - 1) -> swrap w z = z.
Proof.
  intros Hw Hz. unfold swrap, wrap.
  assert (2 ^ w = 2 * 2 ^ (w - 1)) as E by (rewrite <- Z.pow_succ_r by lia; f_equal; lia).
  destruct (Z_lt_ge_dec z 0).
  - assert (z mod 2 ^ w = z + 2 ^ w) as ->.
    { rewrite <- (Z_mod_plus_full z 1). rewrite Z.mul_1_l. apply Z.mod_small. lia. }
    cases_Z; lia.
  - rewrite Z.mod_small by lia. cases_Z; lia.
Qed.

Lemma wrap_swrap w z : 0 <= w -> wrap w (swrap w z) = wrap w z.
Proof.
  intros Hw. unfold swrap. destruct (_ <? _); [apply wrap_wrap|].
  rewrite <- (wrap_wrap w z) at 2. rewrite <- (wrap_add_period w (wrap w z) (-1)). try (f_equal; lia).
Qed.

Lemma swrap_wrap w a b : wrap w a = wrap w b -> swrap w a = swrap w b.
Proof. intros E. unfold swrap. by rewrite E. Qed.

Lemma swrap_add_l w a b : 0 <= w -> swrap w (swrap w a + b) = swrap w (a + b).
Proof.
  intros Hw. apply swrap_wrap.
  rewrite <- (wrap_add_l w (swrap w a)), wrap_swrap, wrap_add_l by done. done.
Qed.

(** Shift-and-or of disjoint bit ranges is addition. *)
Lemma lor_shiftl_add a b s :
  0 <= s -> 0 <= a < 2 ^ s -> Z.lor a (Z.shiftl b s) = a + b * 2 ^ s.
Proof.
  intros Hs Ha. rewrite <- Z.shiftl_mul_pow2 by lia.
  symmetry. rewrite <- Z.lxor_lor, <- Z.add_nocarry_lxor; [done| |];
  apply Z.bits_inj'; intros n Hn;
  rewrite Z.land_spec, Z.bits_0, Z.shiftl_spec by lia;
  destruct (Z_lt_ge_dec n s);
  [rewrite (Z.testbit_neg_r b) by lia; apply andb_false_r
  |rewrite <- (Z.mod_small a (2 ^ s)), Z.mod_pow2_bits_high by lia; done
  |rewrite (Z.testbit_neg_r b) by lia; apply andb_false_r
  |rewrite <- (Z.mod_small a (2 ^ s)), Z.mod_pow2_bits_high by lia; done].
Qed.

Lemma land_255 z : Z.land z 255 = z mod 256.
Proof. change 255 with (Z.ones 8). rewrite Z.land_ones by lia. done. Qed.

Lemma shiftr_div z s : 0 <= s -> Z.shiftr z s = z / 2 ^ s.
Proof. apply Z.shiftr_div_pow2. Qed.

End machine_ints.

(** ** Bytes *)
Abbreviation byte := Init.Byte.byte.

#[export] Instance byte_eq_decision : EqDecision byte := Strings.Byte.byte_eq_dec.

(** The value of a byte as C's [unsigned char], and the conversion of an
    integer to [unsigned char]. *)
Definition byte_val (b : byte) : Z := Z.of_N (Strings.Byte.to_N b).
Definition byte_of (z : Z) : byte :=
  default Init.Byte.x00 (Strings.Byte.of_N (Z.to_N (z mod 256))).

Lemma byte_val_range b : (0 <= byte_val b < 256)%Z.
Proof. unfold byte_val. pose proof (Strings.Byte.to_N_bounded b). lia. Qed.

Lemma byte_of_val b : byte_of (byte_val b) = b.
Proof.
  unfold byte_of. rewrite Z.mod_small by apply byte_val_range.
  unfold byte_val. rewrite N2Z.id, Strings.Byte.of_to_N. done.
Qed.

Lemma byte_val_of z : byte_val (byte_of z) = (z mod 256)%Z.
Proof.
  unfold byte_of, byte_val. pose proof (Z.mod_pos_bound z 256 ltac:(lia)) as Hz.
  destruct (Strings.Byte.of_N (Z.to_N (z mod 256))) as [b|] eqn:E; simpl.
  - apply Strings.Byte.to_of_N in E. rewrite E. lia.
  - apply Strings.Byte.of_N_None_iff in E. lia.
Qed.

Lemma byte_val_inj a b : byte_val a = byte_val b -> a = b.
Proof. intros H. rewrite <- (byte_of_val a), <- (byte_of_val b), H. done. Qed.

Lemma byte_of_mod z : byte_of (z mod 256) = byte_of z.
Proof. apply byte_val_inj. rewrite !byte_val_of. apply Zmod_mod. Qed.

(** ** Little-endian words in memory *)
Section le_words.
Local Open Scope Z_scope.

Fixpoint le_val (bs : list byte) : Z :=
  match bs with
  | [] => 0
  | b :: bs' => byte_val b + 256 * le_val bs'
  end.

Fixpoint le_bytes (n : nat) (z : Z) : list byte :=
  match n with
  | O => []
  | S n' => byte_of z :: le_bytes n' (z / 256)
  end.

Lemma length_le_bytes n z : length (le_bytes n z) = n.
Proof. revert z; induction n; intros; simpl; auto. Qed.

Lemma le_val_range bs : 0 <= le_val bs < 256 ^ Z.of_nat (length bs).
Proof.
  induction bs as [|b bs IH]; [simpl; lia|].
  rewrite length_cons, Nat2Z.inj_succ, Z.pow_succ_r by lia.
  simpl le_val. pose proof (byte_val_range b). lia.
Qed.

Lemma le_val_le_bytes n z : le_val (le_bytes n z) = z mod 256 ^ Z.of_nat n.
Proof.
  revert z; induction n as [|n IH]; intros z; simpl le_val; simpl le_bytes.
  - rewrite Z.mod_1_r. done.
  - simpl. rewrite IH, byte_val_of.
    change (Z.pos (Pos.of_succ_nat n)) with (Z.of_nat (S n)).
    rewrite Nat2Z.inj_succ, Z.pow_succ_r by lia.
    assert (0 < 256 ^ Z.of_nat n) by (apply Z.pow_pos_nonneg; lia).
    rewrite Z.rem_mul_r by lia. lia.
Qed.

Lemma le_bytes_le_val bs : le_bytes (length bs) (le_val bs) = bs.
Proof.
  induction bs as [|b bs IH]; [done|]. simpl.
  pose proof (byte_val_range b). f_equal.
  - apply byte_val_inj. rewrite byte_val_of.
    rewrite Z.mul_comm, Z_mod_plus_full. apply Z.mod_small. lia.
  - rewrite Z.mul_comm, Z.div_add, Z.div_small by lia. done.
Qed.

Lemma le_val_app a b : le_val (a ++ b) = le_val a + 256 ^ Z.of_nat (length a) * le_val b.
Proof.
  induction a as [|x a IH]; [simpl; lia|].
  rewrite length_cons, Nat2Z.inj_succ, Z.pow_succ_r by lia. simpl. rewrite IH. lia.
Qed.

Lemma le_val_inj a b : length a = length b -> le_val a = le_val b -> a = b.
Proof. intros Hl Hv. rewrite <- (le_bytes_le_val a), <- (le_bytes_le_val b). congruence. Qed.

Lemma le_bytes_app n k z :
  le_bytes (n + k) z = le_bytes n z ++ le_bytes k (z / 256 ^ Z.of_nat n).
Proof.
  revert z; induction n as [|n IH]; intros z; cbn [le_bytes plus app].
  - change (256 ^ Z.of_nat 0) with 1. by rewrite Z.div_1_r.
  - f_equal. rewrite IH, Zdiv_Zdiv by lia. do 3 f_equal.
    rewrite Nat2Z.inj_succ, Z.pow_succ_r by lia. done.
Qed.

End le_words.

(** ** Strings *)
Lemma string_nil_r s : (s +:+ "")%string = s.
Proof. induction s as [|c s IH]; [done|]. exact (f_equal (String c) IH). Qed.
Lemma string_assoc a b c : (a +:+ (b +:+ c) = (a +:+ b) +:+ c)%string.
Proof. induction a as [|x a IH]; [done|]. exact (f_equal (String x) IH). Qed.

#[export] Hint Rewrite length_le_bytes @length_app @length_take @length_drop
  @length_replicate @length_reverse @length_insert : t4j_len.

(** ** Failed assertions

    The outcome of code that checks itself with [assert], which is active in the
    program's build: a value, or the end of the process. *)
Inductive exc (A : Type) := RET (a : A) | EXC.
Arguments RET {_}. Arguments EXC {_}.

#[export] Instance exc_ret : MRet exc := fun A a => RET a.
#[export] Instance exc_bind : MBind exc :=
  fun A B f x => match x with RET a => f a | EXC => EXC end.

Definition assert_exc (b : bool) : exc unit := if b then RET () else EXC.

Lemma exc_bind_ret {A B} (x : exc A) (f : A -> exc B) b :
  (x ≫= f) = RET b -> exists a, x = RET a /\ f a = RET b.
Proof. destruct x as [a|]; [by exists a|done]. Qed.

(** ** Arrays: [memcpy] into a buffer *)

(** [memcpy(buf + off, data, length data)] on the contents of [buf]. *)
Definition memcpy_at {A} (buf : list A) (off : nat) (data : list A) : list A :=
  take off buf ++ data ++ drop (off + length data) buf.

Lemma length_memcpy_at {A} (buf : list A) off data :
  off + length data <= length buf -> length (memcpy_at buf off data) = length buf.
Proof. intros. unfold memcpy_at. rewrite !length_app, length_take, length_drop. lia. Qed.

Lemma take_memcpy_at {A} (buf : list A) off data :
  off <= length buf -> take (off + length data) (memcpy_at buf off data) = take off buf ++ data.
Proof.
  intros. unfold memcpy_at. rewrite app_assoc.
  rewrite take_app_le by (rewrite length_app, length_take; lia).
  apply take_ge. rewrite length_app, length_take. lia.
Qed.

Lemma rev_reverse {A} (l : list A) : rev l = reverse l.
Proof. apply List.rev_alt. Qed.

Lemma rev_replicate {A} n (x : A) : rev (replicate n x) = replicate n x.
Proof. rewrite rev_reverse. apply reverse_replicate. Qed.

(** Lookup in a concatenation of lists of one length. *)
Lemma lookup_concat_uniform {A} (c : nat) (ls : list (list A)) (k j : nat) :
  Forall (fun l => length l = c) ls -> j < c ->
  concat ls !! (c * k + j) = ls !! k ≫= fun l => l !! j.
Proof.
  intros Hls Hj. revert k; induction Hls as [|l ls Hl Hls IH]; intros k; [done|].
  destruct k as [|k]; cbn [concat].
  - rewrite Nat.mul_0_r, lookup_app_l by lia. done.
  - rewrite lookup_app_r by lia. replace (c * S k + j - length l) with (c * k + j) by lia. apply IH.
Qed.
