(* ===== verification/LibC.v ===== *)
(** * The part of the C library and of the system calls the sources use

    - [FILE] streams with [fgetc], [fputc] and [feof], as [hpcio.c] and
      [hpcfmt.c] use them;
    - a file system of named byte contents with [open], [close] and the error
      numbers that [hpcio.c] and [io.cpp] distinguish.

    This is the C library, not code of the repository: nothing here is mapped. *)
From stdpp Require Import base numbers list gmap strings.
From Stdlib Require Import ZArith Lia.
From S2P Require Import Prelude.
Local Open Scope Z_scope.

(** The value [fgetc] and [fputc] return at the end of the file or on error. *)
Definition EOF : Z := -1.

(** A stream: the bytes a reader has still to see, whether the end of them is a
    read error rather than the end of the file, the end-of-file indicator, the
    bytes written so far, and how many more can be written before [fputc]
    fails ([None]: no limit). *)
Record FILE := mkFILE {
  f_in : list byte;
  f_err : bool;
  f_eof : bool;
  f_out : list byte;
  f_room : option nat;
}.

Definition fgetc (f : FILE) : Z * FILE :=
  match f_in f with
  | b :: r => (byte_val b, mkFILE r (f_err f) (f_eof f) (f_out f) (f_room f))
  | [] => (EOF, mkFILE [] (f_err f) (f_eof f || negb (f_err f)) (f_out f) (f_room f))
  end.

Definition fputc (c : Z) (f : FILE) : Z * FILE :=
  match f_room f with
  | Some O => (EOF, f)
  | r => (u8 c, mkFILE (f_in f) (f_err f) (f_eof f) (f_out f ++ [byte_of c]) (Nat.pred <$> r))
  end.

Definition feof (f : FILE) : bool := f_eof f.

(** A stream opened for reading on given contents, and one opened for writing. *)
Definition reader (bs : list byte) : FILE := mkFILE bs false false [] None.
Definition writer : FILE := mkFILE [] false false [] None.

(** [f] can still take [n] bytes. *)
Definition has_room (n : nat) (f : FILE) : Prop :=
  match f_room f with None => True | Some r => (n <= r)%nat end.

(** [f] after [bs] was written to it, and after [bs] was read from it. *)
Definition wrote (bs : list byte) (f : FILE) : FILE :=
  mkFILE (f_in f) (f_err f) (f_eof f) (f_out f ++ bs)
    ((fun r => (r - length bs)%nat) <$> f_room f).
Definition at_input (bs : list byte) (f : FILE) : FILE :=
  mkFILE bs (f_err f) (f_eof f) (f_out f) (f_room f).

Lemma fgetc_cons b r f :
  f_in f = b :: r -> fgetc f = (byte_val b, at_input r f).
Proof. unfold fgetc. by intros ->. Qed.

Lemma fputc_room c f :
  has_room 1 f -> fputc c f = (u8 c, wrote [byte_of c] f).
Proof.
  unfold has_room, fputc, wrote. destruct f as [i e o w [[|n]|]]; simpl; intros H.
  - lia.
  - rewrite Nat.sub_0_r. done.
  - done.
Qed.

Lemma u8_not_EOF c : (u8 c =? EOF) = false.
Proof. apply Z.eqb_neq. pose proof (wrap_range 8 c ltac:(lia)). unfold u8, EOF in *. lia. Qed.

Lemma byte_val_not_EOF b : (byte_val b =? EOF) = false.
Proof. apply Z.eqb_neq. pose proof (byte_val_range b). unfold EOF. lia. Qed.

Lemma wrote_wrote a b f : wrote b (wrote a f) = wrote (a ++ b) f.
Proof.
  unfold wrote; destruct f as [i e o w [r|]]; simpl; rewrite <- app_assoc; [|done].
  do 2 f_equal. rewrite length_app. lia.
Qed.

Lemma wrote_nil f : wrote [] f = f.
Proof.
  unfold wrote; destruct f as [i e o w [r|]]; simpl; rewrite app_nil_r; [|done].
  by rewrite Nat.sub_0_r.
Qed.

Lemma has_room_wrote n bs f :
  has_room (length bs + n) f -> has_room n (wrote bs f).
Proof. unfold has_room, wrote. destruct f as [i e o w [r|]]; simpl; [lia|done]. Qed.

Lemma has_room_le m n f : (m <= n)%nat -> has_room n f -> has_room m f.
Proof. unfold has_room. destruct (f_room f); [lia|done]. Qed.

Lemma at_input_in f : at_input (f_in f) f = f.
Proof. by destruct f. Qed.

#[export] Hint Resolve has_room_wrote : t4j.

(** ** Files and file descriptors *)
Record open_flags := mkFlags { o_creat : bool; o_excl : bool; o_trunc : bool }.

Inductive errno := E_OK | EEXIST | ENOENT | EACCES | EBADF.

#[export] Instance errno_eq_decision : EqDecision errno.
Proof. solve_decision. Defined.

(** The contents of the files by name, the names whose opening is refused, the
    open descriptors and the next free one. *)
Record fsys := mkFS {
  fs_files : gmap string (list byte);
  fs_denied : gset string;
  fs_fds : gmap Z string;
  fs_next : Z;
}.

Definition fs_fresh (fs : fsys) (name : string) (c : list byte) : fsys :=
  mkFS (<[name := c]> (fs_files fs)) (fs_denied fs)
       (<[fs_next fs := name]> (fs_fds fs)) (fs_next fs + 1).

Definition sys_open (name : string) (fl : open_flags) (fs : fsys) : Z * errno * fsys :=
  if decide (name ∈ fs_denied fs) then (-1, EACCES, fs) else
  match fs_files fs !! name with
  | Some c =>
      if o_creat fl && o_excl fl then (-1, EEXIST, fs)
      else (fs_next fs, E_OK, fs_fresh fs name (if o_trunc fl then [] else c))
  | None =>
      if o_creat fl then (fs_next fs, E_OK, fs_fresh fs name [])
      else (-1, ENOENT, fs)
  end.

Definition sys_close (fd : Z) (fs : fsys) : Z * fsys :=
  match fs_fds fs !! fd with
  | Some _ => (0, mkFS (fs_files fs) (fs_denied fs) (delete fd (fs_fds fs)) (fs_next fs))
  | None => (-1, fs)
  end.

(** [fdopen(fd, "w")]: [NULL] for a bad descriptor. *)
Definition fdopen_w (fd : Z) : option FILE := if fd <? 0 then None else Some writer.
