(* ===== verification/Heap.v ===== *)
(** * Heap: linked structures in memory

    What the two tree structures of the program share: a memory of nodes of one
    type, the operations on it as a state monad that fails where C would follow a
    pointer that points to no node, and rules that run such code symbolically.
    The memory is described by the list of its cells up to permutation, so that the
    parts of a structure, and whatever else the memory holds, are simply appended. *)
From stdpp Require Import base numbers list list_tactics gmap.
From Stdlib Require Import ZArith Lia.
From S2P Require Import Prelude.
Local Open Scope Z_scope.

(** A pointer is its address, and 0 is [NULL]. *)
Abbreviation ptr := Z (only parsing).
Abbreviation mem := (gmap Z).

(** Code over a memory of nodes of type [N]: [None] is undefined behaviour, a
    pointer dereferenced that is no node's, or a loop that outruns its fuel. *)
Definition hp (N A : Type) : Type := mem N -> option (A * mem N).

Section monad.
Context {N : Type}.

#[export] Instance hp_ret : MRet (hp N) := fun A a h => Some (a, h).
#[export] Instance hp_bind : MBind (hp N) :=
  fun A B k m h => match m h with Some (a, h') => k a h' | None => None end.

(** Reading the node a pointer points to, and writing its fields. *)
Definition deref (p : ptr) : hp N N :=
  fun h => if p =? 0 then None else n ← h !! p; Some (n, h).
Definition assign (p : ptr) (f : N -> N) : hp N unit :=
  fun h => if p =? 0 then None else n ← h !! p; Some (tt, <[p := f n]> h).

(** A node made at an address, by [malloc] or as a local variable, and the end of
    its life. *)
Definition place (p : ptr) (n : N) : hp N unit := fun h => Some (tt, <[p := n]> h).
Definition discard (p : ptr) : hp N unit :=
  fun h => if p =? 0 then None else _ ← h !! p; Some (tt, delete p h).

(** The number of nodes, which bounds the steps of a walk down a tree. *)
Definition nodes : hp N nat := fun h => Some (size h, h).

(** Following a pointer to no node, and running out of fuel. *)
Definition fault {A} : hp N A := fun _ => None.
Definition diverge {A} : hp N A := fun _ => None.

(** ** Memories as lists of cells *)
Definition cell : Type := Z * N.

(** [h] consists of exactly the cells [cs]. *)
Record hst (h : mem N) (cs : list cell) : Prop := mkHst {
  hst_eq : h = list_to_map cs;
  hst_nodup : NoDup cs.*1;
  hst_null : 0 ∉ cs.*1 }.

Lemma hst_perm h cs cs' : cs ≡ₚ cs' -> hst h cs -> hst h cs'.
Proof.
  intros Hp [-> Hn H0]. split.
  - by apply list_to_map_proper.
  - by rewrite <- Hp.
  - by rewrite <- Hp.
Qed.

#[export] Instance hst_proper h : Proper ((≡ₚ) ==> iff) (hst h).
Proof. intros cs cs' E. split; apply hst_perm; [done|by symmetry]. Qed.

Lemma hst_ptr h cs p n : hst h cs -> (p, n) ∈ cs -> p <> 0.
Proof. intros [_ _ H0] Hin ->. apply H0, list_elem_of_fmap. by exists (0, n). Qed.

Lemma hst_lookup h cs p n : hst h cs -> (p, n) ∈ cs -> h !! p = Some n.
Proof. intros [-> Hn _] Hin. by apply elem_of_list_to_map. Qed.

Lemma hst_head_fresh h p n cs : hst h ((p, n) :: cs) -> p ∉ cs.*1 /\ p <> 0.
Proof.
  intros [_ Hn H0]. cbn in *. apply NoDup_cons in Hn as [Hf _]. split; [done|].
  intros ->. apply H0. by left.
Qed.

Lemma hst_insert h p n n' cs : hst h ((p, n) :: cs) -> hst (<[p := n']> h) ((p, n') :: cs).
Proof. intros [-> Hn H0]. split; [|done..]. cbn. by rewrite insert_insert_eq. Qed.

Lemma hst_fresh h p n cs :
  hst h cs -> p <> 0 -> p ∉ cs.*1 -> hst (<[p := n]> h) ((p, n) :: cs).
Proof.
  intros [-> Hn H0] Hp Hf. split; [done| |].
  - by constructor.
  - cbn. rewrite not_elem_of_cons. auto.
Qed.

Lemma hst_delete h p n cs : hst h ((p, n) :: cs) -> hst (delete p h) cs.
Proof.
  intros Hs. destruct (hst_head_fresh _ _ _ _ Hs) as [Hf _]. destruct Hs as [-> Hn H0].
  split; [|by inversion Hn|by apply not_elem_of_cons in H0 as [_ ?]].
  cbn. apply delete_insert_id. by apply not_elem_of_list_to_map_1.
Qed.

Lemma hst_size h cs : hst h cs -> size h = length cs.
Proof.
  intros [-> Hn _]. by apply map_size_list_to_map.
Qed.

Lemma hst_NoDup_app h cs cs' : hst h (cs ++ cs') -> NoDup cs.*1.
Proof. intros [_ Hn _]. rewrite fmap_app in Hn. by apply NoDup_app in Hn as [? _]. Qed.

(** ** Running code symbolically *)

(** [m] started in [h] ends, in a state that satisfies [Q]. *)
Definition wp {A} (m : hp N A) (Q : A -> mem N -> Prop) (h : mem N) : Prop :=
  exists a h', m h = Some (a, h') /\ Q a h'.

Lemma wp_mono {A} (m : hp N A) (Q Q' : A -> mem N -> Prop) h :
  wp m Q h -> (forall a h', Q a h' -> Q' a h') -> wp m Q' h.
Proof. intros (a & h' & E & HQ) Himp. exists a, h'. auto. Qed.

Lemma wp_ret {A} (a : A) (Q : A -> mem N -> Prop) h : Q a h -> wp (mret a) Q h.
Proof. by exists a, h. Qed.

Lemma wp_bind {A B} (m : hp N A) (k : A -> hp N B) Q h :
  wp m (fun a h' => wp (k a) Q h') h -> wp (m ≫= k) Q h.
Proof.
  intros (a & h' & E & b & h'' & E' & HQ). exists b, h''. split; [|done].
  unfold mbind, hp_bind. by rewrite E.
Qed.

(** Two operations taken together. *)
Lemma wp_assoc {A B C} (m : hp N A) (k : A -> hp N B) (k' : B -> hp N C) Q h :
  wp ((m ≫= k) ≫= k') Q h -> wp (a ← m; k a ≫= k') Q h.
Proof.
  intros (c & h' & E & HQ). exists c, h'. split; [|done]. revert E.
  unfold mbind, hp_bind. by destruct (m h) as [[a h'']|].
Qed.

Lemma wp_deref h cs p n (Q : N -> mem N -> Prop) :
  hst h cs -> (p, n) ∈ cs -> Q n h -> wp (deref p) Q h.
Proof.
  intros Hs Hin HQ. exists n, h. split; [|done].
  unfold deref. rewrite (proj2 (Z.eqb_neq _ _)) by (by eapply hst_ptr).
  by rewrite (hst_lookup _ _ _ _ Hs Hin).
Qed.

Lemma wp_assign h cs p n cs' f (Q : unit -> mem N -> Prop) :
  hst h cs -> cs ≡ₚ (p, n) :: cs' ->
  (forall h', hst h' ((p, f n) :: cs') -> Q tt h') -> wp (assign p f) Q h.
Proof.
  intros Hs Hp HQ. rewrite Hp in Hs. exists tt, (<[p := f n]> h). split.
  - unfold assign. rewrite (proj2 (Z.eqb_neq _ _)) by (by eapply hst_head_fresh).
    by rewrite (hst_lookup _ _ p n Hs) by (by left).
  - by eapply HQ, hst_insert.
Qed.

Lemma wp_place h cs p n (Q : unit -> mem N -> Prop) :
  hst h cs -> p <> 0 -> p ∉ cs.*1 ->
  (forall h', hst h' ((p, n) :: cs) -> Q tt h') -> wp (place p n) Q h.
Proof. intros Hs Hp Hf HQ. exists tt, (<[p := n]> h). split; [done|]. by apply HQ, hst_fresh. Qed.

Lemma wp_discard h cs p n cs' (Q : unit -> mem N -> Prop) :
  hst h cs -> cs ≡ₚ (p, n) :: cs' ->
  (forall h', hst h' cs' -> Q tt h') -> wp (discard p) Q h.
Proof.
  intros Hs Hp HQ. rewrite Hp in Hs. exists tt, (delete p h). split.
  - unfold discard. rewrite (proj2 (Z.eqb_neq _ _)) by (by eapply hst_head_fresh).
    by rewrite (hst_lookup _ _ p n Hs) by (by left).
  - by eapply HQ, hst_delete.
Qed.

Lemma wp_nodes h cs (Q : nat -> mem N -> Prop) :
  hst h cs -> Q (length cs) h -> wp nodes Q h.
Proof. intros Hs HQ. exists (size h), h. split; [done|]. by rewrite (hst_size _ _ Hs). Qed.

End monad.

Arguments hst {N} h cs : rename.

(** ** Tactics for symbolic runs

    [take_cell p cs k] finds the cell at [p] in the description [cs] and calls [k] with
    its node and the rest of the description. *)
Ltac take_cell p cs k :=
  lazymatch cs with
  | (p, ?n) :: ?r => k n r
  | ?c :: ?r => take_cell p r ltac:(fun n r' => k n constr:(c :: r'))
  | ?a ++ ?r =>
      first [ take_cell p r ltac:(fun n r' => k n constr:(a ++ r'))
            | take_cell p a ltac:(fun n a' => k n constr:(a' ++ r)) ]
  end.

(** The same for a list of cells that is a part of the description. *)
Ltac take_part a cs k :=
  lazymatch cs with
  | a => k uconstr:([])
  | a ++ ?r => k r
  | ?c :: ?r => take_part a r ltac:(fun r' => k uconstr:(c :: r'))
  | ?b ++ ?r =>
      first [ take_part a r ltac:(fun r' => k uconstr:(b ++ r'))
            | take_part a b ltac:(fun b' => k uconstr:(b' ++ r)) ]
  end.

Ltac cell_in :=
  lazymatch goal with
  | |- (?p, _) ∈ (?p, _) :: _ => left
  | |- _ ∈ _ :: _ => right; cell_in
  | |- _ ∈ _ ++ _ => apply elem_of_app; first [right; cell_in | left; cell_in]
  end.

(** One step of a symbolic run, on the memory described in a hypothesis: reads and
    writes of cells in sight, [return]s and sequencing. After a write the new
    description replaces the old one. *)
Ltac wp_step :=
  lazymatch goal with
  | |- wp (_ ≫= _) _ _ => apply wp_bind
  | |- wp (mret _) _ _ => apply wp_ret
  | |- wp (deref ?p) _ ?h =>
      match goal with
      | Hs : hst h ?cs |- _ =>
          take_cell p cs ltac:(fun n r => apply (wp_deref h cs p n); [exact Hs|cell_in|])
      end
  | |- wp (assign ?p ?f) _ ?h =>
      match goal with
      | Hs : hst h ?cs |- _ =>
          take_cell p cs ltac:(fun n r =>
            apply (wp_assign h cs p n r f);
            [exact Hs|solve_Permutation|clear h Hs; intros h Hs; cbn in Hs])
      end
  | |- wp (discard ?p) _ ?h =>
      match goal with
      | Hs : hst h ?cs |- _ =>
          take_cell p cs ltac:(fun n r =>
            apply (wp_discard h cs p n r);
            [exact Hs|solve_Permutation|clear h Hs; intros h Hs])
      end
  end.

(** Show a description that is a permutation of the one at hand. *)
Ltac hst_permute :=
  match goal with
  | Hs : hst ?h ?cs |- hst ?h ?cs' => refine (hst_perm h cs cs' _ Hs); cbn; solve_Permutation
  end.

(** Equality of lists up to how their concatenations are bracketed. *)
Ltac app_eq := cbn; repeat (rewrite <- !app_assoc; cbn); done.
