(* ===== verification/IntervalSplay.v ===== *)
(** * IntervalSplay: the splay tree of address intervals (profiler/splay.cpp)

    The tree of half-open address intervals, as the code keeps it: nodes in memory,
    linked by [prev] and [next], splayed top-down with a local node that collects
    the two outer trees. The theorems relate it to the list of its intervals in
    order of address. *)
From stdpp Require Import base numbers list list_tactics sorting gmap.
From Stdlib Require Import ZArith Lia.
From S2P Require Import Prelude Heap.
Local Open Scope Z_scope.

(** ** The nodes (splay.h) *)

(** [struct splay_interval_s]: [prev] and [next] are the left and right children;
    the context is a pointer the tree never follows. *)
Record interval_tree_node : Type := mkNode {
  next : Z; prev : Z; start : Z; end_ : Z; node_ctxt : Z }.

Definition set_next (v : Z) (n : interval_tree_node) : interval_tree_node :=
  mkNode v (prev n) (start n) (end_ n) (node_ctxt n).
Definition set_prev (v : Z) (n : interval_tree_node) : interval_tree_node :=
  mkNode (next n) v (start n) (end_ n) (node_ctxt n).

Abbreviation code := (hp interval_tree_node).

(** The macros of splay.h: [RIGHT(p) = v] and [LEFT(p) = v]. *)
Definition put_RIGHT (p v : Z) : code unit := assign p (set_next v).
Definition put_LEFT (p v : Z) : code unit := assign p (set_prev v).
Definition RIGHT (p : Z) : code Z := n ← deref p; mret (next n).
Definition LEFT (p : Z) : code Z := n ← deref p; mret (prev n).
Definition START (p : Z) : code Z := n ← deref p; mret (start n).
Definition END (p : Z) : code Z := n ← deref p; mret (end_ n).

(** ** Splaying *)

(** The loop of [interval_tree_splay]; a [break] returns [root], [ltree_max] and
    [rtree_min]. *)
Fixpoint splay_loop (fuel : nat) (root ltree_max rtree_min addr : Z)
    : code (Z * Z * Z) :=
  match fuel with
  | O => diverge
  | S fuel =>
    s ← START root;
    if addr <? s then
      y ← LEFT root;
      if y =? 0 then mret (root, ltree_max, rtree_min) else
      sy ← START y;
      if addr <? sy then
        (* rotate right *)
        ry ← RIGHT y;
        _ ← put_LEFT root ry;
        _ ← put_RIGHT y root;
        let root := y in
        y ← LEFT root;
        if y =? 0 then mret (root, ltree_max, rtree_min) else
        (* link new root into right tree *)
        _ ← put_LEFT rtree_min root;
        splay_loop fuel y ltree_max root addr
      else
        _ ← put_LEFT rtree_min root;
        splay_loop fuel y ltree_max root addr
    else
      e ← END root;
      if e <=? addr then
        y ← RIGHT root;
        if y =? 0 then mret (root, ltree_max, rtree_min) else
        ey ← END y;
        if ey <=? addr then
          (* rotate left *)
          ly ← LEFT y;
          _ ← put_RIGHT root ly;
          _ ← put_LEFT y root;
          let root := y in
          y ← RIGHT root;
          if y =? 0 then mret (root, ltree_max, rtree_min) else
          (* link new root into left tree *)
          _ ← put_RIGHT ltree_max root;
          splay_loop fuel y root rtree_min addr
        else
          _ ← put_RIGHT ltree_max root;
          splay_loop fuel y root rtree_min addr
      else mret (root, ltree_max, rtree_min)
  end.

Section with_dummy.

(** The address of the local variable [dummy] and what its memory held before. *)
Variable dummy : Z.
Variable garbage : interval_tree_node.

Definition interval_tree_splay (root addr : Z) : code Z :=
  if root =? 0 then mret 0 else
  _ ← place dummy garbage;
  fuel ← nodes;
  '(root, ltree_max, rtree_min) ← splay_loop fuel root dummy dummy addr;
  (* assemble the new root *)
  l ← LEFT root;
  _ ← put_RIGHT ltree_max l;
  r ← RIGHT root;
  _ ← put_LEFT rtree_min r;
  dn ← RIGHT dummy;
  _ ← put_LEFT root dn;
  dp ← LEFT dummy;
  _ ← put_RIGHT root dp;
  _ ← discard dummy;
  mret root.

(** [interval_tree_lookup]: the new value of [*root], the result, and the new value
    of [*startaddress]. *)
Definition interval_tree_lookup (root addr startaddress : Z) : code (Z * Z * Z) :=
  root ← interval_tree_splay root addr;
  if root =? 0 then mret (root, 0, startaddress) else
  s ← START root;
  if s <=? addr then
    e ← END root;
    if addr <? e then mret (root, root, s) else mret (root, 0, startaddress)
  else mret (root, 0, startaddress).

(** [interval_tree_insert]: the new value of [*root] and the result. *)
Definition interval_tree_insert (root node : Z) : code (Z * Z) :=
  s ← START node;
  e ← END node;
  if e <=? s then mret (root, 1) else
  if root =? 0 then
    _ ← put_LEFT node 0;
    _ ← put_RIGHT node 0;
    mret (node, 0)
  else
  (* insert left of root *)
  root ← interval_tree_splay root s;
  rs ← START root;
  if e <=? rs then
    l ← LEFT root;
    _ ← put_LEFT node l;
    _ ← put_RIGHT node root;
    _ ← put_LEFT root 0;
    mret (node, 0)
  else
  (* insert right of root *)
  r ← RIGHT root;
  t ← interval_tree_splay r rs;
  re ← END root;
  free ← (if re <=? s then
            if t =? 0 then mret true else (ts ← START t; mret (e <=? ts))
          else mret false);
  if free : bool then
    _ ← put_LEFT node root;
    _ ← put_RIGHT node t;
    _ ← put_RIGHT root 0;
    mret (node, 0)
  else
  (* must overlap with something in the tree *)
  _ ← put_RIGHT root t;
  mret (root, 1).

(** [interval_tree_delete]: the new values of [*root] and [*del_tree]. *)
Definition interval_tree_delete (root node : Z) : code (Z * Z) :=
  if root =? 0 then mret (root, 0) else
  ns ← START node;
  t ← interval_tree_splay root ns;
  te ← END t;
  '(ltree, t) ← (if te <=? ns then
                   r ← RIGHT t;
                   _ ← put_RIGHT t 0;
                   mret (t, r)
                 else
                   l ← LEFT t;
                   _ ← put_LEFT t 0;
                   mret (l, t));
  ne ← END node;
  t ← interval_tree_splay t ne;
  '(del_tree, rtree) ←
    (if t =? 0 then mret (0, 0) else
     ts ← START t;
     if ne <=? ts then
       l ← LEFT t;
       _ ← put_LEFT t 0;
       mret (l, t)
     else
       r ← RIGHT t;
       _ ← put_RIGHT t 0;
       mret (t, r));
  (* combine the left and right pieces to make the new tree *)
  if ltree =? 0 then mret (rtree, del_tree)
  else if rtree =? 0 then mret (ltree, del_tree)
  else
    root ← interval_tree_splay ltree ne;
    _ ← put_RIGHT root rtree;
    mret (root, del_tree).

End with_dummy.

(** [node_make], given the address [malloc] returns. *)
Definition node_make (p s e ctxt : Z) : code Z :=
  if p =? 0 then fault else
  _ ← place p (mkNode 0 0 s e ctxt);
  mret p.

(** ** Trees, their cells and their elements *)

(** What a node holds besides its links. *)
Record ival : Type := mkIval { lo : Z; hi : Z; ctxt : Z }.

(** A tree with the addresses of its nodes. *)
Inductive itree : Type :=
  | Leaf
  | Node (l : itree) (p : Z) (v : ival) (r : itree).

Abbreviation icell nx pv v := (mkNode nx pv (lo v) (hi v) (ctxt v)).

Definition root_of (t : itree) : Z := match t with Leaf => 0 | Node _ p _ _ => p end.

Fixpoint tsize (t : itree) : nat :=
  match t with Leaf => 0 | Node l _ _ r => S (tsize l + tsize r) end.

(** The cells of a tree, and its elements in order. *)
Fixpoint cells (t : itree) : list (Z * interval_tree_node) :=
  match t with
  | Leaf => []
  | Node l p v r => (p, icell (root_of r) (root_of l) v) :: cells l ++ cells r
  end.

Abbreviation entry := (Z * ival)%type.
Fixpoint elems (t : itree) : list entry :=
  match t with
  | Leaf => []
  | Node l p v r => elems l ++ (p, v) :: elems r
  end.

(** The two outer trees of a splay: the spine of each from the node whose hole is
    filled next, which is [ltree_max] or [rtree_min], out to its root. *)
Definition lctx := list (itree * Z * ival).
Definition rctx := list (Z * ival * itree).

Fixpoint lcells (hole : Z) (c : lctx) : list (Z * interval_tree_node) :=
  match c with
  | [] => []
  | (l, p, v) :: c => (p, icell hole (root_of l) v) :: cells l ++ lcells p c
  end.
Fixpoint rcells (hole : Z) (c : rctx) : list (Z * interval_tree_node) :=
  match c with
  | [] => []
  | (p, v, r) :: c => (p, icell (root_of r) hole v) :: cells r ++ rcells p c
  end.

(** What the dummy's link holds: the root of the outer tree, or the hole. *)
Fixpoint lfirst (hole : Z) (c : lctx) : Z :=
  match c with [] => hole | (_, p, _) :: c => lfirst p c end.
Fixpoint rfirst (hole : Z) (c : rctx) : Z :=
  match c with [] => hole | (p, _, _) :: c => rfirst p c end.

Definition llast (dummy : Z) (c : lctx) : Z := match c with [] => dummy | (_, p, _) :: _ => p end.
Definition rlast (dummy : Z) (c : rctx) : Z := match c with [] => dummy | (p, _, _) :: _ => p end.

Fixpoint lelems (c : lctx) : list entry :=
  match c with [] => [] | (l, p, v) :: c => lelems c ++ elems l ++ [(p, v)] end.
Fixpoint relems (c : rctx) : list entry :=
  match c with [] => [] | (p, v, r) :: c => (p, v) :: elems r ++ relems c end.

(** Filling the hole with a tree. *)
Fixpoint lplug (c : lctx) (t : itree) : itree :=
  match c with [] => t | (l, p, v) :: c => lplug c (Node l p v t) end.
Fixpoint rplug (c : rctx) (t : itree) : itree :=
  match c with [] => t | (p, v, r) :: c => rplug c (Node t p v r) end.

Lemma elems_lplug c t : elems (lplug c t) = lelems c ++ elems t.
Proof.
  revert t; induction c as [|[[l p] v] c IH]; intros t; [done|]. cbn.
  rewrite IH. cbn. by rewrite <- !app_assoc.
Qed.

Lemma elems_rplug c t : elems (rplug c t) = elems t ++ relems c.
Proof.
  revert t; induction c as [|[[p v] r] c IH]; intros t; [by rewrite app_nil_r|]. cbn.
  rewrite IH. cbn. by rewrite <- !app_assoc.
Qed.

Lemma cells_lplug c t : cells (lplug c t) ≡ₚ cells t ++ lcells (root_of t) c.
Proof.
  revert t; induction c as [|[[l p] v] c IH]; intros t; [by rewrite app_nil_r|]. cbn.
  rewrite IH. cbn. solve_Permutation.
Qed.

Lemma cells_rplug c t : cells (rplug c t) ≡ₚ cells t ++ rcells (root_of t) c.
Proof.
  revert t; induction c as [|[[p v] r] c IH]; intros t; [by rewrite app_nil_r|]. cbn.
  rewrite IH. cbn. solve_Permutation.
Qed.

Lemma root_lplug c t : root_of (lplug c t) = lfirst (root_of t) c.
Proof. revert t; induction c as [|[[l p] v] c IH]; intros t; [done|]. cbn. by rewrite IH. Qed.

Lemma root_rplug c t : root_of (rplug c t) = rfirst (root_of t) c.
Proof. revert t; induction c as [|[[p v] r] c IH]; intros t; [done|]. cbn. by rewrite IH. Qed.

Lemma length_icells t : length (cells t) = tsize t.
Proof. induction t as [|l IHl p v r IHr]; [done|]. cbn. rewrite length_app. lia. Qed.

(** The root of a tree in memory is null exactly when the tree is empty. *)
Lemma root_null h t F : hst h (cells t ++ F) -> root_of t = 0 -> t = Leaf.
Proof.
  destruct t as [|l p v r]; [done|]. cbn. intros Hs ->.
  by apply hst_head_fresh in Hs as [_ ?].
Qed.

Lemma wp_field {A} (f : interval_tree_node -> A) p h (Q : A -> _ -> Prop) :
  wp (deref p) (fun n => Q (f n)) h -> wp (n ← deref p; mret (f n)) Q h.
Proof. intros H. apply wp_bind. eapply wp_mono; [exact H|]. intros. by apply wp_ret. Qed.

(** Reading a field of a node whose cell is in sight. *)
Ltac wp_get :=
  apply wp_bind, wp_field; wp_step; cbn beta iota delta [next prev start end_ node_ctxt].

(** ** The loop *)
Section splay_proofs.
Variable dummy : Z.
Variable dv : ival.

(** The memory while the loop runs: the dummy, the tree below [root], the outer
    trees with what their holes hold, and everything else. *)
Definition loop_cells (t : itree) (lc : lctx) (rc : rctx) (lh rh : Z)
    (F : list (Z * interval_tree_node)) : list (Z * interval_tree_node) :=
  (dummy, icell (lfirst lh lc) (rfirst rh rc) dv) ::
  cells t ++ lcells lh lc ++ rcells rh rc ++ F.

Lemma wp_fill_right t X lc rc lh rh x h (Q : unit -> _ -> Prop) :
  hst h ((dummy, icell (lfirst lh lc) (rfirst rh rc) dv) :: t ++ lcells lh lc ++ rcells rh rc ++ X) ->
  (forall h', hst h' ((dummy, icell (lfirst lh lc) (rfirst x rc) dv) ::
     t ++ lcells lh lc ++ rcells x rc ++ X) -> Q tt h') ->
  wp (put_LEFT (rlast dummy rc) x) Q h.
Proof.
  intros Hs HQ. unfold put_LEFT.
  destruct rc as [|[[p v] r] rc]; cbn in *; wp_step; apply HQ; hst_permute.
Qed.

Lemma wp_fill_left t X lc rc lh rh x h (Q : unit -> _ -> Prop) :
  hst h ((dummy, icell (lfirst lh lc) (rfirst rh rc) dv) :: t ++ lcells lh lc ++ rcells rh rc ++ X) ->
  (forall h', hst h' ((dummy, icell (lfirst x lc) (rfirst rh rc) dv) ::
     t ++ lcells x lc ++ rcells rh rc ++ X) -> Q tt h') ->
  wp (put_RIGHT (llast dummy lc) x) Q h.
Proof.
  intros Hs HQ. unfold put_RIGHT.
  destruct lc as [|[[l p] v] lc]; cbn in *; wp_step; apply HQ; hst_permute.
Qed.

(** The loop's invariant: the memory is as described, the elements are [E] in order,
    and the spines lie on the two sides of [x]. *)
Record at_loop (x : Z) (E : list entry) (F : list (Z * interval_tree_node))
    (t : itree) (lc : lctx) (rc : rctx) (h : mem interval_tree_node) : Prop := mkAtLoop {
  al_cells : exists lh rh, hst h (loop_cells t lc rc lh rh F);
  al_elems : lelems lc ++ elems t ++ relems rc = E;
  al_left : Forall (fun '(_, _, v) => hi v <= x) lc;
  al_right : Forall (fun '(_, v, _) => x < lo v) rc }.

(** Where a [break] leaves the loop. *)
Definition stops (x : Z) (t : itree) : Prop :=
  match t with
  | Leaf => False
  | Node l _ v r =>
      (x < lo v /\ l = Leaf) \/ (hi v <= x /\ r = Leaf) \/ lo v <= x < hi v
  end.

Lemma at_loop_ptr x E F l p v r lc rc h :
  at_loop x E F (Node l p v r) lc rc h -> (p =? 0) = false.
Proof. intros [(lh & rh & Hs) _ _ _]. apply Z.eqb_neq. eapply hst_ptr; [exact Hs|]. right; left. Qed.

Lemma link_right x E F l p v r lc rc h (Q : unit -> _ -> Prop) :
  at_loop x E F (Node l p v r) lc rc h -> x < lo v ->
  (forall h', at_loop x E F l lc ((p, v, r) :: rc) h' -> Q tt h') ->
  wp (put_LEFT (rlast dummy rc) p) Q h.
Proof.
  intros [(lh & rh & Hs) He Hl Hr] Hx HQ. unfold loop_cells in Hs.
  apply (wp_fill_right _ _ _ _ _ _ _ _ _ Hs). clear h Hs. intros h Hs. apply HQ. split.
  - exists lh, (root_of l). unfold loop_cells. cbn in *. hst_permute.
  - rewrite <- He. cbn. by rewrite <- !app_assoc.
  - done.
  - by constructor.
Qed.

Lemma link_left x E F l p v r lc rc h (Q : unit -> _ -> Prop) :
  at_loop x E F (Node l p v r) lc rc h -> hi v <= x ->
  (forall h', at_loop x E F r ((l, p, v) :: lc) rc h' -> Q tt h') ->
  wp (put_RIGHT (llast dummy lc) p) Q h.
Proof.
  intros [(lh & rh & Hs) He Hl Hr] Hx HQ. unfold loop_cells in Hs.
  apply (wp_fill_left _ _ _ _ _ _ _ _ _ Hs). clear h Hs. intros h Hs. apply HQ. split.
  - exists (root_of r), rh. unfold loop_cells. cbn in *. hst_permute.
  - rewrite <- He. cbn. by rewrite <- !app_assoc.
  - by constructor.
  - done.
Qed.

Lemma rotate_right_ok x E F a q w b p v r lc rc h (Q : unit -> _ -> Prop) :
  at_loop x E F (Node (Node a q w b) p v r) lc rc h ->
  (forall h', at_loop x E F (Node a q w (Node b p v r)) lc rc h' -> Q tt h') ->
  wp (_ ← put_LEFT p (root_of b); put_RIGHT q p) Q h.
Proof.
  intros [(lh & rh & Hs) He Hl Hr] HQ. unfold loop_cells in Hs. cbn in Hs.
  unfold put_LEFT, put_RIGHT. do 3 wp_step. apply HQ. split; [|rewrite <- He; app_eq|done..].
  exists lh, rh. unfold loop_cells. hst_permute.
Qed.

Lemma rotate_left_ok x E F a q w b p v l lc rc h (Q : unit -> _ -> Prop) :
  at_loop x E F (Node l p v (Node a q w b)) lc rc h ->
  (forall h', at_loop x E F (Node (Node l p v a) q w b) lc rc h' -> Q tt h') ->
  wp (_ ← put_RIGHT p (root_of a); put_LEFT q p) Q h.
Proof.
  intros [(lh & rh & Hs) He Hl Hr] HQ. unfold loop_cells in Hs. cbn in Hs.
  unfold put_LEFT, put_RIGHT. do 3 wp_step. apply HQ. split; [|rewrite <- He; app_eq|done..].
  exists lh, rh. unfold loop_cells. hst_permute.
Qed.

Lemma at_loop_left x E F a q w b p v r lc rc h :
  at_loop x E F (Node (Node a q w b) p v r) lc rc h -> (q =? 0) = false.
Proof.
  intros [(lh & rh & Hs) _ _ _]. apply Z.eqb_neq. eapply hst_ptr; [exact Hs|]. right; right; left.
Qed.

Lemma at_loop_right x E F l p v a q w b lc rc h :
  at_loop x E F (Node l p v (Node a q w b)) lc rc h -> (q =? 0) = false.
Proof.
  intros [(lh & rh & Hs) _ _ _]. apply Z.eqb_neq. eapply hst_ptr; [exact Hs|].
  right; right. apply elem_of_app; left. apply elem_of_app; right. left.
Qed.

(** Reading a field of the loop's tree. *)
Lemma at_loop_cell x E F t lc rc h p n (Q : interval_tree_node -> _ -> Prop) :
  at_loop x E F t lc rc h -> (p, n) ∈ cells t -> Q n h -> wp (deref p) Q h.
Proof.
  intros [(lh & rh & Hs) _ _ _] Hin HQ. eapply wp_deref; [exact Hs| |exact HQ].
  unfold loop_cells. set_solver.
Qed.


(** A step of the loop: reading a field of a node in the tree below [root]. *)
Ltac loop_read :=
  apply wp_bind, wp_field;
  match goal with
  | Ha : at_loop _ _ _ ?t _ _ ?h |- wp (deref ?p) _ ?h =>
      let cs := eval cbn in (cells t) in
      take_cell p cs ltac:(fun n r => apply (at_loop_cell _ _ _ _ _ _ _ p n _ Ha); [cbn; cell_in|])
  end; cbn beta iota delta [next prev start end_ root_of].

(** The result of the loop. *)
Definition loop_post (x : Z) (E : list entry) (F : list (Z * interval_tree_node))
    (res : Z * Z * Z) (h : mem interval_tree_node) : Prop :=
  exists t lc rc, res = (root_of t, llast dummy lc, rlast dummy rc) /\
    at_loop x E F t lc rc h /\ stops x t.

Lemma loop_stop x E F t lc rc h :
  at_loop x E F t lc rc h -> stops x t ->
  wp (mret (root_of t, llast dummy lc, rlast dummy rc)) (loop_post x E F) h.
Proof. intros Ha Hs. apply wp_ret. by exists t, lc, rc. Qed.

Ltac loop_stop_tac :=
  cbn beta iota delta [root_of Z.eqb];
  match goal with
  | Ha : at_loop _ _ _ ?t ?lc ?rc ?h |- wp (mret _) _ ?h =>
      apply (loop_stop _ _ _ t lc rc); [exact Ha|cbn; auto with lia]
  end.

(** One of the two directions: the code after the test of [root] against [x]. *)
Lemma splay_right_branch fuel x E F l p v r lc rc h
    (IH : forall t lc rc h, t <> Leaf -> (tsize t < fuel)%nat -> at_loop x E F t lc rc h ->
       wp (splay_loop fuel (root_of t) (llast dummy lc) (rlast dummy rc) x) (loop_post x E F) h) :
  (tsize l < fuel)%nat -> at_loop x E F (Node l p v r) lc rc h -> x < lo v ->
  wp (y ← LEFT p;
      if y =? 0 then mret (p, llast dummy lc, rlast dummy rc) else
      sy ← START y;
      if x <? sy then
        ry ← RIGHT y; _ ← put_LEFT p ry; _ ← put_RIGHT y p;
        let root := y in
        y ← LEFT root;
        if y =? 0 then mret (root, llast dummy lc, rlast dummy rc) else
        _ ← put_LEFT (rlast dummy rc) root;
        splay_loop fuel y (llast dummy lc) root x
      else
        _ ← put_LEFT (rlast dummy rc) p;
        splay_loop fuel y (llast dummy lc) p x) (loop_post x E F) h.
Proof.
  intros Hf Ha Hx. loop_read. destruct l as [|a q w b]; [loop_stop_tac|]. cbn beta iota delta [root_of]. cbn in Hf.
  rewrite (at_loop_left _ _ _ _ _ _ _ _ _ _ _ _ _ Ha). loop_read.
  destruct (Z.ltb_spec x (lo w)) as [Hw|Hw].
  - loop_read. apply wp_assoc, wp_bind. eapply rotate_right_ok; [exact Ha|]. clear h Ha. intros h Ha.
    loop_read. destruct a as [|aa u z ab]; [loop_stop_tac|]. cbn beta iota delta [root_of]. cbn in Hf.
    rewrite (at_loop_left _ _ _ _ _ _ _ _ _ _ _ _ _ Ha).
    apply wp_bind. eapply link_right; [exact Ha|done|]. clear h Ha. intros h Ha.
    apply (IH (Node aa u z ab) lc ((q, w, Node b p v r) :: rc) h); [done|cbn; lia|exact Ha].
  - apply wp_bind. eapply link_right; [exact Ha|done|]. clear h Ha. intros h Ha.
    apply (IH (Node a q w b) lc ((p, v, r) :: rc) h); [done|cbn; lia|exact Ha].
Qed.

Lemma splay_left_branch fuel x E F l p v r lc rc h
    (IH : forall t lc rc h, t <> Leaf -> (tsize t < fuel)%nat -> at_loop x E F t lc rc h ->
       wp (splay_loop fuel (root_of t) (llast dummy lc) (rlast dummy rc) x) (loop_post x E F) h) :
  (tsize r < fuel)%nat -> at_loop x E F (Node l p v r) lc rc h -> hi v <= x ->
  wp (y ← RIGHT p;
      if y =? 0 then mret (p, llast dummy lc, rlast dummy rc) else
      ey ← END y;
      if ey <=? x then
        ly ← LEFT y; _ ← put_RIGHT p ly; _ ← put_LEFT y p;
        let root := y in
        y ← RIGHT root;
        if y =? 0 then mret (root, llast dummy lc, rlast dummy rc) else
        _ ← put_RIGHT (llast dummy lc) root;
        splay_loop fuel y root (rlast dummy rc) x
      else
        _ ← put_RIGHT (llast dummy lc) p;
        splay_loop fuel y p (rlast dummy rc) x) (loop_post x E F) h.
Proof.
  intros Hf Ha Hx. loop_read. destruct r as [|a q w b]; [loop_stop_tac|].
  cbn beta iota delta [root_of]. cbn in Hf.
  rewrite (at_loop_right _ _ _ _ _ _ _ _ _ _ _ _ _ Ha). loop_read.
  destruct (Z.leb_spec (hi w) x) as [Hw|Hw].
  - loop_read. apply wp_assoc, wp_bind. eapply rotate_left_ok; [exact Ha|]. clear h Ha. intros h Ha.
    loop_read. destruct b as [|ba u z bb]; [loop_stop_tac|].
    cbn beta iota delta [root_of]. cbn in Hf.
    rewrite (at_loop_right _ _ _ _ _ _ _ _ _ _ _ _ _ Ha).
    apply wp_bind. eapply link_left; [exact Ha|done|]. clear h Ha. intros h Ha.
    apply (IH (Node ba u z bb) ((Node l p v a, q, w) :: lc) rc h); [done|cbn; lia|exact Ha].
  - apply wp_bind. eapply link_left; [exact Ha|done|]. clear h Ha. intros h Ha.
    apply (IH (Node a q w b) ((l, p, v) :: lc) rc h); [done|cbn; lia|exact Ha].
Qed.

Lemma interval_splay_loop_ok fuel x E F : forall t lc rc h,
  t <> Leaf -> (tsize t < fuel)%nat -> at_loop x E F t lc rc h ->
  wp (splay_loop fuel (root_of t) (llast dummy lc) (rlast dummy rc) x) (loop_post x E F) h.
Proof.
  induction fuel as [|fuel IH]; [lia|]. intros t lc rc h Ht Hf Ha.
  destruct t as [|l p v r]; [done|]. cbn [splay_loop root_of]. cbn in Hf.
  loop_read. destruct (Z.ltb_spec x (lo v)).
  { apply (splay_right_branch _ _ E F l p v r); [exact IH|lia|done..]. }
  loop_read. destruct (Z.leb_spec (hi v) x).
  { apply (splay_left_branch _ _ E F l p v r); [exact IH|lia|done..]. }
  apply (loop_stop x E F (Node l p v r)); [done|]. right; right. lia.
Qed.

(** Assembling the new root. *)
Lemma assemble_ok x E F l p v r lc rc h (Q : Z -> _ -> Prop) :
  at_loop x E F (Node l p v r) lc rc h ->
  (forall h', hst h' (cells (Node (lplug lc l) p v (rplug rc r)) ++ F) -> Q p h') ->
  wp (l ← LEFT p; _ ← put_RIGHT (llast dummy lc) l; r ← RIGHT p; _ ← put_LEFT (rlast dummy rc) r;
      dn ← RIGHT dummy; _ ← put_LEFT p dn; dp ← LEFT dummy; _ ← put_RIGHT p dp; _ ← discard dummy; mret p) Q h.
Proof.
  intros Ha HQ. loop_read. destruct Ha as [(lh & rh & Hs) _ _ _]. unfold loop_cells in Hs.
  apply wp_bind. apply (wp_fill_left _ _ _ _ _ _ _ _ _ Hs). clear h Hs. intros h Hs.
  cbn in Hs. wp_get. apply wp_bind.
  apply (wp_fill_right ((p, icell (root_of r) (root_of l) v) :: cells l ++ cells r) F lc rc
           (root_of l) rh); [exact Hs|].
  clear h Hs. intros h Hs. cbn in Hs. wp_get. unfold put_LEFT, put_RIGHT. do 2 wp_step. wp_get.
  do 5 wp_step. apply HQ. cbn.
  rewrite cells_lplug, cells_rplug, root_lplug, root_rplug. hst_permute.
Qed.
End splay_proofs.

(** ** Splaying as a whole *)

(** Intervals in order and apart. *)
Definition before (e f : entry) : Prop := hi (e.2) <= lo (f.2).
Definition apart (es : list entry) : Prop :=
  StronglySorted before es /\ Forall (fun e => lo (e.2) < hi (e.2)) es.

(** A tree splayed at [x]: the root separates what ends at or before [x] from what
    starts after it. *)
Definition splayed (x : Z) (t : itree) : Prop :=
  match t with
  | Leaf => True
  | Node l _ _ r => Forall (fun e => hi (e.2) <= x) (elems l) /\ Forall (fun e => x < lo (e.2)) (elems r)
  end.

Lemma apart_app es es' :
  apart (es ++ es') <-> apart es /\ apart es' /\ Forall (fun e => Forall (before e) es') es.
Proof.
  unfold apart. rewrite Forall_app. split.
  - intros [Hs [Hf Hf']]. apply StronglySorted_app in Hs as (Hs & Hs' & Hb). split_and!; auto.
    apply Forall_forall. intros e He. apply Forall_forall. auto.
  - intros ([Hs Hf] & [Hs' Hf'] & Hb). split; [|auto].
    apply StronglySorted_app. split_and!; auto. intros e f He Hf0.
    rewrite Forall_forall in Hb. specialize (Hb e He). rewrite Forall_forall in Hb. auto.
Qed.

Lemma apart_before es e es' x :
  apart (es ++ e :: es') -> hi (e.2) <= x -> Forall (fun e => hi (e.2) <= x) (es ++ [e]).
Proof.
  rewrite apart_app. intros (_ & [_ Hf] & Hb) Hx. apply Forall_app. split; [|by constructor].
  inversion Hf; subst. eapply Forall_impl; [exact Hb|]. cbn. intros f Hfb.
  inversion Hfb; subst. unfold before in *. lia.
Qed.

Lemma apart_after e es es' x :
  apart (es ++ e :: es') -> x < lo (e.2) -> Forall (fun e => x < lo (e.2)) (e :: es').
Proof.
  rewrite apart_app. intros (_ & [Hs Hf] & _) Hx. constructor; [done|].
  inversion Hs; subst. inversion Hf; subst. eapply (Forall_impl (before e)); [done|].
  unfold before. cbn. intros. lia.
Qed.

(** What precedes an interval ends where it starts at the latest, and conversely. *)
Lemma apart_around e es es' :
  apart (es ++ e :: es') ->
  Forall (fun f => hi (f.2) <= lo (e.2)) es /\ Forall (fun f => hi (e.2) <= lo (f.2)) es' /\
  lo (e.2) < hi (e.2).
Proof.
  rewrite apart_app. intros (_ & [Hs Hf] & Hb). inversion Hs; inversion Hf; subst.
  split_and!; [|done..]. eapply Forall_impl; [exact Hb|]. cbn. intros f Hff. by inversion Hff.
Qed.

Lemma lelems_bound lc x es :
  apart (lelems lc ++ es) -> Forall (fun '(_, _, v) => hi v <= x) lc ->
  Forall (fun e => hi (e.2) <= x) (lelems lc).
Proof.
  destruct lc as [|[[l p] v] lc]; [done|]. cbn. intros Ha Hx. inversion Hx; subst.
  rewrite app_assoc. apply (apart_before (lelems lc ++ elems l) (p, v) es); [|done].
  revert Ha. by rewrite <- !app_assoc.
Qed.

Lemma relems_bound rc x es :
  apart (es ++ relems rc) -> Forall (fun '(_, v, _) => x < lo v) rc ->
  Forall (fun e => x < lo (e.2)) (relems rc).
Proof.
  destruct rc as [|[[p v] r] rc]; [done|]. cbn. intros Ha Hx. inversion Hx; subst.
  apply (apart_after (p, v) es); [exact Ha|done].
Qed.

Lemma stops_splayed x l p v r lc rc :
  apart (lelems lc ++ elems (Node l p v r) ++ relems rc) ->
  Forall (fun '(_, _, v) => hi v <= x) lc -> Forall (fun '(_, v, _) => x < lo v) rc ->
  stops x (Node l p v r) -> splayed x (Node (lplug lc l) p v (rplug rc r)).
Proof.
  intros Ha Hl Hr Hs. cbn. rewrite elems_lplug, elems_rplug. rewrite !Forall_app.
  pose proof (lelems_bound _ _ _ Ha Hl) as HL.
  rewrite app_assoc in Ha. pose proof (relems_bound _ _ _ Ha Hr) as HR. cbn in Ha.
  replace ((lelems lc ++ elems l ++ (p, v) :: elems r) ++ relems rc)
    with ((lelems lc ++ elems l) ++ (p, v) :: (elems r ++ relems rc)) in Ha by app_eq.
  apply apart_around in Ha as (Hl' & Hr' & Hv). cbn in *. rewrite Forall_app in Hl', Hr'.
  destruct Hl' as [_ Hl'], Hr' as [Hr' _].
  destruct Hs as [[? ->]|[[? ->]|?]]; split_and!; try (done || by constructor);
    (eapply Forall_impl; [eassumption|]); cbn; intros; lia.
Qed.

Section operations.
Variable dummy : Z.
Variable garbage : interval_tree_node.

(** The tree at [root] has the elements [es] in order, and the rest of the memory is
    [F]. *)
Definition tree_at (root : Z) (es : list entry) (F : list (Z * interval_tree_node))
    (h : mem interval_tree_node) : Prop :=
  exists t, root = root_of t /\ elems t = es /\ hst h (cells t ++ F).

(** The local variable is none of the nodes. *)
Definition room (es : list entry) (F : list (Z * interval_tree_node)) : Prop :=
  dummy <> 0 /\ dummy ∉ es.*1 /\ dummy ∉ F.*1.

Lemma icells_keys t : (cells t).*1 ≡ₚ (elems t).*1.
Proof.
  induction t as [|l IHl p v r IHr]; [done|]. cbn. rewrite !fmap_app. cbn.
  rewrite IHl, IHr. solve_Permutation.
Qed.

(** Splaying ends, in a tree of the same elements and the same memory around it. *)
Lemma interval_splay_ok t x F h (Q : Z -> _ -> Prop) :
  hst h (cells t ++ F) -> room (elems t) F ->
  (forall t' h', hst h' (cells t' ++ F) -> elems t' = elems t ->
     (apart (elems t) -> splayed x t') -> Q (root_of t') h') ->
  wp (interval_tree_splay dummy garbage (root_of t) x) Q h.
Proof.
  intros Hs (Hd & Hf & HF) HQ. rewrite <- icells_keys in Hf.
  assert (dummy ∉ (cells t ++ F).*1) as Hfr by (rewrite fmap_app, not_elem_of_app; done).
  clear Hf HF. unfold interval_tree_splay. destruct t as [|l p v r].
  { apply wp_ret. by apply (HQ Leaf). }
  cbn [root_of]. rewrite (proj2 (Z.eqb_neq p 0)) by exact (proj2 (hst_head_fresh _ _ _ _ Hs)).
  apply wp_bind. eapply wp_place; [exact Hs|done..|]. clear h Hs. intros h Hs.
  apply wp_bind. eapply wp_nodes; [exact Hs|]. destruct garbage as [nx pv s e c].
  set (E := elems (Node l p v r)) in *. set (t := Node l p v r) in *.
  apply wp_bind. eapply wp_mono.
  { apply (interval_splay_loop_ok dummy (mkIval s e c) _ x E F t [] []); [done| |].
    - cbn [length]. rewrite length_app, length_icells. lia.
    - split; [by exists nx, pv|apply app_nil_r|done..]. }
  cbn beta. intros [[root lt] rt] h' (t' & lc & rc & [= -> -> ->] & Ha & Hst).
  destruct t' as [|l' p' v' r']; [done|].
  pose proof (al_elems _ _ _ _ _ _ _ _ _ Ha) as He.
  pose proof (al_left _ _ _ _ _ _ _ _ _ Ha) as Hl.
  pose proof (al_right _ _ _ _ _ _ _ _ _ Ha) as Hr.
  eapply assemble_ok; [exact Ha|]. intros h'' Hs''. apply (HQ (Node (lplug lc l') p' v' (rplug rc r'))); [exact Hs''| |].
  - rewrite <- He. cbn [elems]. rewrite elems_lplug, elems_rplug. app_eq.
  - intros Hap. rewrite <- He in Hap. by apply stops_splayed.
Qed.

(** Splaying what a description of the memory shows at some place. *)
Lemma wp_splay t x F cs h (Q : Z -> _ -> Prop) :
  hst h cs -> cs ≡ₚ cells t ++ F -> room (elems t) F ->
  (forall t' h', hst h' (cells t' ++ F) -> elems t' = elems t ->
     (apart (elems t) -> splayed x t') -> Q (root_of t') h') ->
  wp (interval_tree_splay dummy garbage (root_of t) x) Q h.
Proof. intros Hs Hp. rewrite Hp in Hs. by apply interval_splay_ok. Qed.

Definition covers (x : Z) (e : entry) : Prop := lo (e.2) <= x < hi (e.2).

(** Looking an address up ends, keeps the elements, and finds the one interval
    around the address, with its start, when there is one. *)
Theorem interval_tree_lookup_correct root es F h x sa :
  tree_at root es F h -> apart es -> room es F ->
  exists root' res sa' h',
    interval_tree_lookup dummy garbage root x sa h = Some ((root', res, sa'), h') /\
    tree_at root' es F h' /\
    ((exists p v, (p, v) ∈ es /\ covers x (p, v) /\ res = p /\ p <> 0 /\ sa' = lo v) \/
     (Forall (fun e => ~ covers x e) es /\ res = 0 /\ sa' = sa)).
Proof.
  intros (t & -> & <- & Hs) Hap Hr.
  enough (wp (interval_tree_lookup dummy garbage (root_of t) x sa) (fun '(root', res, sa') h' =>
    tree_at root' (elems t) F h' /\
    ((exists p v, (p, v) ∈ elems t /\ covers x (p, v) /\ res = p /\ p <> 0 /\ sa' = lo v) \/
     (Forall (fun e => ~ covers x e) (elems t) /\ res = 0 /\ sa' = sa))) h) as
    ([[root' res] sa'] & h' & E & H) by (by exists root', res, sa', h').
  unfold interval_tree_lookup. apply wp_bind. apply (interval_splay_ok t x F); [done..|].
  clear h Hs. intros t' h Hs He Hsp. specialize (Hsp Hap). rewrite <- He in *. clear t He.
  destruct t' as [|l p v r].
  { apply wp_ret. split; [by exists Leaf|right]. split; [constructor|done]. }
  cbn [root_of]. rewrite (proj2 (Z.eqb_neq p 0)) by exact (proj2 (hst_head_fresh _ _ _ _ Hs)).
  assert (Hout : ~ covers x (p, v) -> Forall (fun e => ~ covers x e) (elems (Node l p v r))).
  { intros Hn. cbn in Hsp |- *. destruct Hsp as [Hl Hr']. apply Forall_app. split; [|constructor; [done|]];
      (eapply Forall_impl; [eassumption|]); unfold covers; cbn; intros; lia. }
  assert (Hat : tree_at p (elems (Node l p v r)) F h) by (by exists (Node l p v r)).
  assert (Hp : p <> 0) by exact (proj2 (hst_head_fresh _ _ _ _ Hs)).
  unfold covers in *. cbn in Hs, Hout. wp_get. destruct (Z.leb_spec (lo v) x).
  - wp_get. destruct (Z.ltb_spec x (hi v)); wp_step; (split; [done|]).
    + left. exists p, v. split_and!; try done. cbn. apply elem_of_app; right; left.
    + right. split; [|done]. apply Hout. lia.
  - wp_step. split; [done|]. right. split; [|done]. apply Hout. lia.
Qed.

(** Two intervals that share an address. *)
Definition overlaps (v w : ival) : Prop := lo v < hi w /\ lo w < hi v.

(** Where an interval that overlaps nothing goes. *)
Definition inserted (p : Z) (v : ival) (es es' : list entry) : Prop :=
  exists a b, es = a ++ b /\ es' = a ++ (p, v) :: b /\
    Forall (fun e => hi (e.2) <= lo v) a /\ Forall (fun e => hi v <= lo (e.2)) b.

Lemma inserted_apart p v es es' :
  apart es -> lo v < hi v -> inserted p v es es' -> apart es'.
Proof.
  intros Hap Hv (a & b & -> & -> & Ha & Hb).
  apply apart_app in Hap as (Ha' & [Hs Hf] & Hab). apply apart_app. split_and!; [done| |].
  - split; constructor; done.
  - apply Forall_forall. intros e He. rewrite Forall_forall in Ha, Hab. constructor; [by apply Ha|auto].
Qed.

(** The elements after the root are apart from it. *)
Lemma right_of l p v r :
  apart (elems (Node l p v r)) -> apart (elems r) /\
  Forall (fun f => hi v <= lo (f.2)) (elems r) /\ lo v < hi v /\
  Forall (fun f => hi (f.2) <= lo v) (elems l).
Proof.
  intros Hap. cbn in Hap. pose proof (apart_around _ _ _ Hap) as (H1 & H2 & H3).
  split_and!; try done. apply apart_app in Hap as (_ & Hap & _).
  by apply (apart_app [_]) in Hap as (_ & ? & _).
Qed.

(** Splayed at an address before all of it, a tree has its first element at the root. *)
Lemma splayed_first x l p v r :
  apart (elems (Node l p v r)) -> Forall (fun f => x < lo (f.2)) (elems (Node l p v r)) ->
  splayed x (Node l p v r) -> l = Leaf.
Proof.
  intros [_ Hwf] Hx [Hl _]. destruct l as [|ll q w lr]; [done|]. exfalso. cbn in *.
  rewrite !Forall_app, !Forall_cons in *. cbn in *. lia.
Qed.

(** The test of the right neighbour. *)
Lemma right_free_ok re s e t F cs h (Q : bool -> _ -> Prop) :
  hst h cs -> cs ≡ₚ cells t ++ F ->
  Q ((re <=? s) && match t with Leaf => true | Node _ _ u _ => e <=? lo u end)%bool h ->
  wp (if re <=? s then
        if root_of t =? 0 then mret true else (ts ← START (root_of t); mret (e <=? ts))
      else mret false) Q h.
Proof.
  intros Hs Hp HQ. rewrite Hp in Hs. destruct (re <=? s); [|by apply wp_ret].
  destruct t as [|tl q u tr]; [by apply wp_ret|]. cbn [root_of].
  rewrite (proj2 (Z.eqb_neq q 0)) by exact (proj2 (hst_head_fresh _ _ _ _ Hs)).
  cbn in Hs. wp_get. by apply wp_ret.
Qed.

(** Whether what follows the root leaves room for an interval that ends at [e]. *)
Lemma right_free_spec v w t :
  apart (elems t) -> lo w < hi w -> Forall (fun f => hi w <= lo (f.2)) (elems t) -> splayed (lo w) t ->
  match t with Leaf => true | Node _ _ u _ => hi v <=? lo u end = true ->
  Forall (fun f => hi v <= lo (f.2)) (elems t).
Proof.
  intros Hap Hw Hr Hsp Hf. destruct t as [|tl q u tr]; [constructor|]. reflect_Z.
  assert (tl = Leaf) as ->.
  { eapply splayed_first; [exact Hap| |exact Hsp]. eapply Forall_impl; [exact Hr|]. cbn. lia. }
  destruct (right_of _ _ _ _ Hap) as (_ & Hu & ? & _). constructor; [done|].
  eapply Forall_impl; [exact Hu|]. cbn. lia.
Qed.

(** What inserting promises. *)
Definition insert_post (p : Z) (v : ival) (es : list entry) F nx pv (res : Z * Z)
    (h : mem interval_tree_node) : Prop :=
  if decide (lo v < hi v /\ Forall (fun e => ~ overlaps v (e.2)) es) then
    res.2 = 0 /\ exists es', tree_at res.1 es' F h /\ inserted p v es es' /\ apart es'
  else res.2 = 1 /\ tree_at res.1 es ((p, icell nx pv v) :: F) h.

Lemma inserted_free p v es es' :
  apart es -> inserted p v es es' -> Forall (fun e => ~ overlaps v (e.2)) es.
Proof.
  intros _ (a & b & -> & _ & Ha & Hb). apply Forall_app. unfold overlaps.
  split; (eapply Forall_impl; [eassumption|]); cbn; intros; lia.
Qed.

Lemma insert_success p v es F nx pv t h :
  apart es -> lo v < hi v -> inserted p v es (elems t) -> hst h (cells t ++ F) ->
  insert_post p v es F nx pv (root_of t, 0) h.
Proof.
  intros Hap Hv Hi Hs. unfold insert_post.
  rewrite decide_True by (split; [done|by eapply inserted_free]). split; [done|].
  exists (elems t). split_and!; [by exists t|done|]. by eapply inserted_apart.
Qed.

Lemma insert_failure p v e es F nx pv t h :
  e ∈ es -> overlaps v (e.2) -> elems t = es -> hst h (cells t ++ (p, icell nx pv v) :: F) ->
  insert_post p v es F nx pv (root_of t, 1) h.
Proof.
  intros He Ho Ht Hs. unfold insert_post. rewrite decide_False.
  - split; [done|]. by exists t.
  - intros [_ Hf]. rewrite Forall_forall in Hf. by apply (Hf e).
Qed.

(** The root splayed at the start of the new interval lies after it. *)
Lemma insert_left_of_root p v F nx pv l q w r h :
  apart (elems (Node l q w r)) -> splayed (lo v) (Node l q w r) -> lo v < hi v -> hi v <= lo w ->
  hst h (cells (Node l q w r) ++ (p, icell nx pv v) :: F) ->
  wp (l ← LEFT q; _ ← put_LEFT p l; _ ← put_RIGHT p q; _ ← put_LEFT q 0; mret (p, 0))
     (insert_post p v (elems (Node l q w r)) F nx pv) h.
Proof.
  intros Hap [Hl _] Hv Hw Hs. cbn in Hs. wp_get. unfold put_LEFT, put_RIGHT. do 7 wp_step.
  apply (insert_success p v _ F nx pv (Node l p v (Node Leaf q w r))); [done..| |].
  - exists (elems l), ((q, w) :: elems r). split_and!; [done..|]. constructor; [done|].
    destruct (right_of _ _ _ _ Hap) as (_ & Hr & ? & _).
    eapply Forall_impl; [exact Hr|]. cbn. lia.
  - hst_permute.
Qed.

(** It lies before the new interval, and what follows it after. *)
Lemma insert_right_of_root p v F nx pv l q w t rn h :
  apart (elems l ++ (q, w) :: elems t) -> lo v < hi v -> hi w <= lo v ->
  Forall (fun f => hi v <= lo (f.2)) (elems t) ->
  hst h (cells t ++ (q, icell rn (root_of l) w) :: cells l ++ (p, icell nx pv v) :: F) ->
  wp (_ ← put_LEFT p q; _ ← put_RIGHT p (root_of t); _ ← put_RIGHT q 0; mret (p, 0))
     (insert_post p v (elems l ++ (q, w) :: elems t) F nx pv) h.
Proof.
  intros Hap Hv Hw Ht Hs. unfold put_LEFT, put_RIGHT. do 7 wp_step.
  apply (insert_success p v _ F nx pv (Node (Node l q w Leaf) p v t)); [done..| |].
  - exists (elems l ++ [(q, w)]), (elems t). split_and!; [app_eq|app_eq| |done].
    destruct (apart_around _ _ _ Hap) as (Hl & _ & ?). cbn in *. apply Forall_app. split; [|by constructor].
    eapply Forall_impl; [exact Hl|]. cbn. lia.
  - hst_permute.
Qed.

Lemma splay_not_leaf t : [] = elems t -> root_of t = 0.
Proof. destruct t as [|l p v r]; [done|]. cbn. intros E. by destruct (elems l). Qed.

Lemma room_right l q w r n F :
  room (elems (Node l q w r)) F -> room (elems r) ((q, n) :: cells l ++ F).
Proof.
  intros (Hd & He & HF). cbn in He. split_and!; [done| |];
    rewrite ?fmap_app, ?fmap_cons, ?not_elem_of_app, ?not_elem_of_cons, ?icells_keys in *; cbn in *;
    rewrite ?fmap_app, ?fmap_cons, ?not_elem_of_app, ?not_elem_of_cons, ?icells_keys in *; tauto.
Qed.

(** The code after the first splay, whose root does not lie after the new interval. *)
Lemma insert_right p v F nx pv l q w r h :
  let T := Node l q w r in let F' := (p, icell nx pv v) :: F in
  apart (elems T) -> splayed (lo v) T -> lo v < hi v -> lo w < hi v ->
  hst h (cells T ++ F') -> room (elems T) F' ->
  wp (r ← RIGHT q;
      t ← interval_tree_splay dummy garbage r (lo w);
      re ← END q;
      free ← (if re <=? lo v then
            if t =? 0 then mret true else (ts ← START t; mret (hi v <=? ts))
          else mret false);
      if free : bool then
        _ ← put_LEFT p q; _ ← put_RIGHT p t; _ ← put_RIGHT q 0; mret (p, 0)
      else _ ← put_RIGHT q t; mret (q, 1)) (insert_post p v (elems T) F nx pv) h.
Proof.
  intros T F' Hap [Hl Hr] Hv Hw Hs Hroom. subst T F'. cbn in Hs. wp_get.
  destruct (right_of _ _ _ _ Hap) as (Hapr & Hrw & Hww & Hlw).
  apply wp_bind. eapply wp_splay; [exact Hs| |by eapply room_right|]; [cbn; solve_Permutation|].
  clear h Hs. intros t h Hs He Hsp. specialize (Hsp Hapr). wp_get.
  apply wp_bind. eapply right_free_ok; [exact Hs|reflexivity|].
  assert (Hes : elems (Node l q w r) = elems (Node l q w t)) by (cbn; by rewrite He).
  rewrite <- He in Hrw, Hr, Hapr. rewrite Hes in Hap |- *. clear Hes He Hroom Hlw Hl.
  destruct (Z.leb_spec (hi w) (lo v)) as [Hwv|Hwv]; cbn [andb].
  - destruct (match t with Leaf => true | Node _ _ u _ => hi v <=? lo u end) eqn:Hf.
    + eapply insert_right_of_root; [done..| |exact Hs]. by apply (right_free_spec v w).
    + destruct t as [|tl q' u tr]; [done|]. reflect_Z. unfold put_RIGHT. do 2 wp_step. apply wp_ret.
      apply (insert_failure p v (q', u) _ F nx pv (Node l q w (Node tl q' u tr))); [| |done|].
      * cbn. set_solver.
      * destruct (right_of _ _ _ _ Hapr) as (_ & _ & ? & _). cbn in Hr.
        rewrite Forall_app, Forall_cons in Hr. unfold overlaps. cbn in *. lia.
      * hst_permute.
  - unfold put_RIGHT. do 2 wp_step. apply wp_ret.
    apply (insert_failure p v (q, w) _ F nx pv (Node l q w t)); [|by unfold overlaps|done|hst_permute].
    cbn. set_solver.
Qed.

(** C29: Inserting a node ends. When its interval is not empty and overlaps none, it
    returns 0 and the tree holds the node in its place besides what it held; otherwise
    it returns 1 and the tree holds the same intervals. *)
Theorem interval_tree_insert_correct root es p nx pv v F h :
  tree_at root es ((p, icell nx pv v) :: F) h -> apart es ->
  room es ((p, icell nx pv v) :: F) ->
  exists root' rc h', interval_tree_insert dummy garbage root p h = Some ((root', rc), h') /\
    if decide (lo v < hi v /\ Forall (fun e => ~ overlaps v (e.2)) es) then
      rc = 0 /\ exists es', tree_at root' es' F h' /\ inserted p v es es' /\ apart es'
    else rc = 1 /\ tree_at root' es ((p, icell nx pv v) :: F) h'.
Proof.
  intros (t & -> & <- & Hs) Hap Hr.
  enough (wp (interval_tree_insert dummy garbage (root_of t) p)
            (insert_post p v (elems t) F nx pv) h) as
    ([root' rc] & h' & E & H) by (by exists root', rc, h').
  unfold interval_tree_insert. wp_get. wp_get.
  destruct (Z.leb_spec (hi v) (lo v)) as [Hv|Hv].
  { apply wp_ret. unfold insert_post. rewrite decide_False by lia. split; [done|]. by exists t. }
  destruct (Z.eqb_spec (root_of t) 0) as [H0|H0].
  { apply (root_null h t _ Hs) in H0. subst t. unfold put_LEFT, put_RIGHT. cbn in Hs. do 5 wp_step.
    apply (insert_success p v _ F nx pv (Node Leaf p v Leaf)); [done..| |exact Hs].
    exists [], []. done. }
  apply wp_bind. apply interval_splay_ok with (F := (p, icell nx pv v) :: F); [done..|].
  clear h Hs. intros t' h Hs He Hsp. specialize (Hsp Hap).
  destruct t' as [|l q w r]; [by apply splay_not_leaf in He|]. rewrite <- He in *. clear t He H0.
  cbn [root_of]. apply wp_bind, wp_field. eapply wp_deref; [exact Hs|left|]. cbn [start].
  destruct (Z.leb_spec (hi v) (lo w)).
  - by apply insert_left_of_root.
  - by apply insert_right.
Qed.

(** ** Deleting *)

(** What the cells hold besides their links. *)
Definition data_of (c : Z * interval_tree_node) : entry :=
  (c.1, mkIval (start c.2) (end_ c.2) (node_ctxt c.2)).

Lemma data_cells t : data_of <$> cells t ≡ₚ elems t.
Proof.
  induction t as [|l IHl p v r IHr]; [done|]. cbn. rewrite fmap_app, IHl, IHr.
  unfold data_of. cbn. destruct v. cbn. solve_Permutation.
Qed.

Lemma wp_data {A} (f : interval_tree_node -> A) (g : ival -> A) p v cs h (Q : A -> _ -> Prop) :
  hst h cs -> (p, v) ∈ data_of <$> cs ->
  (forall nx pv, f (icell nx pv v) = g v) -> Q (g v) h -> wp (n ← deref p; mret (f n)) Q h.
Proof.
  intros Hs Hin Hfg HQ. apply list_elem_of_fmap in Hin as ([q n] & E & Hin).
  injection E as -> ->. apply wp_field. eapply wp_deref; [exact Hs|exact Hin|].
  destruct n as [nx pv s e c]. cbn in *. specialize (Hfg nx pv). cbn in Hfg. by rewrite Hfg.
Qed.

(** Cutting a tree splayed at the start [s] into what ends by then and the rest. *)
Lemma cut_left l q w r s F h :
  apart (elems (Node l q w r)) -> splayed s (Node l q w r) -> hst h (cells (Node l q w r) ++ F) ->
  wp (if hi w <=? s then r ← RIGHT q; _ ← put_RIGHT q 0; mret (q, r)
      else l ← LEFT q; _ ← put_LEFT q 0; mret (l, q))
     (fun res h' => exists L T, res = (root_of L, root_of T) /\ elems (Node l q w r) = elems L ++ elems T /\
        hst h' (cells L ++ cells T ++ F) /\ Forall (fun e => hi (e.2) <= s) (elems L) /\
        Forall (fun e => s < hi (e.2)) (elems T)) h.
Proof.
  intros Hap [Hl Hr] Hs. destruct (right_of _ _ _ _ Hap) as ([_ Hwf] & Hrw & Hw & Hlw).
  assert (Hr' : Forall (fun e => s < hi (e.2)) (elems r)).
  { rewrite Forall_forall in *. intros e He. specialize (Hr e He). specialize (Hwf e He). cbn in *. lia. }
  cbn in Hs. unfold put_RIGHT, put_LEFT. destruct (Z.leb_spec (hi w) s); wp_get; do 2 wp_step; apply wp_ret.
  - exists (Node l q w Leaf), r. split_and!; [done|cbn; by rewrite <- app_assoc|hst_permute| |done].
    cbn. apply Forall_app. split; [done|by constructor].
  - exists l, (Node Leaf q w r). split_and!; [done|done|hst_permute|done|]. by constructor.
Qed.

(** Cutting a tree splayed at the end [e] into what starts before it and the rest. *)
Lemma cut_right t e F h :
  apart (elems t) -> splayed e t -> hst h (cells t ++ F) ->
  wp (if root_of t =? 0 then mret (0, 0) else
      ts ← START (root_of t);
      if e <=? ts then l ← LEFT (root_of t); _ ← put_LEFT (root_of t) 0; mret (l, root_of t)
      else r ← RIGHT (root_of t); _ ← put_RIGHT (root_of t) 0; mret (root_of t, r))
     (fun res h' => exists D R, res = (root_of D, root_of R) /\ elems t = elems D ++ elems R /\
        hst h' (cells D ++ cells R ++ F) /\ Forall (fun f => lo (f.2) < e) (elems D) /\
        Forall (fun f => e <= lo (f.2)) (elems R)) h.
Proof.
  intros Hap Hsp Hs. destruct t as [|l q w r]; [apply wp_ret; by exists Leaf, Leaf|].
  cbn [root_of]. rewrite (proj2 (Z.eqb_neq q 0)) by exact (proj2 (hst_head_fresh _ _ _ _ Hs)).
  destruct Hsp as [Hl Hr], (right_of _ _ _ _ Hap) as (_ & _ & Hw & Hlw).
  assert (Hr' : Forall (fun f => e <= lo (f.2)) (elems r)) by (eapply Forall_impl; [exact Hr|]; cbn; lia).
  assert (Hl' : Forall (fun f => lo (f.2) < e) (elems l)).
  { apply apart_app in Hap as ([_ Hwf] & _). rewrite Forall_forall in *. intros f Hf.
    specialize (Hl f Hf). specialize (Hwf f Hf). cbn in *. lia. }
  cbn in Hs. wp_get. unfold put_RIGHT, put_LEFT.
  destruct (Z.leb_spec e (lo w)); wp_get; do 2 wp_step; apply wp_ret.
  - exists l, (Node Leaf q w r). split_and!; [done|done|hst_permute|done|]. by constructor.
  - exists (Node l q w Leaf), r. split_and!; [done|cbn; by rewrite <- app_assoc|hst_permute| |done].
    cbn. apply Forall_app. split; [done|by constructor].
Qed.

(** Putting the outer pieces together again. *)
Lemma combine_ok L R (d e : Z) F h :
  apart (elems L) -> Forall (fun f => hi (f.2) <= e) (elems L) ->
  hst h (cells L ++ cells R ++ F) -> room (elems L) (cells R ++ F) ->
  wp (if root_of L =? 0 then mret (root_of R, d) else
      if root_of R =? 0 then mret (root_of L, d) else
      root ← interval_tree_splay dummy garbage (root_of L) e;
      _ ← put_RIGHT root (root_of R); mret (root, d))
     (fun res h' => exists t, res = (root_of t, d) /\ elems t = elems L ++ elems R /\ hst h' (cells t ++ F)) h.
Proof.
  intros Hap Hle Hs Hroom.
  destruct (Z.eqb_spec (root_of L) 0) as [H0|H0].
  { apply (root_null h L _ Hs) in H0. subst L. apply wp_ret. by exists R. }
  destruct (Z.eqb_spec (root_of R) 0) as [H1|H1].
  { rewrite Permutation_app_swap_app in Hs. apply (root_null h R _ Hs) in H1. subst R.
    apply wp_ret. exists L. by rewrite app_nil_r. }
  apply wp_bind. apply interval_splay_ok with (F := cells R ++ F); [done..|]. clear h Hs.
  intros t h Hs He Hsp. specialize (Hsp Hap). destruct t as [|l q w r]; [by apply splay_not_leaf in He|].
  rewrite <- He in *. assert (r = Leaf) as ->.
  { destruct Hsp as [_ Hr]. destruct Hap as [_ Hwf]. destruct r as [|rl u y rr]; [done|]. exfalso.
    cbn in *. rewrite !Forall_app, !Forall_cons, !Forall_app, !Forall_cons in *. cbn in *. lia. }
  cbn [root_of]. cbn in Hs. unfold put_RIGHT. do 2 wp_step. apply wp_ret.
  exists (Node l q w R). split_and!; [done|cbn; by rewrite <- app_assoc|hst_permute].
Qed.

Lemma room_perm es F es' F' :
  room es F -> es'.*1 ++ F'.*1 ≡ₚ es.*1 ++ F.*1 -> room es' F'.
Proof.
  unfold room. intros (Hd & He & HF) Hp. split; [done|]. rewrite <- not_elem_of_app.
  rewrite Hp, not_elem_of_app. done.
Qed.

Ltac room_move :=
  eapply room_perm; [eassumption|]; rewrite !fmap_app, ?icells_keys; solve_Permutation.

Lemma apart_overlap_split v (L D R : list entry) :
  Forall (fun e => hi (e.2) <= lo v) L -> Forall (fun e => lo v < hi (e.2)) (D ++ R) ->
  Forall (fun e => lo (e.2) < hi v) D -> Forall (fun e => hi v <= lo (e.2)) R ->
  Forall (fun e : entry => overlaps v (e.2)) D.
Proof.
  intros _ HDR HD _. apply Forall_app in HDR as [HDR _]. rewrite Forall_forall in *.
  intros e He. split; auto.
Qed.

(** C28: Deleting the intervals that overlap a node's ends, and cuts the elements in
    three: what ends before the node and what starts after it stay in the tree, what
    overlaps it is the tree handed out; nothing is lost. *)
Theorem interval_tree_delete_correct root es p v F h :
  tree_at root es F h -> apart es -> room es F -> lo v <= hi v ->
  (p, v) ∈ es \/ (p, v) ∈ data_of <$> F ->
  exists root' del h' a m b tr td,
    interval_tree_delete dummy garbage root p h = Some ((root', del), h') /\
    es = a ++ m ++ b /\ Forall (fun e => hi (e.2) <= lo v) a /\
    Forall (fun e => overlaps v (e.2)) m /\ Forall (fun e => hi v <= lo (e.2)) b /\
    root' = root_of tr /\ elems tr = a ++ b /\ del = root_of td /\ elems td = m /\
    hst h' (cells tr ++ cells td ++ F).
Proof.
  intros (t & -> & <- & Hs) Hap Hr Hv Hd.
  enough (wp (interval_tree_delete dummy garbage (root_of t) p) (fun '(root', del) h' =>
    exists a m b tr td, elems t = a ++ m ++ b /\ Forall (fun e => hi (e.2) <= lo v) a /\
    Forall (fun e => overlaps v (e.2)) m /\ Forall (fun e => hi v <= lo (e.2)) b /\
    root' = root_of tr /\ elems tr = a ++ b /\ del = root_of td /\ elems td = m /\
    hst h' (cells tr ++ cells td ++ F)) h) as
    ([root' del] & h' & E & a & m & b & tr & td & H) by (by exists root', del, h', a, m, b, tr, td).
  unfold interval_tree_delete. destruct (Z.eqb_spec (root_of t) 0) as [H0|H0].
  { apply (root_null h t _ Hs) in H0. subst t. apply wp_ret. by exists [], [], [], Leaf, Leaf. }
  apply wp_bind. eapply (wp_data _ lo p v _ h); [exact Hs| |done|].
  { rewrite fmap_app, data_cells, elem_of_app. exact Hd. }
  apply wp_bind. apply interval_splay_ok with (F := F); [done..|]. clear h Hs. intros t1 h Hs He Hsp.
  specialize (Hsp Hap). destruct t1 as [|l q w r]; [by apply splay_not_leaf in He|].
  rewrite <- He in *. clear t He H0. cbn [root_of].
  apply wp_bind, wp_field. eapply wp_deref; [exact Hs|left|]. cbn [end_].
  apply wp_bind. eapply wp_mono; [by eapply cut_left|].
  clear h Hs. cbn beta. intros [lt tt] h (L & T & [= -> ->] & HE & Hs & HL & HT). rewrite HE in *. clear Hsp HE.
  apply apart_app in Hap as (HapL & HapT & _).
  apply wp_bind. eapply (wp_data _ hi p v _ h); [exact Hs| |done|].
  { rewrite !fmap_app, !data_cells, app_assoc, elem_of_app. exact Hd. }
  assert (room (elems T) (cells L ++ F)) as HrT by room_move.
  apply wp_bind. eapply (wp_splay T _ (cells L ++ F)); [exact Hs|solve_Permutation|exact HrT|]. clear h Hs.
  intros T' h Hs He Hsp. specialize (Hsp HapT). rewrite <- He in *. clear T He.
  apply wp_bind. eapply wp_mono; [by eapply cut_right|].
  clear h Hs. cbn beta. intros [dd rr] h (D & R & [= -> ->] & HE & Hs & HD & HR). rewrite HE in *. clear Hsp HE.
  assert (room (elems L) (cells R ++ cells D ++ F)) as HrL by room_move.
  eapply wp_mono; [apply (combine_ok L R (root_of D) (hi v) (cells D ++ F)); [done| | |exact HrL]|].
  - eapply Forall_impl; [exact HL|]. cbn. lia.
  - hst_permute.
  - cbn beta. intros [r' d'] h' (tr & [= -> ->] & Htr & Hs').
    exists (elems L), (elems D), (elems R), tr, D. split_and!; try done. by eapply apart_overlap_split.
Qed.
End operations.

(** A fresh node is a cell beside the tree, ready to be inserted. *)
Lemma node_make_ok p s e c root es F h :
  tree_at root es F h -> p <> 0 -> p ∉ es.*1 -> p ∉ F.*1 ->
  exists h', node_make p s e c h = Some (p, h') /\
    tree_at root es ((p, icell 0 0 (mkIval s e c)) :: F) h'.
Proof.
  intros (t & -> & <- & Hs) Hp He HF. exists (<[p := mkNode 0 0 s e c]> h).
  unfold node_make. rewrite (proj2 (Z.eqb_neq p 0)) by done. split; [done|].
  exists t. split_and!; [done..|]. rewrite <- Permutation_middle. apply hst_fresh; [done..|].
  rewrite fmap_app, not_elem_of_app, icells_keys. done.
Qed.

(** ** Runs *)
Module Demo.

Definition demo_tree : itree :=
  Node (Node Leaf 10 (mkIval 0 5 1) Leaf) 20 (mkIval 5 9 2)
       (Node Leaf 30 (mkIval 20 30 3) (Node Leaf 50 (mkIval 30 31 4) Leaf)).
Definition demo_frame : list (Z * interval_tree_node) := [(41, mkNode 7 7 9 20 5); (40, mkNode 7 7 8 25 6)].
Definition demo_mem : mem interval_tree_node := list_to_map (cells demo_tree ++ demo_frame).
Definition demo_garbage : interval_tree_node := mkNode 666 667 668 669 670.

Lemma demo_tree_at : tree_at 20 (elems demo_tree) demo_frame demo_mem.
Proof. exists demo_tree. split_and!; [done..|]. split; [done|by apply (bool_decide_unpack _)..]. Qed.

Lemma demo_apart : apart (elems demo_tree).
Proof. split; repeat constructor; vm_compute; done. Qed.

Lemma demo_room : room 1000 (elems demo_tree) demo_frame.
Proof. split_and!; [done|by apply (bool_decide_unpack _)..]. Qed.

Lemma interval_tree_lookup_correct_witness :
  exists root' res sa' h',
    interval_tree_lookup 1000 demo_garbage 20 30 0 demo_mem = Some ((root', res, sa'), h') /\
    tree_at root' (elems demo_tree) demo_frame h' /\
    ((exists p v, (p, v) ∈ elems demo_tree /\ covers 30 (p, v) /\ res = p /\ p <> 0 /\ sa' = lo v) \/
     (Forall (fun e => ~ covers 30 e) (elems demo_tree) /\ res = 0 /\ sa' = 0)).
Proof.
  apply (interval_tree_lookup_correct 1000 demo_garbage 20 _ _ _ 30 0 demo_tree_at demo_apart demo_room).
Defined.

Lemma interval_tree_insert_correct_witness :
  exists root' rc h',
    interval_tree_insert 1000 demo_garbage 20 41 demo_mem = Some ((root', rc), h') /\
    if decide (9 < 20 /\ Forall (fun e => ~ overlaps (mkIval 9 20 5) (e.2)) (elems demo_tree)) then
      rc = 0 /\ exists es', tree_at root' es' [(40, mkNode 7 7 8 25 6)] h' /\
        inserted 41 (mkIval 9 20 5) (elems demo_tree) es' /\ apart es'
    else rc = 1 /\ tree_at root' (elems demo_tree) demo_frame h'.
Proof.
  apply (interval_tree_insert_correct 1000 demo_garbage 20 _ 41 7 7 (mkIval 9 20 5) _ _
           demo_tree_at demo_apart demo_room).
Defined.

Lemma interval_tree_delete_correct_witness :
  exists root' del h' a m b tr td,
    interval_tree_delete 1000 demo_garbage 20 40 demo_mem = Some ((root', del), h') /\
    elems demo_tree = a ++ m ++ b /\ Forall (fun e => hi (e.2) <= 8) a /\
    Forall (fun e => overlaps (mkIval 8 25 6) (e.2)) m /\ Forall (fun e => 25 <= lo (e.2)) b /\
    root' = root_of tr /\ elems tr = a ++ b /\ del = root_of td /\ elems td = m /\
    hst h' (cells tr ++ cells td ++ demo_frame).
Proof.
  refine (interval_tree_delete_correct 1000 demo_garbage 20 _ 40 (mkIval 8 25 6) _ _
           demo_tree_at demo_apart demo_room _ _).
  - done.
  - right. vm_compute. right. left.
Defined.

(** The boundaries of the half-open intervals, a node that fits between two others, one
    that does not, and the two intervals a deletion cuts out, as the code computes
    them. *)
Example demo_lookup_30 :
  (r ← interval_tree_lookup 1000 demo_garbage 20 30 0 demo_mem; Some r.1) = Some (50, 50, 30).
Proof. vm_compute. reflexivity. Qed.
Example demo_lookup_9 :
  (r ← interval_tree_lookup 1000 demo_garbage 20 9 77 demo_mem; Some r.1) = Some (30, 0, 77).
Proof. vm_compute. reflexivity. Qed.
Example demo_insert_41 :
  (r ← interval_tree_insert 1000 demo_garbage 20 41 demo_mem; Some r.1) = Some (41, 0).
Proof. vm_compute. reflexivity. Qed.
Example demo_insert_40 :
  (r ← interval_tree_insert 1000 demo_garbage 20 40 demo_mem; Some (r.1.2)) = Some 1.
Proof. vm_compute. reflexivity. Qed.
Example demo_delete_40 :
  (r ← interval_tree_delete 1000 demo_garbage 20 40 demo_mem; Some r.1) = Some (10, 30).
Proof. vm_compute. reflexivity. Qed.
End Demo.
