(* ===== verification/SplayTree.v ===== *)
(** * SplayTree: the splay tree of util/splay-tree.h

    The class template [splay_tree], over the type of keys and the comparison it takes:
    nodes in memory with links to both children and to the parent, rotations that keep
    the three in step, and bottom-up splaying. The theorems relate the object to the
    list of its keys in order. *)
From stdpp Require Import base numbers list list_tactics sorting gmap.
From Stdlib Require Import ZArith Lia.
From S2P Require Import Prelude Heap.
Local Open Scope Z_scope.

Section splay_tree.
Context {T : Type}.

(** The template's [Comp], called on two keys. *)
Variable comp : T -> T -> bool.

(** [struct node], without the member [data], which nothing uses. *)
Record node : Type := mkNode { left_ : Z; right_ : Z; parent : Z; key : T }.

Definition set_left (v : Z) (n : node) : node := mkNode v (right_ n) (parent n) (key n).
Definition set_right (v : Z) (n : node) : node := mkNode (left_ n) v (parent n) (key n).
Definition set_parent (v : Z) (n : node) : node := mkNode (left_ n) (right_ n) v (key n).

Abbreviation code := (hp node).
Definition get {A} (f : node -> A) (p : Z) : code A := n ← deref p; mret (f n).

(** [if( !x->parent ) root = y; else if( x == x->parent->left ) x->parent->left = y; else
    x->parent->right = y;], which gives the new root. *)
Definition replace_child (root x y : Z) : code Z :=
  px ← get parent x;
  if px =? 0 then mret y else
  l ← get left_ px;
  _ ← (if x =? l then assign px (set_left y) else assign px (set_right y));
  mret root.

Definition left_rotate (root x : Z) : code Z :=
  y ← get right_ x;
  _ ← (if y =? 0 then mret () else
       yl ← get left_ y;
       _ ← assign x (set_right yl);
       _ ← (if yl =? 0 then mret () else assign yl (set_parent x));
       px ← get parent x;
       assign y (set_parent px));
  root ← replace_child root x y;
  _ ← (if y =? 0 then mret () else assign y (set_left x));
  _ ← assign x (set_parent y);
  mret root.

Definition right_rotate (root x : Z) : code Z :=
  y ← get left_ x;
  _ ← (if y =? 0 then mret () else
       yr ← get right_ y;
       _ ← assign x (set_left yr);
       _ ← (if yr =? 0 then mret () else assign yr (set_parent x));
       px ← get parent x;
       assign y (set_parent px));
  root ← replace_child root x y;
  _ ← (if y =? 0 then mret () else assign y (set_right x));
  _ ← assign x (set_parent y);
  mret root.

(** The body of the loop of [splay], with [p] the parent of [x], [g] its grandparent and
    [pl] the left child of [p]. *)
Definition turn (root p g pl x : Z) : code Z :=
  if g =? 0 then (if pl =? x then right_rotate root p else left_rotate root p)
  else
    gl ← get left_ g; pr ← get right_ p; gr ← get right_ g;
    if (pl =? x) && (gl =? p) then root ← right_rotate root g; p ← get parent x; right_rotate root p
    else if (pr =? x) && (gr =? p) then root ← left_rotate root g; p ← get parent x; left_rotate root p
    else if (pl =? x) && (gr =? p) then root ← right_rotate root p; p ← get parent x; left_rotate root p
    else root ← left_rotate root p; p ← get parent x; right_rotate root p.

(** The loop of [splay]. *)
Fixpoint splay_loop (fuel : nat) (root x : Z) : code Z :=
  match fuel with
  | O => diverge
  | S fuel =>
    p ← get parent x;
    if p =? 0 then mret root else
    g ← get parent p;
    pl ← get left_ p;
    root ← turn root p g pl x;
    splay_loop fuel root x
  end.

Definition splay (root x : Z) : code Z := fuel ← nodes; splay_loop fuel root x.

(** [replace]: the new root. *)
Definition replace (root u v : Z) : code Z :=
  root ← replace_child root u v;
  _ ← (if v =? 0 then mret () else pu ← get parent u; assign v (set_parent pu));
  mret root.

Fixpoint minimum_loop (fuel : nat) (u : Z) : code Z :=
  match fuel with
  | O => diverge
  | S fuel => l ← get left_ u; if l =? 0 then mret u else minimum_loop fuel l
  end.
Definition subtree_minimum (u : Z) : code Z := fuel ← nodes; minimum_loop fuel u.

Fixpoint maximum_loop (fuel : nat) (u : Z) : code Z :=
  match fuel with
  | O => diverge
  | S fuel => r ← get right_ u; if r =? 0 then mret u else maximum_loop fuel r
  end.
Definition subtree_maximum (u : Z) : code Z := fuel ← nodes; maximum_loop fuel u.

(** ** The object and its public members *)
Record splay_tree : Type := mkTree { root : Z; p_size : Z }.

Definition splay_tree_new : splay_tree := mkTree 0 0.

(** Going down to where a key belongs: the last node on the way. *)
Fixpoint insert_descend (fuel : nat) (z p : Z) (k : T) : code Z :=
  match fuel with
  | O => diverge
  | S fuel =>
    if z =? 0 then mret p else
    zk ← get key z;
    if comp zk k then r ← get right_ z; insert_descend fuel r z k
    else l ← get left_ z; insert_descend fuel l z k
  end.

(** [insert], given the address [new] returns. *)
Definition splay_tree_insert (t : splay_tree) (new : Z) (k : T) : code splay_tree :=
  fuel ← nodes;
  p ← insert_descend (S fuel) (root t) 0 k;
  if new =? 0 then fault else
  _ ← place new (mkNode 0 0 p k);
  r ← (if p =? 0 then mret new else
       pk ← get key p;
       _ ← (if comp pk k then assign p (set_right new) else assign p (set_left new));
       mret (root t));
  r ← splay r new;
  mret (mkTree r (u64 (p_size t + 1))).

Fixpoint find_loop (fuel : nat) (z : Z) (k : T) : code Z :=
  match fuel with
  | O => diverge
  | S fuel =>
    if z =? 0 then mret 0 else
    zk ← get key z;
    if comp zk k then r ← get right_ z; find_loop fuel r k
    else if comp k zk then l ← get left_ z; find_loop fuel l k
    else mret z
  end.
Definition splay_tree_find (t : splay_tree) (k : T) : code Z :=
  fuel ← nodes; find_loop (S fuel) (root t) k.

(** The part of [erase] that unlinks the root [z]; [zl] and [zr] are its children. *)
Definition unlink (r z zl zr : Z) : code Z :=
  if zl =? 0 then replace r z zr
  else if zr =? 0 then replace r z zl
  else
    y ← subtree_minimum zr;
    py ← get parent y;
    r ← (if py =? z then mret r else
         yr ← get right_ y;
         r ← replace r y yr;
         zr ← get right_ z;
         _ ← assign y (set_right zr);
         yr ← get right_ y;
         _ ← assign yr (set_parent y);
         mret r);
    r ← replace r z y;
    zl ← get left_ z;
    _ ← assign y (set_left zl);
    yl ← get left_ y;
    _ ← assign yl (set_parent y);
    mret r.

Definition splay_tree_erase (t : splay_tree) (k : T) : code splay_tree :=
  z ← splay_tree_find t k;
  if z =? 0 then mret t else
  r ← splay (root t) z;
  zl ← get left_ z;
  zr ← get right_ z;
  r ← unlink r z zl zr;
  _ ← discard z;
  mret (mkTree r (u64 (p_size t - 1))).

Definition splay_tree_minimum (t : splay_tree) : code T := m ← subtree_minimum (root t); get key m.
Definition splay_tree_maximum (t : splay_tree) : code T := m ← subtree_maximum (root t); get key m.
Definition splay_tree_empty (t : splay_tree) : bool := root t =? 0.
Definition splay_tree_size (t : splay_tree) : Z := p_size t.
End splay_tree.
Arguments node T : clear implicits.

(** ** Trees, contexts and their cells *)
Section trees.
Context {T : Type}.

Inductive ptree : Type :=
  | Leaf
  | Node (l : ptree) (p : Z) (k : T) (r : ptree).

(** A place in a tree, from the parent out to the root: the hole is a left or a right
    child. *)
Inductive frame : Type :=
  | FL (p : Z) (k : T) (r : ptree)
  | FR (l : ptree) (p : Z) (k : T).

Definition root_of (t : ptree) : Z := match t with Leaf => 0 | Node _ p _ _ => p end.
Definition top (c : list frame) : Z :=
  match c with [] => 0 | FL p _ _ :: _ => p | FR _ p _ :: _ => p end.

Fixpoint tsize (t : ptree) : nat :=
  match t with Leaf => 0 | Node l _ _ r => S (tsize l + tsize r) end.

(** The cells of a tree below the parent [par], and of a context with root [w] in the
    hole. *)
Fixpoint cells (par : Z) (t : ptree) : list (Z * node T) :=
  match t with
  | Leaf => []
  | Node l p k r => (p, mkNode (root_of l) (root_of r) par k) :: cells p l ++ cells p r
  end.
Fixpoint ccells (w : Z) (c : list frame) : list (Z * node T) :=
  match c with
  | [] => []
  | FL p k r :: c => (p, mkNode w (root_of r) (top c) k) :: cells p r ++ ccells p c
  | FR l p k :: c => (p, mkNode (root_of l) w (top c) k) :: cells p l ++ ccells p c
  end.

(** The root of the whole tree. *)
Fixpoint croot (w : Z) (c : list frame) : Z :=
  match c with [] => w | FL p _ _ :: c => croot p c | FR _ p _ :: c => croot p c end.

Abbreviation entry := (Z * T)%type.
Fixpoint elems (t : ptree) : list entry :=
  match t with Leaf => [] | Node l p k r => elems l ++ (p, k) :: elems r end.
Fixpoint cbefore (c : list frame) : list entry :=
  match c with [] => [] | FL _ _ _ :: c => cbefore c | FR l p k :: c => cbefore c ++ elems l ++ [(p, k)] end.
Fixpoint cafter (c : list frame) : list entry :=
  match c with [] => [] | FL p k r :: c => (p, k) :: elems r ++ cafter c | FR _ _ _ :: c => cafter c end.

Fixpoint plug (c : list frame) (t : ptree) : ptree :=
  match c with
  | [] => t
  | FL p k r :: c => plug c (Node t p k r)
  | FR l p k :: c => plug c (Node l p k t)
  end.

Lemma root_plug c t : root_of (plug c t) = croot (root_of t) c.
Proof. revert t; induction c as [|[p k r|l p k] c IH]; intros t; [done|..]; cbn; by rewrite IH. Qed.

Lemma elems_plug c t : elems (plug c t) = cbefore c ++ elems t ++ cafter c.
Proof.
  revert t; induction c as [|[p k r|l p k] c IH]; intros t; cbn; [by rewrite app_nil_r|..];
    rewrite IH; app_eq.
Qed.

Lemma cells_plug c t : cells 0 (plug c t) ≡ₚ cells (top c) t ++ ccells (root_of t) c.
Proof.
  revert t; induction c as [|[p k r|l p k] c IH]; intros t; cbn; [by rewrite app_nil_r|..];
    rewrite IH; cbn; solve_Permutation.
Qed.

Lemma cells_keys par t : (cells par t).*1 ≡ₚ (elems t).*1.
Proof.
  revert par; induction t as [|l IHl p k r IHr]; intros par; [done|]. cbn. rewrite !fmap_app. cbn.
  rewrite IHl, IHr. solve_Permutation.
Qed.

Lemma length_cells par t : length (cells par t) = tsize t.
Proof. revert par; induction t; intros; [done|]. cbn. rewrite length_app. auto. Qed.

(** The memory with [t] at the place [c], and [F] beside the tree. *)
Definition at_place (c : list frame) (t : ptree) (F : list (Z * node T)) (h : mem (node T)) : Prop :=
  hst h (cells (top c) t ++ ccells (root_of t) c ++ F).

Lemma at_place_plug c t F h : at_place c t F h <-> at_place [] (plug c t) F h.
Proof.
  unfold at_place. cbn. split; apply hst_perm; rewrite cells_plug; solve_Permutation.
Qed.

(** ** Facts about distinct nodes *)
Lemma ptr_ne h cs p (n : node T) : hst h cs -> (p, n) ∈ cs -> (p =? 0) = false.
Proof. intros Hs Hin. apply Z.eqb_neq. by eapply hst_ptr. Qed.

Lemma root_ne h cs x n par l :
  hst h cs -> (x, n) :: cells par l ⊆+ cs -> (root_of l =? x) = false /\ (x =? root_of l) = false.
Proof.
  intros Hs Hsub. rewrite (Z.eqb_sym x). split; apply Z.eqb_neq;
    (apply submseteq_Permutation in Hsub as (X & HX); rewrite HX in Hs; intros E;
     destruct (hst_head_fresh _ _ _ _ Hs) as [Hf H0]; destruct l as [|ll q k lr]; cbn in *; subst;
     [done|apply Hf; left]).
Qed.

Lemma wp_get {A} (f : node T -> A) p h (Q : A -> _ -> Prop) :
  wp (deref p) (fun n => Q (f n)) h -> wp (get f p) Q h.
Proof. intros H. apply wp_bind. eapply wp_mono; [exact H|]. intros. by apply wp_ret. Qed.

End trees.
Arguments ptree T : clear implicits.
Arguments frame T : clear implicits.

Ltac run_get :=
  apply wp_bind, wp_get; wp_step; cbn beta iota delta [left_ right_ parent key].
Ltac run_set := apply wp_bind; wp_step; cbn beta iota.

(** ** Rotations *)
Section rotations.
Context {T : Type}.
Implicit Types (c : list (frame T)) (t : ptree T) (F X : list (Z * node T)).

(** Setting the parent of a child, if there is one. *)
Lemma set_parent_ok b par v F cs h (Q : unit -> _ -> Prop) :
  hst h cs -> cs ≡ₚ cells par b ++ F ->
  (forall h', hst h' (cells v b ++ F) -> Q () h') ->
  wp (if root_of b =? 0 then mret () else assign (root_of b) (@set_parent T v)) Q h.
Proof.
  intros Hs Hp HQ. rewrite Hp in Hs. destruct b as [|l p k r]; [by apply wp_ret, HQ|].
  cbn [root_of]. erewrite (ptr_ne _ _ p) by (done || by left). cbn in Hs. wp_step. by apply HQ.
Qed.

Lemma replace_child_ok c x n y F cs h (Q : Z -> _ -> Prop) :
  hst h cs -> cs ≡ₚ (x, n) :: ccells x c ++ F -> parent n = top c ->
  (forall h', hst h' ((x, n) :: ccells y c ++ F) -> Q (croot y c) h') ->
  wp (replace_child (croot x c) x y) Q h.
Proof.
  intros Hs Hp Hpar HQ. rewrite Hp in Hs. clear Hp cs. unfold replace_child.
  destruct n as [nl nr np nk]. cbn in Hpar. subst np.
  run_get. destruct c as [|[p k r|l p k] c]; cbn [top croot].
  - apply wp_ret. by apply HQ.
  - cbn in Hs. erewrite (ptr_ne _ _ p) by (done || (cbn; cell_in)). run_get.
    rewrite Z.eqb_refl. run_set. apply wp_ret. apply (HQ _). cbn. hst_permute.
  - cbn in Hs. erewrite (ptr_ne _ _ p) by (done || (cbn; cell_in)). run_get.
    rewrite (proj2 (root_ne _ _ x (mkNode nl nr (top (FR l p k :: c)) nk) p l Hs ltac:(cbn; solve_submseteq))).
    run_set. apply wp_ret. apply (HQ _). cbn. hst_permute.
Qed.

Ltac run_replace_child c x y :=
  apply wp_bind;
  match goal with
  | Hs : hst ?h ?cs |- wp _ _ ?h =>
      take_cell x cs ltac:(fun n r => take_part (ccells x c) r ltac:(fun F =>
        apply (replace_child_ok c x n y F cs h);
        [exact Hs|solve_Permutation|reflexivity|clear h Hs; intros h Hs; cbn in Hs; cbn beta iota]))
  end.

Ltac run_set_parent b par v :=
  apply wp_bind;
  match goal with
  | Hs : hst ?h ?cs |- wp _ _ ?h =>
      take_part (cells par b) cs ltac:(fun F =>
        apply (set_parent_ok b par v F cs h); [exact Hs|solve_Permutation|clear h Hs; intros h Hs; cbn in Hs])
  end.

Lemma left_rotate_ok c a x kx b y ky d F h (Q : Z -> _ -> Prop) :
  at_place c (Node a x kx (Node b y ky d)) F h ->
  (forall h', at_place c (Node (Node a x kx b) y ky d) F h' -> Q (croot y c) h') ->
  wp (left_rotate (croot x c) x) Q h.
Proof.
  intros Hs HQ. unfold at_place in Hs. cbn in Hs. unfold left_rotate. run_get.
  erewrite (ptr_ne _ _ y) by (done || cell_in). apply wp_bind. run_get. run_set.
  run_set_parent b y x. run_get. wp_step.
  run_replace_child c x y.
  run_set. run_set. apply wp_ret.
  apply HQ. unfold at_place. cbn. hst_permute.
Qed.

Lemma right_rotate_ok c a x kx b y ky d F h (Q : Z -> _ -> Prop) :
  at_place c (Node (Node a x kx b) y ky d) F h ->
  (forall h', at_place c (Node a x kx (Node b y ky d)) F h' -> Q (croot x c) h') ->
  wp (right_rotate (croot y c) y) Q h.
Proof.
  intros Hs HQ. unfold at_place in Hs. cbn in Hs. unfold right_rotate. run_get.
  erewrite (ptr_ne _ _ x) by (done || cell_in). apply wp_bind. run_get. run_set.
  run_set_parent b x y. run_get. wp_step. run_replace_child c y x. run_set. run_set. apply wp_ret.
  apply HQ. unfold at_place. cbn. hst_permute.
Qed.
End rotations.

(** The memory a tree is in, described cell by cell. *)
Ltac show_cells Ha Hs := pose proof Ha as Hs; unfold at_place in Hs; cbn in Hs.

Ltac parent_of x :=
  match goal with
  | Ha : at_place _ _ _ _ |- _ =>
      let Hs := fresh in show_cells Ha Hs; run_get; clear Hs
  end.

(** ** Splaying *)
Section splaying.
Context {T : Type}.
Implicit Types (c : list (frame T)) (t : ptree T) (F X : list (Z * node T)).

Lemma at_place_FL c p k (r : ptree T) t F h :
  at_place (FL p k r :: c) t F h <-> at_place c (Node t p k r) F h.
Proof. unfold at_place. cbn. split; apply hst_perm; solve_Permutation. Qed.

Lemma at_place_FR c p k (l : ptree T) t F h :
  at_place (FR l p k :: c) t F h <-> at_place c (Node l p k t) F h.
Proof. unfold at_place. cbn. split; apply hst_perm; solve_Permutation. Qed.

(** The node [x] has become the root, and the order of the keys is as it was. *)
Definition splay_post (x : Z) (k : T) (E : list (Z * T)) F (r : Z) (h : mem (node T)) : Prop :=
  r = x /\ exists a b, at_place [] (Node a x k b) F h /\ elems (Node a x k b) = E.

Lemma zig_zig_right c g kg p kp a x k (b r r2 : ptree T) F h (Q : Z -> _ -> Prop) :
  at_place c (Node (Node (Node a x k b) p kp r) g kg r2) F h ->
  (forall h', at_place c (Node a x k (Node b p kp (Node r g kg r2))) F h' -> Q (croot x c) h') ->
  wp (root ← right_rotate (croot g c) g; p ← get parent x; right_rotate root p) Q h.
Proof.
  intros Ha HQ. apply wp_bind. eapply right_rotate_ok; [exact Ha|]. clear h Ha. intros h Ha.
  parent_of x. eapply (right_rotate_ok c); [exact Ha|exact HQ].
Qed.

Lemma zig_zig_left c g kg p kp a x k (b l l2 : ptree T) F h (Q : Z -> _ -> Prop) :
  at_place c (Node l2 g kg (Node l p kp (Node a x k b))) F h ->
  (forall h', at_place c (Node (Node (Node l2 g kg l) p kp a) x k b) F h' -> Q (croot x c) h') ->
  wp (root ← left_rotate (croot g c) g; p ← get parent x; left_rotate root p) Q h.
Proof.
  intros Ha HQ. apply wp_bind. eapply left_rotate_ok; [exact Ha|]. clear h Ha. intros h Ha.
  parent_of x. eapply (left_rotate_ok c); [exact Ha|exact HQ].
Qed.

Lemma zig_zag_left c g kg p kp a x k (b r l2 : ptree T) F h (Q : Z -> _ -> Prop) :
  at_place c (Node l2 g kg (Node (Node a x k b) p kp r)) F h ->
  (forall h', at_place c (Node (Node l2 g kg a) x k (Node b p kp r)) F h' -> Q (croot x c) h') ->
  wp (root ← right_rotate (croot g c) p; p ← get parent x; left_rotate root p) Q h.
Proof.
  intros Ha HQ. apply wp_bind. apply at_place_FR in Ha.
  apply (right_rotate_ok (FR l2 g kg :: c) a x k b p kp r F); [exact Ha|].
  clear h Ha. intros h Ha. apply (proj1 (at_place_FR _ _ _ _ _ _ _)) in Ha.
  parent_of x. eapply (left_rotate_ok c); [exact Ha|exact HQ].
Qed.

Lemma zig_zag_right c g kg p kp a x k (b l r2 : ptree T) F h (Q : Z -> _ -> Prop) :
  at_place c (Node (Node l p kp (Node a x k b)) g kg r2) F h ->
  (forall h', at_place c (Node (Node l p kp a) x k (Node b g kg r2)) F h' -> Q (croot x c) h') ->
  wp (root ← left_rotate (croot g c) p; p ← get parent x; right_rotate root p) Q h.
Proof.
  intros Ha HQ. apply wp_bind. apply at_place_FL in Ha.
  apply (left_rotate_ok (FL g kg r2 :: c) l p kp a x k b F); [exact Ha|].
  clear h Ha. intros h Ha. apply (proj1 (at_place_FL _ _ _ _ _ _ _)) in Ha.
  parent_of x. eapply (right_rotate_ok c); [exact Ha|exact HQ].
Qed.

(** One turn of the loop: [c] is the place of [x], [c'] its place afterwards. *)
Definition turn_post c x k E F (r : Z) (h : mem (node T)) : Prop :=
  exists c' a b, (length c' < length c)%nat /\ r = croot x c' /\
    at_place c' (Node a x k b) F h /\ cbefore c' ++ elems (Node a x k b) ++ cafter c' = E.

Ltac turn_done a b :=
  match goal with Ha : at_place ?c ?t _ ?h |- turn_post _ _ _ _ _ _ ?h =>
    exists c, a, b; split_and!; [cbn; lia|done|exact Ha|]
  end.

Ltac node_ne l x :=
  match goal with
  | Hs : hst ?h ?cs |- _ =>
      take_cell x cs ltac:(fun n r =>
        lazymatch r with context [cells ?par l] =>
          rewrite (proj1 (root_ne h cs x n par l Hs ltac:(solve_submseteq)))
        end)
  end.

Lemma turn_ok f c a x k (b : ptree T) F h (K : Z -> hp (node T) Z) Q :
  at_place (f :: c) (Node a x k b) F h ->
  (forall r h', turn_post (f :: c) x k (cbefore (f :: c) ++ elems (Node a x k b) ++ cafter (f :: c)) F r h' ->
     wp (K r) Q h') ->
  wp (g ← get parent (top (f :: c)); pl ← get left_ (top (f :: c));
      root ← turn (croot x (f :: c)) (top (f :: c)) g pl x; K root) Q h.
Proof.
  intros Ha HK. set (E := cbefore (f :: c) ++ _) in HK. show_cells Ha Hs.
  destruct f as [p kp r|l p kp], c as [|[g kg r2|l2 g kg] c]; cbn [top croot app] in *; cbn in Hs;
    do 2 run_get; (apply wp_bind; eapply wp_mono; [|exact HK]); clear HK; unfold turn.
  - cbn [Z.eqb]. rewrite Z.eqb_refl. apply (proj1 (at_place_FL _ _ _ _ _ _ _)) in Ha.
    eapply (right_rotate_ok []); [exact Ha|]. clear h Ha Hs. intros h Ha.
    turn_done a (Node b p kp r). subst E. app_eq.
  - erewrite (ptr_ne _ _ g) by (done || cell_in). do 3 run_get. rewrite !Z.eqb_refl. cbn [andb].
    apply (proj1 (at_place_FL _ _ _ _ _ _ _)), (proj1 (at_place_FL _ _ _ _ _ _ _)) in Ha.
    eapply zig_zig_right; [exact Ha|]. clear h Ha Hs. intros h Ha.
    turn_done a (Node b p kp (Node r g kg r2)). subst E. app_eq.
  - erewrite (ptr_ne _ _ g) by (done || cell_in). do 3 run_get. node_ne l2 p. node_ne r x.
    rewrite !Z.eqb_refl. cbn [andb].
    apply (proj1 (at_place_FL _ _ _ _ _ _ _)), (proj1 (at_place_FR _ _ _ _ _ _ _)) in Ha.
    eapply zig_zag_left; [exact Ha|]. clear h Ha Hs. intros h Ha.
    turn_done (Node l2 g kg a) (Node b p kp r). subst E. app_eq.
  - cbn [Z.eqb]. node_ne l x. apply (proj1 (at_place_FR _ _ _ _ _ _ _)) in Ha.
    eapply (left_rotate_ok []); [exact Ha|]. clear h Ha Hs. intros h Ha.
    turn_done (Node l p kp a) b. subst E. app_eq.
  - erewrite (ptr_ne _ _ g) by (done || cell_in). do 3 run_get. node_ne l x. node_ne r2 p.
    rewrite !Z.eqb_refl. cbn [andb].
    apply (proj1 (at_place_FR _ _ _ _ _ _ _)), (proj1 (at_place_FL _ _ _ _ _ _ _)) in Ha.
    eapply zig_zag_right; [exact Ha|]. clear h Ha Hs. intros h Ha.
    turn_done (Node l p kp a) (Node b g kg r2). subst E. app_eq.
  - erewrite (ptr_ne _ _ g) by (done || cell_in). do 3 run_get. node_ne l x.
    rewrite !Z.eqb_refl. cbn [andb].
    apply (proj1 (at_place_FR _ _ _ _ _ _ _)), (proj1 (at_place_FR _ _ _ _ _ _ _)) in Ha.
    eapply zig_zig_left; [exact Ha|]. clear h Ha Hs. intros h Ha.
    turn_done (Node (Node l2 g kg l) p kp a) b. subst E. app_eq.
Qed.
Lemma splay_loop_ok fuel x k F : forall c a (b : ptree T) h,
  (length c < fuel)%nat -> at_place c (Node a x k b) F h ->
  wp (splay_loop fuel (croot x c) x)
     (splay_post x k (cbefore c ++ elems (Node a x k b) ++ cafter c) F) h.
Proof.
  induction fuel as [|fuel IH]; [lia|]. intros c a b h Hf Ha. cbn [splay_loop].
  parent_of x. destruct c as [|f c].
  - apply wp_ret. split; [done|]. exists a, b. split; [done|]. by rewrite app_nil_r.
  - assert ((top (f :: c) =? 0) = false) as ->.
    { show_cells Ha Hs. destruct f as [p kp r|l p kp]; cbn in Hs |- *;
        by erewrite (ptr_ne _ _ p) by (done || cell_in). }
    eapply turn_ok; [exact Ha|]. clear h Ha.
    intros r h (c' & a' & b' & Hl & -> & Ha & <-). apply IH; [cbn in *; lia|done].
Qed.

(** Splaying a node makes it the root and keeps the order of the keys. *)
Lemma splay_ok c a x k (b : ptree T) F h (Q : Z -> _ -> Prop) :
  at_place c (Node a x k b) F h ->
  (forall a' b' h', at_place [] (Node a' x k b') F h' ->
     elems (Node a' x k b') = cbefore c ++ elems (Node a x k b) ++ cafter c -> Q x h') ->
  wp (splay (croot x c) x) Q h.
Proof.
  intros Ha HQ. unfold splay. apply wp_bind. eapply wp_nodes; [exact Ha|].
  eapply wp_mono.
  { apply splay_loop_ok; [|exact Ha]. rewrite !length_app, length_cells. cbn.
    enough (length c <= length (ccells x c))%nat by lia. clear. generalize x.
    induction c as [|[] c IH]; intros w; cbn; [lia|rewrite length_app; specialize (IH p); lia..]. }
  intros r h' (-> & a' & b' & Ha' & HE). by eapply HQ.
Qed.
End splaying.

(** ** Removing a node from its place *)
Section replacing.
Context {T : Type}.
Implicit Types (c s : list (frame T)) (t v : ptree T) (F X : list (Z * node T)).

Lemma at_place_app s c t F h : at_place (s ++ c) t F h <-> at_place c (plug s t) F h.
Proof.
  revert t; induction s as [|[p k r|l p k] s IH]; intros t; [done|..]; cbn [app plug].
  - by rewrite at_place_FL, IH.
  - by rewrite at_place_FR, IH.
Qed.

(** [replace] hangs [v] where [u] was and leaves the cell of [u] alone. *)
Lemma replace_ok c u n v par F cs h (Q : Z -> _ -> Prop) :
  hst h cs -> cs ≡ₚ (u, n) :: cells par v ++ ccells u c ++ F -> parent n = top c ->
  (forall h', at_place c v ((u, n) :: F) h' -> Q (croot (root_of v) c) h') ->
  wp (replace (croot u c) u (root_of v)) Q h.
Proof.
  intros Hs Hp Hpar HQ. unfold replace. apply wp_bind.
  eapply (replace_child_ok c u n _ (cells par v ++ F)); [exact Hs|rewrite Hp; solve_Permutation|done|].
  clear h Hs Hp cs. intros h Hs. destruct v as [|l p k r].
  - cbn [root_of Z.eqb]. apply wp_bind, wp_ret, wp_ret, HQ. unfold at_place. hst_permute.
  - cbn [root_of] in *. cbn in Hs. erewrite (ptr_ne _ _ p) by (done || cell_in).
    apply wp_bind. run_get. wp_step. apply wp_ret, HQ. unfold at_place. rewrite <- Hpar. hst_permute.
Qed.

(** Walking down to the first node of a tree: the path consists of left steps. *)
Definition left_steps s : Prop := Forall (fun f => match f with FL _ _ _ => True | FR _ _ _ => False end) s.

Lemma left_steps_before s : left_steps s -> cbefore s = [].
Proof. induction 1 as [|[] ? ? ? IH]; [done|exact IH|done]. Qed.

Lemma minimum_loop_ok fuel F c : forall t h (Q : Z -> _ -> Prop),
  (tsize t <= fuel)%nat -> t <> Leaf -> at_place c t F h ->
  (forall s y k R, left_steps s -> t = plug s (Node Leaf y k R) -> Q y h) ->
  wp (minimum_loop fuel (root_of t)) Q h.
Proof.
  revert c; induction fuel as [|fuel IH]; intros c t h Q Hf Ht Ha HQ;
    (destruct t as [|l p k r]; [done|]); [cbn in Hf; lia|]. cbn [minimum_loop root_of]. cbn in Hf.
  show_cells Ha Hs. run_get. destruct l as [|ll q kq lr].
  - apply wp_ret. by apply (HQ [] p k r); [constructor|].
  - cbn [root_of]. cbn in Hs. erewrite (ptr_ne _ _ q) by (done || cell_in).
    apply (IH (FL p k r :: c) (Node ll q kq lr)); [cbn in *; lia|done|by apply at_place_FL|].
    intros s y k' R Hs' E. apply (HQ (s ++ [FL p k r]) y k' R).
    + apply Forall_app. split; [done|]. by repeat constructor.
    + rewrite E. clear. generalize (Node Leaf y k' R). induction s as [|[] s IHs]; intros t; [done|..]; apply IHs.
Qed.
End replacing.

(** ** Unlinking the root *)
Section unlinking.
Context {T : Type}.
Implicit Types (c s : list (frame T)) (t v A B R : ptree T) (F X : list (Z * node T)).

Lemma croot_app w s c : croot w (s ++ c) = croot (croot w s) c.
Proof. revert w; induction s as [|[] s IH]; intros w; [done|..]; apply IH. Qed.

(** A child that is there gets a new parent. *)
Lemma adopt_ok b par np F cs h (Q : unit -> _ -> Prop) :
  hst h cs -> cs ≡ₚ cells par b ++ F -> b <> Leaf ->
  (forall h', hst h' (cells np b ++ F) -> Q () h') ->
  wp (assign (root_of b) (@set_parent T np)) Q h.
Proof.
  intros Hs Hp Hb HQ. pose proof (set_parent_ok b par np F cs h Q Hs Hp HQ) as Hw.
  destruct b as [|l p k r]; [done|]. cbn [root_of] in *. rewrite Hp in Hs.
  by erewrite (ptr_ne _ _ p) in Hw by (done || left).
Qed.

Ltac run_adopt b par v :=
  apply wp_bind;
  match goal with
  | Hs : hst ?h ?cs |- wp _ _ ?h =>
      take_part (cells par b) cs ltac:(fun F =>
        apply (adopt_ok b par v F cs h);
        [exact Hs|solve_Permutation|done|clear h Hs; intros h Hs; cbn in Hs])
  end.

(** The node [y], without a left child, takes the place of the root [z]. *)
Lemma promote_ok A B z kz zr y ky par F h (Q : Z -> _ -> Prop) :
  hst h ((z, mkNode (root_of A) zr 0 kz) :: cells z A ++ cells par (Node Leaf y ky B) ++ F) ->
  A <> Leaf ->
  (forall n h', at_place [] (Node A y ky B) ((z, n) :: F) h' -> Q y h') ->
  wp (r ← replace z z y; zl ← get left_ z; _ ← assign y (set_left zl);
      yl ← get left_ y; _ ← assign yl (set_parent y); mret r) Q h.
Proof.
  intros Hs HA HQ. apply wp_bind.
  eapply (replace_ok [] z (mkNode (root_of A) zr 0 kz) (Node Leaf y ky B) par (cells z A ++ F));
    [exact Hs|cbn; solve_Permutation|done|].
  clear h Hs. intros h Hs. unfold at_place in Hs. cbn in Hs. cbn [root_of croot].
  run_get. run_set. run_get. run_adopt A z y. apply wp_ret.
  eapply HQ. unfold at_place. cbn. hst_permute.
Qed.

Lemma elems_minimum s y ky R :
  left_steps s -> elems (plug s (Node Leaf y ky R)) = (y, ky) :: elems (plug s R).
Proof. intros Hs. rewrite !elems_plug, (left_steps_before s Hs). done. Qed.

Lemma plug_node f s t : plug (f :: s) t <> Leaf.
Proof.
  revert f t; induction s as [|f' s IH]; intros f t; [by destruct f|]. destruct f; apply (IH f').
Qed.

(** The successor of the root lies deeper than its right child. *)
Lemma detach_ok A z kz s f y ky R F h (Q : Z -> _ -> Prop) :
  at_place ((f :: s) ++ [FR A z kz]) (Node Leaf y ky R) F h ->
  (forall par h', hst h' ((z, mkNode (root_of A) (root_of (plug (f :: s) R)) 0 kz) :: cells z A ++
     cells par (Node Leaf y ky (plug (f :: s) R)) ++ F) -> Q z h') ->
  wp (yr ← get right_ y; r ← replace z y yr; zr ← get right_ z; _ ← assign y (set_right zr);
      yr ← get right_ y; _ ← assign yr (set_parent y); mret r) Q h.
Proof.
  intros Ha HQ. unfold at_place in Ha. cbn [cells root_of] in Ha.
  apply wp_bind, wp_get. eapply wp_deref; [exact Ha|left|]. cbn [right_].
  apply wp_bind.
  assert (Hz : z = croot y ((f :: s) ++ [FR A z kz])) by (by rewrite croot_app).
  rewrite Hz at 1.
  eapply (replace_ok _ y _ R y F); [exact Ha|cbn [app]; solve_Permutation|done|].
  clear h Ha. intros h Ha. rewrite croot_app. cbn [croot]. apply at_place_app in Ha.
  pose proof (plug_node f s R) as HB.
  remember (plug (f :: s) R) as B eqn:EB. show_cells Ha Hs. clear Ha.
  run_get. run_set. run_get. run_adopt B z y. apply wp_ret.
  eapply HQ. cbn. hst_permute.
Qed.
Lemma top_not_root A z kz s F h t :
  at_place (s ++ [FR A z kz]) t F h -> (top (s ++ [FR A z kz]) =? z) = match s with [] => true | _ => false end.
Proof.
  intros Ha. destruct s as [|f s]; [apply Z.eqb_refl|]. apply at_place_app in Ha.
  assert (E : forall p k l r, at_place [FR A z kz] (plug s (Node l p k r)) F h -> (p =? z) = false).
  { intros p k l r Ha'. apply Z.eqb_neq. intros ->.
    assert (hst h ((z, mkNode (root_of A) (root_of (plug s (Node l z k r))) 0 kz) ::
              cells z (plug s (Node l z k r)) ++ cells z A ++ F)) as Hs.
    { show_cells Ha' Hs. hst_permute. }
    destruct (hst_head_fresh _ _ _ _ Hs) as [Hf _]. apply Hf.
    rewrite fmap_app, elem_of_app, cells_keys, elems_plug. left. cbn.
    apply list_elem_of_fmap. exists (z, k). split; [done|].
    rewrite !elem_of_app, elem_of_cons. tauto. }
  destruct f as [p k r|l p k]; exact (E _ _ _ _ Ha).
Qed.

Lemma root_nonzero h cs par t :
  hst h cs -> cells par t ⊆+ cs -> t <> Leaf -> (root_of t =? 0) = false.
Proof.
  intros Hs Hsub Ht. destruct t as [|l p k r]; [done|]. cbn [root_of].
  apply submseteq_Permutation in Hsub as (X & HX). rewrite HX in Hs. eapply ptr_ne; [exact Hs|]. left.
Qed.

Lemma unlink_both A B z kz F h (Q : Z -> _ -> Prop) :
  A <> Leaf -> B <> Leaf -> at_place [] (Node A z kz B) F h ->
  (forall t n h', at_place [] t ((z, n) :: F) h' -> elems t = elems A ++ elems B -> Q (root_of t) h') ->
  wp (unlink z z (root_of A) (root_of B)) Q h.
Proof.
  intros HA HB Ha HQ. unfold unlink.
  show_cells Ha Hs.
  rewrite (root_nonzero h _ z A Hs ltac:(solve_submseteq) HA), (root_nonzero h _ z B Hs ltac:(solve_submseteq) HB).
  apply wp_bind. unfold subtree_minimum. apply wp_bind. eapply wp_nodes; [exact Hs|].
  eapply minimum_loop_ok; [|exact HB|apply at_place_FR; exact Ha|].
  { cbn. rewrite !length_app, !length_cells. lia. }
  intros s y ky R Hls ->. clear Hs HB.
  assert (Ha' : at_place (s ++ [FR A z kz]) (Node Leaf y ky R) F h) by (by apply at_place_app, at_place_FR).
  clear Ha. apply wp_bind, wp_get. eapply wp_deref; [exact Ha'|left|]. cbn [parent].
  rewrite (top_not_root _ _ _ _ _ _ _ Ha'). rewrite elems_minimum in HQ by done.
  assert (HK : forall B' zr par h', B' = plug s R ->
    hst h' ((z, mkNode (root_of A) zr 0 kz) :: cells z A ++ cells par (Node Leaf y ky B') ++ F) ->
    wp (r ← replace z z y; zl ← get left_ z; _ ← assign y (set_left zl);
        yl ← get left_ y; _ ← assign yl (set_parent y); mret r) Q h').
  { intros B' zr par h' -> Hs'. eapply promote_ok; [exact Hs'|done|]. intros n h'' Ha.
    apply (HQ (Node A y ky (plug s R)) n h''); [exact Ha|done]. }
  apply wp_bind. destruct s as [|f s].
  - apply wp_ret. apply (HK R y z); [done|]. show_cells Ha' Hs. hst_permute.
  - eapply detach_ok; [exact Ha'|]. intros par h' Hs'. by eapply HK.
Qed.
(** Unlinking the root leaves the other keys in order. *)
Lemma unlink_ok A B z kz F h (Q : Z -> _ -> Prop) :
  at_place [] (Node A z kz B) F h ->
  (forall t n h', at_place [] t ((z, n) :: F) h' -> elems t = elems A ++ elems B -> Q (root_of t) h') ->
  wp (unlink z z (root_of A) (root_of B)) Q h.
Proof.
  intros Ha HQ. destruct (decide (root_of A = 0)) as [EA|EA]; [|destruct (decide (root_of B = 0)) as [EB|EB]].
  - unfold unlink. rewrite (proj2 (Z.eqb_eq _ _) EA). show_cells Ha Hs.
    eapply (replace_ok [] z _ B z (cells z A ++ F)); [exact Hs|cbn; solve_Permutation|done|].
    intros h' Ha'. destruct A as [|l p k r].
    + eapply HQ; [|done]. unfold at_place in Ha' |- *. exact Ha'.
    + exfalso. cbn in EA. subst p. eapply (hst_ptr _ _ 0); [exact Hs|cbn; cell_in|done].
  - unfold unlink. rewrite (proj2 (Z.eqb_neq _ _) EA), (proj2 (Z.eqb_eq _ _) EB). show_cells Ha Hs.
    eapply (replace_ok [] z _ A z (cells z B ++ F)); [exact Hs|cbn; solve_Permutation|done|].
    intros h' Ha'. destruct B as [|l p k r].
    + eapply HQ; [|by rewrite app_nil_r]. exact Ha'.
    + exfalso. cbn in EB. subst p. eapply (hst_ptr _ _ 0); [exact Hs|cbn; cell_in|done].
  - by eapply unlink_both; [intros ->|intros ->|..].
Qed.

Lemma maximum_loop_ok fuel F c : forall t h (Q : Z -> _ -> Prop),
  (tsize t <= fuel)%nat -> t <> Leaf -> at_place c t F h ->
  (forall c' L y k, at_place c' (Node L y k Leaf) F h -> cafter c' = cafter c ->
     cbefore c ++ elems t = cbefore c' ++ elems L ++ [(y, k)] -> Q y h) ->
  wp (maximum_loop fuel (root_of t)) Q h.
Proof.
  revert c; induction fuel as [|fuel IH]; intros c t h Q Hf Ht Ha HQ;
    (destruct t as [|l p k r]; [done|]); [cbn in Hf; lia|]. cbn [maximum_loop root_of]. cbn in Hf.
  show_cells Ha Hs. run_get. destruct r as [|rl q kq rr].
  - apply wp_ret. by apply (HQ c l p k).
  - cbn [root_of]. cbn in Hs. erewrite (ptr_ne _ _ q) by (done || cell_in).
    apply (IH (FR l p k :: c) (Node rl q kq rr)); [cbn in *; lia|done|by apply at_place_FR|].
    intros c' L y k' Ha' Haf HE. apply (HQ c' L y k'); [done..|]. rewrite <- HE. app_eq.
Qed.
End unlinking.

(** ** The operations *)
Section operations.
Context {T : Type} (comp : T -> T -> bool).
Implicit Types (c s : list (frame T)) (t v : ptree T) (F X : list (Z * node T)).

(** [Comp] is a strict weak order, as the template requires of it. *)
Hypothesis comp_asym : forall x y, comp x y = true -> comp y x = false.
Hypothesis comp_le_trans : forall x y z, comp y x = false -> comp z y = false -> comp z x = false.

Lemma comp_lt_le x y z : comp x y = true -> comp x z = false -> comp z y = true.
Proof.
  intros Hxy Hxz. destruct (comp z y) eqn:E; [done|].
  by rewrite (comp_le_trans y z x E Hxz) in Hxy.
Qed.

(** Keys in order. *)
Definition sorted (es : list (Z * T)) : Prop :=
  StronglySorted (fun e f => comp (f.2) (e.2) = false) es.

(** What the object stands for: the keys in order with their nodes, beside which the
    memory holds [F]. *)
Definition holds (o : splay_tree) (es : list (Z * T)) F (h : mem (node T)) : Prop :=
  p_size o = u64 (Z.of_nat (length es)) /\
  exists t, root o = root_of t /\ elems t = es /\ at_place [] t F h.

(** The node [p] that a search for [k] arrives below. *)
Definition around (k : T) c : Prop :=
  Forall (fun e => comp (e.2) k = true) (cbefore c) /\
  Forall (fun e => comp (e.2) k = false) (cafter c).

Lemma sorted_app es es' :
  sorted (es ++ es') <-> sorted es /\ sorted es' /\
    (forall e f, e ∈ es -> f ∈ es' -> comp (f.2) (e.2) = false).
Proof. unfold sorted. rewrite StronglySorted_app. naive_solver. Qed.

(** The elements of a subtree whose root lies to one side of [k]. *)
Lemma sorted_node l p zk r k :
  sorted (elems (Node l p zk r)) ->
  (comp zk k = true -> Forall (fun e => comp (e.2) k = true) (elems l ++ [(p, zk)])) /\
  (comp zk k = false -> Forall (fun e => comp (e.2) k = false) ((p, zk) :: elems r)) /\
  sorted (elems l) /\ sorted (elems r).
Proof.
  cbn. intros Hs. apply sorted_app in Hs as (Hl & Hr & Hlr). inversion Hr as [|? ? Hr' Hf]; subst.
  split_and!; [intros Hk|intros Hk|done|done].
  - apply Forall_app. split; [|by constructor]. apply Forall_forall. intros e He.
    eapply comp_lt_le; [exact Hk|]. apply (Hlr e (p, zk)); [done|left].
  - constructor; [done|]. eapply Forall_impl; [exact Hf|]. cbn. intros e He.
    eapply comp_le_trans; [exact Hk|exact He].
Qed.

Lemma insert_descend_ok fuel k F : forall t c h (Q : Z -> _ -> Prop),
  (tsize t < fuel)%nat -> at_place c t F h -> sorted (elems t) -> around k c ->
  (forall c', at_place c' Leaf F h -> around k c' -> croot 0 c' = croot (root_of t) c ->
     cbefore c ++ elems t ++ cafter c = cbefore c' ++ cafter c' -> Q (top c') h) ->
  wp (insert_descend comp fuel (root_of t) (top c) k) Q h.
Proof.
  induction fuel as [|fuel IH]; [lia|]. intros t c h Q Hf Ha Hst [Hb Haf] HQ. cbn [insert_descend].
  destruct t as [|l p zk r].
  { apply wp_ret. by apply (HQ c). }
  destruct (sorted_node l p zk r k Hst) as (HL & HR & Hsl & Hsr). cbn in Hf.
  show_cells Ha Hs. cbn [root_of]. erewrite (ptr_ne _ _ p) by (done || cell_in). run_get.
  destruct (comp zk k) eqn:Hk; run_get; clear Hs.
  - apply (IH r (FR l p zk :: c)); [lia|by apply at_place_FR|done| |].
    + split; [|done]. cbn. apply Forall_app. auto.
    + intros c' Ha' Har Hroot HE. apply HQ; [done..|]. rewrite <- HE. app_eq.
  - apply (IH l (FL p zk r :: c)); [lia|by apply at_place_FL|done| |].
    + split; [done|]. cbn. change ((p, zk) :: elems r ++ cafter c) with (((p, zk) :: elems r) ++ cafter c).
      apply Forall_app. auto.
    + intros c' Ha' Har Hroot HE. apply HQ; [done..|]. rewrite <- HE. app_eq.
Qed.
Lemma around_sorted k new c es :
  es = cbefore c ++ cafter c -> sorted es -> around k c -> sorted (cbefore c ++ (new, k) :: cafter c).
Proof.
  intros -> Hs [Hb Ha]. apply sorted_app in Hs as (Hsb & Hsa & Hba). apply sorted_app. split_and!; [done| |].
  - by constructor.
  - intros e f He Hf. rewrite Forall_forall in Hb. apply elem_of_cons in Hf as [->|Hf]; [|auto].
    cbn. apply comp_asym. auto.
Qed.

(** Hanging a new node below the place a search arrived at. *)
Lemma attach_ok k new c F h (Q : Z -> _ -> Prop) :
  at_place c Leaf ((new, mkNode 0 0 (top c) k) :: F) h -> around k c ->
  (forall h', at_place c (Node Leaf new k Leaf) F h' -> Q (croot new c) h') ->
  wp (if top c =? 0 then mret new else
      pk ← get key (top c);
      _ ← (if comp pk k then assign (top c) (set_right new) else assign (top c) (set_left new));
      mret (croot 0 c)) Q h.
Proof.
  intros Ha [Hb Haf] HQ. show_cells Ha Hs.
  destruct c as [|[p pk r|l p pk] c]; cbn [top croot]; cbn in Hs, Hb, Haf.
  - apply wp_ret, HQ. unfold at_place. cbn. hst_permute.
  - erewrite (ptr_ne _ _ p) by (done || cell_in). run_get.
    apply Forall_cons in Haf as [Hk _]. cbn in Hk. rewrite Hk. cbn iota. clear Ha. run_set. apply wp_ret, HQ. unfold at_place. hst_permute.
  - erewrite (ptr_ne _ _ p) by (done || cell_in). run_get.
    rewrite !Forall_app, Forall_cons in Hb. destruct Hb as (_ & _ & Hk & _).
    cbn in Hk. rewrite Hk. cbn iota. clear Ha. run_set. apply wp_ret, HQ. unfold at_place. hst_permute.
Qed.

(** Inserting a key ends, with the new node between the smaller keys and the others
    and the keys in order, and counts it. *)
Theorem splay_tree_insert_correct o es F h new k :
  holds o es F h -> sorted es -> new <> 0 -> new ∉ es.*1 ++ F.*1 ->
  exists o' h' a b, splay_tree_insert comp o new k h = Some (o', h') /\ es = a ++ b /\
    Forall (fun e => comp (e.2) k = true) a /\ Forall (fun e => comp (e.2) k = false) b /\
    holds o' (a ++ (new, k) :: b) F h' /\ sorted (a ++ (new, k) :: b).
Proof.
  intros (Hn & t & Hr & <- & Ha) Hs Hnew Hfr.
  enough (wp (splay_tree_insert comp o new k) (fun o' h' => exists a b, elems t = a ++ b /\
    Forall (fun e => comp (e.2) k = true) a /\ Forall (fun e => comp (e.2) k = false) b /\
    holds o' (a ++ (new, k) :: b) F h' /\ sorted (a ++ (new, k) :: b)) h) as
    (o' & h' & E & a & b & H) by (by exists o', h', a, b).
  unfold splay_tree_insert. apply wp_bind. eapply wp_nodes; [exact Ha|]. rewrite Hr.
  apply wp_bind. apply (insert_descend_ok _ k F t []); [|done|done|by split|].
  { cbn. rewrite length_app, length_cells. lia. }
  intros c Hc Har Hroot HE. cbn in HE. rewrite app_nil_r in HE.
  rewrite (proj2 (Z.eqb_neq new 0)) by done.
  apply wp_bind. eapply wp_place; [exact Hc|done| |].
  { pose proof (cells_plug c Leaf) as Hp. cbn in Hp |- *. rewrite fmap_app, <- Hp, cells_keys, elems_plug.
    cbn. by rewrite <- HE. }
  clear h Ha Hc. intros h Hc. cbn [root_of] in Hc.
  cbn in Hroot. rewrite <- Hroot.
  apply wp_bind. apply attach_ok with (F := F); [unfold at_place; hst_permute|done|].
  clear h Hc. intros h Hc. apply wp_bind. eapply splay_ok; [exact Hc|]. clear h Hc.
  intros a' b' h Hc He. apply wp_ret. exists (cbefore c), (cafter c).
  split_and!; [done|apply Har|apply Har| |by apply around_sorted with (es := elems t)].
  split.
  - cbn. rewrite Hn, HE, !length_app. cbn. unfold u64. rewrite wrap_add_l. f_equal. lia.
  - exists (Node a' new k b'). split_and!; [done|exact He|done].
Qed.
(** ** Looking up *)

(** Two keys neither of which is before the other. *)
Definition equivalent (x y : T) : Prop := comp x y = false /\ comp y x = false.

Lemma comp_lt_not_eq x k : comp x k = true \/ comp k x = true -> ~ equivalent x k.
Proof. unfold equivalent. intros [H|H] [H1 H2]; congruence. Qed.

Lemma find_loop_ok fuel k F : forall t c h (Q : Z -> _ -> Prop),
  (tsize t < fuel)%nat -> at_place c t F h -> sorted (elems t) ->
  (forall c' a z zk b, at_place c' (Node a z zk b) F h -> equivalent zk k ->
     croot z c' = croot (root_of t) c ->
     cbefore c ++ elems t ++ cafter c = cbefore c' ++ elems (Node a z zk b) ++ cafter c' -> z <> 0 -> Q z h) ->
  (Forall (fun e => ~ equivalent (e.2) k) (elems t) -> Q 0 h) ->
  wp (find_loop comp fuel (root_of t) k) Q h.
Proof.
  induction fuel as [|fuel IH]; [lia|]. intros t c h Q Hf Ha Hst HQ H0. cbn [find_loop].
  destruct t as [|l p zk r].
  { apply wp_ret, H0. constructor. }
  destruct (sorted_node l p zk r k Hst) as (HL & HR & Hsl & Hsr). cbn in Hf.
  show_cells Ha Hs. cbn [root_of]. erewrite (ptr_ne _ _ p) by (done || cell_in). run_get.
  destruct (comp zk k) eqn:Hk; [run_get; clear Hs|destruct (comp k zk) eqn:Hk'; [run_get; clear Hs|]].
  - apply (IH r (FR l p zk :: c)); [lia|by apply at_place_FR|done| |].
    + intros c' a z zk' b Ha' He Hroot HE. apply (HQ c' a z zk' b); [done..|]. rewrite <- HE. app_eq.
    + intros Hn. apply H0. cbn. rewrite cons_middle, app_assoc, Forall_app. split; [|done].
      eapply Forall_impl; [by apply HL|]. cbn. intros e He. apply comp_lt_not_eq. by left.
  - apply (IH l (FL p zk r :: c)); [lia|by apply at_place_FL|done| |].
    + intros c' a z zk' b Ha' He Hroot HE. apply (HQ c' a z zk' b); [done..|]. rewrite <- HE. app_eq.
    + intros Hn. apply H0. cbn. apply Forall_app. split; [done|].
      assert (Hafter : forall x, comp x zk = false -> ~ equivalent x k).
      { intros x Hx. apply comp_lt_not_eq. right. destruct (comp k x) eqn:E; [done|].
        by rewrite (comp_le_trans zk x k Hx E) in Hk'. }
      destruct (sorted_node l p zk r zk Hst) as (_ & HR' & _).
      eapply Forall_impl; [apply HR'|cbn; auto]. by destruct (comp zk zk) eqn:E; [rewrite (comp_asym _ _ E) in E|].
  - apply wp_ret. apply (HQ c l p zk r); try done. by eapply (hst_ptr _ _ p); [exact Hs|cell_in].
Qed.

Lemma find_ok o es F h k (Q : Z -> _ -> Prop) :
  holds o es F h -> sorted es ->
  (forall c' a z zk b, at_place c' (Node a z zk b) F h -> equivalent zk k -> croot z c' = root o ->
     es = cbefore c' ++ elems (Node a z zk b) ++ cafter c' -> z <> 0 -> Q z h) ->
  (Forall (fun e => ~ equivalent (e.2) k) es -> Q 0 h) ->
  wp (splay_tree_find comp o k) Q h.
Proof.
  intros (_ & t & Hr & <- & Ha) Hs HQ H0. unfold splay_tree_find. apply wp_bind.
  eapply wp_nodes; [exact Ha|]. rewrite Hr in *. apply (find_loop_ok _ k F t []); [|done|done| |done].
  - cbn. rewrite length_app, length_cells. lia.
  - intros c' a z zk b Ha' He Hroot HE. apply (HQ c' a z zk b); [done..|].
    rewrite <- HE. cbn. by rewrite app_nil_r.
Qed.

(** Finding a key ends, leaves the memory as it is, and answers with the node of an
    equivalent key if there is one, and with [nullptr] otherwise. *)
Theorem splay_tree_find_correct o es F h k :
  holds o es F h -> sorted es ->
  exists z, splay_tree_find comp o k h = Some (z, h) /\
    ((exists zk, (z, zk) ∈ es /\ equivalent zk k /\ z <> 0) \/
     (z = 0 /\ Forall (fun e => ~ equivalent (e.2) k) es)).
Proof.
  intros Hh Hs.
  enough (wp (splay_tree_find comp o k) (fun z h' => h' = h /\
    ((exists zk, (z, zk) ∈ es /\ equivalent zk k /\ z <> 0) \/
     (z = 0 /\ Forall (fun e => ~ equivalent (e.2) k) es))) h) as
    (z & h' & E & -> & H) by (by exists z).
  eapply find_ok; [done..| |].
  - intros c a z zk b _ He _ -> Hz. split; [done|left]. exists zk. split_and!; [|done..].
    rewrite elem_of_app, elem_of_app. right; left. cbn. rewrite elem_of_app. right; left.
  - intros Hn. split; [done|by right].
Qed.
(** Erasing a key ends: it removes one node of an equivalent key, keeping the others in
    order, and counts it; without such a node it changes nothing. *)
Theorem splay_tree_erase_correct o es F h k :
  holds o es F h -> sorted es ->
  exists o' h', splay_tree_erase comp o k h = Some (o', h') /\
    ((exists a z zk b, es = a ++ (z, zk) :: b /\ equivalent zk k /\ holds o' (a ++ b) F h' /\ sorted (a ++ b)) \/
     (Forall (fun e => ~ equivalent (e.2) k) es /\ o' = o /\ h' = h)).
Proof.
  intros Hh Hs.
  enough (wp (splay_tree_erase comp o k) (fun o' h' =>
    ((exists a z zk b, es = a ++ (z, zk) :: b /\ equivalent zk k /\ holds o' (a ++ b) F h' /\ sorted (a ++ b)) \/
     (Forall (fun e => ~ equivalent (e.2) k) es /\ o' = o /\ h' = h))) h) as
    (o' & h' & E & H) by (by exists o', h').
  unfold splay_tree_erase. apply wp_bind. eapply find_ok; [done..| |].
  2: { intros Hn. apply wp_ret. by right. }
  intros c a z zk b Ha He Hroot Hes Hz. rewrite (proj2 (Z.eqb_neq z 0)) by done. rewrite <- Hroot.
  apply wp_bind. eapply splay_ok; [exact Ha|]. clear Ha. intros A B h' Ha HE. rewrite <- Hes in HE.
  show_cells Ha Hs'. do 2 run_get. clear Hs'.
  apply wp_bind. eapply unlink_ok; [exact Ha|]. clear Ha. intros t n h'' Ha Ht.
  unfold at_place in Ha. cbn in Ha. apply wp_bind. wp_step. wp_step. left.
  exists (elems A), z, zk, (elems B). rewrite <- HE in Hs |- *. split_and!; [done|done| |].
  - destruct Hh as [Hn _]. rewrite <- HE in Hn. split.
    + cbn in *. rewrite Hn, !length_app. cbn. unfold u64. rewrite wrap_sub_l. f_equal. lia.
    + exists t. split_and!; [done|done|]. unfold at_place. cbn. hst_permute.
  - cbn in Hs. apply sorted_app in Hs as (Hsa & Hsb & Hab). apply sorted_app.
    inversion Hsb; subst. split_and!; [done..|]. intros e f He' Hf. apply Hab; [done|by right].
Qed.

(** [minimum] and [maximum] read the first and the last key; on an empty tree they
    follow a null pointer. *)
Theorem splay_tree_extremes_correct o es F h :
  holds o es F h ->
  splay_tree_minimum o h = (e ← head es; Some (e.2, h)) /\
  splay_tree_maximum o h = (e ← last es; Some (e.2, h)).
Proof.
  intros (_ & t & Hr & <- & Ha). unfold splay_tree_minimum, splay_tree_maximum. rewrite Hr.
  assert (t = Leaf \/ t <> Leaf) as [->|Ht] by (destruct t; auto).
  { unfold subtree_minimum, subtree_maximum, nodes, mbind, hp_bind. by destruct (size h). }
  assert (Hf : (tsize t <= length (cells 0 t ++ ccells (root_of t) [] ++ F))%nat)
    by (rewrite length_app, length_cells; lia).
  split.
  - enough (wp (m ← subtree_minimum (root_of t); get key m)
      (fun k h' => h' = h /\ (e ← head (elems t); Some e.2) = Some k) h) as (k & h' & -> & -> & E).
    { destruct (elems t); [done|]. by injection E as <-. }
    apply wp_bind. unfold subtree_minimum. apply wp_bind. eapply wp_nodes; [exact Ha|].
    eapply minimum_loop_ok; [exact Hf|exact Ht|exact Ha|].
    intros s y k R Hs ->. rewrite elems_minimum by done. 
    apply wp_get. eapply wp_deref; [apply (at_place_plug s) in Ha; exact Ha|left|done].
  - enough (wp (m ← subtree_maximum (root_of t); get key m)
      (fun k h' => h' = h /\ (e ← last (elems t); Some e.2) = Some k) h) as (k & h' & -> & -> & E).
    { destruct (last (elems t)); [|done]. by injection E as <-. }
    apply wp_bind. unfold subtree_maximum. apply wp_bind. eapply wp_nodes; [exact Ha|].
    eapply maximum_loop_ok; [exact Hf|exact Ht|exact Ha|].
    intros c L y k Hc _ HE. cbn in HE. rewrite HE, app_assoc, last_snoc.
    apply wp_get. eapply wp_deref; [exact Hc|left|done].
Qed.
(** ** Histories of calls *)

(** The address [new] gives in each state of the memory. *)
Variable alloc : mem (node T) -> Z.
Hypothesis alloc_fresh : forall h, h !! alloc h = None /\ alloc h <> 0.

Inductive op : Type := Insert (k : T) | Find (k : T) | Erase (k : T).

Definition run_op (t : splay_tree) (p : op) : hp (node T) (splay_tree * Z) :=
  match p with
  | Insert k =>
      new ← (fun h => Some (alloc h, h));
      t ← splay_tree_insert comp t new k;
      mret (t, new)
  | Find k => z ← splay_tree_find comp t k; mret (t, z)
  | Erase k => t ← splay_tree_erase comp t k; mret (t, 0)
  end.

Fixpoint run_ops (t : splay_tree) (ps : list op) : hp (node T) (splay_tree * list Z) :=
  match ps with
  | [] => mret (t, [])
  | p :: ps => '(t, r) ← run_op t p; '(t, rs) ← run_ops t ps; mret (t, r :: rs)
  end.

(** The same calls on the list of the keys in order. *)
Inductive spec_step : list (Z * T) -> op -> Z -> list (Z * T) -> Prop :=
  | spec_insert a b new k :
      Forall (fun e => comp (e.2) k = true) a -> Forall (fun e => comp (e.2) k = false) b ->
      new ∉ (a ++ b).*1 -> spec_step (a ++ b) (Insert k) new (a ++ (new, k) :: b)
  | spec_find es z zk k : (z, zk) ∈ es -> equivalent zk k -> spec_step es (Find k) z es
  | spec_find_none es k : Forall (fun e => ~ equivalent (e.2) k) es -> spec_step es (Find k) 0 es
  | spec_erase a z zk b k : equivalent zk k -> spec_step (a ++ (z, zk) :: b) (Erase k) 0 (a ++ b)
  | spec_erase_none es k : Forall (fun e => ~ equivalent (e.2) k) es -> spec_step es (Erase k) 0 es.

Inductive spec_run : list (Z * T) -> list op -> list Z -> list (Z * T) -> Prop :=
  | spec_done es : spec_run es [] [] es
  | spec_more es p r es' ps rs es'' :
      spec_step es p r es' -> spec_run es' ps rs es'' -> spec_run es (p :: ps) (r :: rs) es''.

Lemma keys_fresh o es F h p : holds o es F h -> h !! p = None -> p ∉ es.*1 ++ F.*1.
Proof.
  intros (_ & t & _ & <- & Ha) Hp. rewrite <- (cells_keys 0), <- fmap_app.
  unfold at_place in Ha. cbn in Ha. destruct Ha as [-> _ _]. by apply not_elem_of_list_to_map.
Qed.

Lemma run_op_ok o es F h p :
  holds o es F h -> sorted es ->
  wp (run_op o p) (fun '(o', r) h' => exists es', spec_step es p r es' /\ holds o' es' F h' /\ sorted es') h.
Proof.
  intros Hh Hs. destruct p as [k|k|k]; cbn [run_op].
  - apply wp_bind. exists (alloc h), h. split; [done|]. destruct (alloc_fresh h) as [Hf H0].
    pose proof (keys_fresh _ _ _ _ _ Hh Hf) as Hk.
    destruct (splay_tree_insert_correct o es F h (alloc h) k Hh Hs H0 Hk)
      as (o' & h' & a & b & E & -> & Ha & Hb & Hh' & Hs').
    apply wp_bind. exists o', h'. split; [done|]. apply wp_ret. eexists. split_and!; [|done..].
    constructor; [done..|]. by apply not_elem_of_app in Hk as [? _].
  - destruct (splay_tree_find_correct o es F h k Hh Hs) as (z & E & H).
    apply wp_bind. exists z, h. split; [done|]. apply wp_ret. exists es. split_and!; [|done..].
    destruct H as [(zk & Hin & He & _)|[-> Hn]]; [by eapply spec_find|by constructor].
  - destruct (splay_tree_erase_correct o es F h k Hh Hs) as (o' & h' & E & H).
    apply wp_bind. exists o', h'. split; [done|]. apply wp_ret.
    destruct H as [(a & z & zk & b & -> & He & Hh' & Hs')|(Hn & -> & ->)].
    + exists (a ++ b). split_and!; [by econstructor|done..].
    + exists es. split_and!; [by constructor|done..].
Qed.

(** C30: Every history of calls of [insert], [find] and [erase] ends without following a
    wrong pointer, and answers as the same calls on a list of keys in order do; the
    object stands for that list afterwards. *)
Theorem splay_tree_refines ps : forall o es F h,
  holds o es F h -> sorted es ->
  exists o' rs h' es', run_ops o ps h = Some ((o', rs), h') /\ spec_run es ps rs es' /\
    holds o' es' F h' /\ sorted es'.
Proof.
  induction ps as [|p ps IH]; intros o es F h Hh Hs.
  { exists o, [], h, es. split_and!; [done|constructor|done..]. }
  destruct (run_op_ok o es F h p Hh Hs) as ([o1 r] & h1 & E1 & es1 & Hst & Hh1 & Hs1).
  destruct (IH o1 es1 F h1 Hh1 Hs1) as (o' & rs & h' & es' & E & Hr & Hh' & Hs').
  exists o', (r :: rs), h', es'. split_and!; [|by econstructor|done..].
  cbn [run_ops]. unfold mbind at 1, hp_bind at 1. rewrite E1. unfold mbind, hp_bind. by rewrite E.
Qed.
End operations.

(** ** A run *)
Module Demo.

(** Duplicate keys, both kinds of erasure, a miss. *)
Definition demo_ops : list (@op Z) :=
  [Insert 5; Insert 3; Insert 8; Insert 5; Insert 4; Find 4; Find 6; Erase 5; Erase 7; Find 5; Erase 3; Insert 6].

Definition demo_alloc (h : mem (node Z)) : Z := fresh (dom h ∪ {[0]} : gset Z).

Lemma demo_alloc_fresh h : h !! demo_alloc h = None /\ demo_alloc h <> 0.
Proof.
  pose proof (is_fresh (dom h ∪ {[0]} : gset Z)) as Hf. unfold demo_alloc.
  rewrite not_elem_of_union, not_elem_of_dom, not_elem_of_singleton in Hf. exact Hf.
Qed.

Lemma ltb_asym x y : (x <? y) = true -> (y <? x) = false.
Proof. rewrite Z.ltb_lt, Z.ltb_ge. lia. Qed.
Lemma ltb_le_trans x y z : (y <? x) = false -> (z <? y) = false -> (z <? x) = false.
Proof. rewrite !Z.ltb_ge. lia. Qed.

Lemma demo_new : @holds Z splay_tree_new [] [] ∅.
Proof. split; [done|]. exists Leaf. split_and!; [done..|]. split; [done|constructor|by apply not_elem_of_nil]. Qed.

Lemma splay_tree_refines_witness :
  exists o' rs h' es', run_ops Z.ltb demo_alloc splay_tree_new demo_ops ∅ = Some ((o', rs), h') /\
    spec_run Z.ltb [] demo_ops rs es' /\ holds o' es' [] h' /\ sorted Z.ltb es'.
Proof.
  apply (splay_tree_refines Z.ltb ltb_asym ltb_le_trans demo_alloc demo_alloc_fresh demo_ops
           splay_tree_new [] [] ∅ demo_new). constructor.
Defined.

Lemma splay_tree_extremes_correct_witness :
  splay_tree_minimum (@splay_tree_new) (∅ : mem (node Z)) = None /\
  splay_tree_maximum (@splay_tree_new) (∅ : mem (node Z)) = None.
Proof. apply (splay_tree_extremes_correct splay_tree_new [] [] ∅ demo_new). Defined.

Example demo_run :
  (r ← run_ops Z.ltb demo_alloc splay_tree_new demo_ops ∅; Some (splay_tree_size r.1.1, r.1.2)) =
  Some (4, [1; 2; 3; 4; 5; 5; 0; 0; 0; 1; 0; 6]).
Proof. vm_compute. reflexivity. Qed.
End Demo.
