(* ===== verification/Locks.v ===== *)
(** * Spin locks

    Models [src/src/external/hpctoolkit/lib/prof-lean/spinlock.h] (the four
    acquiring functions, the release and the test, over the primitives of
    [atomic-op-gcc.h]), the counters of [atomic.h], and
    [src/src/util/lock.h] ([SpinLock]).

    Threads interleave: one step of a thread makes at most one access to the
    lock word.  What a lock implementation promises is the class [LockProto]:
    mutual exclusion is proved once, against the class; the two lock types of
    the program are instances of it. That threads get on is shown for the first one. *)
From stdpp Require Import base numbers list gmap relations.
From Stdlib Require Import ZArith Lia.
From S2P Require Import Prelude.
Local Open Scope Z_scope.

(** ** Primitives ([atomic-op-gcc.h], [atomic.h])

    Each returns the old value and the new contents of the word. *)
Definition fetch_and_store (w newval : Z) : Z * Z := (w, newval).
Definition compare_and_swap (w oldval newval : Z) : Z * Z :=
  (w, if w =? oldval then newval else w).
Definition fetch_and_add (w val : Z) : Z * Z := (w, i64 (w + val)).

Definition csprof_atomic_increment (w : Z) : Z * Z := fetch_and_add w 1.
Definition csprof_atomic_decrement (w : Z) : Z * Z := fetch_and_add w (-1).
Definition csprof_atomic_swap_l (w new : Z) : Z * Z := fetch_and_store w new.
(** [__sync_add_and_fetch]: the new value is returned. *)
Definition hpcrun_atomicAdd (w val : Z) : Z * Z := let '(_, w') := fetch_and_add w val in (w', w').

(** ** The lock word of [spinlock.h] *)
Definition SPINLOCK_UNLOCKED_VALUE : Z := -1.
Definition SPINLOCK_LOCKED_VALUE : Z := 1.

Definition spinlock_unlock (l : Z) : Z := SPINLOCK_UNLOCKED_VALUE.
Definition spinlock_is_locked (l : Z) : bool := negb (l =? SPINLOCK_UNLOCKED_VALUE).

(** ** Acquiring, step by step *)

(** A call under way goes on in a new place, or returns. *)
Inductive outcome (L : Type) := Spins (l : L) | Returns (b : bool).
Arguments Spins {_}. Arguments Returns {_}.

(** Where a call is: at the head of the [for] loop, at the test of the inner
    [while], in its body, or before the atomic operation.  [i] is the counter of
    the limited variants. *)
Inductive place := AtHead (i : Z) | AtTest (i : Z) | InBody (i : Z) | AtSwap (i : Z).

(** The test of the inner [while]. *)
Definition test_word (i w : Z) : outcome place :=
  if w =? SPINLOCK_UNLOCKED_VALUE then Spins (AtSwap i) else Spins (InBody i).

Definition spinlock_lock (p : place) (w : Z) : Z * outcome place :=
  match p with
  | AtHead i | AtTest i | InBody i => (w, test_word i w)
  | AtSwap i =>
      let '(old, w') := fetch_and_store w SPINLOCK_LOCKED_VALUE in
      (w', if old =? SPINLOCK_UNLOCKED_VALUE then Returns true else Spins (AtHead i))
  end.

(** [limit && (i > limit)]. *)
Definition over (limit i : Z) : bool := negb (limit =? 0) && (limit <? i).

Definition limit_spinlock_lock (limit locked_val : Z) (p : place) (w : Z) : Z * outcome place :=
  match p with
  | AtHead i => (w, if over limit i then Returns false else test_word i w)
  | AtTest i => (w, test_word i w)
  | InBody i => (w, if over limit i then Returns false else test_word (u64 (i + 1)) w)
  | AtSwap i =>
      let '(old, w') := fetch_and_store w SPINLOCK_LOCKED_VALUE in
      (w', if old =? SPINLOCK_UNLOCKED_VALUE then Returns true else Spins (AtHead (u64 (i + 1))))
  end.

(** The body of the inner loop reads the word again. *)
Definition hwt_cas_spinlock_lock (limit locked_val : Z) (p : place) (w : Z) : Z * outcome place :=
  match p with
  | AtHead i | AtTest i => (w, test_word i w)
  | InBody i => (w, if w =? locked_val then Returns false else Spins (AtTest i))
  | AtSwap i =>
      let '(old, w') := compare_and_swap w SPINLOCK_UNLOCKED_VALUE locked_val in
      (w', if old =? SPINLOCK_UNLOCKED_VALUE then Returns true else Spins (AtHead i))
  end.

Definition hwt_limit_spinlock_lock (limit locked_val : Z) (p : place) (w : Z)
  : Z * outcome place :=
  match p with
  | AtHead i | AtTest i => (w, test_word i w)
  | InBody i =>
      (w, if w =? locked_val then Returns false
          else if over limit i then Returns false else Spins (AtTest (u64 (i + 1))))
  | AtSwap i =>
      let '(old, w') := compare_and_swap w SPINLOCK_UNLOCKED_VALUE locked_val in
      (w', if old =? SPINLOCK_UNLOCKED_VALUE then Returns true else Spins (AtHead (u64 (i + 1))))
  end.

(** ** [SpinLock] ([util/lock.h]) *)
Definition tryLock (w : Z) : Z * bool :=
  let '(old, w') := compare_and_swap w 0 1 in (w', old =? 0).
(** One turn of the loop of [lock]. *)
Definition SpinLock_lock (_ : unit) (w : Z) : Z * outcome unit :=
  let '(w', ok) := tryLock w in (w', if ok : bool then Returns true else Spins ()).
Definition SpinLock_unlock (w : Z) : Z := snd (compare_and_swap w 1 0).
Definition isLocked (w : Z) : bool := 0 <? w.

(** ** What a lock promises *)
Class LockProto := {
  lp_call : Type;
  lp_start : lp_call -> Prop;
  lp_inv : lp_call -> Prop;
  lp_word : Z -> Prop;
  lp_free : Z -> Prop;
  lp_step : lp_call -> Z -> Z * outcome lp_call;
  lp_release : Z -> Z;
  lp_start_inv : forall c, lp_start c -> lp_inv c;
  lp_goes_on : forall c w w' c', lp_inv c -> lp_step c w = (w', Spins c') ->
    lp_inv c' /\ (lp_free w' <-> lp_free w);
  lp_refuses : forall c w w', lp_inv c -> lp_step c w = (w', Returns false) ->
    lp_free w' <-> lp_free w;
  lp_acquires : forall c w w', lp_inv c -> lp_step c w = (w', Returns true) ->
    lp_free w /\ ~ lp_free w';
  lp_releases : forall w, lp_word w -> ~ lp_free w -> lp_free (lp_release w);
  lp_word_free : forall w, lp_free w -> lp_word w;
  lp_word_step : forall c w w' o, lp_inv c -> lp_word w -> lp_step c w = (w', o) -> lp_word w';
}.

(** ** Threads around one lock *)
Section threads.
Context `{LockProto}.

Inductive thread := Outside | Acquiring (c : lp_call) | Inside.

(** The lock word and what every thread is doing. *)
Definition config : Type := Z * list thread.

Inductive step : config -> config -> Prop :=
  | step_call w ts t c :
      ts !! t = Some Outside -> lp_start c ->
      step (w, ts) (w, <[t := Acquiring c]> ts)
  | step_spin w ts t c w' c' :
      ts !! t = Some (Acquiring c) -> lp_step c w = (w', Spins c') ->
      step (w, ts) (w', <[t := Acquiring c']> ts)
  | step_return w ts t c w' b :
      ts !! t = Some (Acquiring c) -> lp_step c w = (w', Returns b) ->
      step (w, ts) (w', <[t := if b then Inside else Outside]> ts)
  | step_unlock w ts t :
      ts !! t = Some Inside -> step (w, ts) (lp_release w, <[t := Outside]> ts).

Definition all_outside (s : config) : Prop :=
  lp_free s.1 /\ forall t th, s.2 !! t = Some th -> th = Outside.

(** The lock is free when no thread is inside; otherwise exactly one is. *)
Definition excl (s : config) : Prop :=
  (forall t u, s.2 !! t = Some Inside -> s.2 !! u = Some Inside -> t = u) /\
  (lp_free s.1 <-> forall t, s.2 !! t <> Some Inside) /\
  lp_word s.1 /\
  (forall t c, s.2 !! t = Some (Acquiring c) -> lp_inv c).

Lemma excl_move w w' ts t x y :
  excl (w, ts) -> ts !! t = Some x -> x <> Inside -> y <> Inside ->
  (lp_free w' <-> lp_free w) -> lp_word w' -> (forall c, y = Acquiring c -> lp_inv c) ->
  excl (w', <[t := y]> ts).
Proof.
  intros (Hu & Hf & _ & Hi) Hx Hxi Hyi Hww Hwo Hy. unfold excl; cbn [fst snd] in *.
  assert (forall u, <[t:=y]> ts !! u = Some Inside <-> ts !! u = Some Inside) as He.
  { intros u. destruct (decide (u = t)) as [->|Hne].
    - rewrite list_lookup_insert_eq by (by eapply lookup_lt_Some). split; congruence.
    - by rewrite list_lookup_insert_ne. }
  split_and!.
  - intros u v Hu1 Hv1. apply Hu; by apply He.
  - rewrite Hww, Hf. split; intros Hn u; [rewrite He|rewrite <- He]; apply Hn.
  - exact Hwo.
  - intros u c Hc. destruct (decide (u = t)) as [->|Hne].
    + rewrite list_lookup_insert_eq in Hc by (by eapply lookup_lt_Some).
      apply Hy. congruence.
    + rewrite list_lookup_insert_ne in Hc by done. by eapply Hi.
Qed.

(** A thread that leaves its call keeps the others' invariants. *)
Lemma kept_inv (ts : list thread) (t : nat) x y :
  ts !! t = Some x -> (forall c, y <> Acquiring c) ->
  (forall u c, ts !! u = Some (Acquiring c) -> lp_inv c) ->
  forall u c, <[t := y]> ts !! u = Some (Acquiring c) -> lp_inv c.
Proof.
  intros Hx Hy Hi u c Hc. destruct (decide (u = t)) as [->|Hne].
  - rewrite list_lookup_insert_eq in Hc by (by eapply lookup_lt_Some).
    simplify_eq. by destruct (Hy c).
  - rewrite list_lookup_insert_ne in Hc by done. by eapply Hi.
Qed.

Lemma excl_step s s' : excl s -> step s s' -> excl s'.
Proof.
  intros Hs Hst. destruct Hst as [w ts t c Ht Hc|w ts t c w' c' Ht Hc|w ts t c w' b Ht Hc|w ts t Ht];
  pose proof Hs as (Hu & Hf & Hw & Hi); cbn [fst snd] in *.
  - eapply excl_move; [done..|]. intros c' [= <-]. by apply lp_start_inv.
  - destruct (lp_goes_on c w w' c') as [Hi' Hww]; [by eapply Hi|done|].
    eapply excl_move; [done..|by eauto using lp_word_step|]. by intros ? [= <-].
  - assert (lp_word w') as Hw' by eauto using lp_word_step. destruct b.
    + destruct (lp_acquires c w w') as [Hfw Hnw]; [by eapply Hi|done|].
      assert (forall u, ts !! u <> Some Inside) as Hno by (by apply Hf).
      assert (forall u, <[t:=Inside]> ts !! u = Some Inside -> u = t) as Hone.
      { intros u. destruct (decide (u = t)); [done|].
        rewrite list_lookup_insert_ne by done. intros Hx. by destruct (Hno u). }
      split_and!; cbn [fst snd]; [| |done|].
      * intros u v Hu1 Hv1. by rewrite (Hone u), (Hone v).
      * split; [done|]. intros Hall. destruct (Hall t).
        apply list_lookup_insert_eq. by eapply lookup_lt_Some.
      * by eapply kept_inv.
    + eapply excl_move; [done..| |done|done].
      eapply lp_refuses; [by eapply Hi|done].
  - assert (~ lp_free w) as Hnf by (intros Hfw; by apply (proj1 Hf Hfw t)).
    assert (lp_free (lp_release w)) as Hfree by (by apply lp_releases).
    assert (forall u, <[t:=Outside]> ts !! u <> Some Inside) as Hno.
    { intros u Hx. destruct (decide (u = t)) as [->|Hne].
      - by rewrite list_lookup_insert_eq in Hx by (by eapply lookup_lt_Some).
      - rewrite list_lookup_insert_ne in Hx by done. destruct Hne. by apply Hu. }
    split_and!; cbn [fst snd]; [|done|by apply lp_word_free|].
    + intros u v Hx. by destruct (Hno u).
    + by eapply kept_inv.
Qed.

Lemma excl_init s : all_outside s -> excl s.
Proof.
  intros [Hf Ho]. split_and!.
  - intros t u Ht. by apply Ho in Ht.
  - split; [|done]. intros _ t Ht. by apply Ho in Ht.
  - by apply lp_word_free.
  - intros t c Ht. by apply Ho in Ht.
Qed.

Lemma excl_reachable s s' : all_outside s -> rtc step s s' -> excl s'.
Proof.
  intros Hi Hr. apply excl_init in Hi. induction Hr; [done|]. eauto using excl_step.
Qed.
End threads.

(** ** The lock of [spinlock.h] implements the promise *)

(** Any of the four functions, with its arguments. *)
Inductive request :=
  | Lock | LimitLock (limit locked_val : Z)
  | HwtLock (limit locked_val : Z) | HwtLimitLock (limit locked_val : Z).

Definition request_step (r : request) : place -> Z -> Z * outcome place :=
  match r with
  | Lock => spinlock_lock
  | LimitLock n v => limit_spinlock_lock n v
  | HwtLock n v => hwt_cas_spinlock_lock n v
  | HwtLimitLock n v => hwt_limit_spinlock_lock n v
  end.

(** Limits are of an unsigned type, and the callers' ids are not the value of a
    free lock. *)
Definition good_request (r : request) : Prop :=
  match r with
  | Lock => True
  | LimitLock n _ => 0 <= n
  | HwtLock _ v | HwtLimitLock _ v => v <> SPINLOCK_UNLOCKED_VALUE
  end.

Definition call_step (c : request * place) (w : Z) : Z * outcome (request * place) :=
  let '(w', o) := request_step c.1 c.2 w in
  (w', match o with Spins p => Spins (c.1, p) | Returns b => Returns b end).

Definition unlocked (w : Z) : Prop := w = SPINLOCK_UNLOCKED_VALUE.

(** The four functions' atomic step, by cases on the word. *)
Lemma call_step_cases r p w w' o :
  good_request r -> request_step r p w = (w', o) ->
  match o with
  | Returns true => unlocked w /\ ~ unlocked w'
  | _ => unlocked w' <-> unlocked w
  end.
Proof.
  intros Hg. unfold unlocked.
  destruct r, p; cbn [request_step spinlock_lock limit_spinlock_lock hwt_cas_spinlock_lock
    hwt_limit_spinlock_lock fetch_and_store compare_and_swap good_request] in *; unfold test_word;
  intros [= <- <-];
  repeat case_match; reflect_Z; unfold SPINLOCK_UNLOCKED_VALUE, SPINLOCK_LOCKED_VALUE in *;
  simplify_eq; try done; try (by split; lia); lia.
Qed.

#[export] Program Instance spinlock_proto : LockProto := {
  lp_call := request * place;
  lp_start := fun c => good_request c.1 /\ c.2 = AtHead 0;
  lp_inv := fun c => good_request c.1;
  lp_word := fun _ => True;
  lp_free := unlocked;
  lp_step := call_step;
  lp_release := spinlock_unlock;
}.
Next Obligation. intros c Hc. apply Hc. Qed.
Next Obligation.
  intros [r p] w w' [r' p'] Hg. unfold call_step. cbn [fst snd] in *.
  destruct (request_step r p w) as [w1 [q|b]] eqn:E; [|done]. intros [= <- <- <-].
  split; [done|]. by apply call_step_cases in E.
Qed.
Next Obligation.
  intros [r p] w w' Hg. unfold call_step. cbn [fst snd] in *.
  destruct (request_step r p w) as [w1 [q|[]]] eqn:E; try done. intros [= <-].
  by apply call_step_cases in E.
Qed.
Next Obligation.
  intros [r p] w w' Hg. unfold call_step. cbn [fst snd] in *.
  destruct (request_step r p w) as [w1 [q|[]]] eqn:E; try done. intros [= <-].
  by apply call_step_cases in E.
Qed.
Next Obligation. done. Qed.
Next Obligation. done. Qed.
Next Obligation. done. Qed.

(** ** So does [SpinLock], whose word is 0 or 1 *)
Lemma SpinLock_cases c w w' o :
  SpinLock_lock c w = (w', o) ->
  (w = 0 /\ w' = 1 /\ o = Returns true) \/ (w <> 0 /\ w' = w /\ o = Spins ()).
Proof.
  unfold SpinLock_lock, tryLock, compare_and_swap.
  destruct (Z.eqb_spec w 0); intros [= <- <-]; [by left|by right].
Qed.

#[export] Program Instance SpinLock_proto : LockProto := {
  lp_call := unit;
  lp_start := fun _ => True;
  lp_inv := fun _ => True;
  lp_word := fun w => w = 0 \/ w = 1;
  lp_free := fun w => w = 0;
  lp_step := SpinLock_lock;
  lp_release := SpinLock_unlock;
}.
Next Obligation. done. Qed.
Next Obligation. intros c w w' c' _ E%SpinLock_cases. intuition congruence. Qed.
Next Obligation. intros c w w' _ E%SpinLock_cases. intuition congruence. Qed.
Next Obligation. intros c w w' _ E%SpinLock_cases. intuition (congruence || lia). Qed.
Next Obligation. intros w [->| ->]; done. Qed.
Next Obligation. by left. Qed.
Next Obligation. intros c w w' o _ Hw E%SpinLock_cases. intuition (congruence || lia). Qed.

(** ** Bounds on the steps of one call

    The words a thread meets at its steps are whatever the others make of them:
    [ws k] is the word just before its step number [k]. *)
Fixpoint run_call {L} (f : L -> Z -> Z * outcome L) (ws : nat -> Z) (n : nat) (l : L)
  : outcome L :=
  match n with
  | O => Spins l
  | S n' =>
      match snd (f l (ws O)) with
      | Returns b => Returns b
      | Spins l' => run_call f (fun k => ws (S k)) n' l'
      end
  end.

(** The steps left to a limited call. *)
Definition steps_left (limit : Z) (p : place) : Z :=
  match p with
  | AtHead i => 2 * (limit - i) + 5
  | AtTest i => 2 * (limit - i) + 4
  | InBody i => 2 * (limit - i) + 3
  | AtSwap i => 2 * (limit - i) + 4
  end.

Definition counter (p : place) : Z :=
  match p with AtHead i | AtTest i | InBody i | AtSwap i => i end.

Definition in_limit (limit : Z) (p : place) : Prop :=
  0 <= counter p /\
  match p with AtHead i => i <= limit + 2 | AtTest i => False | InBody i | AtSwap i => i <= limit + 1 end.

Lemma limit_step limit v p w w' p' :
  0 < limit < 2 ^ 64 - 2 -> in_limit limit p ->
  limit_spinlock_lock limit v p w = (w', Spins p') ->
  in_limit limit p' /\ 0 < steps_left limit p' < steps_left limit p.
Proof.
  intros Hl [H0 Hp]. unfold limit_spinlock_lock, over, test_word, fetch_and_store, in_limit, u64 in *.
  destruct p as [i|i|i|i]; cbn [counter] in *; [|done| |];
  rewrite ?(proj2 (Z.eqb_neq limit 0)) by lia; simpl negb; rewrite ?andb_true_l;
  repeat case_match; intros [= <- <-]; reflect_Z; cbn [counter steps_left];
  rewrite ?wrap_small by lia; simplify_eq; lia.
Qed.

Lemma limit_run limit v ws n p :
  0 < limit < 2 ^ 64 - 2 -> in_limit limit p -> steps_left limit p <= Z.of_nat n ->
  0 < steps_left limit p ->
  exists b, run_call (limit_spinlock_lock limit v) ws n p = Returns b.
Proof.
  intros Hl. revert ws p; induction n as [|n IH]; intros ws p Hp Hn H0; [lia|].
  cbn [run_call]. destruct (limit_spinlock_lock limit v p (ws 0%nat)) as [w' [p'|b]] eqn:E.
  - apply limit_step in E as [Hp' Hlt]; [|done..]. apply IH; [done|lia|lia].
  - by exists b.
Qed.


(** ** Progress *)
Local Notation call := (request * place)%type.
Local Notation acquiring c := (Acquiring (H := spinlock_proto) c).

(** One step of some thread's call that does not return: the lock is not got and
    nobody gives up. *)
Inductive spin_step : config (H := spinlock_proto) -> config (H := spinlock_proto) -> Prop :=
  | spin_one w ts t (c : call) w' (c' : call) :
      ts !! t = Some (acquiring c) -> call_step c w = (w', Spins c') ->
      spin_step (w, ts) (w', <[t := acquiring c']> ts).

(** The steps a call can still spin on a free lock. *)
Definition spins_left (th : thread (H := spinlock_proto)) : nat :=
  match th with
  | Acquiring (_, AtSwap _) => 0
  | Acquiring (_, InBody _) => 2
  | Acquiring _ => 1
  | _ => 0
  end.

Definition spins_of (ts : list (thread (H := spinlock_proto))) : nat := sum_list_with spins_left ts.

(** Every call under way is a good one. *)
Definition good_threads (ts : list (thread (H := spinlock_proto))) : Prop :=
  forall t (c : call), ts !! t = Some (acquiring c) -> good_request c.1.

Lemma spins_of_insert ts t x y :
  ts !! t = Some x -> (spins_of (<[t := y]> ts) + spins_left x = spins_of ts + spins_left y)%nat.
Proof.
  unfold spins_of. revert t; induction ts as [|z ts IH]; intros [|t] Ht; simplify_eq/=; [lia|].
  specialize (IH t Ht). lia.
Qed.

Lemma spins_of_bound ts : (spins_of ts <= 2 * length ts)%nat.
Proof.
  unfold spins_of. induction ts as [|th ts IH]; cbn; [lia|].
  assert (spins_left th <= 2)%nat; [|lia]. destruct th as [|[r [| | |]]|]; cbn; lia.
Qed.

Lemma spin_progress r p w w' (c' : call) :
  good_request r -> unlocked w -> call_step (r, p) w = (w', Spins c') ->
  unlocked w' /\ c'.1 = r /\ (spins_left (acquiring c') < spins_left (acquiring (r, p)))%nat.
Proof.
  intros Hg Hw. unfold call_step. cbn [fst snd].
  destruct (request_step r p w) as [w1 [q|b]] eqn:E; [|done]. intros [= <- <-].
  pose proof (call_step_cases r p w w1 _ Hg E) as Hu. cbn in Hu.
  split_and!; [by apply Hu|done|]. revert E Hg. unfold unlocked in Hw. subst w.
  destruct r, p; cbn [request_step spinlock_lock limit_spinlock_lock hwt_cas_spinlock_lock hwt_limit_spinlock_lock
    fetch_and_store compare_and_swap good_request]; unfold test_word; rewrite ?Z.eqb_refl;
  intros E Hg; repeat case_match; simplify_eq; cbn; lia.
Qed.

(** On a free lock the only call that is refused is one that has a limit. *)
Lemma free_granted r p w w' b :
  good_request r -> unlocked w -> call_step (r, p) w = (w', Returns b) ->
  b = true \/ exists limit v, limit <> 0 /\ (r = LimitLock limit v \/ r = HwtLimitLock limit v).
Proof.
  intros Hg Hw. unfold call_step, unlocked in *. subst w.
  destruct r, p; cbn [fst snd request_step spinlock_lock limit_spinlock_lock hwt_cas_spinlock_lock hwt_limit_spinlock_lock
    fetch_and_store compare_and_swap good_request] in *; unfold test_word; rewrite ?Z.eqb_refl;
  intros E; repeat case_match; simplify_eq; eauto; reflect_Z; try done.
  all: match goal with H : over _ _ = true |- _ => unfold over in H; reflect_Z end.
  all: right; eexists _, _; split; [eassumption|]; auto.
Qed.

Lemma spin_steps ts w n s' :
  good_threads ts -> unlocked w -> nsteps spin_step n (w, ts) s' ->
  unlocked s'.1 /\ good_threads s'.2 /\ length s'.2 = length ts /\ (n + spins_of s'.2 <= spins_of ts)%nat.
Proof.
  revert w ts; induction n as [|n IH]; intros w ts Hg Hw Hn; inversion Hn as [|? ? s1 ? Hs Hn']; subst.
  - by split_and!.
  - inversion Hs as [w0 ts0 t [r p] w' c' Ht Hc]; subst. pose proof (Hg _ _ Ht) as Hgr.
    destruct (spin_progress _ _ _ _ _ Hgr Hw Hc) as (Hw' & Hr & Hlt).
    cbn [fst] in Hlt, Hgr.
    pose proof (spins_of_insert ts t _ (acquiring c') Ht) as Hsum.
    destruct (IH w' (<[t := acquiring c']> ts)) as (? & ? & Hl & ?); [|done|done|].
    + intros u c Hu. destruct (decide (u = t)) as [->|Hne].
      * rewrite list_lookup_insert_eq in Hu by (by eapply lookup_lt_Some). simplify_eq. by rewrite Hr.
      * rewrite list_lookup_insert_ne in Hu by done. by eapply Hg.
    + rewrite length_insert in Hl. split_and!; [done..|lia].
Qed.
(** ** Properties *)

(** C36: Mutual exclusion, for every lock that keeps the promise and any number of
    threads that interleave their calls of it: in every reachable state at most one
    thread is between an acquiring call that returned true and the release, and
    the lock word says free exactly when there is none. *)
Theorem lock_mutual_exclusion `{LockProto} (s s' : config) :
  all_outside s -> rtc step s s' ->
  (forall t u, s'.2 !! t = Some Inside -> s'.2 !! u = Some Inside -> t = u) /\
  (lp_free s'.1 <-> forall t, s'.2 !! t <> Some Inside).
Proof. intros Hi Hr. by destruct (excl_reachable s s' Hi Hr) as (? & ? & _). Qed.

Lemma lock_mutual_exclusion_witness :
  let s' : config (H := spinlock_proto) := (7, [Inside; Outside]) in
  rtc step (-1, [Outside; Outside]) s' /\
  (forall t u, s'.2 !! t = Some Inside -> s'.2 !! u = Some Inside -> t = u) /\
  (@lp_free spinlock_proto s'.1 <-> forall t, s'.2 !! t <> Some Inside).
Proof.
  assert (rtc (step (H := spinlock_proto)) (-1, [Outside; Outside]) (7, [Inside; Outside])) as Hr.
  { eapply rtc_l; [eapply (step_call (H := spinlock_proto) _ _ 0%nat (HwtLock 5 7, AtHead 0)); [done|by split]|].
    eapply rtc_l; [eapply (step_spin (H := spinlock_proto) _ _ 0%nat); reflexivity|].
    eapply rtc_l; [eapply (step_return (H := spinlock_proto) _ _ 0%nat _ _ true); reflexivity|].
    apply rtc_refl. }
  split; [exact Hr|]. apply (lock_mutual_exclusion (H := spinlock_proto) (-1, [Outside; Outside]) _); [|exact Hr].
  split; [done|]. intros [|[|t]] th Ht; simplify_list_eq; done.
Defined.

(** [limit_spinlock_lock] never spins forever: with a limit it returns after at
    most [2 * limit + 5] of its own steps, whatever the other threads do to the
    word meanwhile. *)
Theorem limit_spinlock_lock_bounded (limit v : Z) (ws : nat -> Z) :
  0 < limit < 2 ^ 64 - 2 ->
  exists b, run_call (limit_spinlock_lock limit v) ws (Z.to_nat (2 * limit + 5)) (AtHead 0) = Returns b.
Proof.
  intros Hl. apply limit_run; [done| |cbn [steps_left]; lia..].
  unfold in_limit. cbn [counter]. lia.
Qed.

Lemma limit_spinlock_lock_bounded_witness :
  exists b, run_call (limit_spinlock_lock 3 1) (fun _ => 1) 11 (AtHead 0) = Returns b.
Proof. apply (limit_spinlock_lock_bounded 3 1 (fun _ => 1)). lia. Defined.

(** What one call does on a word no other thread changes: free, it is granted
    in two steps; locked, the plain lock spins forever, and the two [hwt] variants
    refuse in two steps when the word is the caller's own id, which is how
    they avoid the deadlock of a thread interrupted while it holds the lock. *)
Theorem spinlock_alone (r : request) (limit v : Z) (n : nat) :
  good_request r ->
  run_call (request_step r) (fun _ => SPINLOCK_UNLOCKED_VALUE) 2 (AtHead 0) = Returns true /\
  (v <> SPINLOCK_UNLOCKED_VALUE ->
     (exists p, run_call spinlock_lock (fun _ => v) n (AtHead 0) = Spins p) /\
     run_call (hwt_cas_spinlock_lock limit v) (fun _ => v) 2 (AtHead 0) = Returns false /\
     run_call (hwt_limit_spinlock_lock limit v) (fun _ => v) 2 (AtHead 0) = Returns false).
Proof.
  intros Hg. split.
  - destruct r; cbn in *; unfold over; cbn; [done| |done|done].
    destruct (Z.eqb_spec limit0 0); [done|]. cbn. destruct (Z.ltb_spec limit0 0); [lia|done].
  - intros Hv%Z.eqb_neq. split_and!.
    + assert (forall p, (exists i, p = AtHead i \/ p = InBody i) ->
        exists q, run_call spinlock_lock (fun _ => v) n p = Spins q) as Hspin.
      { induction n as [|n IH]; intros p Hp; [by exists p|].
        destruct Hp as (i & [-> | ->]); cbn [run_call spinlock_lock snd]; unfold test_word;
        rewrite Hv; apply IH; by exists i; right. }
      apply Hspin. exists 0. by left.
    + cbn. unfold test_word. rewrite Hv. cbn. by rewrite Z.eqb_refl.
    + cbn. unfold test_word. rewrite Hv. cbn. by rewrite Z.eqb_refl.
Qed.

Lemma spinlock_alone_witness :
  run_call (hwt_cas_spinlock_lock 0 7) (fun _ => 7) 2 (AtHead 0) = Returns false.
Proof. apply (spinlock_alone Lock 0 7 0 I). unfold SPINLOCK_UNLOCKED_VALUE. lia. Defined.

(** C37: Progress of the lock of [spinlock.h]: while the word is free, the
    threads cannot keep each other spinning.  However their steps interleave,
    at most two steps per thread can pass of which none ends a call, and the
    word stays free over them; when no call can spin on, every call that is
    under way returns at its next step, and it returns true unless it is one of
    the limited calls, with a limit. *)
Theorem lock_progress (w : Z) ts n s' :
  good_threads ts -> unlocked w -> nsteps spin_step n (w, ts) s' ->
  (n <= 2 * length ts)%nat /\ unlocked s'.1 /\
  ((forall s'', ~ spin_step s' s'') ->
   forall t r p, s'.2 !! t = Some (acquiring (r, p)) ->
     exists b, snd (call_step (r, p) s'.1) = Returns b /\
       (b = true \/ exists limit v, limit <> 0 /\ (r = LimitLock limit v \/ r = HwtLimitLock limit v))).
Proof.
  intros Hg Hw Hn. destruct (spin_steps _ _ _ _ Hg Hw Hn) as (Hw' & Hg' & Hl & Hle).
  pose proof (spins_of_bound ts). split_and!; [lia|done|].
  - intros Hno t r p Ht. destruct s' as [w' ts']. cbn [fst snd] in *.
    destruct (call_step (r, p) w') as [w1 [c'|b]] eqn:E.
    + destruct (Hno (w1, <[t := acquiring c']> ts')). by econstructor.
    + exists b. split; [done|]. eapply free_granted; [by apply (Hg' t (r, p))|done..].
Qed.

Lemma lock_progress_witness :
  let s : config (H := spinlock_proto) := (-1, [acquiring (Lock, InBody 0); acquiring (HwtLock 0 7, AtTest 0)]) in
  let s' : config (H := spinlock_proto) := (-1, [acquiring (Lock, AtSwap 0); acquiring (HwtLock 0 7, AtSwap 0)]) in
  nsteps spin_step 2 s s' /\ (forall s'', ~ spin_step s' s'') /\
  exists b, snd (call_step (HwtLock 0 7, AtSwap 0) (-1)) = Returns b.
Proof.
  intros s s'. assert (nsteps spin_step 2 s s') as Hr.
  { eapply nsteps_l; [exact (spin_one (-1) s.2 0%nat (Lock, InBody 0) (-1) (Lock, AtSwap 0) eq_refl eq_refl)|].
    eapply nsteps_l; [exact (spin_one (-1) [acquiring (Lock, AtSwap 0); acquiring (HwtLock 0 7, AtTest 0)] 1%nat (HwtLock 0 7, AtTest 0) (-1) (HwtLock 0 7, AtSwap 0) eq_refl eq_refl)|].
    apply nsteps_O. }
  assert (forall s'', ~ spin_step s' s'') as Hno.
  { intros s'' Hs. inversion Hs as [w0 ts0 [|[|t]] c w' c' Ht Hc]; simplify_list_eq; done. }
  split; [exact Hr|]. split; [exact Hno|].
  destruct (lock_progress (-1) s.2 2 s') as (_ & _ & Hp);
    [intros [|[|t]] c Ht; simplify_list_eq; done|reflexivity|exact Hr|].
  destruct (Hp Hno 1%nat (HwtLock 0 7) (AtSwap 0) eq_refl) as (b & Hb & _). by exists b.
Defined.
