(* ===== verification/Preload.v ===== *)
(** * Preload: the shim that records the moves of memory

    Models [src/preload/preload.cpp]: [memmove] calls the real function, which [dlsym] finds at the first
    call, and then notes the source and the length under the destination in a table, under a [SpinLock]
    (the file Locks). Threads interleave; one step of a thread makes at most one access
    to the lock word, and one to the table.

    The C library's [dlsym] and the function it finds are parameters. [EXC] is the call of a null pointer. *)
From stdpp Require Import base numbers list gmap relations.
From Stdlib Require Import ZArith Lia.
From S2P Require Import Prelude Locks.
Local Open Scope Z_scope.

(** ** The table *)
Record relocation_info_t := mkInfo { src : Z; n : Z }.
Abbreviation relocation_table := (gmap Z relocation_info_t).

(** What [relocation_map[dest]] refers to: a new entry is all zeros. *)
Definition info_of (dest : Z) (m : relocation_table) : relocation_info_t := default (mkInfo 0 0) (m !! dest).
Definition set_src (dest v : Z) (m : relocation_table) : relocation_table :=
  <[dest := mkInfo v (n (info_of dest m))]> m.
Definition set_n (dest v : Z) (m : relocation_table) : relocation_table :=
  <[dest := mkInfo (src (info_of dest m)) v]> m.

(** ** The process *)
Record args := mkArgs { a_dest : Z; a_src : Z; a_n : Z }.

(** Where a thread is in [memmove]; [ptr] is what the real function returned. *)
Inductive mover :=
  | Idle
  | Locking (a : args) (ptr : Z)
  | SetSrc (a : args) (ptr : Z)
  | SetN (a : args) (ptr : Z)
  | Unlocking (a : args) (ptr : Z).

Section shim.
Context {M : Type}.

Definition memmove_t : Type := Z -> Z -> Z -> M -> Z * M.

Record shim := mkShim {
  real_memmove : option memmove_t;
  relocation_map_lock : Z;
  relocation_map : relocation_table;
  memory : M;
  threads : list mover;
}.

Definition with_lock w (s : shim) := mkShim (real_memmove s) w (relocation_map s) (memory s) (threads s).
Definition with_table m (s : shim) := mkShim (real_memmove s) (relocation_map_lock s) m (memory s) (threads s).
Definition set_thread t (mv : mover) (s : shim) :=
  mkShim (real_memmove s) (relocation_map_lock s) (relocation_map s) (memory s) (<[t := mv]> (threads s)).

(** The answer of [dlsym(RTLD_NEXT, "memmove")]. *)
Context (dlsym : option memmove_t).

Definition setup_real_functions (s : shim) : shim :=
  mkShim dlsym (relocation_map_lock s) (relocation_map s) (memory s) (threads s).

Definition call_real_memmove (dest src n : Z) (s : shim) : exc (Z * shim) :=
  let s := match real_memmove s with None => setup_real_functions s | Some _ => s end in
  match real_memmove s with
  | None => EXC
  | Some f =>
      let '(ptr, m) := f dest src n (memory s) in
      RET (ptr, mkShim (real_memmove s) (relocation_map_lock s) (relocation_map s) m (threads s))
  end.

(** ** [memmove], in steps of a thread

    A call moves when the real function has run, and is recorded when it gives the lock back. *)
Inductive event := Moved (a : args) | Recorded (a : args) (ptr : Z).

Inductive memmove_step (s : shim) : option event -> shim -> Prop :=
  | memmove_call t a ptr s' :
      threads s !! t = Some Idle ->
      call_real_memmove (a_dest a) (a_src a) (a_n a) s = RET (ptr, s') ->
      memmove_step s (Some (Moved a)) (set_thread t (Locking a ptr) s')
  | memmove_spin t a ptr w :
      threads s !! t = Some (Locking a ptr) ->
      SpinLock_lock () (relocation_map_lock s) = (w, Spins ()) ->
      memmove_step s None (with_lock w s)
  | memmove_locked t a ptr w b :
      threads s !! t = Some (Locking a ptr) ->
      SpinLock_lock () (relocation_map_lock s) = (w, Returns b) ->
      memmove_step s None (set_thread t (SetSrc a ptr) (with_lock w s))
  | memmove_src t a ptr :
      threads s !! t = Some (SetSrc a ptr) ->
      memmove_step s None (set_thread t (SetN a ptr) (with_table (set_src (a_dest a) (a_src a) (relocation_map s)) s))
  | memmove_n t a ptr :
      threads s !! t = Some (SetN a ptr) ->
      memmove_step s None (set_thread t (Unlocking a ptr) (with_table (set_n (a_dest a) (a_n a) (relocation_map s)) s))
  | memmove_unlock t a ptr :
      threads s !! t = Some (Unlocking a ptr) ->
      memmove_step s (Some (Recorded a ptr)) (set_thread t Idle (with_lock (SpinLock_unlock (relocation_map_lock s)) s)).

Inductive memmove_run (s : shim) : list event -> shim -> Prop :=
  | run_none : memmove_run s [] s
  | run_step evs s1 o s2 :
      memmove_run s evs s1 -> memmove_step s1 o s2 -> memmove_run s (evs ++ option_list o) s2.

(** ** What the calls should leave *)
Definition move (m : M) (f : memmove_t) (a : args) : M := (f (a_dest a) (a_src a) (a_n a) m).2.
Definition note_move (m : relocation_table) (a : args) : relocation_table := <[a_dest a := mkInfo (a_src a) (a_n a)]> m.

Definition shim_moved (evs : list event) : list args := omap (fun e => match e with Moved a => Some a | _ => None end) evs.
Definition shim_recorded (evs : list event) : list args :=
  omap (fun e => match e with Recorded a _ => Some a | _ => None end) evs.

(** The start of the process with [k] threads. *)
Definition process_start (k : nat) (m : M) : shim := mkShim None 0 ∅ m (replicate k Idle).
End shim.

(** ** The lock's view

    For the lock a thread is outside, acquiring or inside. *)
Local Existing Instance SpinLock_proto.

Definition lock_view (mv : mover) : thread :=
  match mv with
  | Idle => Outside
  | Locking _ _ => Acquiring (H := SpinLock_proto) ()
  | SetSrc _ _ | SetN _ _ | Unlocking _ _ => Inside
  end.

Definition lock_config {M} (s : shim (M := M)) : config :=
  (relocation_map_lock s, lock_view <$> threads s).

Lemma lock_view_at {M} (s : shim (M := M)) t mv :
  threads s !! t = Some mv -> (lock_config s).2 !! t = Some (lock_view mv).
Proof. intros Ht. cbn. by rewrite list_lookup_fmap, Ht. Qed.

(** A step that changes neither the word nor the view of its thread. *)
Lemma lock_config_same {M} (s : shim (M := M)) t x y :
  threads s !! t = Some x -> lock_view y = lock_view x ->
  lock_view <$> <[t := y]> (threads s) = lock_view <$> threads s.
Proof.
  intros Ht Hv. rewrite list_fmap_insert, Hv. apply list_insert_id. by rewrite list_lookup_fmap, Ht.
Qed.

Lemma call_real_same {M} (dlsym : option (memmove_t (M := M))) d v k s ptr s' :
  call_real_memmove dlsym d v k s = RET (ptr, s') ->
  relocation_map_lock s' = relocation_map_lock s /\ relocation_map s' = relocation_map s /\ threads s' = threads s.
Proof.
  unfold call_real_memmove, setup_real_functions. intros E. repeat case_match; simplify_eq/=; done.
Qed.

Lemma SpinLock_returns w w' b : SpinLock_lock () w = (w', Returns b) -> b = true.
Proof. intros [(_ & _ & [= ->])|(_ & _ & ?)]%SpinLock_cases; done. Qed.

(** The calls use the lock as it may be used. *)
Lemma lock_simulated {M} (dlsym : option (memmove_t (M := M))) s o s' :
  memmove_step dlsym s o s' -> rtc step (lock_config s) (lock_config s').
Proof.
  intros Hs. destruct Hs as [t a ptr s' Ht Hc|t a ptr w Ht Hl|t a ptr w b Ht Hl|t a ptr Ht|t a ptr Ht|t a ptr Ht];
    apply lock_view_at in Ht as Hv; unfold lock_config in *; cbn in *.
  - destruct (call_real_same _ _ _ _ _ _ _ Hc) as (-> & _ & ->). rewrite list_fmap_insert.
    apply rtc_once. by apply (step_call (H := SpinLock_proto)).
  - apply rtc_once. rewrite <- (list_insert_id _ _ _ Hv) at 2. by eapply (step_spin (H := SpinLock_proto)).
  - apply SpinLock_returns in Hl as Hb. subst b. rewrite list_fmap_insert.
    apply rtc_once. by eapply (step_return (H := SpinLock_proto) _ _ _ _ _ true).
  - by rewrite (lock_config_same _ _ _ _ Ht).
  - by rewrite (lock_config_same _ _ _ _ Ht).
  - rewrite list_fmap_insert. apply rtc_once. by apply (step_unlock (H := SpinLock_proto)).
Qed.

(** ** The table *)

(** What the table is while a thread is at a place of the critical section. *)
Definition table_during (mv : mover) (m : relocation_table) : relocation_table :=
  match mv with
  | SetN a _ => set_src (a_dest a) (a_src a) m
  | Unlocking a _ => note_move m a
  | _ => m
  end.

Lemma set_src_n m a : set_n (a_dest a) (a_n a) (set_src (a_dest a) (a_src a) m) = note_move m a.
Proof.
  unfold set_n, set_src, note_move, info_of. by rewrite lookup_insert_eq, insert_insert_eq.
Qed.

Definition table_after (evs : list event) : relocation_table := foldl note_move ∅ (shim_recorded evs).

Lemma recorded_app evs evs' : shim_recorded (evs ++ evs') = shim_recorded evs ++ shim_recorded evs'.
Proof. apply omap_app. Qed.

(** The table is that of the calls that are over, and the change of the thread that is inside. *)
Definition table_inv {M} (evs : list event) (s : shim (M := M)) : Prop :=
  excl (lock_config s) /\
  (forall t mv, threads s !! t = Some mv -> lock_view mv = Inside -> relocation_map s = table_during mv (table_after evs)) /\
  ((forall t mv, threads s !! t = Some mv -> lock_view mv <> Inside) -> relocation_map s = table_after evs).

(** A thread that moves on outside of the critical section. *)
Lemma table_inv_outside {M} evs evs' (s s' : shim (M := M)) t x y :
  table_inv evs s -> excl (lock_config s') ->
  threads s !! t = Some x -> threads s' = <[t := y]> (threads s) ->
  lock_view x <> Inside -> lock_view y <> Inside ->
  relocation_map s' = relocation_map s -> table_after evs' = table_after evs -> table_inv evs' s'.
Proof.
  intros (_ & Hin & Hout) He Ht Hts Hx Hy Hm Htab. unfold table_inv. rewrite Htab, Hm, Hts.
  split_and!; [done| |].
  - intros u mv Hu Hmv. destruct (decide (u = t)) as [->|Hne].
    + rewrite list_lookup_insert_eq in Hu by (by eapply lookup_lt_Some). simplify_eq.
    + rewrite list_lookup_insert_ne in Hu by done. eauto.
  - intros Hno. apply Hout. intros u mv Hu Hmv. destruct (decide (u = t)) as [->|Hne]; [simplify_eq|].
    apply (Hno u mv); [by rewrite list_lookup_insert_ne|done].
Qed.

(** A thread that moves on inside of it, or goes in. *)
Lemma table_inv_inside {M} evs (s s' : shim (M := M)) t y :
  excl (lock_config s') -> (t < length (threads s))%nat -> threads s' = <[t := y]> (threads s) ->
  lock_view y = Inside -> relocation_map s' = table_during y (table_after evs) -> table_inv evs s'.
Proof.
  intros He Ht Hts Hy Hm. assert (threads s' !! t = Some y) as Hty.
  { rewrite Hts. by apply list_lookup_insert_eq. }
  split_and!; [done| |].
  - intros u mv Hu Hmv. destruct He as (Hone & _).
    assert (u = t) as ->; [|by simplify_eq].
    apply Hone; [rewrite <- Hmv|rewrite <- Hy]; by apply lock_view_at.
  - intros Hno. by destruct (Hno t y).
Qed.

Lemma nobody_inside {M} (s : shim (M := M)) :
  excl (lock_config s) -> relocation_map_lock s = 0 ->
  forall t mv, threads s !! t = Some mv -> lock_view mv <> Inside.
Proof.
  intros (_ & Hf & _) H0 t mv Ht Hv. apply (proj1 Hf H0 t). rewrite <- Hv. by apply lock_view_at.
Qed.

Lemma table_inv_step {M} (dlsym : option (memmove_t (M := M))) evs s o s' :
  table_inv evs s -> memmove_step dlsym s o s' -> table_inv (evs ++ option_list o) s'.
Proof.
  intros Hinv Hs. pose proof Hinv as (He & Hin & Hout).
  assert (excl (lock_config s')) as He'.
  { pose proof (lock_simulated _ _ _ _ Hs) as Hr. clear -He Hr. induction Hr; eauto using excl_step. }
  destruct Hs as [t a ptr s' Ht Hc|t a ptr w Ht Hl|t a ptr w b Ht Hl|t a ptr Ht|t a ptr Ht|t a ptr Ht];
    cbn [option_list]; rewrite ?app_nil_r; apply lookup_lt_Some in Ht as Hlt.
  - destruct (call_real_same _ _ _ _ _ _ _ Hc) as (_ & Hm & Hts).
    eapply table_inv_outside; [done..|cbn; by rewrite Hts|done|done|done|].
    unfold table_after. by rewrite recorded_app, app_nil_r.
  - eapply (table_inv_outside evs evs s _ t (Locking a ptr) (Locking a ptr)); try done. cbn. by rewrite list_insert_id.
  - eapply (table_inv_inside _ s); [done..|]. cbn. apply Hout, nobody_inside; [done|].
    by apply SpinLock_cases in Hl as [(-> & _)|(_ & _ & ?)].
  - eapply (table_inv_inside _ s); [done..|]. cbn. by rewrite (Hin _ _ Ht eq_refl).
  - eapply (table_inv_inside _ s); [done..|]. cbn. rewrite (Hin _ _ Ht eq_refl). apply set_src_n.
  - assert (relocation_map s = table_after (evs ++ [Recorded a ptr])) as Hm.
    { rewrite (Hin _ _ Ht eq_refl). unfold table_after. by rewrite recorded_app, foldl_app. }
    split_and!; [done| |done]. cbn. intros u mv Hu Hmv. destruct (decide (u = t)) as [->|Hne].
    + rewrite list_lookup_insert_eq in Hu by done. by simplify_eq.
    + rewrite list_lookup_insert_ne in Hu by done. destruct Hne, He as (Hone & _).
      apply Hone; [rewrite <- Hmv; by apply lock_view_at|by apply (lock_view_at _ _ _ Ht)].
Qed.

Lemma table_inv_start {M} k (m : M) : table_inv [] (process_start k m).
Proof.
  assert (forall t mv, replicate k Idle !! t = Some mv -> mv = Idle) as Hidle.
  { intros t mv Ht. by apply lookup_replicate in Ht as [-> _]. }
  split_and!; [|by intros t mv ->%Hidle|done].
  apply excl_init. split; [done|]. cbn. intros t th Ht. rewrite list_lookup_fmap in Ht.
  destruct (replicate k Idle !! t) as [mv|] eqn:E; [|done]. apply Hidle in E. by simplify_eq/=.
Qed.

Lemma table_inv_run {M} (dlsym : option (memmove_t (M := M))) k m evs s :
  memmove_run dlsym (process_start k m) evs s -> table_inv evs s.
Proof. induction 1; eauto using table_inv_start, table_inv_step. Qed.

(** ** The calls, their results and the memory *)

(** The call a thread is in, from its move to its record. *)
Definition in_call_of (mv : mover) : list args :=
  match mv with Idle => [] | Locking a _ | SetSrc a _ | SetN a _ | Unlocking a _ => [a] end.
Definition in_calls (ts : list mover) : list args := ts ≫= in_call_of.

Lemma pending_insert ts t x y :
  ts !! t = Some x -> in_calls (<[t := y]> ts) ++ in_call_of x ≡ₚ in_calls ts ++ in_call_of y.
Proof.
  unfold in_calls. revert t; induction ts as [|z ts IH]; intros [|t] Ht; simplify_eq/=; [solve_Permutation|].
  rewrite <- !(assoc_L (++)). by rewrite (IH t Ht).
Qed.

Lemma pending_same ts t x y :
  ts !! t = Some x -> in_call_of y = in_call_of x -> in_calls (<[t := y]> ts) ≡ₚ in_calls ts.
Proof.
  intros Ht Hy. pose proof (pending_insert ts t x y Ht) as Hp. rewrite Hy in Hp. by apply Permutation_app_inv_r in Hp.
Qed.

Section moves.
Context {M : Type} (real : memmove_t (M := M)).
Hypothesis returns_dest : forall d v k m, (real d v k m).1 = d.

Definition answer_ok (mv : mover) : Prop :=
  match mv with
  | Idle => True
  | Locking a ptr | SetSrc a ptr | SetN a ptr | Unlocking a ptr => ptr = a_dest a
  end.

Definition event_ok (e : event) : Prop :=
  match e with Moved _ => True | Recorded a ptr => ptr = a_dest a end.

Definition moves_inv (m : M) (evs : list event) (s : shim) : Prop :=
  (real_memmove s = None \/ real_memmove s = Some real) /\
  memory s = foldl (fun m => move m real) m (shim_moved evs) /\
  shim_moved evs ≡ₚ shim_recorded evs ++ in_calls (threads s) /\
  Forall answer_ok (threads s) /\ Forall event_ok evs.

Lemma real_called d v k s ptr s' :
  real_memmove s = None \/ real_memmove s = Some real -> call_real_memmove (Some real) d v k s = RET (ptr, s') ->
  real_memmove s' = Some real /\ memory s' = (real d v k (memory s)).2 /\ ptr = d.
Proof.
  intros [Hr|Hr]; unfold call_real_memmove, setup_real_functions; rewrite Hr; cbn; rewrite ?Hr;
  pose proof (returns_dest d v k (memory s)); destruct (real d v k (memory s)); intros [= <- <-]; by split_and!.
Qed.

(** A step that neither moves nor records. *)
Lemma moves_inv_silent m evs s s' t x y :
  moves_inv m evs s -> real_memmove s' = real_memmove s -> memory s' = memory s ->
  threads s !! t = Some x -> threads s' = <[t := y]> (threads s) ->
  in_call_of y = in_call_of x -> answer_ok y -> moves_inv m evs s'.
Proof.
  intros (Hreal & Hm & Hp & Ht & Hev) Hr' Hm' Hx Hts Hy Hok. unfold moves_inv. rewrite Hr', Hm', Hts.
  split_and!; [done..| |by apply Forall_insert|done]. by rewrite (pending_same _ _ _ _ Hx Hy).
Qed.

Lemma moves_inv_step m evs s o s' :
  moves_inv m evs s -> memmove_step (Some real) s o s' -> moves_inv m (evs ++ option_list o) s'.
Proof.
  intros Hinv Hs. pose proof Hinv as (Hreal & Hm & Hp & Ht & Hev).
  destruct Hs as [t a ptr s' Hta Hc|t a ptr w Hta Hl|t a ptr w b Hta Hl|t a ptr Hta|t a ptr Hta|t a ptr Hta];
    cbn [option_list]; rewrite ?app_nil_r; pose proof (Forall_lookup_1 _ _ _ _ Ht Hta) as Hok; cbn in Hok;
    try by eapply moves_inv_silent.
  - destruct (real_called _ _ _ _ _ _ Hreal Hc) as (Hr' & Hm' & ->).
    destruct (call_real_same _ _ _ _ _ _ _ Hc) as (_ & _ & Hts). unfold moves_inv. cbn.
    unfold shim_moved in *. rewrite omap_app, recorded_app, foldl_app, Hm', Hm, Hts. cbn.
    split_and!; [by right|done| |by apply Forall_insert|by apply Forall_app_2; [|constructor]].
    pose proof (pending_insert _ _ _ (Locking a (a_dest a)) Hta) as Hi. cbn in Hi. rewrite app_nil_r in Hi.
    rewrite !app_nil_r, Hi, Hp. solve_Permutation.
  - eapply moves_inv_silent; try done. cbn. symmetry. by apply list_insert_id.
  - unfold moves_inv. cbn. unfold shim_moved in *. rewrite omap_app, recorded_app. cbn. rewrite app_nil_r.
    split_and!; [done..| |by apply Forall_insert|by apply Forall_app_2; [|repeat constructor]].
    rewrite Hp. pose proof (pending_insert _ _ _ Idle Hta) as Hi. cbn in Hi. rewrite app_nil_r in Hi.
    rewrite <- Hi. solve_Permutation.
Qed.

Lemma moves_inv_run m k evs s :
  memmove_run (Some real) (process_start k m) evs s -> moves_inv m evs s.
Proof.
  induction 1 as [|evs s1 o s2 _ IH Hs]; [|by eapply moves_inv_step].
  split_and!; [by left|done| | |done].
  - cbn. unfold in_calls. by induction k.
  - cbn. by apply Forall_replicate.
Qed.
End moves.

(** ** Properties *)

(** C38: The shim is a faithful recorder of interleaved moves. When [dlsym] finds a function that
    returns its first argument, then after any steps of any threads the memory is what the real function makes
    of the moves in the order in which it was called; every recorded call has returned its
    destination; no two threads change the table at once; whenever the lock is free the table is
    that of the recorded calls one after the other, none of them torn; and when no thread is in a call
    the moves and the records are the same calls, in what may be another order. *)
Theorem preload_table {M} (real : memmove_t (M := M)) k m evs s :
  (forall d v len m, (real d v len m).1 = d) ->
  memmove_run (Some real) (process_start k m) evs s ->
  memory s = foldl (fun m => move m real) m (shim_moved evs) /\
  (forall a ptr, Recorded a ptr ∈ evs -> ptr = a_dest a) /\
  (forall t u x y, threads s !! t = Some x -> threads s !! u = Some y ->
     lock_view x = Inside -> lock_view y = Inside -> t = u) /\
  (relocation_map_lock s = 0 -> relocation_map s = foldl note_move ∅ (shim_recorded evs)) /\
  ((forall t x, threads s !! t = Some x -> x = Idle) -> shim_moved evs ≡ₚ shim_recorded evs).
Proof.
  intros Hd Hr. destruct (moves_inv_run real Hd _ _ _ _ Hr) as (_ & Hm & Hp & _ & Hev).
  destruct (table_inv_run _ _ _ _ _ Hr) as (He & _ & Hout). split_and!; [done| | | |].
  - intros a ptr Ha. apply (proj1 (Forall_forall _ _) Hev _ Ha).
  - intros t u x y Hx Hy Hxi Hyi. apply He; [rewrite <- Hxi|rewrite <- Hyi]; by apply lock_view_at.
  - intros H0. by apply Hout, nobody_inside.
  - intros Hidle. rewrite Hp. assert (in_calls (threads s) = []) as ->; [|by rewrite app_nil_r].
    assert (Forall (fun x => x = Idle) (threads s)) as Hall by (by apply Forall_lookup).
    clear -Hall. unfold in_calls. induction Hall as [|x ts -> _ IH]; [done|exact IH].
Qed.

Module Demo.

(** A memory of one cell per address, of which a move of any length copies one. *)
Definition demo_real : memmove_t (M := gmap Z Z) := fun dest src n m => (dest, <[dest := default 0 (m !! src)]> m).
Definition demo_memory : gmap Z Z := {[1 := 10; 2 := 20]}.
Definition demo_a : args := mkArgs 5 1 8.
Definition demo_b : args := mkArgs 5 2 4.
Definition shim_events : list event := [Moved demo_a; Moved demo_b; Recorded demo_b 5; Recorded demo_a 5].
Definition demo_shim mem lock table ts : shim := mkShim (Some demo_real) lock table mem ts.
Definition demo_after_a : gmap Z Z := (demo_real 5 1 8 demo_memory).2.
Definition demo_after_b : gmap Z Z := (demo_real 5 2 4 demo_after_a).2.
Definition shim_end : shim := demo_shim demo_after_b 0 {[5 := mkInfo 1 8]} [Idle; Idle].

(** Two threads move to one place; the one that moved first gets the lock last. *)
Lemma shim_run : memmove_run (Some demo_real) (process_start 2 demo_memory) shim_events shim_end.
Proof.
  pose proof (run_none (Some demo_real) (process_start 2 demo_memory)) as H.
  eapply run_step in H; [|by apply (memmove_call _ _ 0%nat demo_a 5)].
  eapply run_step in H; [|by apply (memmove_call _ _ 1%nat demo_b 5)].
  eapply run_step in H; [|by apply (memmove_locked _ _ 1%nat demo_b 5 1 true)].
  eapply run_step in H; [|by apply (memmove_spin _ _ 0%nat demo_a 5 1)].
  eapply run_step in H; [|by apply (memmove_src _ _ 1%nat demo_b 5)].
  eapply run_step in H; [|by apply (memmove_n _ _ 1%nat demo_b 5)].
  eapply run_step in H; [|by apply (memmove_unlock _ _ 1%nat demo_b 5)].
  eapply run_step in H; [|by apply (memmove_locked _ _ 0%nat demo_a 5 1 true)].
  eapply run_step in H; [|by apply (memmove_src _ _ 0%nat demo_a 5)].
  eapply run_step in H; [|by apply (memmove_n _ _ 0%nat demo_a 5)].
  eapply run_step in H; [|by apply (memmove_unlock _ _ 0%nat demo_a 5)].
  exact H.
Qed.

(** The place holds what the second call moved there, and the table names the first. *)
Lemma demo_order : memory shim_end !! 5 = Some 20 /\ relocation_map shim_end !! 5 = Some (mkInfo 1 8).
Proof. done. Qed.

Lemma preload_table_witness :
  memory shim_end = foldl (fun m => move m demo_real) demo_memory [demo_a; demo_b] /\
  relocation_map shim_end = foldl note_move ∅ [demo_b; demo_a] /\ shim_moved shim_events ≡ₚ shim_recorded shim_events.
Proof.
  destruct (preload_table demo_real 2 demo_memory shim_events shim_end) as (Hm & _ & _ & Ht & Hp);
    [done|exact shim_run|].
  split; [exact Hm|]. split; [by apply Ht|]. apply Hp. by intros [|[|t]] x [= <-].
Defined.
End Demo.
