(* ===== verification/ByteIO.v ===== *)
(** * Fixed-width integers on a byte stream

    Models [src/src/external/hpctoolkit/lib/prof-lean/hpcio.c] (opening and
    closing streams, reading and writing 2, 4 and 8 byte integers in little and
    big endian order, and byte arrays) and the byte swaps of
    [src/src/external/hpctoolkit/include/big-endian.h].

    A reader returns the value stored through its pointer, the number of bytes
    read and the stream; a writer the number of bytes written and the stream. *)
From stdpp Require Import base numbers list gmap strings.
From Stdlib Require Import ZArith Lia.
From S2P Require Import Prelude LibC.
Local Open Scope Z_scope.

(** ** Streams *)

Definition hpcio_fopen_w (fnm : string) (overwrite : Z) (fs : fsys) : option FILE * fsys :=
  if overwrite =? 0 then
    let '(fd, _, fs') := sys_open fnm (mkFlags true true false) fs in
    if fd <? 0 then (None, fs') else (fdopen_w fd, fs')
  else if overwrite =? 1 then
    let '(fd, _, fs') := sys_open fnm (mkFlags true false true) fs in (fdopen_w fd, fs')
  else if overwrite =? 2 then
    let '(fd, _, fs') := sys_open fnm (mkFlags false false false) fs in (fdopen_w fd, fs')
  else (None, fs).

(** ** Integers: the loops of the readers and the writers

    The [for] loops differ in their width and in the sequence of shifts only. *)
Fixpoint fread_loop (w : Z) (shifts : list Z) (v num_read : Z) (fs : FILE) : Z * Z * FILE :=
  match shifts with
  | [] => (v, num_read, fs)
  | shift :: rest =>
      let '(c, fs') := fgetc fs in
      if c =? EOF then (v, num_read, fs')
      else fread_loop w rest (wrap w (Z.lor v (Z.shiftl (Z.land c 255) shift))) (num_read + 1) fs'
  end.

Fixpoint fwrite_loop (shifts : list Z) (v num_write : Z) (fs : FILE) : Z * FILE :=
  match shifts with
  | [] => (num_write, fs)
  | shift :: rest =>
      let '(c, fs') := fputc (Z.land (Z.shiftr v shift) 255) fs in
      if c =? EOF then (num_write, fs') else fwrite_loop rest v (num_write + 1) fs'
  end.

Definition hpcio_le2_fread (fs : FILE) : Z * Z * FILE := fread_loop 16 [0; 8] 0 0 fs.
Definition hpcio_le4_fread (fs : FILE) : Z * Z * FILE := fread_loop 32 [0; 8; 16; 24] 0 0 fs.
Definition hpcio_le8_fread (fs : FILE) : Z * Z * FILE :=
  fread_loop 64 [0; 8; 16; 24; 32; 40; 48; 56] 0 0 fs.

Definition hpcio_le2_fwrite (val : Z) (fs : FILE) : Z * FILE := fwrite_loop [0; 8] val 0 fs.
Definition hpcio_le4_fwrite (val : Z) (fs : FILE) : Z * FILE := fwrite_loop [0; 8; 16; 24] val 0 fs.
Definition hpcio_le8_fwrite (val : Z) (fs : FILE) : Z * FILE :=
  fwrite_loop [0; 8; 16; 24; 32; 40; 48; 56] val 0 fs.

Definition hpcio_be2_fread (fs : FILE) : Z * Z * FILE := fread_loop 16 [8; 0] 0 0 fs.
Definition hpcio_be4_fread (fs : FILE) : Z * Z * FILE := fread_loop 32 [24; 16; 8; 0] 0 0 fs.
Definition hpcio_be8_fread (fs : FILE) : Z * Z * FILE :=
  fread_loop 64 [56; 48; 40; 32; 24; 16; 8; 0] 0 0 fs.

Definition hpcio_be2_fwrite (val : Z) (fs : FILE) : Z * FILE := fwrite_loop [8; 0] val 0 fs.
Definition hpcio_be4_fwrite (val : Z) (fs : FILE) : Z * FILE := fwrite_loop [24; 16; 8; 0] val 0 fs.
Definition hpcio_be8_fwrite (val : Z) (fs : FILE) : Z * FILE :=
  fwrite_loop [56; 48; 40; 32; 24; 16; 8; 0] val 0 fs.

(** ** Byte arrays *)
Fixpoint hpcio_beX_fread (size : nat) (fs : FILE) : list byte * Z * FILE :=
  match size with
  | O => ([], 0, fs)
  | S n =>
      let '(c, fs') := fgetc fs in
      if c =? EOF then ([], 0, fs')
      else let '(val, num, fs'') := hpcio_beX_fread n fs' in (byte_of c :: val, num + 1, fs'')
  end.

Fixpoint hpcio_beX_fwrite (val : list byte) (fs : FILE) : Z * FILE :=
  match val with
  | [] => (0, fs)
  | b :: val' =>
      let '(c, fs') := fputc (byte_val b) fs in
      if c =? EOF then (0, fs')
      else let '(num, fs'') := hpcio_beX_fwrite val' fs' in (num + 1, fs'')
  end.

(** ** Byte swaps ([big-endian.h], the formula used without [byteswap.h]) *)
Definition raw_byte_swap_16 (x : Z) : Z :=
  Z.lor (Z.shiftr (Z.land x 0xff00) 8) (Z.shiftl (Z.land x 0x00ff) 8).

Definition raw_byte_swap_32 (x : Z) : Z :=
  Z.lor (Z.lor (Z.lor
    (Z.shiftr (Z.land x 0xff000000) 24) (Z.shiftr (Z.land x 0x00ff0000) 8))
    (Z.shiftl (Z.land x 0x0000ff00) 8)) (Z.shiftl (Z.land x 0x000000ff) 24).

Definition raw_byte_swap_64 (x : Z) : Z :=
  Z.lor (Z.lor (Z.lor (Z.lor (Z.lor (Z.lor (Z.lor
    (Z.shiftr (Z.land x 0xff00000000000000) 56) (Z.shiftr (Z.land x 0x00ff000000000000) 40))
    (Z.shiftr (Z.land x 0x0000ff0000000000) 24)) (Z.shiftr (Z.land x 0x000000ff00000000) 8))
    (Z.shiftl (Z.land x 0x00000000ff000000) 8)) (Z.shiftl (Z.land x 0x0000000000ff0000) 24))
    (Z.shiftl (Z.land x 0x000000000000ff00) 40)) (Z.shiftl (Z.land x 0x00000000000000ff) 56).

(** The host is little endian (x86-64), so the conversions swap. *)
Definition host_to_be_16 (x : Z) : Z := raw_byte_swap_16 (u16 x).
Definition host_to_be_32 (x : Z) : Z := raw_byte_swap_32 (u32 x).
Definition host_to_be_64 (x : Z) : Z := raw_byte_swap_64 (u64 x).
Definition be_to_host_16 (x : Z) : Z := host_to_be_16 x.
Definition be_to_host_32 (x : Z) : Z := host_to_be_32 x.
Definition be_to_host_64 (x : Z) : Z := host_to_be_64 x.

(** ** The six integer formats as codecs *)
Record int_codec := mkCodec {
  ic_size : nat;
  ic_big : bool;
  ic_read : FILE -> Z * Z * FILE;
  ic_write : Z -> FILE -> Z * FILE;
}.

Definition hpcio_codecs : list int_codec := [
  mkCodec 2 false hpcio_le2_fread hpcio_le2_fwrite;
  mkCodec 4 false hpcio_le4_fread hpcio_le4_fwrite;
  mkCodec 8 false hpcio_le8_fread hpcio_le8_fwrite;
  mkCodec 2 true hpcio_be2_fread hpcio_be2_fwrite;
  mkCodec 4 true hpcio_be4_fread hpcio_be4_fwrite;
  mkCodec 8 true hpcio_be8_fread hpcio_be8_fwrite ].

(** The bytes of [v] in the order the header promises. *)
Definition layout (big : bool) (n : nat) (v : Z) : list byte :=
  if big then rev (le_bytes n v) else le_bytes n v.

Arguments layout : simpl never.

(** The value the bytes [bs] read in that order denote in an [n]-byte integer,
    the bytes after a short read being 0. *)
Definition denote (big : bool) (n : nat) (bs : list byte) : Z :=
  let full := bs ++ replicate (n - length bs) (byte_of 0) in
  le_val (if big then rev full else full).

(** The shifts of the loops, in general form. *)
Definition le_shifts (n : nat) : list Z := (fun i => 8 * Z.of_nat i) <$> seq 0 n.
Definition be_shifts (n : nat) : list Z := rev (le_shifts n).

Lemma codec_loops c :
  c ∈ hpcio_codecs ->
  exists shifts, shifts = (if ic_big c then be_shifts else le_shifts) (ic_size c) /\
    ic_read c = fread_loop (8 * Z.of_nat (ic_size c)) shifts 0 0 /\
    ic_write c = fun v => fwrite_loop shifts v 0.
Proof.
  unfold hpcio_codecs. rewrite !elem_of_cons, elem_of_nil.
  intros Hc; repeat destruct Hc as [->|Hc]; try done; eexists; repeat split.
Qed.

(** *** Writers *)
Lemma shift_byte v i :
  byte_of (Z.land (Z.shiftr v (8 * Z.of_nat i)) 255) = byte_of (v / 256 ^ Z.of_nat i).
Proof.
  rewrite land_255, byte_of_mod, shiftr_div by lia.
  rewrite Z.pow_mul_r by lia. done.
Qed.

Lemma fwrite_loop_room shifts v num f :
  has_room (length shifts) f ->
  fwrite_loop shifts v num f =
    (num + Z.of_nat (length shifts),
     wrote ((fun s => byte_of (Z.land (Z.shiftr v s) 255)) <$> shifts) f).
Proof.
  revert num f; induction shifts as [|s shifts IH]; intros num f Hr; simpl.
  - rewrite wrote_nil. f_equal. lia.
  - rewrite fputc_room by (eapply has_room_le, Hr; simpl; lia).
    rewrite u8_not_EOF, IH by (apply has_room_wrote; exact Hr).
    rewrite wrote_wrote. f_equal; lia.
Qed.

Lemma le_shifts_bytes n v :
  (fun s => byte_of (Z.land (Z.shiftr v s) 255)) <$> le_shifts n = le_bytes n v.
Proof.
  unfold le_shifts. rewrite <- list_fmap_compose. unfold compose.
  assert (forall k, (fun i : nat => byte_of (Z.land (Z.shiftr v (8 * Z.of_nat i)) 255)) <$> seq k n
    = le_bytes n (v / 256 ^ Z.of_nat k)) as H; [|by rewrite H, Z.div_1_r].
  induction n as [|n IH]; intros k; [done|]. simpl seq. rewrite fmap_cons, IH. simpl.
  rewrite shift_byte. f_equal.
  rewrite Zdiv_Zdiv by (try apply Z.pow_nonneg; lia).
  f_equal. f_equal. rewrite Nat2Z.inj_succ, Z.pow_succ_r by lia. lia.
Qed.

Lemma length_le_shifts n : length (le_shifts n) = n.
Proof. unfold le_shifts. by rewrite length_fmap, length_seq. Qed.

Lemma codec_write c v f :
  c ∈ hpcio_codecs -> has_room (ic_size c) f ->
  ic_write c v f = (Z.of_nat (ic_size c), wrote (layout (ic_big c) (ic_size c) v) f).
Proof.
  intros Hc Hr. destruct (codec_loops c Hc) as (shifts & Hs & _ & ->).
  assert (length shifts = ic_size c) as Hl.
  { subst; destruct (ic_big c); unfold be_shifts; rewrite ?length_rev, length_le_shifts; done. }
  rewrite fwrite_loop_room by (rewrite Hl; done). rewrite Hl, Z.add_0_l. do 2 f_equal.
  unfold layout. subst shifts. destruct (ic_big c); unfold be_shifts; [|apply le_shifts_bytes].
  rewrite <- (le_shifts_bytes (ic_size c) v).
  change (@fmap list _) with (@List.map). rewrite List.map_rev. done.
Qed.

(** *** Readers *)
Lemma read_step_le w v b i :
  0 <= v < 2 ^ (8 * Z.of_nat i) -> 8 * Z.of_nat (S i) <= w ->
  wrap w (Z.lor v (Z.shiftl (Z.land (byte_val b) 255) (8 * Z.of_nat i)))
    = v + byte_val b * 256 ^ Z.of_nat i.
Proof.
  intros Hv Hw. pose proof (byte_val_range b).
  rewrite land_255, Z.mod_small by lia. rewrite lor_shiftl_add by lia.
  change 256 with (2 ^ 8). rewrite <- Z.pow_mul_r by lia.
  apply wrap_small. rewrite Nat2Z.inj_succ in Hw.
  assert (2 ^ (8 * Z.of_nat i) * 256 <= 2 ^ w).
  { change 256 with (2 ^ 8). rewrite <- Z.pow_add_r by lia. apply Z.pow_le_mono_r; lia. }
  nia.
Qed.

Lemma fread_loop_le w n k v num f :
  8 * Z.of_nat (k + n) <= w -> 0 <= v < 256 ^ Z.of_nat k ->
  let bs := take n (f_in f) in
  fread_loop w ((fun i : nat => 8 * Z.of_nat i) <$> seq k n) v num f =
    (v + 256 ^ Z.of_nat k * le_val bs, num + Z.of_nat (length bs),
     mkFILE (drop n (f_in f)) (f_err f)
       (f_eof f || bool_decide (length (f_in f) < n)%nat && negb (f_err f)) (f_out f) (f_room f)).
Proof.
  revert k v num f; induction n as [|n IH]; intros k v num f Hw Hv; simpl.
  - rewrite !Z.add_0_r, Z.mul_0_r, Z.add_0_r, orb_false_r. by destruct f.
  - unfold fgetc. destruct (f_in f) as [|b r] eqn:Ein; simpl.
    + rewrite Z.mul_0_r, !Z.add_0_r. done.
    + rewrite byte_val_not_EOF, read_step_le;
        [|by rewrite Z.pow_mul_r by lia|lia].
      rewrite IH; simpl; [|lia|].
      2:{ pose proof (byte_val_range b). rewrite Nat2Z.inj_succ, Z.pow_succ_r by lia.
          assert (0 < 256 ^ Z.of_nat k) by (apply Z.pow_pos_nonneg; lia). nia. }
      rewrite Nat2Z.inj_succ, Z.pow_succ_r by lia. f_equal; [f_equal; lia|].
      do 3 f_equal. apply bool_decide_ext. lia.
Qed.

Lemma be_shifts_S n : be_shifts (S n) = 8 * Z.of_nat n :: be_shifts n.
Proof.
  unfold be_shifts, le_shifts. rewrite seq_S, fmap_app, rev_app_distr. simpl. done.
Qed.

Lemma read_step_be w a b n :
  0 <= a -> (a + 1) * 256 ^ Z.of_nat (S n) <= 2 ^ w ->
  wrap w (Z.lor (a * 256 ^ Z.of_nat (S n))
            (Z.shiftl (Z.land (byte_val b) 255) (8 * Z.of_nat n)))
    = (a * 256 + byte_val b) * 256 ^ Z.of_nat n.
Proof.
  intros Ha Hw. pose proof (byte_val_range b).
  rewrite land_255, Z.mod_small by lia.
  assert (a * 256 ^ Z.of_nat (S n) = Z.shiftl (Z.shiftl a 8) (8 * Z.of_nat n)) as ->.
  { rewrite !Z.shiftl_mul_pow2, Nat2Z.inj_succ, Z.pow_succ_r, Z.pow_mul_r by lia.
    change (2 ^ 8) with 256. ring. }
  rewrite <- Z.shiftl_lor, Z.lor_comm, lor_shiftl_add by lia.
  rewrite Z.shiftl_mul_pow2 by lia. change (2 ^ 8) with 256.
  rewrite Z.pow_mul_r by lia. change (2 ^ 8) with 256.
  rewrite Nat2Z.inj_succ, Z.pow_succ_r in Hw by lia.
  assert (0 < 256 ^ Z.of_nat n) by (apply Z.pow_pos_nonneg; lia).
  rewrite wrap_small; [lia|nia].
Qed.

Lemma le_val_zeros n : le_val (replicate n (byte_of 0)) = 0.
Proof. induction n as [|n IH]; [done|]. simpl. rewrite IH. done. Qed.

Lemma fread_loop_be w n a num f :
  0 <= a -> (a + 1) * 256 ^ Z.of_nat n <= 2 ^ w ->
  let bs := take n (f_in f) in
  fread_loop w (be_shifts n) (a * 256 ^ Z.of_nat n) num f =
    (a * 256 ^ Z.of_nat n + denote true n bs, num + Z.of_nat (length bs),
     mkFILE (drop n (f_in f)) (f_err f)
       (f_eof f || bool_decide (length (f_in f) < n)%nat && negb (f_err f)) (f_out f) (f_room f)).
Proof.
  revert a num f; induction n as [|n IH]; intros a num f Ha Hw.
  - simpl. unfold denote. simpl. rewrite !Z.add_0_r, orb_false_r. by destruct f.
  - rewrite be_shifts_S. cbn [fread_loop]. unfold fgetc.
    destruct (f_in f) as [|b r] eqn:Ein.
    + cbn [take drop length Z.of_nat]. simpl. unfold denote. rewrite app_nil_l, Nat.sub_0_r.
      rewrite rev_replicate, le_val_zeros, !Z.add_0_r. done.
    + rewrite byte_val_not_EOF, read_step_be by (try apply byte_val_range; lia).
      pose proof (byte_val_range b). rewrite Nat2Z.inj_succ, Z.pow_succ_r in Hw by lia.
      assert (0 < 256 ^ Z.of_nat n) by (apply Z.pow_pos_nonneg; lia).
      rewrite IH; [|lia|simpl; nia]. cbn [f_in f_err f_eof f_out f_room take drop].
      rewrite length_cons. f_equal; [f_equal; [|lia]|].
      * unfold denote. rewrite length_cons, Nat.sub_succ. simpl rev.
        rewrite le_val_app, length_rev, length_app, length_replicate, length_take.
        replace (n `min` length r + (n - n `min` length r))%nat with n by lia.
        simpl le_val. rewrite Nat2Z.inj_succ, Z.pow_succ_r by lia. lia.
      * do 3 f_equal. apply bool_decide_ext. simpl. lia.
Qed.

(** What a read returns, for every format and every stream: the value the bytes
    there are denote, how many there were, and the end-of-file indicator when
    they were too few. *)
Lemma codec_read c f :
  c ∈ hpcio_codecs ->
  let n := ic_size c in let bs := take n (f_in f) in
  ic_read c f =
    (denote (ic_big c) n bs, Z.of_nat (length bs),
     mkFILE (drop n (f_in f)) (f_err f)
       (f_eof f || bool_decide (length (f_in f) < n)%nat && negb (f_err f)) (f_out f) (f_room f)).
Proof.
  intros Hc. destruct (codec_loops c Hc) as (shifts & Hs & -> & _). simpl.
  destruct (ic_big c); subst shifts.
  - rewrite <- (Z.mul_0_l (256 ^ Z.of_nat (ic_size c))).
    rewrite fread_loop_be by (rewrite ?Z.pow_mul_r by lia; change (2 ^ 8) with 256; lia).
    rewrite Z.mul_0_l, !Z.add_0_l. done.
  - unfold le_shifts. rewrite fread_loop_le by (simpl; lia). simpl.
    unfold denote. rewrite le_val_app, le_val_zeros. do 2 f_equal. lia.
Qed.

Lemma denote_layout big n v : denote big n (layout big n v) = v mod 256 ^ Z.of_nat n.
Proof.
  unfold denote, layout. destruct big; rewrite ?length_rev, length_le_bytes, Nat.sub_diag, app_nil_r.
  - rewrite rev_involutive. apply le_val_le_bytes.
  - apply le_val_le_bytes.
Qed.

Lemma length_layout big n v : length (layout big n v) = n.
Proof. unfold layout. destruct big; rewrite ?length_rev, length_le_bytes; done. Qed.

(** *** Byte swaps *)

(** The byte of [x] at bit [s]. *)
Definition byte_at (x s : Z) : Z := (x / 2 ^ s) mod 256.

Lemma byte_at_range x s : 0 <= byte_at x s < 256.
Proof. apply Z.mod_pos_bound. lia. Qed.

Lemma land_mask x s : 0 <= s -> Z.land x (Z.shiftl 255 s) = Z.shiftl (byte_at x s) s.
Proof.
  intros Hs. apply Z.bits_inj'. intros n Hn. rewrite Z.land_spec, !Z.shiftl_spec by lia.
  destruct (Z_lt_ge_dec n s).
  - rewrite !(Z.testbit_neg_r _ (n - s)) by lia. apply andb_false_r.
  - unfold byte_at. rewrite <- land_255, Z.land_spec, Z.div_pow2_bits by lia.
    by replace (n - s + s) with n by lia.
Qed.

Lemma mask_right x s t : 0 <= t <= s ->
  Z.shiftr (Z.land x (Z.shiftl 255 s)) t = Z.shiftl (byte_at x s) (s - t).
Proof. intros. rewrite land_mask, Z.shiftr_shiftl_l by lia. done. Qed.

Lemma mask_left x s t : 0 <= t -> 0 <= s ->
  Z.shiftl (Z.land x (Z.shiftl 255 s)) t = Z.shiftl (byte_at x s) (s + t).
Proof. intros. rewrite land_mask, Z.shiftl_shiftl by lia. done. Qed.

Lemma byte_of_at x s : byte_val (byte_of (x / 2 ^ s)) = byte_at x s.
Proof. apply byte_val_of. Qed.

(** Adding the next byte of a swapped word. *)
Lemma lor_next acc x s t B :
  0 <= t -> B = 2 ^ t -> 0 <= acc < B ->
  Z.lor acc (Z.shiftl (byte_at x s) t) = acc + byte_at x s * B /\
  0 <= acc + byte_at x s * B < 256 * B.
Proof.
  intros Ht -> Ha. pose proof (byte_at_range x s).
  split; [by apply lor_shiftl_add|]. nia.
Qed.

Ltac swap_step :=
  match goal with |- context [Z.lor ?a (Z.shiftl (byte_at ?x ?s) ?t)] =>
    lazymatch a with
    | context [Z.lor _ _] => fail
    | _ =>
      let B := eval vm_compute in (2 ^ t) in
      let E := fresh "E" in let R := fresh "R" in
      destruct (lor_next a x s t B ltac:(lia) eq_refl ltac:(lia)) as [E R]; rewrite E; clear E
    end
  end.

(** Write every masked and shifted byte of the swap as one byte at its new place. *)
Ltac swap_masks :=
  rewrite ?mask_right, ?mask_left by lia;
  repeat match goal with
  | |- context [Z.shiftl (byte_at ?x ?s) ?e] =>
      lazymatch e with
      | (_ - _)%Z => idtac | (_ + _)%Z => idtac | _ => fail
      end;
      let v := eval vm_compute in e in change e with v
  end;
  rewrite ?Z.shiftl_0_r.

(** Both sides as sums of bytes. *)
Ltac swap_sums x :=
  cbn [le_bytes rev app le_val]; rewrite ?Zdiv_Zdiv by lia;
  rewrite ?byte_val_of; unfold byte_at;
  repeat match goal with
  | |- context [2 ^ ?k] => let v := eval vm_compute in (2 ^ k) in change (2 ^ k) with v
  | |- context [x / (256 * ?m)] =>
      let v := eval vm_compute in (256 * m) in change (256 * m) with v
  | |- context [x / (?m * 256)] =>
      let v := eval vm_compute in (m * 256) in change (m * 256) with v
  end; rewrite ?Z.div_1_r; lia.

Lemma raw_byte_swap_16_bytes x : raw_byte_swap_16 x = le_val (rev (le_bytes 2 x)).
Proof.
  unfold raw_byte_swap_16.
  change 0xff00 with (Z.shiftl 255 8). change 0xff with (Z.shiftl 255 0).
  swap_masks. pose proof (byte_at_range x 8). repeat swap_step. swap_sums x.
Qed.

Lemma raw_byte_swap_32_bytes x : raw_byte_swap_32 x = le_val (rev (le_bytes 4 x)).
Proof.
  unfold raw_byte_swap_32.
  change 0xff000000 with (Z.shiftl 255 24). change 0xff0000 with (Z.shiftl 255 16).
  change 0xff00 with (Z.shiftl 255 8). change 0xff with (Z.shiftl 255 0).
  swap_masks. pose proof (byte_at_range x 24). repeat swap_step. swap_sums x.
Qed.

Lemma raw_byte_swap_64_bytes x : raw_byte_swap_64 x = le_val (rev (le_bytes 8 x)).
Proof.
  unfold raw_byte_swap_64.
  change 0xff00000000000000 with (Z.shiftl 255 56). change 0xff000000000000 with (Z.shiftl 255 48).
  change 0xff0000000000 with (Z.shiftl 255 40). change 0xff00000000 with (Z.shiftl 255 32).
  change 0xff000000 with (Z.shiftl 255 24). change 0xff0000 with (Z.shiftl 255 16).
  change 0xff00 with (Z.shiftl 255 8). change 0xff with (Z.shiftl 255 0).
  swap_masks. pose proof (byte_at_range x 56). repeat swap_step. swap_sums x.
Qed.

Lemma le_bytes_mod n z : le_bytes n (z mod 256 ^ Z.of_nat n) = le_bytes n z.
Proof.
  apply le_val_inj; rewrite ?length_le_bytes; [done|].
  rewrite !le_val_le_bytes. apply Zmod_mod.
Qed.

(** The conversion of width [n], as a function of the width. *)
Definition host_to_be (n : nat) : Z -> Z :=
  match n with 2%nat => host_to_be_16 | 4%nat => host_to_be_32 | _ => host_to_be_64 end.
Definition be_to_host (n : nat) : Z -> Z :=
  match n with 2%nat => be_to_host_16 | 4%nat => be_to_host_32 | _ => be_to_host_64 end.

Lemma host_to_be_val n x :
  n ∈ [2; 4; 8]%nat -> host_to_be n x = le_val (layout true n x).
Proof.
  rewrite !elem_of_cons, elem_of_nil. intros [->|[->|[->|[]]]]; simpl host_to_be;
  unfold host_to_be_16, host_to_be_32, host_to_be_64, u16, u32, u64, wrap, layout;
  rewrite ?raw_byte_swap_16_bytes, ?raw_byte_swap_32_bytes, ?raw_byte_swap_64_bytes;
  [change (2 ^ 16) with (256 ^ Z.of_nat 2)|change (2 ^ 32) with (256 ^ Z.of_nat 4)
  |change (2 ^ 64) with (256 ^ Z.of_nat 8)]; by rewrite le_bytes_mod.
Qed.

(** ** Properties *)

(** An integer written by any of the six [hpcio_*_fwrite] functions is read
    back by its reader: the writer reports all of its bytes, appends exactly the
    layout the header promises (least significant byte first for [le], last for
    [be]), and a reader that meets these bytes returns the value, their number
    and the stream just after them. *)
Theorem hpcio_roundtrip (c : int_codec) (v : Z) (f g : FILE) (rest : list byte) :
  c ∈ hpcio_codecs -> 0 <= v < 256 ^ Z.of_nat (ic_size c) -> has_room (ic_size c) f ->
  ic_write c v f =
    (Z.of_nat (ic_size c), wrote (layout (ic_big c) (ic_size c) v) f) /\
  ic_read c (at_input (layout (ic_big c) (ic_size c) v ++ rest) g) =
    (v, Z.of_nat (ic_size c), at_input rest g).
Proof.
  intros Hc Hv Hr. split; [by apply codec_write|].
  rewrite codec_read by done. cbn [at_input f_in f_err f_eof f_out f_room].
  rewrite take_app_le by (rewrite length_layout; done).
  rewrite drop_app_le, take_ge, drop_ge, denote_layout by (rewrite length_layout; done).
  rewrite Z.mod_small, length_layout by done. unfold at_input. do 2 f_equal.
  rewrite length_app, length_layout, bool_decide_eq_false_2 by lia. apply orb_false_r.
Qed.

Lemma hpcio_roundtrip_witness :
  ic_read (mkCodec 4 true hpcio_be4_fread hpcio_be4_fwrite)
    (at_input (layout true 4 305419896 ++ [Init.Byte.x41]) writer)
  = (305419896, 4, at_input [Init.Byte.x41] writer).
Proof.
  refine (proj2 (hpcio_roundtrip (mkCodec 4 true hpcio_be4_fread hpcio_be4_fwrite)
    305419896 writer writer [Init.Byte.x41] _ _ _)).
  - unfold hpcio_codecs. rewrite !elem_of_cons. tauto.
  - simpl. lia.
  - exact I.
Defined.

(** A short read: on a stream with fewer bytes than the integer needs, every
    reader returns how many there were, the value they denote with the missing
    bytes 0, and leaves the end-of-file indicator set exactly when no read error
    ended the stream. *)
Theorem hpcio_short_read (c : int_codec) (f : FILE) :
  c ∈ hpcio_codecs -> (length (f_in f) < ic_size c)%nat ->
  ic_read c f =
    (denote (ic_big c) (ic_size c) (f_in f), Z.of_nat (length (f_in f)),
     mkFILE [] (f_err f) (f_eof f || negb (f_err f)) (f_out f) (f_room f)).
Proof.
  intros Hc Hl. rewrite codec_read by done.
  rewrite take_ge, drop_ge, bool_decide_eq_true_2 by lia. done.
Qed.

Lemma hpcio_short_read_witness :
  hpcio_be2_fread (reader [Init.Byte.x01]) = (256, 1, mkFILE [] false true [] None).
Proof.
  refine (hpcio_short_read (mkCodec 2 true hpcio_be2_fread hpcio_be2_fwrite)
    (reader [Init.Byte.x01]) _ _).
  - unfold hpcio_codecs. rewrite !elem_of_cons. tauto.
  - simpl. lia.
Defined.

(** The mask-and-shift formulas of [big-endian.h] are the byte order they
    claim: on a little endian host the memory of [host_to_be_N x] is the [N/8]
    low bytes of [x], most significant first, and [be_to_host_N] undoes it. *)
Theorem host_to_be_correct (n : nat) (x : Z) :
  n ∈ [2; 4; 8]%nat ->
  le_bytes n (host_to_be n x) = layout true n x /\
  be_to_host n (host_to_be n x) = x mod 256 ^ Z.of_nat n.
Proof.
  intros Hn. rewrite host_to_be_val by done.
  assert (le_bytes n (le_val (layout true n x)) = layout true n x) as E.
  { rewrite <- (length_layout true n x) at 1. apply le_bytes_le_val. }
  split; [exact E|].
  assert (be_to_host n = host_to_be n) as ->.
  { revert Hn. rewrite !elem_of_cons, elem_of_nil. by intros [->|[->|[->|[]]]]. }
  rewrite host_to_be_val by done. unfold layout at 1. rewrite E. unfold layout.
  rewrite rev_involutive. apply le_val_le_bytes.
Qed.

Lemma host_to_be_correct_witness :
  le_bytes 4 (host_to_be 4 0x01020304) = layout true 4 0x01020304 /\
  be_to_host 4 (host_to_be 4 0x01020304) = 0x01020304.
Proof. apply (host_to_be_correct 4 0x01020304). rewrite !elem_of_cons. tauto. Defined.
