(* ===== verification/HpcFmt.v ===== *)
(** * The hpctoolkit formatting layer

    Models [src/src/external/hpctoolkit/lib/prof-lean/hpcfmt.h] (integers,
    reals and byte arrays with a status) and [hpcfmt.c] (length-prefixed
    strings, name-value pairs and lists of them).

    A function that can write outside the block its allocator returned, or whose
    loop counter can overflow, returns an [option]; [None] is that undefined
    behaviour.  A [double] is its 64-bit pattern.  A C string is the buffer that
    holds it; [cstr] is what [strlen] and [strcmp] see of it. *)
From stdpp Require Import base numbers list gmap strings.
From Stdlib Require Import ZArith Lia.
From S2P Require Import Prelude LibC ByteIO.
Local Open Scope Z_scope.

Inductive fmt_status := HPCFMT_OK | HPCFMT_ERR | HPCFMT_EOF.

#[export] Instance fmt_status_eq_decision : EqDecision fmt_status.
Proof. solve_decision. Defined.

(** ** Integers with a status ([hpcfmt.h]) *)

(** [(sz == 0 && feof(infs)) ? HPCFMT_EOF : HPCFMT_ERR] unless [sz] is the size
    asked for. *)
Definition read_status (sz size : Z) (infs : FILE) : fmt_status :=
  if sz =? size then HPCFMT_OK
  else if (sz =? 0) && feof infs then HPCFMT_EOF else HPCFMT_ERR.

Definition hpcfmt_int2_fread (infs : FILE) : fmt_status * Z * FILE :=
  let '(val, sz, infs') := hpcio_be2_fread infs in (read_status sz 2 infs', val, infs').
Definition hpcfmt_int4_fread (infs : FILE) : fmt_status * Z * FILE :=
  let '(val, sz, infs') := hpcio_be4_fread infs in (read_status sz 4 infs', val, infs').
Definition hpcfmt_int8_fread (infs : FILE) : fmt_status * Z * FILE :=
  let '(val, sz, infs') := hpcio_be8_fread infs in (read_status sz 8 infs', val, infs').
Definition hpcfmt_real8_fread (infs : FILE) : fmt_status * Z * FILE :=
  let '(val, sz, infs') := hpcio_be8_fread infs in (read_status sz 8 infs', val, infs').
Definition hpcfmt_intX_fread (size : nat) (infs : FILE) : fmt_status * list byte * FILE :=
  let '(val, sz, infs') := hpcio_beX_fread size infs in
  (read_status sz (Z.of_nat size) infs', val, infs').

Definition write_status (sz size : Z) : fmt_status := if size =? sz then HPCFMT_OK else HPCFMT_ERR.

Definition hpcfmt_int2_fwrite (val : Z) (outfs : FILE) : fmt_status * FILE :=
  let '(sz, outfs') := hpcio_be2_fwrite val outfs in (write_status sz 2, outfs').
Definition hpcfmt_int4_fwrite (val : Z) (outfs : FILE) : fmt_status * FILE :=
  let '(sz, outfs') := hpcio_be4_fwrite val outfs in (write_status sz 4, outfs').
Definition hpcfmt_int8_fwrite (val : Z) (outfs : FILE) : fmt_status * FILE :=
  let '(sz, outfs') := hpcio_be8_fwrite val outfs in (write_status sz 8, outfs').
Definition hpcfmt_real8_fwrite (val : Z) (outfs : FILE) : fmt_status * FILE :=
  let '(sz, outfs') := hpcio_be8_fwrite val outfs in (write_status sz 8, outfs').
Definition hpcfmt_intX_fwrite (val : list byte) (outfs : FILE) : fmt_status * FILE :=
  let '(sz, outfs') := hpcio_beX_fwrite val outfs in
  (write_status sz (Z.of_nat (length val)), outfs').

(** ** Strings ([hpcfmt.c]) *)
Abbreviation NUL := Init.Byte.x00.

(** What a C string function sees of a buffer: the bytes before the first NUL. *)
Fixpoint cstr (buf : list byte) : list byte :=
  match buf with
  | [] => []
  | b :: r => if decide (b = NUL) then [] else b :: cstr r
  end.

(** [hpcfmt_alloc_fn]: whether a block of so many bytes is granted; the pointer
    to the allocator itself may be [NULL]. *)
Definition alloc_fn := option (Z -> bool).

(** The loop [for (int i = 0; i < len; i++)] of [hpcfmt_str_fread] with [n]
    bytes to go, into a block of [sz] bytes: whether no [EOF] was met, the bytes
    stored and the stream. *)
Fixpoint str_fill (n : nat) (i sz : Z) (infs : FILE) : option (bool * list byte * FILE) :=
  if i =? 2 ^ 31 then None else
  match n with
  | O => Some (true, [], infs)
  | S n' =>
      let '(c, infs') := fgetc infs in
      if c =? EOF then Some (false, [], infs')
      else if i <? sz then
        r ← str_fill n' (i + 1) sz infs';
        let '(ok, bs, infs'') := r in Some (ok, byte_of c :: bs, infs'')
      else None
  end.

(** The status, the buffer stored through [str] (none when it is left alone) and
    the stream. *)
Definition hpcfmt_str_fread (infs : FILE) (alloc : alloc_fn)
  : option (fmt_status * option (list byte) * FILE) :=
  let '(st, len, infs1) := hpcfmt_int4_fread infs in
  if bool_decide (st = HPCFMT_OK) then
    match alloc with
    | None => Some (HPCFMT_ERR, None, infs1)
    | Some al =>
        let sz := u32 (len + 1) in
        if al sz then
          r ← str_fill (Z.to_nat len) 0 sz infs1;
          let '(ok, bs, infs2) := r in
          if ok : bool then
            if len <? sz then Some (HPCFMT_OK, Some (bs ++ [NUL]), infs2) else None
          else Some (HPCFMT_ERR, None, infs2)
        else Some (HPCFMT_ERR, None, infs1)
    end
  else Some (HPCFMT_ERR, None, infs1).

(** The loop of [hpcfmt_str_fwrite]. *)
Fixpoint str_put (bs : list byte) (outfs : FILE) : fmt_status * FILE :=
  match bs with
  | [] => (HPCFMT_OK, outfs)
  | b :: r =>
      let '(c, outfs') := fputc (byte_val b) outfs in
      if c =? EOF then (HPCFMT_ERR, outfs') else str_put r outfs'
  end.

(** [str] is [NULL] or a buffer; the status of the length's write is dropped. *)
Definition hpcfmt_str_fwrite (str : option (list byte)) (outfs : FILE) : fmt_status * FILE :=
  let s := match str with Some buf => cstr buf | None => [] end in
  let len := u32 (Z.of_nat (length s)) in
  let '(_, outfs1) := hpcfmt_int4_fwrite len outfs in
  str_put (take (Z.to_nat len) s) outfs1.

(** ** Name-value pairs *)

(** The two [char*] fields; [None] is a pointer no call has stored to. *)
Record hpcfmt_nvpair_t := mkNV { nv_name : option (list byte); nv_val : option (list byte) }.

Definition hpcfmt_nvpair_fwrite (nvp : hpcfmt_nvpair_t) (fs : FILE) : fmt_status * FILE :=
  let '(ret, fs1) := hpcfmt_str_fwrite (nv_name nvp) fs in
  if bool_decide (ret = HPCFMT_OK) then
    let '(ret', fs2) := hpcfmt_str_fwrite (nv_val nvp) fs1 in
    if bool_decide (ret' = HPCFMT_OK) then (HPCFMT_OK, fs2) else (HPCFMT_ERR, fs2)
  else (HPCFMT_ERR, fs1).

(** The first loop over the arguments of [hpcfmt_nvpairs_vfwrite]; [None] when
    they run out before the terminating [NULL]. *)
Fixpoint nv_count (args : list (option (list byte))) : option Z :=
  match args with
  | None :: _ => Some 0
  | Some _ :: _ :: rest => n ← nv_count rest; Some (n + 1)
  | _ => None
  end.

(** The second loop. *)
Fixpoint nv_puts (args : list (option (list byte))) (out : FILE) : option FILE :=
  match args with
  | None :: _ => Some out
  | Some name :: val :: rest =>
      let '(_, out1) := hpcfmt_str_fwrite (Some name) out in
      let '(_, out2) := hpcfmt_str_fwrite val out1 in
      nv_puts rest out2
  | _ => None
  end.

Definition hpcfmt_nvpairs_vfwrite (out : FILE) (args : list (option (list byte)))
  : option (fmt_status * FILE) :=
  n ← nv_count args;
  let '(_, out1) := hpcfmt_int4_fwrite (u32 n) out in
  out2 ← nv_puts args out1;
  Some (HPCFMT_OK, out2).

(** Both statuses are dropped: the pair keeps its old pointers where a read failed. *)
Definition hpcfmt_nvpair_fread (inp : hpcfmt_nvpair_t) (infs : FILE) (alloc : alloc_fn)
  : option (fmt_status * hpcfmt_nvpair_t * FILE) :=
  r1 ← hpcfmt_str_fread infs alloc;
  let '(_, name, infs1) := r1 in
  r2 ← hpcfmt_str_fread infs1 alloc;
  let '(_, val, infs2) := r2 in
  Some (HPCFMT_OK,
        mkNV (match name with Some _ => name | None => nv_name inp end)
             (match val with Some _ => val | None => nv_val inp end), infs2).

Fixpoint nvpairs_fread (lst : list hpcfmt_nvpair_t) (infs : FILE) (alloc : alloc_fn)
  : option (list hpcfmt_nvpair_t * FILE) :=
  match lst with
  | [] => Some ([], infs)
  | inp :: rest =>
      r ← hpcfmt_nvpair_fread inp infs alloc;
      let '(_, nv, infs1) := r in
      r' ← nvpairs_fread rest infs1 alloc;
      let '(nvs, infs2) := r' in Some (nv :: nvs, infs2)
  end.

(** The list's block is what the allocator returned, its pairs not yet stored
    to; without an allocator it is [old], the block [nvps->lst] already points
    to ([None]: no valid block).  [None] is a store outside the block. *)
Definition hpcfmt_nvpairList_fread (old : option (list hpcfmt_nvpair_t)) (infs : FILE)
    (alloc : alloc_fn) : option (fmt_status * option (list hpcfmt_nvpair_t) * FILE) :=
  let '(st, len, infs1) := hpcfmt_int4_fread infs in
  if bool_decide (st = HPCFMT_OK) then
    let n := Z.to_nat len in
    let block := match alloc with
                 | Some al => if al (len * 16) then Some (replicate n (mkNV None None)) else None
                 | None => old
                 end in
    match block with
    | None => if len =? 0 then Some (HPCFMT_OK, None, infs1) else None
    | Some lst =>
        if (length lst <? n)%nat then None
        else
          r ← nvpairs_fread (take n lst) infs1 alloc;
          let '(lst', infs2) := r in Some (HPCFMT_OK, Some (lst' ++ drop n lst), infs2)
    end
  else Some (HPCFMT_ERR, old, infs1).

Inductive search_result :=
  | NotFound                             (* NULL *)
  | Found (val : option (list byte))     (* lst[i].val *)
  | BadName.                             (* strcmp on a pointer never stored to *)

Fixpoint hpcfmt_nvpairList_search (nvps : list hpcfmt_nvpair_t) (name : list byte)
  : search_result :=
  match nvps with
  | [] => NotFound
  | nv :: rest =>
      match nv_name nv with
      | None => BadName
      | Some nm =>
          if bool_decide (cstr nm = cstr name) then Found (nv_val nv)
          else hpcfmt_nvpairList_search rest name
      end
  end.

(** ** Lemmas *)

Lemma be4_codec : mkCodec 4 true hpcio_be4_fread hpcio_be4_fwrite ∈ hpcio_codecs.
Proof. unfold hpcio_codecs. rewrite !elem_of_cons. tauto. Qed.

Lemma int4_fwrite_room v f :
  has_room 4 f -> hpcfmt_int4_fwrite v f = (HPCFMT_OK, wrote (layout true 4 v) f).
Proof.
  intros Hr. unfold hpcfmt_int4_fwrite.
  pose proof (codec_write _ v f be4_codec Hr) as E. simpl in E. rewrite E. done.
Qed.

Lemma int4_fread_layout v f rest :
  0 <= v < 2 ^ 32 -> f_in f = layout true 4 v ++ rest ->
  hpcfmt_int4_fread f = (HPCFMT_OK, v, at_input rest f).
Proof.
  intros Hv Hin. unfold hpcfmt_int4_fread.
  pose proof (codec_read _ f be4_codec) as E. cbn [ic_read ic_size ic_big] in E. rewrite E, Hin.
  rewrite take_app_length' by (by rewrite length_layout).
  rewrite drop_app_length' by (by rewrite length_layout).
  rewrite denote_layout, length_layout, Z.mod_small by (change (256 ^ Z.of_nat 4) with (2 ^ 32); lia).
  rewrite length_app, length_layout, bool_decide_eq_false_2, orb_false_r by lia. done.
Qed.

Lemma cstr_no_nul s rest : NUL ∉ s -> cstr (s ++ NUL :: rest) = s.
Proof.
  induction s as [|b s IH]; intros Hs; simpl.
  - done.
  - rewrite elem_of_cons in Hs. rewrite decide_False by (intros ->; tauto). f_equal. apply IH; tauto.
Qed.

Lemma cstr_id s : NUL ∉ s -> cstr s = s.
Proof.
  induction s as [|b s IH]; intros Hs; simpl; [done|].
  rewrite elem_of_cons in Hs. rewrite decide_False by (intros ->; tauto). f_equal. apply IH; tauto.
Qed.

Lemma str_put_room bs f :
  has_room (length bs) f -> str_put bs f = (HPCFMT_OK, wrote bs f).
Proof.
  revert f; induction bs as [|b bs IH]; intros f Hr; simpl.
  - by rewrite wrote_nil.
  - rewrite fputc_room by (eapply has_room_le, Hr; simpl; lia).
    rewrite u8_not_EOF, IH by (apply has_room_wrote; exact Hr).
    by rewrite wrote_wrote, byte_of_val.
Qed.

(** The bytes a string takes in the file. *)
Definition enc_str (s : list byte) : list byte :=
  layout true 4 (Z.of_nat (length s)) ++ s.

Arguments enc_str : simpl never.

Lemma length_enc_str s : length (enc_str s) = (4 + length s)%nat.
Proof. unfold enc_str. rewrite length_app, length_layout. done. Qed.

Lemma str_fwrite_room buf f :
  Z.of_nat (length (cstr buf)) < 2 ^ 32 -> has_room (4 + length (cstr buf)) f ->
  hpcfmt_str_fwrite (Some buf) f = (HPCFMT_OK, wrote (enc_str (cstr buf)) f).
Proof.
  intros Hl Hr. unfold hpcfmt_str_fwrite, enc_str.
  rewrite int4_fwrite_room by (eapply has_room_le, Hr; lia).
  unfold u32. rewrite wrap_small by lia. rewrite Nat2Z.id, take_ge by lia.
  rewrite str_put_room, wrote_wrote; [done|].
  apply has_room_wrote. rewrite length_layout. done.
Qed.

Lemma str_fill_ok s i sz f rest :
  f_in f = s ++ rest -> 0 <= i -> i + Z.of_nat (length s) < 2 ^ 31 ->
  i + Z.of_nat (length s) <= sz ->
  str_fill (length s) i sz f = Some (true, s, at_input rest f).
Proof.
  revert i f; induction s as [|b s IH]; intros i f Hin Hi Hm Hsz; cbn [length str_fill].
  - rewrite (proj2 (Z.eqb_neq i (2 ^ 31))) by (simpl in Hm; lia).
    simpl in Hin. by rewrite <- Hin, at_input_in.
  - rewrite length_cons in Hm, Hsz.
    rewrite (proj2 (Z.eqb_neq i (2 ^ 31))) by lia.
    rewrite (fgetc_cons _ _ _ Hin), byte_val_not_EOF, (proj2 (Z.ltb_lt i sz)) by lia.
    rewrite IH by (simpl; lia || done). simpl. by rewrite byte_of_val.
Qed.

Lemma str_fread_enc s f rest (al : Z -> bool) :
  Z.of_nat (length s) < 2 ^ 31 -> (forall n, al n = true) ->
  f_in f = enc_str s ++ rest ->
  hpcfmt_str_fread f (Some al) = Some (HPCFMT_OK, Some (s ++ [NUL]), at_input rest f).
Proof.
  intros Hl Hal Hin. unfold hpcfmt_str_fread. unfold enc_str in Hin. rewrite <- app_assoc in Hin.
  rewrite (int4_fread_layout (Z.of_nat (length s)) f (s ++ rest)) by (done || lia).
  rewrite bool_decide_eq_true_2 by done. rewrite Hal.
  unfold u32. rewrite wrap_small by lia. rewrite Nat2Z.id.
  rewrite (str_fill_ok s _ _ _ rest) by (done || lia). simpl.
  by rewrite (proj2 (Z.ltb_lt _ _)) by lia.
Qed.

(** The pairs a caller passes to [hpcfmt_nvpairs_vfwrite], as its argument list. *)
Fixpoint nv_args (l : list (list byte * list byte)) : list (option (list byte)) :=
  match l with
  | [] => [None]
  | (n, v) :: l' => Some n :: Some v :: nv_args l'
  end.

Definition enc_pair (p : list byte * list byte) : list byte := enc_str p.1 ++ enc_str p.2.
Arguments enc_pair : simpl never.

(** Strings a C caller can pass and the reader can count: no NUL inside, and
    shorter than the range of [int]. *)
Definition c_string (s : list byte) : Prop := (NUL ∉ s) /\ Z.of_nat (length s) < 2 ^ 31.
Definition c_pair (p : list byte * list byte) : Prop := c_string p.1 /\ c_string p.2.

Lemma str_fwrite_c s f :
  c_string s -> has_room (length (enc_str s)) f ->
  hpcfmt_str_fwrite (Some s) f = (HPCFMT_OK, wrote (enc_str s) f).
Proof.
  intros [Hn Hl] Hr. rewrite length_enc_str in Hr.
  rewrite str_fwrite_room; rewrite cstr_id by done; done || lia.
Qed.

Lemma nv_count_args l : nv_count (nv_args l) = Some (Z.of_nat (length l)).
Proof.
  induction l as [|[n v] l IH]; [done|]. simpl nv_count. rewrite IH. simpl. f_equal. lia.
Qed.

Lemma nv_puts_args l f :
  Forall c_pair l -> has_room (length (concat (enc_pair <$> l))) f ->
  nv_puts (nv_args l) f = Some (wrote (concat (enc_pair <$> l)) f).
Proof.
  revert f; induction l as [|[n v] l IH]; intros f Hl Hr.
  - simpl. by rewrite wrote_nil.
  - apply Forall_cons in Hl as [[Hn Hv] Hl]. rewrite fmap_cons in *. cbn [concat nv_args nv_puts] in *.
    unfold enc_pair in Hr at 1. rewrite !length_app in Hr. cbn [fst snd] in *.
    rewrite str_fwrite_c; [|done|eapply has_room_le, Hr; lia].
    rewrite str_fwrite_c; [|done|apply has_room_wrote; eapply has_room_le, Hr; lia].
    rewrite IH; [|done|].
    + rewrite !wrote_wrote. unfold enc_pair at 2. cbn [fst snd]. by rewrite <- !app_assoc.
    + rewrite wrote_wrote. apply has_room_wrote. eapply has_room_le, Hr. rewrite length_app. lia.
Qed.

Definition nv_of (p : list byte * list byte) : hpcfmt_nvpair_t :=
  mkNV (Some (p.1 ++ [NUL])) (Some (p.2 ++ [NUL])).

Lemma nvpairs_fread_enc l lst f rest al :
  Forall c_pair l -> (forall n, al n = true) -> length lst = length l ->
  f_in f = concat (enc_pair <$> l) ++ rest ->
  nvpairs_fread lst f (Some al) = Some (nv_of <$> l, at_input rest f).
Proof.
  revert lst f; induction l as [|[n v] l IH]; intros lst f Hl Hal Hlen Hin;
  destruct lst as [|inp lst]; try done; simpl in *.
  - by rewrite <- Hin, at_input_in.
  - apply Forall_cons in Hl as [[[_ Hn] [_ Hv]] Hl]. simpl in *.
    rewrite <- app_assoc in Hin. unfold enc_pair in Hin at 1; simpl in Hin.
    rewrite <- app_assoc in Hin. unfold hpcfmt_nvpair_fread.
    rewrite (str_fread_enc n f _ al Hn Hal Hin). cbn [mbind option_bind].
    rewrite (str_fread_enc v (at_input _ f) _ al Hv Hal eq_refl). cbn [mbind option_bind].
    rewrite (IH lst) by (done || lia). done.
Qed.

(** What the list search should return: the value of the first pair of that name. *)
Fixpoint assoc_first (l : list (list byte * list byte)) (name : list byte) : search_result :=
  match l with
  | [] => NotFound
  | (n, v) :: l' =>
      if bool_decide (n = name) then Found (Some (v ++ [NUL])) else assoc_first l' name
  end.

Lemma search_assoc l name :
  Forall c_pair l -> NUL ∉ name ->
  hpcfmt_nvpairList_search (nv_of <$> l) (name ++ [NUL]) = assoc_first l name.
Proof.
  intros Hl Hn. induction Hl as [|[n v] l [[Hn' _] _] Hl IH]; [done|].
  rewrite fmap_cons. unfold nv_of at 1. cbn [hpcfmt_nvpairList_search nv_name nv_val assoc_first fst snd].
  rewrite !cstr_no_nul by done. by rewrite IH.
Qed.

Lemma int4_fread_eq f :
  hpcfmt_int4_fread f =
    let bs := take 4 (f_in f) in
    (if (length (f_in f) <? 4)%nat
     then (if (length (f_in f) =? 0)%nat && (f_eof f || negb (f_err f)) then HPCFMT_EOF else HPCFMT_ERR)
     else HPCFMT_OK, denote true 4 bs,
     mkFILE (drop 4 (f_in f)) (f_err f)
       (f_eof f || bool_decide (length (f_in f) < 4)%nat && negb (f_err f)) (f_out f) (f_room f)).
Proof.
  unfold hpcfmt_int4_fread.
  pose proof (codec_read _ f be4_codec) as E. cbn [ic_read ic_size ic_big] in E. rewrite E.
  cbn zeta. do 2 f_equal. unfold read_status. cbn [feof f_eof]. rewrite length_take.
  destruct (Nat.ltb_spec (length (f_in f)) 4) as [Hlt|Hge].
  - rewrite (proj2 (Z.eqb_neq _ _)) by lia. rewrite bool_decide_eq_true_2 by done.
    rewrite andb_true_l. destruct (Nat.eqb_spec (length (f_in f)) 0) as [->|Hn]; [done|].
    by rewrite (proj2 (Z.eqb_neq _ _)) by lia.
  - by rewrite (proj2 (Z.eqb_eq _ _)) by lia.
Qed.

Lemma str_fill_total n i sz f :
  0 <= i -> i + Z.of_nat n < 2 ^ 31 -> i + Z.of_nat n <= sz ->
  exists f', str_fill n i sz f =
    Some (bool_decide (n <= length (f_in f))%nat, take n (f_in f), f').
Proof.
  revert i f; induction n as [|n IH]; intros i f Hi Hm Hsz; cbn [str_fill];
  rewrite (proj2 (Z.eqb_neq i (2 ^ 31))) by lia.
  - eexists. rewrite bool_decide_eq_true_2 by lia. done.
  - unfold fgetc. destruct (f_in f) as [|b r] eqn:Hin.
    + simpl. eauto.
    + rewrite byte_val_not_EOF, (proj2 (Z.ltb_lt i sz)) by lia.
      destruct (IH (i + 1) (mkFILE r (f_err f) (f_eof f) (f_out f) (f_room f))) as [f' E]; try lia.
      cbn [f_in] in E. eexists. rewrite E. cbn [mbind option_bind take length].
      rewrite byte_of_val. do 3 f_equal. apply bool_decide_ext. lia.
Qed.

Lemma denote_range big n bs : (length bs <= n)%nat -> 0 <= denote big n bs < 256 ^ Z.of_nat n.
Proof.
  intros Hl. unfold denote.
  assert (length (if big then rev (bs ++ replicate (n - length bs) (byte_of 0))
                  else bs ++ replicate (n - length bs) (byte_of 0)) = n) as E.
  { destruct big; rewrite ?length_rev, length_app, length_replicate; lia. }
  pose proof (le_val_range (if big then rev (bs ++ replicate (n - length bs) (byte_of 0))
    else bs ++ replicate (n - length bs) (byte_of 0))) as H. by rewrite E in H.
Qed.

(** ** Properties *)

(** Name-value lists round trip: what [hpcfmt_nvpairs_vfwrite] writes for the
    pairs [l] is the count and the length-prefixed strings, [hpcfmt_nvpairList_fread]
    reads exactly these pairs back and stops just after them, and a search in the
    list read returns the value of the first pair of the name, [NULL] if there is
    none. *)
Theorem hpcfmt_nvpairs_roundtrip (l : list (list byte * list byte)) (out infs : FILE)
    (al : Z -> bool) (rest : list byte) (old : option (list hpcfmt_nvpair_t)) (name : list byte) :
  Forall c_pair l -> Z.of_nat (length l) < 2 ^ 32 -> (forall n, al n = true) -> NUL ∉ name ->
  let bs := layout true 4 (Z.of_nat (length l)) ++ concat (enc_pair <$> l) in
  has_room (length bs) out ->
  hpcfmt_nvpairs_vfwrite out (nv_args l) = Some (HPCFMT_OK, wrote bs out) /\
  hpcfmt_nvpairList_fread old (at_input (bs ++ rest) infs) (Some al) =
    Some (HPCFMT_OK, Some (nv_of <$> l), at_input rest infs) /\
  hpcfmt_nvpairList_search (nv_of <$> l) (name ++ [NUL]) = assoc_first l name.
Proof.
  intros Hl Hlen Hal Hn bs Hr. unfold bs in *. rewrite length_app, length_layout in Hr.
  split; [|split; [|by apply search_assoc]].
  - unfold hpcfmt_nvpairs_vfwrite. rewrite nv_count_args. cbn [mbind option_bind].
    rewrite int4_fwrite_room by (eapply has_room_le, Hr; lia).
    unfold u32. rewrite wrap_small by lia.
    rewrite nv_puts_args; [|done|apply has_room_wrote; by rewrite length_layout].
    cbn [mbind option_bind]. by rewrite wrote_wrote.
  - unfold hpcfmt_nvpairList_fread. rewrite <- app_assoc.
    rewrite (int4_fread_layout (Z.of_nat (length l)) _ (concat (enc_pair <$> l) ++ rest)) by (done || lia).
    rewrite bool_decide_eq_true_2, Hal, Nat2Z.id, length_replicate, Nat.ltb_irrefl by done.
    rewrite take_ge, drop_ge by (rewrite length_replicate; lia).
    rewrite (nvpairs_fread_enc l _ _ rest) by (done || by rewrite length_replicate).
    cbn [mbind option_bind]. by rewrite app_nil_r.
Qed.

Lemma hpcfmt_nvpairs_roundtrip_witness :
  let l := [([Init.Byte.x61], [Init.Byte.x62]); ([Init.Byte.x61], [])] in
  hpcfmt_nvpairList_search (nv_of <$> l) [Init.Byte.x61; NUL] = Found (Some [Init.Byte.x62; NUL]).
Proof.
  refine (proj2 (proj2 (hpcfmt_nvpairs_roundtrip
    [([Init.Byte.x61], [Init.Byte.x62]); ([Init.Byte.x61], [])]
    writer writer (fun _ => true) [] None [Init.Byte.x61] _ _ (fun _ => eq_refl) _ _))).
  - rewrite !Forall_cons, Forall_nil. unfold c_pair, c_string. cbn [fst snd length].
    repeat split; try lia; by apply (bool_decide_unpack _).
  - simpl. lia.
  - by apply (bool_decide_unpack _).
  - exact I.
Defined.

(** Reading a string is memory safe and total on every stream and with every
    allocator as long as the stored length is below [2^31]: the call succeeds
    exactly when the length and all its bytes are there and the allocator grants
    [len + 1] bytes, it then stores the bytes and a final NUL, and otherwise it
    returns an error and leaves the caller's pointer alone. *)
Theorem hpcfmt_str_fread_total (f : FILE) (alloc : alloc_fn) :
  let len := denote true 4 (take 4 (f_in f)) in
  len < 2 ^ 31 - 1 ->
  exists st str f', hpcfmt_str_fread f alloc = Some (st, str, f') /\
    (st = HPCFMT_OK \/ st = HPCFMT_ERR) /\
    (st = HPCFMT_OK <->
       (4 + Z.to_nat len <= length (f_in f))%nat /\
       exists al, alloc = Some al /\ al (len + 1) = true) /\
    str = (if bool_decide (st = HPCFMT_OK)
           then Some (take (Z.to_nat len) (drop 4 (f_in f)) ++ [NUL]) else None).
Proof.
  intros len Hlen. unfold hpcfmt_str_fread. rewrite int4_fread_eq. cbn zeta. fold len.
  assert (0 <= len) by (apply denote_range; rewrite length_take; lia).
  destruct (Nat.ltb_spec (length (f_in f)) 4) as [Hlt|Hge].
  { do 3 eexists. split.
    - rewrite bool_decide_eq_false_2 by (case_match; done). done.
    - split; [by right|]. split; [|done]. split; [done|]. intros [? _]. lia. }
  rewrite bool_decide_eq_true_2 by done. destruct alloc as [al|].
  2:{ do 3 eexists. split; [done|]. split; [by right|]. split; [|done].
      split; [done|]. by intros (_ & al & ? & _). }
  unfold u32. rewrite wrap_small by lia. destruct (al (len + 1)) eqn:Hal.
  2:{ do 3 eexists. split; [done|]. split; [by right|]. split; [|done].
      split; [done|]. intros (_ & al' & ? & ?). simplify_eq. congruence. }
  destruct (str_fill_total (Z.to_nat len) 0 (len + 1)
    (mkFILE (drop 4 (f_in f)) (f_err f) (f_eof f || bool_decide (length (f_in f) < 4)%nat && negb (f_err f))
       (f_out f) (f_room f))) as [f' E]; try lia.
  rewrite E. cbn [mbind option_bind f_in]. rewrite length_drop.
  destruct (bool_decide_reflect (Z.to_nat len <= length (f_in f) - 4)%nat) as [Hfull|Hfull].
  - rewrite (proj2 (Z.ltb_lt _ _)) by lia. do 3 eexists. split; [done|].
    split; [by left|]. split; [|done]. split; [|done]. intros _. split; [lia|eauto].
  - do 3 eexists. split; [done|]. split; [by right|]. split; [|done]. split; [done|]. lia.
Qed.

Lemma hpcfmt_str_fread_total_witness :
  exists st str f',
    hpcfmt_str_fread (reader [NUL; NUL; NUL; Init.Byte.x02; Init.Byte.x41]) (Some (fun _ => true))
      = Some (st, str, f') /\ st = HPCFMT_ERR /\ str = None.
Proof.
  destruct (hpcfmt_str_fread_total (reader [NUL; NUL; NUL; Init.Byte.x02; Init.Byte.x41])
    (Some (fun _ => true))) as (st & str & f' & E & [-> | ->] & Hiff & ->).
  - vm_compute. reflexivity.
  - destruct Hiff as [[Hl _] _]; [done|]. exfalso.
    vm_compute in Hl. lia.
  - exists HPCFMT_ERR. do 2 eexists. split; [exact E|]. done.
Defined.

(** The length [2^32 - 1] is not safe: [len + 1] wraps to 0 in the 32-bit
    addition, and an allocator that grants an empty block lets the first byte of
    the string be stored outside of it. *)
Theorem hpcfmt_str_fread_overflow (b : byte) (rest : list byte) (al : Z -> bool) :
  al 0 = true ->
  hpcfmt_str_fread (reader (layout true 4 (2 ^ 32 - 1) ++ b :: rest)) (Some al) = None.
Proof.
  intros Hal. unfold hpcfmt_str_fread.
  rewrite (int4_fread_layout (2 ^ 32 - 1) _ (b :: rest)) by (done || lia).
  rewrite bool_decide_eq_true_2 by done. change (u32 (2 ^ 32 - 1 + 1)) with 0. rewrite Hal.
  replace (Z.to_nat (2 ^ 32 - 1)) with (S (Z.to_nat (2 ^ 32 - 2))) by lia.
  cbn [str_fill]. rewrite (fgetc_cons b rest) by done. by rewrite byte_val_not_EOF.
Qed.

Lemma hpcfmt_str_fread_overflow_witness :
  hpcfmt_str_fread (reader (layout true 4 (2 ^ 32 - 1) ++ [Init.Byte.x41])) (Some (fun _ => true)) = None.
Proof. apply (hpcfmt_str_fread_overflow Init.Byte.x41 [] (fun _ => true)). reflexivity. Defined.

