(* ===== verification/Xml.v ===== *)
(** * Xml: the XML the agent writes and the offline tools read

    [XMLObj] of profiler/xml.cpp with its printer, and the reader of the printed text,
    [XMLParser] of offlineprocess/pylib/xml.py. The round trip theorem states for which
    objects the reader gets back what was printed. *)
From stdpp Require Import base numbers list strings gmap.
From Stdlib Require Import ZArith Lia Ascii.
From S2P Require Import Prelude.
Local Open Scope Z_scope.

(** Text, character by character. *)
Abbreviation str := (list ascii).
Definition lit (s : string) : str := String.list_ascii_of_string s.

Definition c_quote : ascii := Ascii.ascii_of_nat 34.
Definition c_newline : ascii := Ascii.ascii_of_nat 10.
Definition c_lt : ascii := "<"%char.
Definition c_gt : ascii := ">"%char.
Definition c_eq : ascii := "="%char.
Definition c_slash : ascii := "/"%char.
Definition c_space : ascii := " "%char.
Definition c_apos : ascii := "'"%char.
Definition c_question : ascii := "?"%char.

(** ** The objects (xml.h, xml.cpp)

    [_children_map] is a [std::map], kept in the order of its keys; [_attr_map] is an
    unordered map. *)
Inductive XMLObj : Type :=
  mkXML (tag_name : str) (attr_map : gmap str str) (children_map : list (Z * XMLObj)).

Definition XMLObj_new (tag_name : str) : XMLObj := mkXML tag_name ∅ [].

Definition addAttr (key value : str) (o : XMLObj) : XMLObj :=
  let '(mkXML t a c) := o in mkXML t (<[key := c_quote :: value ++ [c_quote]]> a) c.

(** [operator[]] of [std::map]. *)
Fixpoint map_put (id : Z) (child : XMLObj) (l : list (Z * XMLObj)) : list (Z * XMLObj) :=
  match l with
  | [] => [(id, child)]
  | (i, c) :: l' =>
      if id <? i then (id, child) :: l
      else if id =? i then (id, child) :: l'
      else (i, c) :: map_put id child l'
  end.

Definition XMLObj_addChild (id : Z) (child : XMLObj) (o : XMLObj) : XMLObj :=
  let '(mkXML t a c) := o in mkXML t a (map_put (u32 id) child c).

(** [hasAttr] compares with the text as it is stored, quotes included. *)
Definition hasAttr (key value : str) (o : XMLObj) : bool :=
  let '(mkXML _ a _) := o in
  match a !! key with None => false | Some v => bool_decide (v = value) end.

Definition XML_FILE_HEADER : string :=
  "<?xml version=" +:+ String.string_of_list_ascii [c_quote] +:+ "1.0" +:+ String.string_of_list_ascii [c_quote] +:+
  " encoding=" +:+ String.string_of_list_ascii [c_quote] +:+ "utf-8" +:+ String.string_of_list_ascii [c_quote] +:+ "?>".

Section printer.
(** The order in which the unordered map is traversed. *)
Variable order : gmap str str -> list (str * str).

Fixpoint getXMLStr (indent_num : nat) (o : XMLObj) : str :=
  let '(mkXML t a cs) := o in
  let indent := replicate indent_num c_space in
  indent ++ [c_lt] ++ t ++
  concat (map (fun '(k, v) => [c_space] ++ k ++ [c_eq] ++ v) (order a)) ++
  [c_gt; c_newline] ++
  concat (map (fun '(_, c) => getXMLStr (indent_num + 2) c) cs) ++
  indent ++ [c_lt; c_slash] ++ t ++ [c_gt; c_newline].
End printer.

(** ** The reader (pylib/xml.py)

    An assertion or an exception of the script is [None]. *)

(** The reader's [XMLObj]: name, attributes, children. *)
Inductive PyObj : Type := mkPy (name : str) (attr : gmap str str) (children : list PyObj).

(** [str.strip] *)
Definition is_space (c : ascii) : bool :=
  let n := N_of_ascii c in (((9 <=? n) && (n <=? 13)) || ((28 <=? n) && (n <=? 32)))%N.
Fixpoint lstrip (s : str) : str :=
  match s with c :: r => if is_space c then lstrip r else s | [] => [] end.
Definition rstrip (s : str) : str := rev (lstrip (rev s)).
Definition strip (s : str) : str := rstrip (lstrip s).

(** The pattern [tag_end]: a [>] behind which the number of quotes is even. *)
Fixpoint even_quotes (s : str) : bool :=
  match s with [] => true | c :: r => xorb (bool_decide (c = c_quote)) (even_quotes r) end.
Fixpoint tag_end (s : str) : option (str * str) :=
  match s with
  | [] => None
  | c :: r =>
      if bool_decide (c = c_gt) && even_quotes r then Some ([c], r)
      else '(a, b) ← tag_end r; Some (c :: a, b)
  end.

Inductive seg_type := SegOpen | SegClose.

(** [_getNextSegment]: the kind of the next tag, its text, and what remains. *)
Definition getNextSegment (input_str : str) : option (option (seg_type * str * str)) :=
  match strip input_str with
  | [] => Some None
  | (c0 :: rest) as s =>
      if bool_decide (c0 = c_lt) then
        match rest with
        | [] => None
        | c1 :: _ =>
            '(seg, remains) ← tag_end s;
            Some (Some (if bool_decide (c1 = c_slash) then SegClose else SegOpen, seg, remains))
        end
      else None
  end.

(** Everything up to the next [c]. *)
Fixpoint until (c : ascii) (s : str) : option (str * str) :=
  match s with
  | [] => None
  | x :: r => if bool_decide (x = c) then Some ([], r) else '(a, b) ← until c r; Some (x :: a, b)
  end.

(** The pattern [split_attr] with the slice [[1::2]]: the runs of characters other than
    spaces, quoted text counting as a whole; a quote without its partner separates. *)
Definition flush (cur : str) : list str := match cur with [] => [] | _ => [cur] end.
Fixpoint split_attr (fuel : nat) (cur s : str) : list str :=
  match fuel with
  | O => []
  | S fuel =>
    match s with
    | [] => flush cur
    | c :: r =>
        if bool_decide (c = c_space) then flush cur ++ split_attr fuel [] r
        else if bool_decide (c = c_quote) || bool_decide (c = c_apos) then
          match until c r with
          | Some (a, r') => split_attr fuel (cur ++ c :: a ++ [c]) r'
          | None => flush cur ++ split_attr fuel [] r
          end
        else split_attr fuel (cur ++ [c]) r
    end
  end.

(** [s.split("=")] *)
Fixpoint split_eq (s : str) : list str :=
  match s with
  | [] => [[]]
  | c :: r =>
      match split_eq r with
      | [] => []
      | p :: ps => if bool_decide (c = c_eq) then [] :: p :: ps else (c :: p) :: ps
      end
  end.

(** The slice [[1:-1]]. *)
Definition inner (s : str) : str := removelast (tail s).

Fixpoint parse_attrs (attrs : list str) (attr_dict : gmap str str) : option (gmap str str) :=
  match attrs with
  | [] => Some attr_dict
  | a :: attrs =>
      match split_eq a with
      | [key; val] => parse_attrs attrs (<[key := inner (strip val)]> attr_dict)
      | _ => None
      end
  end.

Definition parseOpenTag (open_tag_str : str) : option (str * gmap str str) :=
  let s := inner open_tag_str in
  match split_attr (S (length s)) [] s with
  | [] => None
  | tag_name :: attrs => attr_dict ← parse_attrs attrs ∅; Some (tag_name, attr_dict)
  end.

Definition py_addChild (c : PyObj) (o : PyObj) : PyObj :=
  let '(mkPy n a cs) := o in mkPy n a (cs ++ [c]).
Definition py_name (o : PyObj) : str := let '(mkPy n _ _) := o in n.
Definition py_children (o : PyObj) : list PyObj := let '(mkPy _ _ cs) := o in cs.

(** The loop of [XMLParser.__init__] with [node_stack], the innermost node first; an
    open node becomes a child of the one below it when its closing tag is read. *)
Fixpoint parse_loop (fuel : nat) (node_stack : list PyObj) (remains : str) : option (list PyObj) :=
  match fuel with
  | O => None
  | S fuel =>
    seg ← getNextSegment remains;
    match seg with
    | None => Some node_stack
    | Some (SegOpen, tag_seg, remains) =>
        '(tag_name, attr_dict) ← parseOpenTag tag_seg;
        parse_loop fuel (mkPy tag_name attr_dict [] :: node_stack) remains
    | Some (SegClose, tag_seg, remains) =>
        match node_stack with
        | node :: parent :: stack =>
            if bool_decide (py_name node = inner (tail tag_seg)) then
              parse_loop fuel (py_addChild node parent :: stack) remains
            else None
        | [root] =>
            (* the virtual root is closed: nothing may follow *)
            if bool_decide (py_name root = inner (tail tag_seg)) then
              match getNextSegment remains with Some None => Some [root] | _ => None end
            else None
        | [] => None
        end
    end
  end.

(** What is left open at the end of the text already hangs where it was opened. *)
Fixpoint collapse (o : PyObj) (stack : list PyObj) : PyObj :=
  match stack with [] => o | parent :: stack => collapse (py_addChild o parent) stack end.

Fixpoint find_sub (pat s : str) : option nat :=
  if bool_decide (take (length pat) s = pat) then Some 0%nat
  else match s with [] => None | _ :: r => S <$> find_sub pat r end.

(** Stripping the header, if any. *)
Definition strip_header (file_str : str) : str :=
  match find_sub [c_lt; c_question] file_str with
  | Some i1 =>
      match find_sub [c_question; c_gt] (drop (i1 + 1) file_str) with
      | Some j => drop (i1 + 1 + j + 2) file_str
      | None => file_str
      end
  | None => file_str
  end.

(** [XMLParser(file_str).getVirtualRoot()] *)
Definition XMLParser (file_str : str) : option PyObj :=
  let content := strip_header file_str in
  stack ← parse_loop (S (length content)) [mkPy (lit "root") ∅ []] content;
  match stack with [] => None | o :: stack => Some (collapse o stack) end.

(** ** Texts that need no escaping *)
Definition name_char (c : ascii) : bool :=
  negb (is_space c || bool_decide (c ∈ [c_quote; c_apos; c_eq; c_lt; c_gt; c_slash; c_question])).
Definition name_ok (s : str) : Prop := s <> [] /\ forallb name_char s = true.
Definition value_char (c : ascii) : bool := negb (bool_decide (c ∈ [c_quote; c_eq; c_slash; c_question])).
Definition value_ok (s : str) : Prop := forallb value_char s = true.

Definition quoted (v : str) : str := c_quote :: v ++ [c_quote].

Fixpoint xml_ok (o : XMLObj) : Prop :=
  let '(mkXML t a cs) := o in
  name_ok t /\ map_Forall (fun k q => name_ok k /\ exists v, q = quoted v /\ value_ok v) a /\
  foldr (fun '(_, c) P => xml_ok c /\ P) True cs.

(** What a reader should make of an object: the values without their quotes, and the
    children in order. *)
Fixpoint reading (o : XMLObj) : PyObj :=
  let '(mkXML t a cs) := o in mkPy t (inner <$> a) (map (fun '(_, c) => reading c) cs).

Section XMLObj_ind'.
Variable P : XMLObj -> Prop.
Hypothesis H : forall t a cs, Forall (fun ic => P ic.2) cs -> P (mkXML t a cs).
Fixpoint XMLObj_ind' (o : XMLObj) : P o :=
  let '(mkXML t a cs) := o in
  H t a cs ((fix go (l : list (Z * XMLObj)) : Forall (fun ic => P ic.2) l :=
    match l with
    | [] => List.Forall_nil _
    | ic :: l => List.Forall_cons _ _ _ (XMLObj_ind' ic.2) (go l)
    end) cs).
End XMLObj_ind'.

(** ** Numbers in hexadecimal, as [<<] and [%lx] print them *)
Definition hex_digit (d : Z) : ascii :=
  Ascii.ascii_of_nat (Z.to_nat (if d <? 10 then 48 + d else 87 + d)).
Fixpoint show_hex (fuel : nat) (z : Z) (acc : str) : str :=
  match fuel with
  | O => acc
  | S fuel =>
      let acc := hex_digit (z mod 16) :: acc in
      if z / 16 =? 0 then acc else show_hex fuel (z / 16) acc
  end.
(** ** Characters *)
Lemma name_char_spec c :
  name_char c = true -> is_space c = false /\ c <> c_quote /\ c <> c_apos /\ c <> c_eq /\
    c <> c_lt /\ c <> c_gt /\ c <> c_slash /\ c <> c_question /\ c <> c_space.
Proof.
  unfold name_char. rewrite negb_true_iff, orb_false_iff, bool_decide_eq_false, !not_elem_of_cons.
  intros [Hs Hn]. split_and!; try tauto. by intros ->.
Qed.

Lemma value_char_spec c : value_char c = true -> c <> c_quote /\ c <> c_eq /\ c <> c_slash /\ c <> c_question.
Proof. unfold value_char. rewrite negb_true_iff, bool_decide_eq_false, !not_elem_of_cons. tauto. Qed.

Lemma even_quotes_app a b : even_quotes (a ++ b) = Bool.eqb (even_quotes a) (even_quotes b).
Proof. induction a as [|c a IH]; cbn; [by destruct (even_quotes b)|]. rewrite IH. by destruct (bool_decide _), (even_quotes a), (even_quotes b). Qed.

Lemma even_quotes_no a : Forall (fun c => c <> c_quote) a -> even_quotes a = true.
Proof. induction 1 as [|c a Hc _ IH]; [done|]. cbn. by rewrite bool_decide_false, IH. Qed.

(** ** Stripping *)
Lemma lstrip_spaces a s : forallb is_space a = true -> lstrip (a ++ s) = lstrip s.
Proof. induction a as [|c a IH]; [done|]. cbn. rewrite andb_true_iff. intros [-> H]. auto. Qed.

Lemma lstrip_split s : exists a, s = a ++ lstrip s /\ forallb is_space a = true.
Proof.
  induction s as [|c s IH]; [by exists []|]. cbn. destruct (is_space c) eqn:E; [|by exists []].
  destruct IH as (a & E' & H). exists (c :: a). cbn. by rewrite <- E', E.
Qed.

Lemma rstrip_keep a c b : is_space c = false -> rstrip (a ++ c :: b) = a ++ c :: rstrip b.
Proof.
  intros Hc. unfold rstrip. rewrite rev_app_distr. cbn. rewrite <- app_assoc. cbn.
  destruct (lstrip_split (rev b)) as (sp & E & Hsp). 
  assert (Hl : forall x, lstrip (rev b ++ c :: x) = lstrip (rev b) ++ c :: x).
  { intros x. generalize (rev b). clear E. intros l. induction l as [|y l IH]; cbn; [by rewrite Hc|].
    destruct (is_space y); [exact IH|done]. }
  rewrite Hl, rev_app_distr. cbn. rewrite rev_involutive, <- app_assoc. done.
Qed.

Lemma rstrip_idemp s : rstrip (rstrip s) = rstrip s.
Proof.
  unfold rstrip. rewrite rev_involutive. f_equal.
  generalize (rev s). intros l. induction l as [|c l IH]; [done|]. cbn.
  destruct (is_space c) eqn:E; [exact IH|]. cbn. by rewrite E.
Qed.

Lemma rstrip_split s : exists b, s = rstrip s ++ b /\ forallb is_space b = true.
Proof.
  destruct (lstrip_split (rev s)) as (a & E & H). exists (rev a). split.
  - unfold rstrip. rewrite <- rev_app_distr, <- E. by rewrite rev_involutive.
  - rewrite forallb_forall in *. intros x Hx. apply H. by apply in_rev.
Qed.

Lemma lstrip_rstrip s : lstrip (rstrip s) = rstrip (lstrip s).
Proof.
  induction s as [|c s IH]; [done|]. destruct (is_space c) eqn:E.
  - cbn [lstrip]. rewrite E, <- IH.
    destruct (rstrip_split s) as (b & Hb & Hs). destruct (decide (rstrip s = [])) as [H0|H0].
    + assert (rstrip (c :: s) = []) as ->.
      { unfold rstrip in *. cbn. rewrite H0 in Hb. cbn in Hb. subst b.
        rewrite lstrip_spaces; [cbn; by rewrite E|].
        rewrite forallb_forall in *. intros x Hx. apply Hs. by apply in_rev in Hx. }
      by rewrite H0.
    + destruct (exists_last H0) as (l & x & Hx). rewrite Hb, Hx.
      assert (is_space x = false) as Hsp.
      { destruct (is_space x) eqn:Ex; [|done]. exfalso. pose proof (rstrip_idemp s) as Hi.
        rewrite Hx in Hi. unfold rstrip in Hi. rewrite rev_app_distr in Hi. cbn in Hi. rewrite Ex in Hi.
        apply (f_equal length) in Hi. rewrite length_app, length_rev in Hi. cbn in Hi.
        destruct (lstrip_split (rev l)) as (y & Hy & _). apply (f_equal length) in Hy.
        rewrite length_rev, length_app in Hy. lia. }
      rewrite <- app_assoc. cbn [app]. rewrite rstrip_keep by done.
      change (c :: l ++ x :: b) with ((c :: l) ++ x :: b). rewrite rstrip_keep by done.
      cbn. by rewrite E.
  - cbn [lstrip]. rewrite E. change (c :: s) with ([] ++ c :: s). rewrite rstrip_keep by done.
    cbn. by rewrite E.
Qed.

Lemma rstrip_nil b : forallb is_space b = true -> rstrip b = [].
Proof.
  intros Hb. unfold rstrip. rewrite <- (app_nil_r (rev b)), lstrip_spaces; [done|].
  rewrite forallb_forall in *. intros x Hx. apply Hb. by apply in_rev in Hx.
Qed.

Lemma even_quotes_spaces b : forallb is_space b = true -> even_quotes b = true.
Proof.
  intros Hb. apply even_quotes_no, Forall_forall. intros c Hc ->.
  rewrite forallb_forall in Hb. apply list_elem_of_In, Hb in Hc. done.
Qed.

Lemma even_quotes_rstrip s : even_quotes (rstrip s) = even_quotes s.
Proof.
  destruct (rstrip_split s) as (b & E & Hb). rewrite E at 2.
  rewrite even_quotes_app, (even_quotes_spaces b) by done. by destruct (even_quotes (rstrip s)).
Qed.

(** ** Tags

    A tag's text keeps its [>] for its end: what precedes it holds a [>] only between
    quotes. *)
Inductive tag_text : str -> Prop :=
  | tag_nil : tag_text []
  | tag_plain c s : c <> c_quote -> c <> c_gt -> tag_text s -> tag_text (c :: s)
  | tag_quoted v s : Forall (fun c => c <> c_quote) v -> tag_text s -> tag_text (quoted v ++ s).

Lemma tag_text_app a b : tag_text a -> tag_text b -> tag_text (a ++ b).
Proof.
  induction 1 as [|c s Hc Hg _ IH|v s Hv _ IH]; intros Hb; [done|by constructor; auto|].
  rewrite <- app_assoc. apply tag_quoted; auto.
Qed.

Lemma tag_text_even s : tag_text s -> even_quotes s = true.
Proof.
  induction 1 as [|c s Hc Hg _ IH|v s Hv _ IH]; [done|cbn; by rewrite bool_decide_false, IH|].
  rewrite even_quotes_app, IH. unfold quoted. cbn. rewrite even_quotes_app.
  by rewrite (even_quotes_no v Hv).
Qed.

Lemma tag_end_quoted v x r :
  Forall (fun c => c <> c_quote) v -> even_quotes (x ++ r) = true ->
  tag_end (quoted v ++ x ++ r) = '(a, b) ← tag_end (x ++ r); Some (quoted v ++ a, b).
Proof.
  intros Hv He. unfold quoted. cbn.
  assert (Hgo : tag_end ((v ++ [c_quote]) ++ x ++ r) = '(a, b) ← tag_end (x ++ r); Some ((v ++ [c_quote]) ++ a, b)).
  { induction Hv as [|c v Hc Hv IH].
    - cbn. by destruct (tag_end (x ++ r)) as [[? ?]|].
    - cbn [app tag_end]. rewrite IH.
      assert (even_quotes ((v ++ [c_quote]) ++ x ++ r) = false) as ->.
      { rewrite !even_quotes_app, (even_quotes_no v Hv), <- even_quotes_app, He. done. }
      rewrite andb_false_r. by destruct (tag_end (x ++ r)) as [[? ?]|]. }
  rewrite Hgo. by destruct (tag_end (x ++ r)) as [[? ?]|].
Qed.

Lemma tag_end_text s r :
  tag_text s -> even_quotes r = true -> tag_end (s ++ c_gt :: r) = Some (s ++ [c_gt], r).
Proof.
  intros Hs Hr. induction Hs as [|c s Hc Hg Hs IH|v s Hv Hs IH].
  - cbn. by rewrite Hr.
  - cbn [app tag_end]. rewrite bool_decide_false by done. cbn [andb]. by rewrite IH.
  - rewrite <- app_assoc, tag_end_quoted; [rewrite IH; by rewrite <- app_assoc|done|].
    rewrite even_quotes_app, (tag_text_even s Hs). cbn. by rewrite Hr.
Qed.

Lemma getNextSegment_rstrip s : getNextSegment (rstrip s) = getNextSegment s.
Proof. unfold getNextSegment, strip. by rewrite lstrip_rstrip, rstrip_idemp. Qed.

Lemma getNextSegment_tag sp c1 s r :
  forallb is_space sp = true -> tag_text (c1 :: s) -> even_quotes r = true ->
  getNextSegment (sp ++ c_lt :: c1 :: s ++ c_gt :: r) =
    Some (Some (if bool_decide (c1 = c_slash) then SegClose else SegOpen,
                c_lt :: c1 :: s ++ [c_gt], rstrip r)).
Proof.
  intros Hsp Hs Hr. unfold getNextSegment, strip. rewrite lstrip_spaces by done.
  cbn [lstrip]. change (is_space c_lt) with false. cbn iota.
  change (c_lt :: c1 :: s ++ c_gt :: r) with ((c_lt :: c1 :: s) ++ c_gt :: r).
  rewrite rstrip_keep by done.
  assert (tag_end ((c_lt :: c1 :: s) ++ c_gt :: rstrip r) = Some ((c_lt :: c1 :: s) ++ [c_gt], rstrip r)) as E.
  { apply tag_end_text; [constructor; done|by rewrite even_quotes_rstrip]. }
  cbn [app] in E |- *. rewrite bool_decide_true by done. by rewrite E.
Qed.

(** ** Opening tags *)
Definition attr_text (kv : str * str) : str := let '(k, v) := kv in [c_space] ++ k ++ [c_eq] ++ v.
Definition attrs_text (l : list (str * str)) : str := concat (map attr_text l).
Definition attr_ok (kv : str * str) : Prop := name_ok kv.1 /\ exists v, kv.2 = quoted v /\ value_ok v.

Lemma name_tag_text s : forallb name_char s = true -> tag_text s.
Proof.
  induction s as [|c s IH]; cbn; [constructor|]. rewrite andb_true_iff. intros [Hc Hs].
  apply name_char_spec in Hc. constructor; [tauto..|auto].
Qed.

Lemma value_no_quote v : value_ok v -> Forall (fun c => c <> c_quote) v.
Proof.
  intros Hv. apply Forall_forall. intros c Hc. unfold value_ok in Hv. rewrite forallb_forall in Hv.
  apply list_elem_of_In, Hv, value_char_spec in Hc. tauto.
Qed.

Lemma attrs_tag_text l : Forall attr_ok l -> tag_text (attrs_text l).
Proof.
  induction 1 as [|[k q] l [[_ Hk] (v & Hq & Hv)] _ IH]; [constructor|]. cbn in Hk, Hq. subst q.
  unfold attrs_text. cbn. constructor; [done..|]. rewrite <- app_assoc.
  apply tag_text_app; [by apply name_tag_text|]. cbn. constructor; [done..|].
  change (c_quote :: (v ++ [c_quote]) ++ concat (map attr_text l)) with (quoted v ++ attrs_text l).
  apply tag_quoted; [by apply value_no_quote|done].
Qed.

Lemma split_attr_plain fuel a cur s :
  forallb name_char a = true ->
  split_attr (length a + fuel) cur (a ++ s) = split_attr fuel (cur ++ a) s.
Proof.
  revert cur; induction a as [|c a IH]; intros cur; cbn; [by rewrite app_nil_r|].
  rewrite andb_true_iff. intros [Hc Ha]. apply name_char_spec in Hc.
  rewrite !bool_decide_false by tauto. cbn [orb]. rewrite IH by done. by rewrite <- app_assoc.
Qed.

Lemma until_app c v r : Forall (fun x => x <> c) v -> until c (v ++ c :: r) = Some (v, r).
Proof. induction 1 as [|x v Hx _ IH]; cbn; [by rewrite bool_decide_true|]. by rewrite bool_decide_false, IH. Qed.

Definition tok (kv : str * str) : str := let '(k, v) := kv in k ++ [c_eq] ++ v.

Lemma split_attr_attrs l : forall fuel cur,
  Forall attr_ok l -> (length (attrs_text l) < fuel)%nat -> cur <> [] ->
  split_attr fuel cur (attrs_text l) = cur :: map tok l.
Proof.
  induction l as [|[k q] l IH]; intros fuel cur Hl Hf Hcur.
  { destruct fuel as [|fuel]; [cbn in Hf; lia|]. cbn. by destruct cur. }
  inversion Hl as [|? ? [[Hk0 Hk] (v & Hq & Hv)] Hl']; subst. cbn in Hk0, Hk, Hq. subst q.
  unfold attrs_text in Hf |- *. cbn [map concat attr_text] in Hf |- *. fold (attrs_text l) in Hf |- *.
  unfold quoted in Hf. rewrite !length_app in Hf. cbn in Hf. rewrite !length_app in Hf. cbn in Hf.
  destruct fuel as [|fuel]; [lia|]. rewrite <- !app_assoc. cbn [app split_attr].
  rewrite bool_decide_true by done. destruct cur as [|c0 cur]; [done|]. cbn [flush map app]. f_equal.
  replace fuel with (length k + (S (S (fuel - length k - 2))))%nat by lia.
  rewrite split_attr_plain by done. cbn [app split_attr].
  rewrite !(bool_decide_false (c_eq = _)) by done. cbn [orb]. unfold quoted at 1. cbn [app].
  rewrite (bool_decide_false (c_quote = c_space)), (bool_decide_true (c_quote = c_quote)) by done. cbn [orb].
  rewrite <- app_assoc. cbn [app]. rewrite until_app by (by apply value_no_quote).
  rewrite IH; [|done|lia|by destruct k].
  by rewrite <- !app_assoc.
Qed.

Lemma split_eq_plain s : Forall (fun c => c <> c_eq) s -> split_eq s = [s].
Proof. induction 1 as [|c s Hc _ IH]; [done|]. cbn. by rewrite IH, bool_decide_false. Qed.

Lemma split_eq_two k v :
  Forall (fun c => c <> c_eq) k -> Forall (fun c => c <> c_eq) v -> split_eq (k ++ c_eq :: v) = [k; v].
Proof.
  induction 1 as [|c k Hc _ IH]; intros Hv; cbn.
  - by rewrite split_eq_plain, bool_decide_true.
  - by rewrite IH, bool_decide_false.
Qed.

Lemma inner_quoted v : inner (quoted v) = v.
Proof. unfold inner, quoted. cbn. apply removelast_last. Qed.

Lemma strip_quoted v : strip (quoted v) = quoted v.
Proof. unfold strip, quoted. cbn [lstrip]. change (is_space c_quote) with false. cbn iota. by rewrite (rstrip_keep (c_quote :: v) c_quote []) || apply (rstrip_keep (c_quote :: v) c_quote []). Qed.

Lemma name_no_eq k : forallb name_char k = true -> Forall (fun c => c <> c_eq) k.
Proof.
  intros Hk. apply Forall_forall. intros c Hc. rewrite forallb_forall in Hk.
  apply list_elem_of_In, Hk, name_char_spec in Hc. tauto.
Qed.

Lemma quoted_no_eq v : value_ok v -> Forall (fun c => c <> c_eq) (quoted v).
Proof.
  intros Hv. unfold quoted. constructor; [done|]. apply Forall_app. split; [|by repeat constructor].
  apply Forall_forall. intros c Hc. unfold value_ok in Hv. rewrite forallb_forall in Hv.
  apply list_elem_of_In, Hv, value_char_spec in Hc. tauto.
Qed.

Definition put_all (l : list (str * str)) (d : gmap str str) : gmap str str :=
  foldl (fun d kv => <[kv.1 := inner kv.2]> d) d l.

Lemma parse_attrs_ok l d : Forall attr_ok l -> parse_attrs (map tok l) d = Some (put_all l d).
Proof.
  intros Hl. revert d; induction Hl as [|[k q] l [[_ Hk] (v & Hq & Hv)] _ IH]; intros d; [done|].
  cbn in Hk, Hq. subst q. cbn [map tok parse_attrs app].
  rewrite split_eq_two; [|by apply name_no_eq|by apply quoted_no_eq].
  rewrite IH, strip_quoted. done.
Qed.

Lemma put_all_lookup l d k :
  NoDup l.*1 -> put_all l d !! k = match list_to_map (M := gmap str str) l !! k with Some q => Some (inner q) | None => d !! k end.
Proof.
  revert d; induction l as [|[k' q] l IH]; intros d Hn; cbn; [by rewrite lookup_empty|].
  apply NoDup_cons in Hn as [Hk Hn]. unfold put_all in *. cbn. rewrite IH by done.
  destruct (decide (k = k')) as [->|Hne].
  - rewrite lookup_insert_eq. rewrite not_elem_of_list_to_map_1 by done. by rewrite lookup_insert_eq.
  - rewrite !lookup_insert_ne by done. done.
Qed.

(** ** The round trip *)
Section roundtrip.
Variable order : gmap str str -> list (str * str).
(** The traversal of the unordered map meets every element once. *)
Hypothesis order_perm : forall m, order m ≡ₚ map_to_list m.

Lemma order_attrs a :
  map_Forall (fun k q => name_ok k /\ exists v, q = quoted v /\ value_ok v) a -> Forall attr_ok (order a).
Proof.
  intros Ha. rewrite order_perm. apply Forall_forall. intros [k q] Hin.
  apply elem_of_map_to_list in Hin. exact (Ha k q Hin).
Qed.

Lemma order_put_all a : put_all (order a) ∅ = inner <$> a.
Proof.
  assert (Hn : NoDup (order a).*1) by (rewrite order_perm; apply NoDup_fst_map_to_list).
  apply map_eq. intros k. rewrite put_all_lookup by done. rewrite lookup_empty, lookup_fmap.
  rewrite (list_to_map_proper _ (map_to_list a)), list_to_map_to_list by done.
  by destruct (a !! k).
Qed.

(** The number of tags. *)
Fixpoint tags (o : XMLObj) : nat :=
  let '(mkXML _ _ cs) := o in 2 + list_sum (map (fun '(_, c) => tags c) cs).

Lemma children_ok (P : XMLObj -> Prop) cs :
  foldr (fun '(_, c) Q => P c /\ Q) True cs <-> Forall (fun ic : Z * XMLObj => P ic.2) cs.
Proof.
  induction cs as [|[i c] cs IH]; cbn; [by split; [constructor|]|]. rewrite IH, Forall_cons. done.
Qed.

Lemma parse_loop_rstrip fuel st s : parse_loop fuel st (rstrip s) = parse_loop fuel st s.
Proof. destruct fuel; [done|]. cbn. by rewrite getNextSegment_rstrip. Qed.

Lemma spaces_ok n : forallb is_space (replicate n c_space) = true.
Proof. induction n; [done|]. by cbn. Qed.

(** Reading an opening tag. *)
Lemma parse_open fuel st sp t l r :
  forallb is_space sp = true -> name_ok t -> Forall attr_ok l -> even_quotes r = true ->
  parse_loop (S fuel) st (sp ++ [c_lt] ++ t ++ attrs_text l ++ [c_gt] ++ r) =
    parse_loop fuel (mkPy t (put_all l ∅) [] :: st) r.
Proof.
  intros Hsp [Ht0 Ht] Hl Hr. destruct t as [|c1 t]; [done|]. cbn [parse_loop].
  assert (Hseg := getNextSegment_tag sp c1 (t ++ attrs_text l) r Hsp).
  cbn [app] in Hseg |- *. rewrite <- app_assoc in Hseg. rewrite Hseg; [|clear Hseg|done].
  2: { change (c1 :: t ++ attrs_text l) with ((c1 :: t) ++ attrs_text l).
       apply tag_text_app; [by apply name_tag_text|by apply attrs_tag_text]. }
  cbn in Ht. apply andb_true_iff in Ht as [Hc Ht]. pose proof (name_char_spec c1 Hc) as Hs.
  rewrite bool_decide_false by tauto. cbn [mbind option_bind].
  unfold parseOpenTag. 
  assert (inner (c_lt :: c1 :: (t ++ attrs_text l) ++ [c_gt]) = (c1 :: t) ++ attrs_text l) as ->.
  { unfold inner. cbn [tail]. apply (removelast_last (c1 :: t ++ attrs_text l)). }
  rewrite length_app, <- Nat.add_succ_r, split_attr_plain by (cbn; by rewrite Hc).
  rewrite split_attr_attrs; [|done|lia|done]. cbn [app].
  rewrite parse_attrs_ok by done. cbn [mbind option_bind]. apply parse_loop_rstrip.
Qed.

(** Reading a closing tag. *)
Lemma parse_close fuel node parent st sp t r :
  forallb is_space sp = true -> name_ok t -> py_name node = t -> even_quotes r = true ->
  parse_loop (S fuel) (node :: parent :: st) (sp ++ [c_lt; c_slash] ++ t ++ [c_gt] ++ r) =
    parse_loop fuel (py_addChild node parent :: st) r.
Proof.
  intros Hsp [Ht0 Ht] Hn Hr. cbn [parse_loop app].
  assert (Hseg := getNextSegment_tag sp c_slash t r Hsp). rewrite Hseg; [|clear Hseg|done].
  2: { constructor; [done..|]. by apply name_tag_text. }
  rewrite bool_decide_true by done. cbn [mbind option_bind tail].
  assert (inner (c_slash :: t ++ [c_gt]) = t) as ->.
  { unfold inner. cbn [tail]. apply removelast_last. }
  rewrite bool_decide_true by done. apply parse_loop_rstrip.
Qed.

Lemma getXMLStr_even n o : xml_ok o -> even_quotes (getXMLStr order n o) = true.
Proof.
  revert n; induction o as [t a cs IH] using XMLObj_ind'; intros n (Ht & Ha & Hcs). cbn [getXMLStr].
  apply children_ok in Hcs. destruct Ht as [_ Ht].
  assert (He : even_quotes (concat (map (fun '(_, c) => getXMLStr order (n + 2) c) cs)) = true).
  { clear -IH Hcs. induction IH as [|[i c] cs Hc _ IHc]; [done|]. cbn.
    inversion Hcs; subst. rewrite even_quotes_app, Hc, IHc by done. done. }
  rewrite !even_quotes_app, He.
  rewrite (even_quotes_spaces (replicate n c_space)) by apply spaces_ok.
  rewrite (tag_text_even t) by (by apply name_tag_text).
  pose proof (tag_text_even _ (attrs_tag_text _ (order_attrs a Ha))) as Hat.
  unfold attrs_text, attr_text in Hat. rewrite Hat. done.
Qed.

Lemma parse_loop_lstrip fuel st sp s :
  forallb is_space sp = true -> parse_loop fuel st (sp ++ s) = parse_loop fuel st s.
Proof.
  intros Hsp. destruct fuel; [done|]. cbn. unfold getNextSegment, strip. by rewrite lstrip_spaces.
Qed.

Lemma children_even n (cs : list (Z * XMLObj)) :
  Forall (fun ic => xml_ok ic.2) cs -> even_quotes (concat (map (fun '(_, c) => getXMLStr order n c) cs)) = true.
Proof.
  induction 1 as [|[i c] cs Hc _ IH]; [done|].
  cbn. rewrite even_quotes_app, getXMLStr_even by done. by rewrite IH.
Qed.

(** Reading the children of an open node. *)
Lemma parse_children n st cs r : forall fuel t d acc,
  Forall (fun ic : Z * XMLObj => forall fuel st parent r, xml_ok ic.2 -> even_quotes r = true ->
     parse_loop (tags ic.2 + fuel) (parent :: st) (getXMLStr order n ic.2 ++ r) =
     parse_loop fuel (py_addChild (reading ic.2) parent :: st) r) cs ->
  Forall (fun ic => xml_ok ic.2) cs -> even_quotes r = true ->
  parse_loop (list_sum (map (fun '(_, c) => tags c) cs) + fuel) (mkPy t d acc :: st)
    (concat (map (fun '(_, c) => getXMLStr order n c) cs) ++ r) =
  parse_loop fuel (mkPy t d (acc ++ map (fun '(_, c) => reading c) cs) :: st) r.
Proof.
  induction cs as [|[i c] cs IHcs]; intros fuel t d acc HP Hok Hr; [cbn; by rewrite app_nil_r|].
  inversion HP as [|? ? Hc HP']; inversion Hok as [|? ? Hco Hok']; subst. cbn in Hc, Hco.
  cbn [map concat list_sum foldr]. fold (list_sum (map (fun '(_, c) => tags c) cs)).
  rewrite <- app_assoc, <- Nat.add_assoc, Hc; [|done|].
  - cbn [py_addChild]. rewrite IHcs by done. by rewrite <- app_assoc.
  - by rewrite even_quotes_app, Hr, children_even.
Qed.

(** An object's text without the end of its last line. *)
Definition getXMLBody (n : nat) (o : XMLObj) : str :=
  let '(mkXML t a cs) := o in
  replicate n c_space ++ [c_lt] ++ t ++ attrs_text (order a) ++ [c_gt; c_newline] ++
  concat (map (fun '(_, c) => getXMLStr order (n + 2) c) cs) ++
  replicate n c_space ++ [c_lt; c_slash] ++ t ++ [c_gt].

Lemma getXMLStr_body n o : getXMLStr order n o = getXMLBody n o ++ [c_newline].
Proof.
  destruct o as [t a cs]. cbn [getXMLStr getXMLBody]. unfold attrs_text, attr_text.
  repeat (rewrite <- !app_assoc; cbn [app]). done.
Qed.

Lemma parse_body o : forall n fuel st parent r,
  xml_ok o -> even_quotes r = true ->
  parse_loop (tags o + fuel) (parent :: st) (getXMLBody n o ++ r) =
    parse_loop fuel (py_addChild (reading o) parent :: st) r.
Proof.
  induction o as [t a cs IH] using XMLObj_ind'. intros n fuel st parent r (Ht & Ha & Hcs) Hr.
  apply children_ok in Hcs. cbn [tags reading].
  set (kids := concat (map (fun '(_, c) => getXMLStr order (n + 2) c) cs)).
  set (sp := replicate n c_space). set (close := sp ++ [c_lt; c_slash] ++ t ++ [c_gt] ++ r).
  assert (getXMLBody n (mkXML t a cs) ++ r =
    sp ++ [c_lt] ++ t ++ attrs_text (order a) ++ [c_gt] ++ [c_newline] ++ kids ++ close) as ->.
  { cbn [getXMLBody]. subst sp kids close. unfold attrs_text, attr_text.
    cbn [app]. repeat (rewrite <- !app_assoc; cbn [app]). done. }
  assert (Hclose : even_quotes close = true).
  { subst close sp. rewrite !even_quotes_app, (even_quotes_spaces (replicate n c_space)) by apply spaces_ok.
    rewrite (tag_text_even t) by (destruct Ht; by apply name_tag_text). by rewrite Hr. }
  change (2 + list_sum (map (fun '(_, c) => tags c) cs) + fuel)%nat
    with (S (S (list_sum (map (fun '(_, c) => tags c) cs) + fuel))).
  rewrite parse_open; [|apply spaces_ok|done|by apply order_attrs|].
  2: { subst kids. rewrite even_quotes_app, even_quotes_app, Hclose, children_even; done. }
  rewrite parse_loop_lstrip by done. rewrite <- Nat.add_succ_r. subst kids.
  rewrite parse_children; [| |done|done].
  2: { eapply Forall_impl; [exact IH|]. cbn. intros [i c] Hc fuel' st' parent' r' Hok Hr'. cbn in *.
       rewrite getXMLStr_body, <- app_assoc, Hc, parse_loop_lstrip; [done..|by cbn]. }
  rewrite order_put_all. subst close.
  by rewrite parse_close; [|apply spaces_ok|..].
Qed.

Lemma parse_xml o n fuel st parent r :
  xml_ok o -> even_quotes r = true ->
  parse_loop (tags o + fuel) (parent :: st) (getXMLStr order n o ++ r) =
    parse_loop fuel (py_addChild (reading o) parent :: st) r.
Proof.
  intros Ho Hr. rewrite getXMLStr_body, <- app_assoc, parse_body by (done || by cbn).
  by apply parse_loop_lstrip.
Qed.

Lemma tags_length n o : (tags o < length (getXMLStr order n o))%nat.
Proof.
  revert n; induction o as [t a cs IH] using XMLObj_ind'; intros n. cbn [tags getXMLStr].
  assert (list_sum (map (fun '(_, c) => tags c) cs) <=
    length (concat (map (fun '(_, c) => getXMLStr order (n + 2) c) cs)))%nat.
  { induction IH as [|[i c] cs Hc _ IHcs]; [done|]. cbn. rewrite length_app.
    specialize (Hc (n + 2)%nat). cbn in *. unfold list_sum in IHcs. lia. }
  rewrite !length_app. cbn. lia.
Qed.

(** A file: the header on a line of its own, and the objects one after the other. *)
Definition file_text (os : list XMLObj) : str :=
  lit XML_FILE_HEADER ++ [c_newline] ++ concat (map (getXMLStr order 0) os).

Lemma strip_file_header r : strip_header (lit XML_FILE_HEADER ++ r) = r.
Proof. reflexivity. Qed.

Lemma XMLParser_file (os : list XMLObj) :
  Forall xml_ok os ->
  XMLParser (file_text os) = Some (mkPy (lit "root") ∅ (map reading os)).
Proof.
  intros Hok. unfold XMLParser, file_text. rewrite strip_file_header, parse_loop_lstrip by done.
  set (cs := map (pair 0) os).
  assert (map (getXMLStr order 0) os = map (fun '(_, c) => getXMLStr order 0 c) cs) as -> by (by subst cs; rewrite map_map).
  assert (map reading os = map (fun '(_, c) => reading c) cs) as -> by (by subst cs; rewrite map_map).
  assert (Hcs : Forall (fun ic : Z * XMLObj => xml_ok ic.2) cs) by (by apply Forall_map).
  set (text := concat (map (fun '(_, c) => getXMLStr order 0 c) cs)).
  assert (Hl : (list_sum (map (fun '(_, c) => tags c) cs) <= length text)%nat).
  { subst text. clear. induction cs as [|[i c] cs IH]; [done|]. cbn. rewrite length_app.
    pose proof (tags_length 0 c). unfold list_sum in IH. lia. }
  rewrite length_app. change (length [c_newline]) with 1%nat.
  replace (S (1 + length text)) with (list_sum (map (fun '(_, c) => tags c) cs) +
    S (S (length text) - list_sum (map (fun '(_, c) => tags c) cs)))%nat by lia.
  rewrite <- (app_nil_r text) at 2. subst text.
  rewrite parse_children; [done| |done|done].
  apply Forall_forall. intros [i c] _. cbn. intros. by apply parse_xml.
Qed.

(** The offline reader gets back what the agent prints: from a file of objects whose
    tags and keys are plain words and whose values hold no quote, no equals sign and no
    question mark, [XMLParser] builds, below its root and in the order of the file, every
    object with its tag, its attributes without their quotes and its children in the order
    of their ids, whatever order the attributes are printed in. *)
Theorem xml_roundtrip (os : list XMLObj) :
  Forall xml_ok os ->
  XMLParser (file_text os) = Some (mkPy (lit "root") ∅ (map reading os)).
Proof. apply XMLParser_file. Qed.
End roundtrip.

(** ** Setting and testing attributes *)

(** The operations keep objects printable. *)
Lemma addAttr_ok key value o :
  name_ok key -> value_ok value -> xml_ok o -> xml_ok (addAttr key value o).
Proof.
  destruct o as [t a cs]. intros Hk Hv (Ht & Ha & Hcs). cbn. split_and!; [done| |done].
  apply map_Forall_insert_2; [|done]. split; [done|]. by exists value.
Qed.

Lemma map_put_Forall (P : Z * XMLObj -> Prop) id child l :
  P (id, child) -> Forall P l -> Forall P (map_put id child l).
Proof.
  intros Hp. induction 1 as [|[i c] l Hc Hl IH]; cbn; [by constructor|].
  destruct (id <? i); [by repeat constructor|]. destruct (id =? i); by constructor.
Qed.

Lemma XMLObj_addChild_ok id child o : xml_ok child -> xml_ok o -> xml_ok (XMLObj_addChild id child o).
Proof.
  destruct o as [t a cs]. intros Hc (Ht & Ha & Hcs). cbn. split_and!; [done..|].
  apply children_ok in Hcs. apply children_ok. by apply map_put_Forall.
Qed.

Lemma XMLObj_new_ok t : name_ok t -> xml_ok (XMLObj_new t).
Proof. intros Ht. cbn. split_and!; [done|apply map_Forall_empty|done]. Qed.

(** An attribute is never found with the value it was set to: [addAttr] stores the value
    in quotes, and [hasAttr] compares with the stored text. *)
Theorem hasAttr_never (key value : str) (o : XMLObj) :
  hasAttr key value (addAttr key value o) = false.
Proof.
  destruct o as [t a cs]. cbn. rewrite lookup_insert_eq. apply bool_decide_eq_false.
  intros E. apply (f_equal length) in E. cbn in E. rewrite length_app in E. cbn in E. lia.
Qed.

Lemma show_hex_value fuel z acc : value_ok acc -> value_ok (show_hex fuel z acc).
Proof.
  revert z acc; induction fuel as [|fuel IH]; intros z acc Ha; [done|]. cbn.
  assert (value_ok (hex_digit (z mod 16) :: acc)).
  { unfold value_ok. cbn. rewrite Ha, andb_true_r.
    pose proof (Z.mod_pos_bound z 16 eq_refl) as Hd. revert Hd. generalize (z mod 16). intros d Hd.
    assert (Hall : forallb (fun k => value_char (hex_digit (Z.of_nat k))) (List.seq 0 16) = true) by reflexivity.
    rewrite forallb_forall in Hall. specialize (Hall (Z.to_nat d)).
    rewrite Z2Nat.id in Hall by lia. apply Hall, in_seq. lia. }
  case_match; [done|]. by apply IH.
Qed.

Module Demo.
(** A context with two attributes and a metric. *)
Definition metric : XMLObj := addAttr (lit "id") (lit "0") (XMLObj_new (lit "metric")).
Definition context : XMLObj :=
  XMLObj_addChild 0 metric
    (addAttr (lit "id") (lit "7") (addAttr (lit "parent_id") (lit "-1") (XMLObj_new (lit "context")))).

Lemma demo_ok : Forall xml_ok [context; metric].
Proof.
  assert (xml_ok metric) by (repeat first [apply addAttr_ok | apply XMLObj_new_ok]; done).
  apply Forall_cons. split; [|by apply Forall_singleton].
  repeat first [apply XMLObj_addChild_ok | apply addAttr_ok | apply XMLObj_new_ok]; done.
Qed.

Lemma xml_roundtrip_witness :
  XMLParser (file_text map_to_list [context; metric]) =
    Some (mkPy (lit "root") ∅ [reading context; reading metric]).
Proof. apply (xml_roundtrip map_to_list (fun m => reflexivity _) [context; metric]). apply demo_ok. Defined.
End Demo.
