(* ===== verification/HomoXml.v ===== *)
(** * HomoXml: the offline reader of a whole file

    [HomoXMLParser] of offlineprocess/pylib/special_xml.py cuts a file into the texts of its
    level-one nodes, which all have the same tag, and gives them to threads that parse them one
    by one with the [XMLParser] of Xml.v. [homo_roundtrip] says that it reads what the agent
    prints, and [HomoXMLParser_texts] that the ends of lines may be missing.

    An assertion or an exception, also one in a thread, is [None]. *)
From stdpp Require Import base numbers list strings gmap.
From Stdlib Require Import ZArith Lia Ascii.
From S2P Require Import Prelude Xml.
Local Open Scope Z_scope.

(** ** The reader *)
Definition open_tag_pattern (level_one_node : str) : str := c_lt :: level_one_node.
Definition close_tag_pattern (level_one_node : str) : str := [c_lt; c_slash] ++ level_one_node ++ [c_gt].

(** The producer. The tags have no character that is special in a pattern. *)
Fixpoint generateLevelOneNodeStr (fuel : nat) (level_one_node input_str : str) : option (list str) :=
  match fuel with
  | O => None
  | S fuel =>
    match input_str with
    | [] => Some []
    | _ =>
        first ← find_sub (open_tag_pattern level_one_node) input_str;
        if bool_decide (first <> 0%nat) then None else
        i ← find_sub (close_tag_pattern level_one_node) input_str;
        let ending_index := (i + length (close_tag_pattern level_one_node))%nat in
        rest ← generateLevelOneNodeStr fuel level_one_node (strip (drop ending_index input_str));
        Some (take ending_index input_str :: rest)
    end
  end.

(** What a consumer does with a text. *)
Definition parseLevelOneNodeStr (node_str : str) : option PyObj :=
  root ← XMLParser node_str;
  match py_children root with [level_node_xml_obj] => Some level_node_xml_obj | _ => None end.

Section reader.
(** The order in which the consumers add the nodes. *)
Variable arrive : list PyObj -> list PyObj.

(** [HomoXMLParser(level_one_node, file_str).getVirtualRoot()] *)
Definition HomoXMLParser (level_one_node file_str : str) : option PyObj :=
  let content := strip_header file_str in
  texts ← generateLevelOneNodeStr (S (length content)) level_one_node (strip content);
  os ← mapM parseLevelOneNodeStr texts;
  Some (mkPy (lit "root") ∅ (arrive os)).
End reader.

(** ** Searching *)
Lemma take_head {A} n (s : list A) x l : take (S n) s = x :: l -> head s = Some x.
Proof. destruct s; [done|]. by intros [= -> _]. Qed.

Lemma find_sub_here pat s : find_sub pat (pat ++ s) = Some 0%nat.
Proof.
  assert (Hx : forall s', find_sub pat s' = if bool_decide (take (length pat) s' = pat) then Some 0%nat else
    match s' with [] => None | _ :: r => S <$> find_sub pat r end) by (by intros []).
  rewrite Hx, take_app_length, bool_decide_true; done.
Qed.

Lemma find_sub_cons pat c s : take (length pat) (c :: s) <> pat -> find_sub pat (c :: s) = S <$> find_sub pat s.
Proof. intros Hn. cbn [find_sub]. by rewrite bool_decide_false. Qed.

(** A text without the second character of the pattern has no match in it. *)
Lemma find_sub_skip x y q a r :
  y ∉ a -> head r <> Some y ->
  find_sub (x :: y :: q) (a ++ r) = Nat.add (length a) <$> find_sub (x :: y :: q) r.
Proof.
  intros Ha Hr. induction a as [|c a IH]; [cbn [app length]; by destruct (find_sub _ r)|].
  apply not_elem_of_cons in Ha as [Hc Ha]. cbn [app]. rewrite find_sub_cons.
  - rewrite IH by done. by destruct (find_sub _ r).
  - cbn [length take]. intros [= _ E%take_head]. destruct a as [|d a]; [done|].
    cbn in E. injection E as ->. apply Ha. by left.
Qed.

Lemma find_sub_absent x y q s : y ∉ s -> find_sub (x :: y :: q) s = None.
Proof.
  intros Hy. rewrite <- (app_nil_r s), find_sub_skip; [|done|done]. done.
Qed.

(** ** Level-one nodes *)

(** No node of the tag [tag], here and below. *)
Fixpoint none_named (tag : str) (o : XMLObj) : Prop :=
  let '(mkXML t _ cs) := o in t <> tag /\ foldr (fun '(_, c) P => none_named tag c /\ P) True cs.
(** Named [tag], but nothing below it is. *)
Definition level_one (tag : str) (o : XMLObj) : Prop :=
  let '(mkXML t _ cs) := o in t = tag /\ Forall (fun ic => none_named tag ic.2) cs.

(** A node of a file of such nodes. *)
Definition node_ok (tag : str) (o : XMLObj) : Prop := xml_ok o /\ level_one tag o.

Lemma nodes_ok tag os : Forall (node_ok tag) os -> Forall xml_ok os.
Proof. intros Hos. eapply Forall_impl; [exact Hos|]. by intros o []. Qed.

Lemma new_level tag : level_one tag (XMLObj_new tag).
Proof. by split. Qed.
Lemma addAttr_level tag key v o : level_one tag o -> level_one tag (addAttr key v o).
Proof. by destruct o. Qed.
Lemma addChild_level tag i c o : none_named tag c -> level_one tag o -> level_one tag (XMLObj_addChild i c o).
Proof. destruct o as [t a cs]. intros Hc (Ht & Hcs). split; [done|]. by apply map_put_Forall. Qed.

Lemma new_none tag t : t <> tag -> none_named tag (XMLObj_new t).
Proof. by split. Qed.
Lemma addAttr_none tag key v o : none_named tag o -> none_named tag (addAttr key v o).
Proof. by destruct o. Qed.
Lemma addChild_none tag i c o : none_named tag c -> none_named tag o -> none_named tag (XMLObj_addChild i c o).
Proof.
  destruct o as [t a cs]. intros Hc (Ht & Hcs). split; [done|]. apply children_ok in Hcs. apply children_ok. by apply map_put_Forall.
Qed.

Section text.
Variable order : gmap str str -> list (str * str).
Hypothesis order_perm : forall m, order m ≡ₚ map_to_list m.

(** A character of no name and no value. *)
Lemma attrs_avoid y l :
  name_char y = false -> value_char y = false -> y ∉ [c_space; c_eq; c_quote] -> Forall attr_ok l -> y ∉ attrs_text l.
Proof.
  intros Hn Hv Hy. induction 1 as [|[k q] l [[_ Hk] (v & Hq & Hval)] _ IH]; [by apply not_elem_of_nil|].
  cbn in Hk, Hq. subst q. unfold attrs_text. cbn [map concat attr_text]. rewrite !not_elem_of_app.
  rewrite !not_elem_of_cons in Hy.
  rewrite forallb_forall in Hk. unfold value_ok in Hval. rewrite forallb_forall in Hval.
  assert (y ∉ k) by (intros Hin%list_elem_of_In%Hk; congruence).
  assert (y ∉ v) by (intros Hin%list_elem_of_In%Hval; congruence).
  unfold quoted. rewrite ?not_elem_of_cons, ?not_elem_of_app, ?list_elem_of_singleton, ?not_elem_of_cons.
  split_and!; try apply not_elem_of_nil; tauto.
Qed.

Lemma name_avoid y t : name_char y = false -> name_ok t -> y ∉ t.
Proof. intros Hn [_ Ht] Hin. rewrite forallb_forall in Ht. apply list_elem_of_In, Ht in Hin. congruence. Qed.

(** The opening line of a node, and its closing line without the indentation. *)
Definition open_line (n : nat) (t : str) (a : gmap str str) : str :=
  replicate n c_space ++ [c_lt] ++ t ++ attrs_text (order a) ++ [c_gt; c_newline].

Lemma open_line_avoid y n t a :
  name_char y = false -> value_char y = false -> y ∉ [c_space; c_eq; c_quote; c_lt; c_gt; c_newline] ->
  name_ok t -> map_Forall (fun k q => name_ok k /\ exists v, q = quoted v /\ value_ok v) a -> y ∉ open_line n t a.
Proof.
  intros Hn Hv Hy Ht Ha. rewrite !not_elem_of_cons in Hy. unfold open_line.
  pose proof (attrs_avoid y (order a) Hn Hv ltac:(rewrite !not_elem_of_cons; tauto) (order_attrs order order_perm a Ha)) as Hat.
  pose proof (name_avoid y t Hn Ht).
  rewrite ?not_elem_of_app, ?list_elem_of_singleton, ?not_elem_of_cons.
  split_and!; try apply not_elem_of_nil; try tauto.
  intros [-> _]%elem_of_replicate. tauto.
Qed.

Lemma names_prefix t t' r r' : c_gt ∉ t -> c_gt ∉ t' -> t ++ c_gt :: r = t' ++ c_gt :: r' -> t = t'.
Proof.
  intros Ht Ht' E%(f_equal (until c_gt)).
  rewrite !until_app in E by (apply Forall_forall; intros x Hx ->; done). by injection E.
Qed.

(** A closing tag of another node is passed over. *)
Lemma find_close_other tag t r :
  name_ok tag -> name_ok t -> t <> tag -> head r <> Some c_slash ->
  find_sub (close_tag_pattern tag) ([c_lt; c_slash] ++ t ++ [c_gt; c_newline] ++ r) =
    Nat.add (length ([c_lt; c_slash] ++ t ++ [c_gt; c_newline])) <$> find_sub (close_tag_pattern tag) r.
Proof.
  intros Htag Ht Hne Hr. pose proof (name_avoid c_gt t eq_refl Ht). pose proof (name_avoid c_gt tag eq_refl Htag).
  unfold close_tag_pattern. cbn [app]. rewrite find_sub_cons.
  - rewrite find_sub_cons by (intros E%take_head; discriminate E).
    change (t ++ c_gt :: c_newline :: r) with (t ++ [c_gt; c_newline] ++ r). rewrite app_assoc, find_sub_skip; [|..].
    + cbn [app length]. by destruct (find_sub _ r).
    + pose proof (name_avoid c_slash t eq_refl Ht). rewrite not_elem_of_app, !not_elem_of_cons. split_and!; try done. apply not_elem_of_nil.
    + done.
  - cbn [length take]. intros [= E]. apply Hne. symmetry.
    apply (names_prefix tag t (drop (length (tag ++ [c_gt])) (t ++ c_gt :: c_newline :: r)) (c_newline :: r)); [done..|].
    rewrite <- (take_drop (length (tag ++ [c_gt])) (t ++ c_gt :: c_newline :: r)) at 2. rewrite E, <- app_assoc. done.
Qed.

Lemma getXMLStr_lines n t a cs :
  getXMLStr order n (mkXML t a cs) =
    open_line n t a ++ concat (map (fun '(_, c) => getXMLStr order (n + 2) c) cs) ++
    replicate n c_space ++ [c_lt; c_slash] ++ t ++ [c_gt; c_newline].
Proof. cbn [getXMLStr]. unfold open_line, attrs_text, attr_text. repeat (rewrite <- !app_assoc; cbn [app]). done. Qed.

Lemma head_no_slash n r : head (replicate n c_space ++ c_lt :: r) <> Some c_slash.
Proof. by destruct n. Qed.

Lemma head_text n o r : head (getXMLStr order n o ++ r) <> Some c_slash.
Proof.
  destruct o as [t a cs]. rewrite getXMLStr_lines. unfold open_line. rewrite <- !app_assoc. cbn [app]. apply head_no_slash.
Qed.

Lemma head_texts n (cs : list (Z * XMLObj)) r :
  head r <> Some c_slash -> head (concat (map (fun '(_, c) => getXMLStr order n c) cs) ++ r) <> Some c_slash.
Proof. destruct cs as [|[i c] cs]; [done|]. intros _. cbn [map concat]. rewrite <- app_assoc. apply head_text. Qed.

Lemma fmap_add_add (a b : nat) (o : option nat) : Nat.add a <$> (Nat.add b <$> o) = Nat.add (a + b) <$> o.
Proof. destruct o; [|done]. cbn. f_equal. lia. Qed.

Lemma open_line_slash n t a :
  name_ok t -> map_Forall (fun k q => name_ok k /\ exists v, q = quoted v /\ value_ok v) a -> c_slash ∉ open_line n t a.
Proof. intros Ht Ha. apply open_line_avoid; try done. rewrite !not_elem_of_cons. split_and!; try done. apply not_elem_of_nil. Qed.

Lemma spaces_slash n : c_slash ∉ replicate n c_space.
Proof. by intros [? _]%elem_of_replicate. Qed.

Lemma find_texts tag n (cs : list (Z * XMLObj)) r :
  Forall (fun ic => forall r, head r <> Some c_slash ->
    find_sub (close_tag_pattern tag) (getXMLStr order n ic.2 ++ r) =
      Nat.add (length (getXMLStr order n ic.2)) <$> find_sub (close_tag_pattern tag) r) cs ->
  head r <> Some c_slash ->
  find_sub (close_tag_pattern tag) (concat (map (fun '(_, c) => getXMLStr order n c) cs) ++ r) =
    Nat.add (length (concat (map (fun '(_, c) => getXMLStr order n c) cs))) <$> find_sub (close_tag_pattern tag) r.
Proof.
  intros Hcs Hr. induction Hcs as [|[i c] cs Hc _ IH]; [cbn; by destruct (find_sub _ r)|].
  cbn [map concat]. cbn [snd] in Hc. rewrite <- app_assoc, Hc by (by apply head_texts).
  by rewrite IH, fmap_add_add, length_app.
Qed.

(** A node without the tag in it is passed over. *)
Lemma find_passes tag o : name_ok tag -> forall n r, xml_ok o -> none_named tag o -> head r <> Some c_slash ->
  find_sub (close_tag_pattern tag) (getXMLStr order n o ++ r) =
    Nat.add (length (getXMLStr order n o)) <$> find_sub (close_tag_pattern tag) r.
Proof.
  intros Htag. induction o as [t a cs IH] using XMLObj_ind'. intros n r (Ht & Ha & Hcs) (Hne & Hnone) Hr.
  apply children_ok in Hcs, Hnone. rewrite getXMLStr_lines, <- !app_assoc. cbn [app].
  unfold close_tag_pattern at 1. cbn [app].
  rewrite find_sub_skip; [|by apply open_line_slash|by apply head_texts, head_no_slash].
  change (c_lt :: c_slash :: tag ++ [c_gt]) with (close_tag_pattern tag).
  rewrite find_texts; [| |apply head_no_slash].
  2: { rewrite Forall_forall in IH, Hcs, Hnone |- *. intros ic Hic r' Hr'. apply IH; auto. }
  unfold close_tag_pattern at 1. cbn [app]. rewrite find_sub_skip; [|apply spaces_slash|done].
  change (c_lt :: c_slash :: tag ++ [c_gt]) with (close_tag_pattern tag).
  pose proof (find_close_other tag t r Htag Ht Hne Hr) as E. cbn [app] in E.
  rewrite E, !fmap_add_add. f_equal. rewrite !length_app. cbn. rewrite !length_app. cbn. f_equal. lia.
Qed.

(** The first closing tag of the name of a level-one node is its own. *)
Lemma find_level_one tag o r : name_ok tag -> xml_ok o -> level_one tag o ->
  exists x, getXMLBody order 0 o = x ++ close_tag_pattern tag /\
    find_sub (close_tag_pattern tag) (getXMLBody order 0 o ++ r) = Some (length x).
Proof.
  intros Htag. destruct o as [t a cs]. intros (Ht & Ha & Hcs) (-> & Hnone). apply children_ok in Hcs.
  exists (open_line 0 tag a ++ concat (map (fun '(_, c) => getXMLStr order 2 c) cs)). split.
  { cbn [getXMLBody]. unfold open_line, close_tag_pattern. by repeat (rewrite <- !app_assoc; cbn [app replicate]). }
  assert (getXMLBody order 0 (mkXML tag a cs) ++ r =
    open_line 0 tag a ++ concat (map (fun '(_, c) => getXMLStr order 2 c) cs) ++ close_tag_pattern tag ++ r) as ->.
  { cbn [getXMLBody]. unfold open_line, close_tag_pattern. by repeat (rewrite <- !app_assoc; cbn [app replicate]). }
  unfold close_tag_pattern at 1. cbn [app].
  rewrite find_sub_skip; [|by apply open_line_slash|by apply head_texts].
  change (c_lt :: c_slash :: tag ++ [c_gt]) with (close_tag_pattern tag).
  rewrite find_texts; [|rewrite Forall_forall in Hcs, Hnone |- *; intros ic Hic r' Hr'; apply find_passes; auto|done].
  rewrite find_sub_here, fmap_add_add. cbn [fmap option_fmap option_map]. f_equal. rewrite length_app. lia.
Qed.
(** ** Cutting the file *)
Lemma body_open tag o : level_one tag o -> exists y, getXMLBody order 0 o = open_tag_pattern tag ++ y.
Proof.
  destruct o as [t a cs]. intros (-> & _). cbn [getXMLBody replicate app]. unfold open_tag_pattern. cbn [app]. by eexists.
Qed.

Lemma strip_body tag o r : name_ok tag -> xml_ok o -> level_one tag o ->
  strip (getXMLBody order 0 o ++ r) = getXMLBody order 0 o ++ rstrip r.
Proof.
  intros Htag Ho Hl. destruct (find_level_one tag o [] Htag Ho Hl) as (x & E & _). destruct (body_open tag o Hl) as (y & Ey).
  unfold strip. assert (lstrip (getXMLBody order 0 o ++ r) = getXMLBody order 0 o ++ r) as ->.
  { rewrite Ey. unfold open_tag_pattern. cbn [app lstrip]. change (is_space c_lt) with false. done. }
  rewrite E. unfold close_tag_pattern. rewrite !app_assoc, <- (app_assoc _ [c_gt] r), <- (app_assoc _ [c_gt] (rstrip r)).
  cbn [app]. by apply rstrip_keep.
Qed.

Lemma strip_rstrip r : strip (rstrip r) = strip r.
Proof. unfold strip. by rewrite lstrip_rstrip, rstrip_idemp. Qed.

(** The printed text of an object, with or without the newline at its end. *)
Definition text_of (o : XMLObj) (text : str) : Prop := text = getXMLStr order 0 o \/ text = getXMLBody order 0 o.

Lemma texts_of os : Forall2 text_of os (map (getXMLStr order 0) os).
Proof. induction os; constructor; [by left|done]. Qed.

Lemma generate_texts tag os texts : name_ok tag -> Forall (node_ok tag) os -> Forall2 text_of os texts ->
  forall fuel, (length os < fuel)%nat ->
  generateLevelOneNodeStr fuel tag (strip (concat texts)) = Some (map (getXMLBody order 0) os).
Proof.
  intros Htag Hos Hts. revert Hos. induction Hts as [|o text os texts Ht _ IH]; intros Hos fuel Hf;
    (destruct fuel as [|fuel]; [cbn in Hf; lia|]); [done|].
  apply Forall_cons in Hos as [[Ho Hl] Hos].
  assert (exists sp, forallb is_space sp = true /\ text = getXMLBody order 0 o ++ sp) as (sp & Hsp & ->).
  { destruct Ht as [-> | ->]; [exists [c_newline]; by rewrite getXMLStr_body|exists []; by rewrite app_nil_r]. }
  cbn [map concat]. rewrite <- app_assoc, (strip_body tag) by done.
  set (r := rstrip (sp ++ concat texts)).
  destruct (find_level_one tag o r Htag Ho Hl) as (x & E & Hfind). destruct (body_open tag o Hl) as (y & Ey).
  assert (Hopen : find_sub (open_tag_pattern tag) (getXMLBody order 0 o ++ r) = Some 0%nat).
  { rewrite Ey, <- app_assoc. apply find_sub_here. }
  assert (Hlen : (length x + length (close_tag_pattern tag))%nat = length (getXMLBody order 0 o)) by (by rewrite E, length_app).
  cbn [generateLevelOneNodeStr]. destruct (getXMLBody order 0 o ++ r) as [|c0 s0] eqn:Es.
  { rewrite Ey in Es. discriminate Es. }
  rewrite Hopen. cbn [mbind option_bind]. rewrite bool_decide_false by (intros Hn; by apply Hn).
  rewrite Hfind. cbn [mbind option_bind]. rewrite Hlen, <- Es, drop_app_length, take_app_length.
  assert (strip r = strip (concat texts)) as ->.
  { subst r. rewrite strip_rstrip. unfold strip. by rewrite lstrip_spaces. }
  rewrite IH by (done || (cbn in Hf; lia)). done.
Qed.

(** ** Reading a node *)
Lemma avoid_text y : name_char y = false -> value_char y = false ->
  y ∉ [c_space; c_eq; c_quote; c_lt; c_gt; c_newline; c_slash] -> forall o n, xml_ok o -> y ∉ getXMLStr order n o.
Proof.
  intros Hn Hv Hy o. rewrite !not_elem_of_cons in Hy. induction o as [t a cs IH] using XMLObj_ind'. intros n (Ht & Ha & Hcs).
  apply children_ok in Hcs. rewrite getXMLStr_lines, !not_elem_of_app, !not_elem_of_cons.
  pose proof (name_avoid y t Hn Ht). split_and!; try apply not_elem_of_nil; try tauto.
  - apply open_line_avoid; [done..| |done|done]. rewrite !not_elem_of_cons. split_and!; try apply not_elem_of_nil; tauto.
  - rewrite list_elem_of_In, in_concat. intros (u & ([i c] & <- & Hc%list_elem_of_In)%in_map_iff & Hu%list_elem_of_In).
    rewrite Forall_forall in IH, Hcs. by apply (IH (i, c) Hc (n + 2)%nat (Hcs (i, c) Hc)).
  - intros [? _]%elem_of_replicate. tauto.
Qed.

Lemma strip_header_body o : xml_ok o -> strip_header (getXMLBody order 0 o) = getXMLBody order 0 o.
Proof.
  intros Ho. unfold strip_header. rewrite find_sub_absent; [done|]. intros Hin.
  apply (avoid_text c_question eq_refl eq_refl) with (o := o) (n := 0%nat); [|done|].
  - rewrite !not_elem_of_cons. split_and!; try done. apply not_elem_of_nil.
  - rewrite getXMLStr_body. apply elem_of_app. by left.
Qed.

Lemma parseLevelOneNodeStr_ok o : xml_ok o -> parseLevelOneNodeStr (getXMLBody order 0 o) = Some (reading o).
Proof.
  intros Ho. unfold parseLevelOneNodeStr, XMLParser. rewrite strip_header_body by done.
  pose proof (tags_length order 0 o) as Hlen. rewrite getXMLStr_body, length_app in Hlen. cbn [length] in Hlen.
  replace (S (length (getXMLBody order 0 o))) with (tags o + S (length (getXMLBody order 0 o) - tags o))%nat by lia.
  rewrite <- (app_nil_r (getXMLBody order 0 o)) at 2. rewrite parse_body by done. done.
Qed.

(** A file of the header and such texts. *)
Lemma HomoXMLParser_texts (arrive : list PyObj -> list PyObj) (tag : str) (os : list XMLObj) (texts : list str) :
  name_ok tag -> Forall (node_ok tag) os -> Forall2 text_of os texts ->
  HomoXMLParser arrive tag (lit XML_FILE_HEADER ++ [c_newline] ++ concat texts) =
    Some (mkPy (lit "root") ∅ (arrive (map reading os))).
Proof.
  intros Htag Hos Hts. unfold HomoXMLParser. rewrite strip_file_header.
  assert (strip ([c_newline] ++ concat texts) = strip (concat texts)) as -> by (unfold strip; by rewrite lstrip_spaces).
  rewrite (generate_texts tag os texts); [|done..|].
  2: { rewrite length_app. cbn [length]. assert (length os <= length (concat texts))%nat; [|lia].
       clear Hos. induction Hts as [|o text os texts Ht _ IH]; [done|]. cbn [concat length]. rewrite length_app.
       pose proof (tags_length order 0 o) as Hlen. rewrite getXMLStr_body, length_app in Hlen. cbn [length] in Hlen.
       assert (2 <= tags o)%nat by (destruct o; cbn; lia).
       destruct Ht as [-> | ->]; rewrite ?getXMLStr_body, ?length_app; cbn [length]; lia. }
  cbn [mbind option_bind].
  assert (mapM parseLevelOneNodeStr (map (getXMLBody order 0) os) = Some (map reading os)) as ->; [|done].
  apply mapM_Some. rewrite Forall2_fmap_l, Forall2_fmap_r. apply Forall2_same_length_lookup_2; [done|].
  intros i x y Hx Hy. assert (x = y) as -> by congruence. apply parseLevelOneNodeStr_ok.
  rewrite Forall_forall in Hos. by apply (Hos y), (list_elem_of_lookup_2 _ i).
Qed.

Lemma HomoXMLParser_file (arrive : list PyObj -> list PyObj) (tag : str) (os : list XMLObj) :
  name_ok tag -> Forall (node_ok tag) os ->
  HomoXMLParser arrive tag (file_text order os) = Some (mkPy (lit "root") ∅ (arrive (map reading os))).
Proof. intros Htag Hos. apply HomoXMLParser_texts; [done|done|apply texts_of]. Qed.

(** C25: The offline reader gets back the objects of a file that the agent prints: when their
    tag is [tag], and that of nothing below them, and texts need no escaping, the file is cut into
    one text per object, and the threads together make every object with its tag, its
    attributes and its children, whatever order the attributes are printed in and the threads
    end in. *)
Theorem homo_roundtrip (arrive : list PyObj -> list PyObj) (tag : str) (os : list XMLObj) :
  name_ok tag -> Forall (node_ok tag) os ->
  HomoXMLParser arrive tag (file_text order os) = Some (mkPy (lit "root") ∅ (arrive (map reading os))).
Proof. apply HomoXMLParser_file. Qed.
End text.

Module Demo.
Import Xml.Demo.
(** Two contexts, one with a metric, whose threads end in the other order. *)
Definition file : list XMLObj := [context; addAttr (lit "id") (lit "9") (XMLObj_new (lit "context"))].

Lemma homo_roundtrip_witness :
  HomoXMLParser (@rev PyObj) (lit "context") (file_text map_to_list file) = Some (mkPy (lit "root") ∅ (rev (map reading file))).
Proof.
  apply (homo_roundtrip map_to_list (fun m => reflexivity _) (@rev PyObj) (lit "context") file).
  - done.
  - pose proof demo_ok as Hd. apply Forall_cons in Hd as [Hc _]. apply Forall_cons. split.
    + split; [exact Hc|]. repeat first [apply addChild_level | apply addAttr_level | apply new_level | apply addAttr_none | apply new_none]; done.
    + apply Forall_singleton. split; [repeat first [apply addAttr_ok | apply XMLObj_new_ok]; done|].
      repeat first [apply addAttr_level | apply new_level].
Defined.
End Demo.
