(* ===== verification/Support.v ===== *)
(** * Support: lengths of watchpoints, addresses that must not be watched

    profiler_support.cpp: [GetFloorWPLength], [GetFloorWPLengthAtAddress], the list of the
    mappings that are excluded from watching ([PopulateBlackListAddresses], which reads
    /proc/self/maps) and the tests on addresses that use it. The functions of the same file
    that look for the instruction before an address are in Tracer.v. *)
From stdpp Require Import base numbers list strings.
From Stdlib Require Import ZArith Lia Ascii.
From S2P Require Import Prelude Xml.
Local Open Scope Z_scope.

(** ** Lengths *)
Definition MAX_WP_LENGTH : Z := 8.

Definition GetFloorWPLength (accessLen : Z) : Z :=
  match accessLen with
  | 7 | 6 | 5 | 4 => 4
  | 3 | 2 => 2
  | 1 => 1
  | _ => 8
  end.

Definition GetFloorWPLengthAtAddress (address accessLen : Z) : Z :=
  let alignment := Z.land address (MAX_WP_LENGTH - 1) in
  match alignment with
  | 1 | 3 | 5 | 7 => 1
  | 2 | 6 => Z.min 2 accessLen
  | 0 => Z.min 8 accessLen
  | _ => Z.min 4 accessLen
  end.

(** ** Tokens ([strtok_r]) and numbers ([strtol]) *)

(** The characters up to the first delimiter, and what is behind it. *)
Fixpoint token (delim s : str) : str * str :=
  match s with
  | [] => ([], [])
  | c :: r => if bool_decide (c ∈ delim) then ([], r) else let '(t, r) := token delim r in (c :: t, r)
  end.
Fixpoint skip_delim (delim s : str) : str :=
  match s with
  | [] => []
  | c :: r => if bool_decide (c ∈ delim) then skip_delim delim r else s
  end.

(** [strtok_r]: the token, or the null pointer, and what [save] points to afterwards. *)
Definition strtok (delim s : str) : option str * str :=
  match skip_delim delim s with
  | [] => (None, [])
  | s => let '(t, r) := token delim s in (Some t, r)
  end.

(** The string that is left at the start of the argument: the delimiter behind the token was
    overwritten. *)
Definition strtok_cut (delim s : str) : str :=
  take (length s - length (skip_delim delim s) + length (token delim (skip_delim delim s)).1) s.

Definition hex_val (c : ascii) : option Z :=
  let n := Z.of_nat (nat_of_ascii c) in
  if (48 <=? n) && (n <=? 57) then Some (n - 48)
  else if (97 <=? n) && (n <=? 102) then Some (n - 87)
  else if (65 <=? n) && (n <=? 70) then Some (n - 55)
  else None.
Fixpoint hex_prefix (s : str) (acc : Z) : Z :=
  match s with
  | [] => acc
  | c :: r => match hex_val c with Some d => hex_prefix r (16 * acc + d) | None => acc end
  end.
(** [strtol(s, NULL, 16)], which stops at the ends of [long]. *)
Definition strtol16 (s : str) : Z :=
  let s := lstrip s in
  let '(sign, s) := match s with
                    | c :: r => if bool_decide (c = "-"%char) then (-1, r)
                                else if bool_decide (c = "+"%char) then (1, r) else (1, s)
                    | [] => (1, []) end in
  let s := match s with
           | "0"%char :: x :: d :: r =>
               if bool_decide (x ∈ ["x"%char; "X"%char]) && bool_decide (is_Some (hex_val d)) then d :: r else s
           | _ => s end in
  Z.max (- 2 ^ 63) (Z.min (2 ^ 63 - 1) (sign * hex_prefix s 0)).

(** ** The excluded addresses *)
Definition MAX_BLACK_LIST_ADDRESS : nat := 1024.

Definition blackListedModules : list str :=
  map lit ["libpfm.so"; "libxed.so"; "libxed-ild.so"; "libpreload.so"; "libkissmalloc.so"; "libagent.so";
           "libstdc++.so"; "libjvm.so"; "libc"; "anon_inode:[perf_event]"].

Definition strstr (s pat : str) : bool := bool_decide (is_Some (find_sub pat s)).

Definition maps_delim : str := [c_space; c_newline].
Definition dash : str := ["-"%char].

(** A new entry at the end of the array; behind it is memory of others. *)
Definition add_range (r : Z * Z) (black : list (Z * Z)) : exc (list (Z * Z)) :=
  if (length black <? MAX_BLACK_LIST_ADDRESS)%nat then RET (black ++ [r]) else EXC.

(** The loop over the modules. [addr] is the string at the first token of the line, which
    [strtok_r] cuts, or the null pointer. Using a null pointer is [EXC]. *)
Fixpoint match_modules (modules : list str) (tmpname : str) (addr : option str) (black : list (Z * Z))
  : exc (list (Z * Z)) :=
  match modules with
  | [] => RET black
  | m :: modules =>
      if strstr tmpname m then
        match addr with
        | None => EXC
        | Some a =>
            match strtok dash a with
            | (Some start_str, save) =>
                match strtok dash save with
                | (Some end_str, _) =>
                    black ← add_range (u64 (strtol16 start_str), u64 (strtol16 end_str)) black;
                    match_modules modules tmpname (Some (strtok_cut dash a)) black
                | (None, _) => EXC
                end
            | (None, _) => EXC
            end
        end
      else match_modules modules tmpname addr black
  end.

Section blacklist.
(** What [realpath] leaves in [tmpname]: for the path, the null pointer or a name, and for the
    buffer's contents so far. *)
Variable realpath : option str -> str -> str.
(** The size of a page. *)
Variable pagesize : Z.

(** One line of the file. *)
Definition read_line (line : str) (tmpname : str) (black : list (Z * Z)) : exc (str * list (Z * Z)) :=
  let '(addr, save) := strtok maps_delim line in
  let save := (strtok maps_delim save).2 in
  let save := Nat.iter 3 (fun save => (strtok maps_delim save).2) save in
  let name := (strtok maps_delim save).1 in
  let tmpname := realpath name tmpname in
  black ← match_modules blackListedModules tmpname addr black;
  RET (tmpname, black).

Fixpoint read_lines (lines : list str) (tmpname : str) (black : list (Z * Z)) : exc (list (Z * Z)) :=
  match lines with
  | [] => RET black
  | line :: lines => r ← read_line line tmpname black; read_lines lines r.1 r.2
  end.

(** The lines that [std::getline] gives until the end of the file is seen: the pieces between
    newlines. *)
Fixpoint lines_of (s : str) : list str :=
  match s with
  | [] => [[]]
  | c :: r =>
      if bool_decide (c = c_newline) then [] :: lines_of r
      else match lines_of r with l :: ls => (c :: l) :: ls | [] => [[c]] end
  end.

(** [maps] is the text of /proc/self/maps, [tmpname] the buffer on the stack. *)
Definition PopulateBlackListAddresses (maps : option str) (tmpname : str) (black : list (Z * Z))
  : exc (list (Z * Z)) :=
  if (length black =? 0)%nat then
    match maps with
    | None => RET black
    | Some maps =>
        black ← read_lines (lines_of maps) tmpname black;
        add_range (0, pagesize) black
    end
  else RET black.
End blacklist.

Definition IsBlackListedAddress (black : list (Z * Z)) (addr : Z) : bool :=
  existsb (fun r => (r.1 <=? addr) && (addr <? r.2)) black.

(** [tdata] is the address of the local copy of the flag. *)
Definition IsTdataAddress (tdata addr : Z) : bool := (u64 (tdata - 100) <? addr) && (addr <? u64 (tdata + 100)).

(** [td] is the address of the thread's data and [size] its size; the answers of the watchpoint
    library are arguments. *)
Definition IsValidAddress (black : list (Z * Z)) (td size tdata : Z) (IsAltStackAddress IsFSorGS : Z -> bool)
    (pc addr : Z) : bool :=
  if addr =? 0 then false
  else if pc =? 0 then false
  else if (u64 (td - size) <=? addr) && (addr <? u64 (td + 2 * size)) then false
  else if IsAltStackAddress addr then false
  else if IsFSorGS addr then false
  else if IsBlackListedAddress black addr then false
  else if IsTdataAddress tdata addr then false
  else (Z.land addr 0xF0000000000000 =? 0) && (Z.land pc 0xF0000000000000 =? 0).

Definition IsValidPC (black : list (Z * Z)) (pc : Z) : bool :=
  if pc =? 0 then false else negb (IsBlackListedAddress black pc).

(** ** Lengths: the greatest one that fits *)
Definition valid_length (l : Z) : Prop := l = 1 \/ l = 2 \/ l = 4 \/ l = 8.

Lemma small_cases (P : Z -> Prop) n : 0 <= n < 8 -> P 0 -> P 1 -> P 2 -> P 3 -> P 4 -> P 5 -> P 6 -> P 7 -> P n.
Proof.
  intros Hn ? ? ? ? ? ? ? ?.
  assert (n = 0 \/ n = 1 \/ n = 2 \/ n = 3 \/ n = 4 \/ n = 5 \/ n = 6 \/ n = 7) as Hc by lia.
  by destruct Hc as [->|[->|[->|[->|[->|[->|[->| ->]]]]]]].
Qed.

Lemma GetFloorWPLength_greatest n :
  0 < n -> valid_length (GetFloorWPLength n) /\ GetFloorWPLength n <= n /\
    forall l, valid_length l -> l <= n -> l <= GetFloorWPLength n.
Proof.
  intros Hn. unfold valid_length. destruct (Z.lt_ge_cases n 8) as [Hs|Hb].
  - assert (0 <= n < 8) as Hr by lia. revert Hn. pattern n. apply small_cases; [done|..]; cbn; intros; split_and!; intros; lia.
  - assert (GetFloorWPLength n = 8) as ->; [|split_and!; intros; lia].
    destruct n as [|p|p]; [lia| |lia]. do 3 (destruct p as [p|p|]; try lia; try done).
Qed.

(** At an aligned address the access's own length is returned, also when no watchpoint has it. *)
Example at_address_3 : GetFloorWPLengthAtAddress 4096 3 = 3.
Proof. reflexivity. Qed.

(** ** Tokens of a line *)
Definition plain_token (delim t : str) : Prop := t <> [] /\ Forall (fun c => c ∉ delim) t.
Definition at_delim (delim r : str) : Prop := match r with [] => True | c :: _ => c ∈ delim end.

Lemma token_plain delim t r :
  Forall (fun c => c ∉ delim) t -> at_delim delim r -> token delim (t ++ r) = (t, tail r).
Proof.
  induction 1 as [|c t Hc Ht IH]; intros Hr; cbn.
  - destruct r as [|c r]; [done|]. cbn in *. by rewrite bool_decide_true.
  - by rewrite bool_decide_false, IH.
Qed.

Lemma skip_plain delim sp t r :
  Forall (fun c => c ∈ delim) sp -> plain_token delim t -> skip_delim delim (sp ++ t ++ r) = t ++ r.
Proof.
  intros Hsp [Hne Ht]. induction Hsp as [|c sp Hc _ IH]; cbn.
  - destruct Ht as [|c t Hc _]; [done|]. cbn. by rewrite bool_decide_false.
  - by rewrite bool_decide_true.
Qed.

Lemma strtok_plain delim sp t r :
  Forall (fun c => c ∈ delim) sp -> plain_token delim t -> at_delim delim r ->
  strtok delim (sp ++ t ++ r) = (Some t, tail r).
Proof.
  intros Hsp Ht Hr. unfold strtok. rewrite skip_plain by done. destruct Ht as [Hne Ht].
  destruct t as [|c t]; [done|]. cbn [app]. change (c :: t ++ r) with ((c :: t) ++ r). by rewrite token_plain.
Qed.

Lemma strtok_none delim sp : Forall (fun c => c ∈ delim) sp -> strtok delim sp = (None, []).
Proof.
  intros Hsp. unfold strtok. assert (skip_delim delim sp = []) as ->; [|done].
  induction Hsp as [|c sp Hc _ IH]; [done|]. cbn. by rewrite bool_decide_true.
Qed.

(** ** Hexadecimal numbers *)
Definition hex_char (c : ascii) : Prop := is_Some (hex_val c).

Lemma hex_char_not c : hex_char c -> is_space c = false /\ c <> "-"%char /\ c <> "+"%char /\ c <> "x"%char /\ c <> "X"%char.
Proof.
  intros Hc. split_and!; [|intros ->; by destruct Hc..].
  destruct c as [[] [] [] [] [] [] [] []]; try reflexivity; by destruct Hc.
Qed.

Lemma hex_digit_val d : 0 <= d < 16 -> hex_val (hex_digit d) = Some d.
Proof.
  intros Hd. assert (Hall : forallb (fun k => bool_decide (hex_val (hex_digit (Z.of_nat k)) = Some (Z.of_nat k))) (List.seq 0 16) = true) by reflexivity.
  rewrite forallb_forall in Hall. specialize (Hall (Z.to_nat d)).
  rewrite Z2Nat.id in Hall by lia. apply bool_decide_eq_true in Hall; [done|]. apply in_seq. lia.
Qed.

Lemma show_hex_read fuel z acc :
  0 <= z < 16 ^ Z.of_nat fuel -> (0 < fuel)%nat ->
  hex_prefix (show_hex fuel z acc) 0 = hex_prefix acc z /\
  (Forall hex_char acc -> Forall hex_char (show_hex fuel z acc)) /\ show_hex fuel z acc <> [].
Proof.
  revert z acc; induction fuel as [|fuel IH]; intros z acc Hz Hf; [lia|]. cbn [show_hex].
  pose proof (Z.mod_pos_bound z 16 eq_refl) as Hm.
  assert (Hv := hex_digit_val (z mod 16) Hm).
  rewrite Nat2Z.inj_succ, Z.pow_succ_r in Hz by lia.
  assert (Hh : Forall hex_char acc -> Forall hex_char (hex_digit (z mod 16) :: acc)) by (constructor; [by eexists|done]).
  destruct (Z.eqb_spec (z / 16) 0) as [E|E].
  - split_and!; [|done|done]. cbn [hex_prefix]. rewrite Hv. f_equal. pose proof (Z.div_mod z 16). lia.
  - pose proof (Z.div_mod z 16). assert (fuel <> 0%nat) by (intros ->; cbn in Hz; lia).
    destruct (IH (z / 16) (hex_digit (z mod 16) :: acc)) as (H1 & H2 & H3); [lia|lia|].
    split_and!; [|auto|done]. rewrite H1. cbn [hex_prefix]. rewrite Hv. f_equal. lia.
Qed.

Lemma strtol16_hex s : Forall hex_char s -> s <> [] -> strtol16 s = Z.max (- 2 ^ 63) (Z.min (2 ^ 63 - 1) (hex_prefix s 0)).
Proof.
  intros Hs Hne. unfold strtol16.
  assert (lstrip s = s) as ->.
  { destruct Hs as [|c s Hc _]; [done|]. cbn. by rewrite (proj1 (hex_char_not c Hc)). }
  destruct Hs as [|c s Hc Hs]; [done|]. pose proof (hex_char_not c Hc) as (_ & H1 & H2 & _).
  rewrite !bool_decide_false by done. rewrite Z.mul_1_l. f_equal. f_equal.
  destruct s as [|x [|d r]]; [by repeat case_match..|].
  assert (bool_decide (x ∈ ["x"%char; "X"%char]) = false) as Hx.
  { apply bool_decide_eq_false. inversion Hs as [|? ? Hx]; subst. pose proof (hex_char_not x Hx).
    rewrite !elem_of_cons, elem_of_nil. tauto. }
  rewrite Hx. by repeat case_match.
Qed.

(** ** The file of the kernel *)

(** A mapping as the kernel prints it: the two addresses, the four words behind them, and a
    name in a column of its own, if it has one, up to its first blank, with what is behind it, such as
    " (deleted)". *)
Record mapping := mkMapping { m_start : Z; m_end : Z; m_words : list str; m_pad : nat; m_name : option str; m_more : str }.

Definition hex_text (z : Z) : str := show_hex 16 z [].
Definition range_text (e : mapping) : str := hex_text (m_start e) ++ dash ++ hex_text (m_end e).
Definition line_text (e : mapping) : str :=
  range_text e ++ concat (map (cons c_space) (m_words e)) ++ replicate (m_pad e) c_space ++ default [] (m_name e) ++ m_more e.
Definition maps_text (es : list mapping) : str := concat (map (fun e => line_text e ++ [c_newline]) es).

Record mapping_ok (e : mapping) : Prop := {
  ok_addresses : 0 <= m_start e < 2 ^ 64 /\ 0 <= m_end e < 2 ^ 64;
  ok_words : length (m_words e) = 4%nat /\ Forall (plain_token maps_delim) (m_words e);
  ok_name : forall n, m_name e = Some n -> plain_token maps_delim n /\ (0 < m_pad e)%nat;
  ok_more : (m_name e = None -> m_more e = []) /\ at_delim [c_space] (m_more e) /\ Forall (fun c => c <> c_newline) (m_more e);
}.

(** [strtol] cuts an address of the kernel's half, such as those of vsyscall, to the greatest [long]. *)
Definition as_read (z : Z) : Z := Z.min z (2 ^ 63 - 1).

Lemma hex_text_ok z : 0 <= z < 2 ^ 64 ->
  Forall hex_char (hex_text z) /\ hex_text z <> [] /\ u64 (strtol16 (hex_text z)) = as_read z.
Proof.
  intros Hz. destruct (show_hex_read 16 z []) as (E & Hh & Hne); [cbn; lia|lia|].
  split_and!; [by apply Hh, Forall_nil|done|].
  rewrite strtol16_hex by (done || by apply Hh, Forall_nil). unfold hex_text. rewrite E.
  cbn [hex_prefix]. unfold as_read. rewrite (Z.min_comm z), Z.max_r by lia. apply wrap_small. lia.
Qed.

Lemma hex_plain delim s : Forall (fun c => hex_val c = None) delim -> Forall hex_char s -> s <> [] -> plain_token delim s.
Proof.
  intros Hd Hs Hne. split; [done|]. eapply Forall_impl; [exact Hs|]. intros c [d Hc] Hin.
  rewrite Forall_forall in Hd. specialize (Hd c Hin). congruence.
Qed.

#[local] Opaque hex_text blackListedModules.

(** The loop over the modules for a mapping: nothing for a name without a listed module, one entry
    for a name with one of them, and a null pointer is used when there is a second. *)
Definition listed (ms : list str) (tmpname : str) : list str := filter (fun m => strstr tmpname m = true) ms.

Lemma match_modules_cut ms tmp a black :
  strtok dash (strtok dash a).2 = (None, []) -> listed ms tmp <> [] -> match_modules ms tmp (Some a) black = EXC.
Proof.
  intros Ha. induction ms as [|m ms IH]; intros Hl; [done|]. cbn [match_modules]. unfold listed in *.
  rewrite filter_cons in Hl. destruct (strstr tmp m) eqn:E; [|rewrite decide_False in Hl by done; auto].
  destruct (strtok dash a) as [[t|] save]; [|done]. cbn in Ha. by rewrite Ha.
Qed.

Lemma match_modules_ok ms tmp e black :
  mapping_ok e ->
  match_modules ms tmp (Some (range_text e)) black =
    match listed ms tmp with
    | [] => RET black
    | [_] => add_range (as_read (m_start e), as_read (m_end e)) black
    | _ => EXC
    end.
Proof.
  intros He. destruct (ok_addresses e He) as [Hs Hn].
  destruct (hex_text_ok _ Hs) as (Hsh & Hs0 & Esz), (hex_text_ok _ Hn) as (Hnh & Hn0 & Enz).
  assert (Hsp : plain_token dash (hex_text (m_start e))) by (apply hex_plain; [by repeat constructor|exact Hsh|exact Hs0]).
  assert (Hnp : plain_token dash (hex_text (m_end e))) by (apply hex_plain; [by repeat constructor|exact Hnh|exact Hn0]).
  assert (E1 : strtok dash (range_text e) = (Some (hex_text (m_start e)), hex_text (m_end e))).
  { apply (strtok_plain dash []); [constructor|exact Hsp|by left]. }
  assert (E2 : strtok dash (hex_text (m_end e)) = (Some (hex_text (m_end e)), [])).
  { rewrite <- (app_nil_r (hex_text (m_end e))) at 1. apply (strtok_plain dash []); [constructor|exact Hnp|exact I]. }
  assert (Ecut : strtok_cut dash (range_text e) = hex_text (m_start e)).
  { unfold strtok_cut, range_text.
    pose proof (skip_plain dash [] _ (dash ++ hex_text (m_end e)) (Forall_nil_2 _) Hsp) as Esk.
    rewrite app_nil_l in Esk. rewrite Esk, Nat.sub_diag.
    destruct Hsp as [_ Hsp']. rewrite token_plain; [|done|by left]. cbn [fst Nat.add]. by rewrite take_app_length. }
  induction ms as [|m ms IH]; [done|]. cbn [match_modules]. unfold listed in *. rewrite filter_cons.
  destruct (strstr tmp m); [rewrite decide_True by done|by rewrite decide_False by done].
  rewrite E1, E2, Esz, Enz. rewrite Ecut. unfold add_range.
  destruct (length black <? MAX_BLACK_LIST_ADDRESS)%nat; cbn [mbind exc_bind];
    [|by destruct (filter (fun m => strstr tmp m = true) ms)].
  destruct (filter (fun m => strstr tmp m = true) ms) as [|m' l] eqn:El.
  - clear -El. induction ms as [|m ms IH]; [done|]. cbn [match_modules]. rewrite filter_cons in El.
    case_decide as Hm; [done|]. destruct (strstr tmp m); [done|]. auto.
  - apply match_modules_cut; [|unfold listed; by rewrite El].
    assert (strtok dash (hex_text (m_start e)) = (Some (hex_text (m_start e)), [])) as ->; [|done].
    rewrite <- (app_nil_r (hex_text (m_start e))) at 1. apply (strtok_plain dash []); [constructor|exact Hsp|exact I].
Qed.

Lemma match_modules_null ms tmp black :
  match_modules ms tmp None black = if decide (listed ms tmp = []) then RET black else EXC.
Proof.
  induction ms as [|m ms IH]; [done|]. cbn [match_modules]. unfold listed in *. rewrite filter_cons.
  destruct (strstr tmp m); [by rewrite (decide_True (P := true = true)), decide_False by done|].
  rewrite (decide_False (P := false = true)) by done. done.
Qed.

Section reading.
Variable realpath : option str -> str -> str.

(** The contents of the buffer for each line. *)
Fixpoint buffers (tmp : str) (es : list mapping) : list str :=
  match es with [] => [] | e :: es => let t := realpath (m_name e) tmp in t :: buffers t es end.
Definition last_buffer (tmp : str) (es : list mapping) : str := realpath None (default tmp (last (buffers tmp es))).

Definition excluded (es : list mapping) (tmps : list str) : list (Z * Z) :=
  concat (zip_with (fun e t => match listed blackListedModules t with [] => [] | _ => [(as_read (m_start e), as_read (m_end e))] end) es tmps).

(** Every line names one module at most, and the line behind the last newline none. *)
Definition no_two (tmp : str) (es : list mapping) : bool :=
  forallb (fun t => length (listed blackListedModules t) <=? 1)%nat (buffers tmp es) &&
  bool_decide (listed blackListedModules (last_buffer tmp es) = []).

Lemma range_plain e : mapping_ok e -> plain_token maps_delim (range_text e).
Proof.
  intros He. destruct (ok_addresses e He) as [Hs Hn].
  destruct (hex_text_ok _ Hs) as (Hsh & Hs0 & _), (hex_text_ok _ Hn) as (Hnh & _ & _).
  assert (Hd : Forall (fun c => hex_val c = None) maps_delim) by (by repeat constructor).
  destruct (hex_plain maps_delim _ Hd Hsh Hs0) as [_ H1].
  split; [intros E; apply app_eq_nil in E; tauto|]. unfold range_text. rewrite !Forall_app. split_and!; [done| |].
  - apply Forall_singleton. unfold maps_delim. rewrite !elem_of_cons, elem_of_nil. by intros [?|[?|?]].
  - eapply Forall_impl; [exact Hnh|]. intros c [d Hc] Hin. rewrite Forall_forall in Hd. specialize (Hd c Hin). congruence.
Qed.

Lemma spaces_delim n : Forall (fun c => c ∈ maps_delim) (replicate n c_space).
Proof. apply Forall_replicate. by left. Qed.

Lemma at_space r : at_delim [c_space] r -> at_delim maps_delim r.
Proof. destruct r as [|c r]; [done|]. cbn. intros ->%list_elem_of_singleton. by left. Qed.

Lemma strtok_name e :
  mapping_ok e -> (strtok maps_delim (tail (replicate (m_pad e) c_space ++ default [] (m_name e) ++ m_more e))).1 = m_name e.
Proof.
  intros He. destruct (ok_more e He) as (Hnone & Hat & _). destruct (m_name e) as [n|] eqn:En; cbn [default].
  - destruct (ok_name e He n En) as [Hn Hp]. destruct (m_pad e) as [|p]; [lia|].
    change ((strtok maps_delim (replicate p c_space ++ n ++ m_more e)).1 = Some n).
    by rewrite (strtok_plain maps_delim (replicate p c_space) n (m_more e) (spaces_delim p) Hn (at_space _ Hat)).
  - rewrite Hnone by done. rewrite !app_nil_r. rewrite strtok_none; [done|]. destruct (m_pad e); [constructor|apply spaces_delim].
Qed.

Lemma read_line_ok e tmp black :
  mapping_ok e ->
  read_line realpath (line_text e) tmp black =
    b ← match_modules blackListedModules (realpath (m_name e) tmp) (Some (range_text e)) black;
    RET (realpath (m_name e) tmp, b).
Proof.
  intros He. unfold read_line, line_text. destruct (ok_words e He) as [Hl Hw].
  destruct (m_words e) as [|w1 [|w2 [|w3 [|w4 [|]]]]]; try done. clear Hl.
  set (rest := replicate (m_pad e) c_space ++ default [] (m_name e) ++ m_more e).
  assert (Hrest : at_delim maps_delim rest).
  { subst rest. destruct (m_pad e) as [|p] eqn:Ep; [|by left]. destruct (m_name e) as [n|] eqn:En.
    - destruct (ok_name e He n En). lia.
    - by rewrite (proj1 (ok_more e He) En). }
  assert (Hsp : at_delim maps_delim [c_space]) by (by left).
  repeat (apply Forall_cons in Hw as [? Hw]).
  assert (Hnext : forall t r, plain_token maps_delim t -> at_delim maps_delim r -> strtok maps_delim (t ++ r) = (Some t, tail r)).
  { intros t r ? ?. by apply (strtok_plain maps_delim []). }
  cbn [map concat]. rewrite app_nil_r, <- !app_assoc. fold rest.
  rewrite Hnext by (by first [apply range_plain|left]). cbn [app tail snd].
  rewrite Hnext by (done || by left). cbn [snd tail].
  change (Nat.iter 3 ?f ?s) with (f (f (f s))). cbn beta.
  rewrite Hnext by (done || by left). cbn [snd tail].
  rewrite Hnext by (done || by left). cbn [snd tail].
  rewrite Hnext by done. cbn [snd].
  unfold rest. by rewrite strtok_name.
Qed.

Lemma lines_of_app l r : Forall (fun c => c <> c_newline) l -> lines_of (l ++ c_newline :: r) = l :: lines_of r.
Proof.
  induction 1 as [|c l Hc _ IH]; cbn [app lines_of]; [by rewrite bool_decide_true|].
  rewrite bool_decide_false by done. by rewrite IH.
Qed.

Lemma plain_no_newline t : plain_token maps_delim t -> Forall (fun c => c <> c_newline) t.
Proof. intros [_ Ht]. eapply Forall_impl; [exact Ht|]. intros c Hc ->. apply Hc. right. by left. Qed.

Lemma line_no_newline e : mapping_ok e -> Forall (fun c => c <> c_newline) (line_text e).
Proof.
  intros He. unfold line_text. rewrite !Forall_app. split_and!.
  - by apply plain_no_newline, range_plain.
  - destruct (ok_words e He) as [_ Hw]. induction Hw as [|w ws Hw _ IH]; [constructor|]. cbn.
    constructor; [done|]. apply Forall_app. split; [by apply plain_no_newline|done].
  - by apply Forall_replicate.
  - destruct (m_name e) as [n|] eqn:En; [|constructor]. cbn. by eapply plain_no_newline, ok_name.
  - apply (ok_more e He).
Qed.

Lemma lines_of_maps es : Forall mapping_ok es -> lines_of (maps_text es) = map line_text es ++ [[]].
Proof.
  unfold maps_text. induction 1 as [|e es He _ IH]; [done|]. cbn [map concat].
  rewrite <- app_assoc. cbn [app]. rewrite lines_of_app by (by apply line_no_newline). by rewrite IH.
Qed.

Lemma last_cons_default {A} (x y : A) l : default y (last (x :: l)) = default x (last l).
Proof. revert x y; induction l as [|a l IH]; intros x y; [done|]. by rewrite last_cons_cons, !IH. Qed.

(** There is room for [n] more entries behind the ones of [black]. *)
Definition fits (black : list (Z * Z)) (n : nat) : bool := (length black + n <=? MAX_BLACK_LIST_ADDRESS)%nat.

Lemma read_lines_ok es : forall tmp black,
  Forall mapping_ok es -> fits black 0 = true ->
  read_lines realpath (map line_text es ++ [[]]) tmp black =
    if no_two tmp es && fits black (length (excluded es (buffers tmp es)))
    then RET (black ++ excluded es (buffers tmp es)) else EXC.
Proof.
  induction es as [|e es IH]; intros tmp black Hes Hl; cbn [map app read_lines].
  - unfold no_two, last_buffer, excluded. cbn [buffers forallb last default from_option id zip_with concat length].
    change (read_line realpath [] tmp black) with
      (b ← match_modules blackListedModules (realpath None tmp) None black; RET (realpath None tmp, b)).
    rewrite match_modules_null, app_nil_r, andb_true_l, Hl, andb_true_r.
    destruct (decide _) as [E|E]; [by rewrite bool_decide_true|by rewrite bool_decide_false].
  - apply Forall_cons in Hes as [He Hes]. rewrite read_line_ok by done.
    rewrite match_modules_ok by done. unfold no_two, last_buffer, excluded.
    cbn [buffers zip_with concat forallb]. rewrite last_cons_default.
    set (t := realpath (m_name e) tmp).
    destruct (listed blackListedModules t) as [|m [|m' l]]; cbn [length Nat.leb mbind exc_bind andb fst snd].
    + rewrite IH by done. done.
    + unfold add_range. unfold fits in *. destruct (Nat.ltb_spec (length black) MAX_BLACK_LIST_ADDRESS) as [Hlt|Hge]; cbn [mbind exc_bind fst snd].
      * rewrite IH by (done || (unfold fits; rewrite length_app; apply Nat.leb_le; cbn; lia)). rewrite <- app_assoc.
        unfold fits, no_two, last_buffer, excluded. rewrite !length_app. cbn [length app]. by rewrite <- Nat.add_assoc.
      * symmetry. rewrite length_app. cbn [length]. rewrite (proj2 (Nat.leb_gt _ _)) by lia. by rewrite andb_false_r.
    + done.
Qed.
End reading.

(** ** Properties *)

(** C17: The excluded addresses are those of the mappings whose file is one of the listed modules,
    and the first page. On any text of mappings, their addresses anywhere in the 64 bits and their names with anything behind
    a blank, reading succeeds exactly when no resolved name contains two of the modules' names, the name left in the
    buffer at the end contains none (otherwise a null pointer is used) and fewer than 1024 mappings have a
    listed one (otherwise it writes behind the array). Then an address is excluded
    when it is below the size of a page or in a mapping whose resolved name contains a listed
    one, the mapping's addresses taken as [strtol] reads them, at most [2^63 - 1]: in the lower half, where all
    files of a process are mapped, they are the mapping's own. A mapping without a name counts with the name that was there before. *)
Theorem PopulateBlackListAddresses_correct (realpath : option str -> str -> str) (pagesize : Z)
    (es : list mapping) (tmp : str) :
  Forall mapping_ok es ->
  let r := PopulateBlackListAddresses realpath pagesize (Some (maps_text es)) tmp [] in
  if no_two realpath tmp es && (length (excluded es (buffers realpath tmp es)) <? MAX_BLACK_LIST_ADDRESS)%nat then
    exists black, r = RET black /\
      forall addr, 0 <= addr -> (IsBlackListedAddress black addr = true <->
        addr < pagesize \/ exists i e t, es !! i = Some e /\ buffers realpath tmp es !! i = Some t /\
          (exists m, m ∈ blackListedModules /\ strstr t m = true) /\ as_read (m_start e) <= addr < as_read (m_end e))
  else r = EXC.
Proof.
  intros Hes r. subst r. unfold PopulateBlackListAddresses. cbn [length Nat.eqb].
  rewrite lines_of_maps by done. rewrite read_lines_ok by done.
  destruct (no_two realpath tmp es); [|done]. cbn [andb]. unfold fits, add_range. cbn [length Nat.add].
  destruct (Nat.leb_spec (length (excluded es (buffers realpath tmp es))) MAX_BLACK_LIST_ADDRESS) as [Hle|Hgt];
    [|by rewrite (proj2 (Nat.ltb_ge _ _)) by lia].
  cbn [mbind exc_bind app]. destruct (Nat.ltb_spec (length (excluded es (buffers realpath tmp es))) MAX_BLACK_LIST_ADDRESS); [|done].
  eexists. split; [done|]. intros addr Ha.
  unfold IsBlackListedAddress. rewrite existsb_app, orb_true_iff. cbn. rewrite orb_false_r.
  assert (Hin : existsb (fun r => (r.1 <=? addr) && (addr <? r.2)) (excluded es (buffers realpath tmp es)) = true <->
    exists i e t, es !! i = Some e /\ buffers realpath tmp es !! i = Some t /\
      (exists m, m ∈ blackListedModules /\ strstr t m = true) /\ as_read (m_start e) <= addr < as_read (m_end e)).
  { generalize (buffers realpath tmp es). clear. induction es as [|e es IH]; intros ts.
    - split; [done|]. by intros (i & e & t & ? & _).
    - destruct ts as [|t ts]; [split; [done|]; by intros (i & e' & t & _ & ? & _)|].
      unfold excluded. cbn [zip_with concat]. rewrite existsb_app, orb_true_iff. fold (excluded es ts). rewrite IH.
      assert (Hm : (exists m, m ∈ blackListedModules /\ strstr t m = true) <-> listed blackListedModules t <> []).
      { unfold listed. split.
        - intros (m & Hm & Hs) E. assert (m ∈ filter (fun m => strstr t m = true) blackListedModules) as Hf
            by (by apply list_elem_of_filter). rewrite E in Hf. by apply not_elem_of_nil in Hf.
        - destruct (filter (fun m => strstr t m = true) blackListedModules) as [|m l] eqn:E; [done|]. intros _.
          assert (m ∈ m :: l) as Hf by (by left). rewrite <- E in Hf.
          apply list_elem_of_filter in Hf as [? ?]. by exists m. }
      split.
      + intros [Hx|(i & e' & t' & ? & ? & ?)]; [|by exists (S i), e', t'].
        exists 0%nat, e, t. apply and_assoc. split; [done|]. 
        destruct (listed blackListedModules t); [done|]. cbn in Hx.
        rewrite orb_false_r, andb_true_iff, Z.leb_le, Z.ltb_lt in Hx. split; [by apply Hm|done].
      + intros ([|i] & e' & t' & He' & Ht' & Hmm & Hr); cbn in He', Ht'; [left|right; by exists i, e', t'].
        injection He' as <-; injection Ht' as <-. apply Hm in Hmm. destruct (listed blackListedModules t); [done|]. cbn.
        by rewrite orb_false_r, andb_true_iff, Z.leb_le, Z.ltb_lt. }
  rewrite Hin, andb_true_iff, Z.leb_le, Z.ltb_lt.
  split; [intros [?|[_ ?]]; [by right|by left]|intros [?|?]; [right; by split|by left]].
Qed.

(** The answer of a [realpath] for which every name is resolved, and none is an error. *)
Module Demo.
Definition realpath (name : option str) (tmp : str) : str := default tmp name.
Definition words : list str := map lit ["r-xp"; "00000000"; "08:01"; "1234"].
Definition java : mapping := mkMapping 4096 8192 words 3 (Some (lit "/usr/bin/java")) (lit " (deleted)").
Definition jvm : mapping := mkMapping 1048576 1060864 words 3 (Some (lit "/opt/jdk/libjvm.so")) [].
Definition stack : mapping := mkMapping 2097152 2105344 words 3 (Some (lit "[stack]")) [].
Definition vsyscall : mapping := mkMapping 0xffffffffff600000 0xffffffffff601000 words 3 (Some (lit "[vsyscall]")) [].
(** A file whose path has the names of two modules. *)
Definition jvm2 : mapping := mkMapping 1048576 1060864 words 3 (Some (lit "/opt/libc/libjvm.so")) [].

#[export] Instance plain_token_decision delim t : Decision (plain_token delim t).
Proof. unfold plain_token. apply _. Defined.
#[export] Instance at_delim_decision delim r : Decision (at_delim delim r).
Proof. destruct r; unfold at_delim; apply _. Defined.

Lemma demo_mapping a b (n : string) more : 0 <= a < 2 ^ 64 -> 0 <= b < 2 ^ 64 ->
  plain_token maps_delim (lit n) /\ at_delim [c_space] more /\ Forall (fun c => c <> c_newline) more ->
  mapping_ok (mkMapping a b words 3 (Some (lit n)) more).
Proof.
  intros Ha Hb (Hn & Hat & Hnl). split; cbn.
  - done.
  - split; [done|]. apply (bool_decide_unpack _). vm_compute. exact I.
  - intros m [= <-]. split; [done|lia].
  - done.
Qed.

Lemma demo_mappings_ok : Forall mapping_ok [java; jvm; stack; vsyscall].
Proof.
  repeat apply Forall_cons_2; try apply Forall_nil_2;
    (apply demo_mapping; [lia|lia|apply (bool_decide_unpack _); vm_compute; exact I]).
Qed.

(** With the Java machine's library among the mappings, and the kernel's. *)
Lemma PopulateBlackListAddresses_correct_witness :
  exists black, PopulateBlackListAddresses realpath 4096 (Some (maps_text [java; jvm; stack; vsyscall])) [] [] = RET black /\
    IsBlackListedAddress black 1048577 = true.
Proof.
  assert (Hn : no_two realpath [] [java; jvm; stack; vsyscall] &&
    (length (excluded [java; jvm; stack; vsyscall] (buffers realpath [] [java; jvm; stack; vsyscall])) <? MAX_BLACK_LIST_ADDRESS)%nat = true)
    by (vm_compute; reflexivity).
  pose proof (PopulateBlackListAddresses_correct realpath 4096 [java; jvm; stack; vsyscall] [] demo_mappings_ok) as H.
  cbv zeta in H. rewrite Hn in H. destruct H as (black & E & Hb).
  exists black. split; [exact E|]. apply Hb; [lia|]. right.
  exists 1%nat, jvm, (lit "/opt/jdk/libjvm.so"). split; [reflexivity|]. split; [vm_compute; reflexivity|]. split.
  - exists (lit "libjvm.so"). split; [|vm_compute; reflexivity]. apply (bool_decide_unpack _). vm_compute. exact I.
  - unfold as_read. cbn. lia.
Defined.

(** A path with the names of two modules ends the process. *)
Example demo_two : PopulateBlackListAddresses realpath 4096 (Some (maps_text [java; jvm2; stack])) [] [] = EXC.
Proof. vm_compute. reflexivity. Qed.
End Demo.
