(* ===== verification/OutBuf.v ===== *)
(** * The signal-safe output buffer

    Models [src/src/external/hpctoolkit/lib/prof-lean/hpcio-buffer.c] and the
    struct of [hpcio-buffer.h]: a fixed buffer in front of [write(2)].

    [size_t] amounts are [nat]: every subtraction of the code is of a part from
    its whole, as the invariant [ob_wf] shows.  The kernel's answers to the coming
    [write] calls are a list; once it is used up a [write] takes all it is given.
    An operation that has to wait for the buffer's own lock returns [None]: the
    holder is another thread. *)
From stdpp Require Import base numbers list gmap strings.
From Stdlib Require Import ZArith Lia.
From S2P Require Import Prelude LibC Locks HpcFmt.

(** ** The kernel's side of [write(2)] *)

(** An answer: so many bytes taken (at most the bytes given), -1 with [errno]
    [EINTR], or -1 with another error. *)
Inductive wresp := Wrote (n : nat) | Interrupted | Failed.

Record kernel := mkKernel { k_script : list wresp; k_log : list byte }.

(** [write(fd, data, length data)]: the result, whether [errno] is [EINTR]. *)
Definition sys_write (data : list byte) (k : kernel) : Z * bool * kernel :=
  match k_script k with
  | [] => (Z.of_nat (length data), false, mkKernel [] (k_log k ++ data))
  | Wrote n :: s =>
      let m := n `min` length data in
      (Z.of_nat m, false, mkKernel s (k_log k ++ take m data))
  | Interrupted :: s => ((-1)%Z, true, mkKernel s (k_log k))
  | Failed :: s => ((-1)%Z, false, mkKernel s (k_log k))
  end.

(** ** The buffer ([hpcio-buffer.h]) *)
Record hpcio_outbuf_t := mkOutbuf {
  magic : Z;
  buf_start : list byte;
  buf_size : nat;
  in_use : nat;
  ob_fd : Z;
  ob_flags : Z;
  use_lock : bool;
  ob_lock : Z;
}.

Definition HPCIO_OUTBUF_MAGIC : Z := 0x494F4246.
Definition HPCIO_OUTBUF_LOCKED : Z := 1.
Definition HPCIO_OUTBUF_UNLOCKED : Z := 2.

Definition set_lock (l : Z) (ob : hpcio_outbuf_t) : hpcio_outbuf_t :=
  mkOutbuf (magic ob) (buf_start ob) (buf_size ob) (in_use ob) (ob_fd ob) (ob_flags ob) (use_lock ob) l.
Definition set_buf (buf : list byte) (n : nat) (ob : hpcio_outbuf_t) : hpcio_outbuf_t :=
  mkOutbuf (magic ob) buf (buf_size ob) n (ob_fd ob) (ob_flags ob) (use_lock ob) (ob_lock ob).

(** [if (use_lock) spinlock_lock(&lock)], and the unlock. *)
Definition acquire (ob : hpcio_outbuf_t) : option hpcio_outbuf_t :=
  if use_lock ob then
    if (ob_lock ob =? SPINLOCK_UNLOCKED_VALUE)%Z then Some (set_lock SPINLOCK_LOCKED_VALUE ob) else None
  else Some ob.
Definition release (ob : hpcio_outbuf_t) : hpcio_outbuf_t :=
  if use_lock ob then set_lock SPINLOCK_UNLOCKED_VALUE ob else ob.

(** ** Private functions *)

(** The [while] loop of [outbuf_flush_buffer]: whether it left by a hard
    failure, and [amt_done].  [fuel] counts the calls of [write]. *)
Fixpoint flush_loop (fuel : nat) (ob : hpcio_outbuf_t) (amt_done : nat) (k : kernel)
  : option (bool * nat * kernel) :=
  if amt_done <? in_use ob then
    match fuel with
    | O => None
    | S fuel' =>
        let '(ret, eintr, k') :=
          sys_write (take (in_use ob - amt_done) (drop amt_done (buf_start ob))) k in
        if (0 <? ret)%Z || ((ret =? 0)%Z && eintr)
        then flush_loop fuel' ob (amt_done + Z.to_nat ret) k'
        else Some (false, amt_done, k')
    end
  else Some (true, amt_done, k).

Definition outbuf_flush_buffer (ob : hpcio_outbuf_t) (k : kernel)
  : option (fmt_status * hpcio_outbuf_t * kernel) :=
  r ← flush_loop (S (length (k_script k))) ob 0 k;
  let '(ok, amt_done, k') := r in
  if ok : bool then Some (HPCFMT_OK, set_buf (buf_start ob) 0 ob, k')
  else
    Some (HPCFMT_ERR,
          (if 0 <? amt_done
           then set_buf (memcpy_at (buf_start ob) 0
                           (take (in_use ob - amt_done) (drop amt_done (buf_start ob))))
                        amt_done ob
           else ob), k').

(** ** Interface functions *)

(** [None] in place of a pointer is [NULL]. *)
Definition hpcio_outbuf_attach (outbuf : option hpcio_outbuf_t) (fd : Z)
    (buf : option (list byte)) (size : nat) (flags : Z) : fmt_status * option hpcio_outbuf_t :=
  match outbuf, buf with
  | Some _, Some b =>
      if (fd <? 0)%Z || (size =? 0) then (HPCFMT_ERR, outbuf)
      else (HPCFMT_OK,
            Some (mkOutbuf HPCIO_OUTBUF_MAGIC b size 0 fd flags
                    (negb (Z.land flags HPCIO_OUTBUF_LOCKED =? 0)%Z) SPINLOCK_UNLOCKED_VALUE))
  | _, _ => (HPCFMT_ERR, outbuf)
  end.

Definition bad_buffer (outbuf : hpcio_outbuf_t) : bool :=
  negb (magic outbuf =? HPCIO_OUTBUF_MAGIC)%Z.

(** The [while] loop of [hpcio_outbuf_write]; [fuel] bounds its iterations. *)
Fixpoint write_loop (fuel : nat) (ob : hpcio_outbuf_t) (data : list byte) (amt_done : nat)
    (k : kernel) : option (nat * hpcio_outbuf_t * kernel) :=
  if amt_done <? length data then
    match fuel with
    | O => None
    | S fuel' =>
        r ← (if buf_size ob - in_use ob <? length data then
               r ← outbuf_flush_buffer ob k;
               let '(_, ob', k') := r in Some (in_use ob' =? buf_size ob', ob', k')
             else Some (false, ob, k));
        let '(full, ob1, k1) := r in
        if full : bool then Some (amt_done, ob1, k1)
        else
          let amt := (length data - amt_done) `min` (buf_size ob1 - in_use ob1) in
          let ob2 := set_buf (memcpy_at (buf_start ob1) (in_use ob1) (take amt (drop amt_done data)))
                             (in_use ob1 + amt) ob1 in
          write_loop fuel' ob2 data (amt_done + amt) k1
    end
  else Some (amt_done, ob, k).

Definition hpcio_outbuf_write (outbuf : hpcio_outbuf_t) (data : list byte) (k : kernel)
  : option (Z * hpcio_outbuf_t * kernel) :=
  if bad_buffer outbuf then Some ((-1)%Z, outbuf, k)
  else
    ob ← acquire outbuf;
    r ← write_loop (length data) ob data 0 k;
    let '(amt_done, ob', k') := r in
    Some (Z.of_nat amt_done, release ob', k').

Definition hpcio_outbuf_flush (outbuf : hpcio_outbuf_t) (k : kernel)
  : option (fmt_status * hpcio_outbuf_t * kernel) :=
  if bad_buffer outbuf then Some (HPCFMT_ERR, outbuf, k)
  else
    ob ← acquire outbuf;
    r ← outbuf_flush_buffer ob k;
    let '(ret, ob', k') := r in Some (ret, release ob', k').

(** [close_ok] is what [close(fd)] returns, if it is called at all. *)
Definition hpcio_outbuf_close (outbuf : hpcio_outbuf_t) (close_ok : bool) (k : kernel)
  : option (fmt_status * hpcio_outbuf_t * kernel) :=
  if bad_buffer outbuf then Some (HPCFMT_ERR, outbuf, k)
  else
    ob ← acquire outbuf;
    r ← outbuf_flush_buffer ob k;
    let '(ret, ob1, k1) := r in
    if bool_decide (ret = HPCFMT_OK) && close_ok then
      Some (HPCFMT_OK,
            release (mkOutbuf 0 (buf_start ob1) (buf_size ob1) (in_use ob1) (-1) (ob_flags ob1)
                       (use_lock ob1) (ob_lock ob1)), k1)
    else Some (HPCFMT_ERR, release ob1, k1).

(** ** Invariant and abstraction *)

(** The buffer is attached, and what is in use of it fits. *)
Definition ob_wf (ob : hpcio_outbuf_t) : Prop :=
  magic ob = HPCIO_OUTBUF_MAGIC /\ length (buf_start ob) = buf_size ob /\
  0 < buf_size ob /\ in_use ob <= buf_size ob.

(** No thread holds the lock, when there is one. *)
Definition ob_free (ob : hpcio_outbuf_t) : Prop :=
  use_lock ob = true -> ob_lock ob = SPINLOCK_UNLOCKED_VALUE.

Definition pending (ob : hpcio_outbuf_t) : list byte := take (in_use ob) (buf_start ob).

(** The byte stream a buffer and its file stand for. *)
Definition stream (ob : hpcio_outbuf_t) (k : kernel) : list byte := k_log k ++ pending ob.

(** A kernel whose writes are neither interrupted nor refused, though they may be
    partial. *)
Definition soft (r : wresp) : Prop :=
  match r with Wrote n => 0 < n | Interrupted | Failed => False end.
Definition reliable (k : kernel) : Prop := Forall soft (k_script k).

Lemma length_pending ob : ob_wf ob -> length (pending ob) = in_use ob.
Proof. intros (_ & Hl & _ & Hu). unfold pending. rewrite length_take. lia. Qed.


Lemma pending_set_buf ob b n : pending (set_buf b n ob) = take n b.
Proof. done. Qed.

Lemma reliable_suffix k k' p : k_script k = p ++ k_script k' -> reliable k -> reliable k'.
Proof. unfold reliable. intros -> [_ H]%Forall_app. done. Qed.

(** ** What the loops do *)

(** The relation between the kernel before and after a call that sent [bs]. *)
Definition sent (k : kernel) (bs : list byte) (k' : kernel) : Prop :=
  k_log k' = k_log k ++ bs /\ exists p, k_script k = p ++ k_script k'.

Lemma sent_refl k : sent k [] k.
Proof. split; [by rewrite app_nil_r|]. by exists []. Qed.

Lemma sent_trans k a k1 b k2 : sent k a k1 -> sent k1 b k2 -> sent k (a ++ b) k2.
Proof.
  intros [La [p Hp]] [Lb [q Hq]]. split; [by rewrite Lb, La, app_assoc|].
  exists (p ++ q). by rewrite Hp, Hq, app_assoc.
Qed.

Lemma sent_reliable k a k' : sent k a k' -> reliable k -> reliable k'.
Proof. intros [_ [p Hp]]. by eapply reliable_suffix. Qed.

(** One call of [write]: it consumes an answer, or takes everything. *)
Lemma sys_write_spec data k ret eintr k' :
  data <> [] -> sys_write data k = (ret, eintr, k') ->
  (exists m, ret = Z.of_nat m /\ m <= length data /\ eintr = false /\ sent k (take m data) k' /\
     (length (k_script k') < length (k_script k) \/ m = length data) /\
     (reliable k -> 0 < m)) \/
  (ret = (-1)%Z /\ sent k [] k' /\ ~ reliable k).
Proof.
  intros Hd. assert (0 < length data) by (destruct data; simpl; [done|lia]).
  assert (forall r s, sent (mkKernel (r :: s) (k_log k)) [] (mkKernel s (k_log k))) as Hsent.
  { intros r s. split; [by rewrite app_nil_r|by exists [r]]. }
  unfold sys_write, reliable. destruct k as [[|[n| |] s] l]; cbn [k_script k_log] in *;
  intros [= <- <- <-].
  - left. exists (length data). rewrite take_ge by lia.
    split_and!; try lia || done. split; [done|by exists []].
  - left. exists (n `min` length data). split_and!; try lia || done; [split; [done|by exists [Wrote n]]| |].
    + left. simpl. lia.
    + intros [Hs _]%Forall_cons. simpl in Hs. lia.
  - right. split_and!; [done|apply Hsent|by intros [Hs _]%Forall_cons].
  - right. split_and!; [done|apply Hsent|by intros [Hs _]%Forall_cons].
Qed.

Lemma flush_loop_spec fuel ob amt k :
  ob_wf ob -> amt <= in_use ob -> length (k_script k) < fuel ->
  exists ok m k', flush_loop fuel ob amt k = Some (ok, m, k') /\
    amt <= m <= in_use ob /\ sent k (take (m - amt) (drop amt (pending ob))) k' /\
    (if ok : bool then m = in_use ob else m < in_use ob) /\ (reliable k -> ok = true).
Proof.
  intros Hwf. revert amt k; induction fuel as [|fuel IH]; intros amt k Ha Hf; [lia|].
  cbn [flush_loop]. destruct (Nat.ltb_spec amt (in_use ob)) as [Hlt|Hge].
  2:{ exists true, amt, k. rewrite Nat.sub_diag. split_and!; try done || lia. apply sent_refl. }
  assert (take (in_use ob - amt) (drop amt (buf_start ob)) = drop amt (pending ob)) as ->.
  { unfold pending. by rewrite skipn_firstn_comm. }
  pose proof (length_pending ob Hwf) as Hp.
  destruct (sys_write (drop amt (pending ob)) k) as [[ret eintr] k1] eqn:E.
  apply sys_write_spec in E as [(m & -> & Hm & -> & Hs & Hc & Hr)|(-> & Hs & Hr)].
  3:{ intros H%(f_equal length). rewrite length_drop in H. simpl in H. lia. }
  - rewrite length_drop in *. rewrite andb_false_r, orb_false_r.
    destruct (Z.ltb_spec 0 (Z.of_nat m)) as [Hm0|Hm0].
    + rewrite Nat2Z.id. destruct Hc as [Hc|Hc].
      * destruct (IH (amt + m) k1) as (ok & m' & k' & E' & Hm' & Hs' & Hok & Hr'); try lia.
        exists ok, m', k'. split_and!; try done || lia.
        -- pose proof (sent_trans _ _ _ _ _ Hs Hs') as H. rewrite <- drop_drop in H.
           replace (m' - (amt + m)) with ((m' - amt) - m) in H by lia.
           rewrite <- skipn_firstn_comm in H.
           assert (take m (drop amt (pending ob)) =
             take m (take (m' - amt) (drop amt (pending ob)))) as Et by (rewrite take_take; f_equal; lia).
           rewrite Et, take_drop in H. done.
        -- intros Hk. apply Hr'. by eapply sent_reliable.
      * exists true, (in_use ob), k1. replace (amt + m) with (in_use ob) by lia.
        split_and!; try done || lia.
        -- destruct fuel; simpl; by rewrite Nat.ltb_irrefl.
        -- rewrite Hp in Hc. by rewrite <- Hc.
    + assert (m = 0) as -> by lia. exists false, amt, k1. rewrite Nat.sub_diag.
      split_and!; try done || lia. intros Hk%Hr. lia.
  - exists false, amt, k1. rewrite Nat.sub_diag. by split_and!; try done || lia.
Qed.

(** The buffer after a flush that sent the first [m] bytes pending: the code keeps
    [m] bytes, whatever is left. *)
Definition kept (ob : hpcio_outbuf_t) (m : nat) : hpcio_outbuf_t :=
  if 0 <? m
  then set_buf (memcpy_at (buf_start ob) 0 (take (in_use ob - m) (drop m (buf_start ob)))) m ob
  else ob.

Lemma flush_buffer_spec ob k :
  ob_wf ob ->
  exists st m k', m <= in_use ob /\ sent k (take m (pending ob)) k' /\
    outbuf_flush_buffer ob k =
      Some (st, if decide (st = HPCFMT_OK) then set_buf (buf_start ob) 0 ob else kept ob m, k') /\
    ((st = HPCFMT_OK /\ m = in_use ob) \/ (st = HPCFMT_ERR /\ m < in_use ob)) /\
    (reliable k -> st = HPCFMT_OK).
Proof.
  intros Hwf. unfold outbuf_flush_buffer.
  destruct (flush_loop_spec (S (length (k_script k))) ob 0 k) as
    (ok & m & k' & -> & Hm & Hs & Hok & Hr); [done|lia|lia|].
  rewrite Nat.sub_0_r, drop_0 in Hs. cbn [mbind option_bind].
  exists (if ok then HPCFMT_OK else HPCFMT_ERR), m, k'.
  destruct ok; split_and!; try done || lia; try (by left); try (by right).
  intros Hk. by specialize (Hr Hk).
Qed.

Lemma length_kept_buf ob m :
  ob_wf ob -> m <= in_use ob -> length (buf_start (kept ob m)) = length (buf_start ob).
Proof.
  intros (_ & Hl & _ & Hu) Hm. unfold kept. destruct (Nat.ltb_spec 0 m); [|done]. simpl.
  rewrite length_memcpy_at; [done|]. rewrite length_take, length_drop. lia.
Qed.

Lemma kept_wf ob m : ob_wf ob -> m <= in_use ob -> ob_wf (kept ob m).
Proof.
  intros Hwf Hm. pose proof (length_kept_buf ob m Hwf Hm) as Hl. destruct Hwf as (? & ? & ? & ?).
  unfold ob_wf. rewrite Hl. unfold kept. destruct (Nat.ltb_spec 0 m); simpl; repeat split; lia || done.
Qed.

Lemma empty_wf ob : ob_wf ob -> ob_wf (set_buf (buf_start ob) 0 ob).
Proof. intros (? & ? & ? & ?). repeat split; simpl; lia || done. Qed.

(** The parts of the struct no flush and no write changes. *)
Definition same_frame (ob ob' : hpcio_outbuf_t) : Prop :=
  magic ob' = magic ob /\ buf_size ob' = buf_size ob /\ ob_fd ob' = ob_fd ob /\
  ob_flags ob' = ob_flags ob /\ use_lock ob' = use_lock ob /\ ob_lock ob' = ob_lock ob.

#[export] Instance same_frame_refl : Reflexive same_frame.
Proof. by intros ?. Qed.
#[export] Instance same_frame_trans : Transitive same_frame.
Proof. unfold same_frame. intros x y z; intuition congruence. Qed.

Lemma set_buf_frame b n ob : same_frame ob (set_buf b n ob).
Proof. done. Qed.

Lemma kept_frame ob m : same_frame ob (kept ob m).
Proof. unfold kept. by destruct (0 <? m). Qed.

#[export] Hint Resolve kept_wf empty_wf set_buf_frame kept_frame sent_refl : t4j.

(** A flush keeps the buffer well formed; from a reliable kernel it empties it. *)
Lemma flush_buffer_inv ob k :
  ob_wf ob ->
  exists st ob' k', outbuf_flush_buffer ob k = Some (st, ob', k') /\
    ob_wf ob' /\ same_frame ob ob' /\ (exists bs, sent k bs k') /\
    (reliable k -> st = HPCFMT_OK /\ in_use ob' = 0 /\ stream ob' k' = stream ob k).
Proof.
  intros Hwf. destruct (flush_buffer_spec ob k Hwf) as (st & m & k' & Hm & Hs & E & Hst & Hr).
  do 3 eexists. split; [exact E|]. split_and!.
  - destruct (decide _); eauto with t4j.
  - destruct (decide _); eauto with t4j.
  - eauto.
  - intros Hk. specialize (Hr Hk). destruct Hst as [[_ ->]|[-> _]]; [|done].
    rewrite decide_True by done. split_and!; [done..|].
    unfold stream. destruct Hs as [-> _]. rewrite pending_set_buf, take_0, app_nil_r.
    rewrite take_ge; [done|]. by rewrite length_pending.
Qed.

(** Copying [d] behind the bytes in use. *)
Lemma put_wf ob d :
  ob_wf ob -> in_use ob + length d <= buf_size ob ->
  let ob' := set_buf (memcpy_at (buf_start ob) (in_use ob) d) (in_use ob + length d) ob in
  ob_wf ob' /\ pending ob' = pending ob ++ d.
Proof.
  intros (Hm & Hl & Hp & Hu) Hd. simpl. split.
  - repeat split; simpl; try lia. rewrite length_memcpy_at; lia.
  - rewrite pending_set_buf, take_memcpy_at by lia. done.
Qed.

Lemma write_loop_spec fuel ob data done_ k :
  ob_wf ob -> done_ <= length data -> length data - done_ <= fuel ->
  exists n ob' k', write_loop fuel ob data done_ k = Some (n, ob', k') /\
    done_ <= n <= length data /\ ob_wf ob' /\ same_frame ob ob' /\ (exists bs, sent k bs k') /\
    (n < length data -> in_use ob' = buf_size ob') /\
    (reliable k -> n = length data /\
       stream ob' k' = stream ob k ++ drop done_ data).
Proof.
  revert ob done_ k; induction fuel as [|fuel IH]; intros ob d k Hwf Hd Hf;
  cbn [write_loop]; (destruct (Nat.ltb_spec d (length data)) as [Hlt|Hge]; [try lia|]).
  1,3: exists d, ob, k; split_and!; try done || lia; [by exists []; apply sent_refl|];
       intros _; split; [lia|]; by rewrite drop_ge, app_nil_r by lia.
  assert (exists full ob1 k1,
    (if buf_size ob - in_use ob <? length data
     then r ← outbuf_flush_buffer ob k; let '(_, ob', k') := r in Some (in_use ob' =? buf_size ob', ob', k')
     else Some (false, ob, k)) = Some (full, ob1, k1) /\
    ob_wf ob1 /\ same_frame ob ob1 /\ (exists bs, sent k bs k1) /\
    (if full : bool then in_use ob1 = buf_size ob1 else in_use ob1 < buf_size ob1) /\
    (reliable k -> full = false /\ stream ob1 k1 = stream ob k)) as
    (full & ob1 & k1 & -> & Hwf1 & Hfr & [bs Hs] & Hfull & Hr).
  { pose proof Hwf as (_ & _ & Hpos & Hu). destruct (Nat.ltb_spec (buf_size ob - in_use ob) (length data)).
    - destruct (flush_buffer_inv ob k Hwf) as (st & ob1 & k1 & -> & Hwf1 & Hfr & Hs & Hr).
      cbn [mbind option_bind]. do 3 eexists. split; [done|]. pose proof Hwf1 as (_ & _ & _ & Hu1).
      split_and!; try done.
      + destruct (Nat.eqb_spec (in_use ob1) (buf_size ob1)); lia.
      + intros Hk. destruct (Hr Hk) as (_ & H0 & Hst). split; [|done].
        apply Nat.eqb_neq. destruct Hwf1 as (_ & _ & ? & _). lia.
    - exists false, ob, k. split_and!; try done || lia. by exists []; apply sent_refl. }
  cbn [mbind option_bind]. destruct full.
  { exists d, ob1, k1. split_and!; try done || lia; [by exists bs|].
    intros Hk. by destruct (Hr Hk). }
  set (amt := (length data - d) `min` (buf_size ob1 - in_use ob1)).
  assert (length (take amt (drop d data)) = amt) as Hamt by (rewrite length_take, length_drop; lia).
  destruct (put_wf ob1 (take amt (drop d data)) Hwf1) as [Hwf2 Hp2]; [lia|].
  rewrite Hamt in Hwf2, Hp2.
  destruct (IH _ (d + amt) k1 Hwf2) as (n & ob' & k' & -> & Hn & Hwf' & Hfr' & [bs' Hs'] & Hful' & Hr');
    [lia..|].
  exists n, ob', k'. split_and!; try done || lia.
  - etrans; [exact Hfr|]. exact Hfr'.
  - exists (bs ++ bs'). by eapply sent_trans.
  - intros Hk. destruct (Hr Hk) as [_ Hst]. destruct Hr' as [-> Hst']; [by eapply sent_reliable|].
    split; [done|]. rewrite Hst', <- Hst. unfold stream. rewrite Hp2, <- !app_assoc.
    do 2 f_equal. by rewrite <- drop_drop, take_drop.
Qed.

Lemma acquire_free ob :
  ob_wf ob -> ob_free ob ->
  exists ob1, acquire ob = Some ob1 /\ ob_wf ob1 /\ pending ob1 = pending ob /\
    buf_size ob1 = buf_size ob /\ ob_fd ob1 = ob_fd ob /\
    (forall ob2, same_frame ob1 ob2 -> ob_free (release ob2)).
Proof.
  intros Hwf Hf. unfold acquire. destruct (use_lock ob) eqn:El.
  - rewrite Hf by done. simpl. eexists. split; [done|]. split_and!; try done.
    intros ob2 _ Hl. unfold release in *. destruct (use_lock ob2) eqn:E; [done|congruence].
  - exists ob. split_and!; try done. intros ob2 (_ & _ & _ & _ & Hl & _).
    intros Hu. exfalso. revert Hu. unfold release. rewrite Hl, El. congruence.
Qed.

Lemma release_pending ob : pending (release ob) = pending ob.
Proof. unfold release. by destruct (use_lock ob). Qed.

Lemma release_wf ob : ob_wf ob -> ob_wf (release ob).
Proof. unfold release. by destruct (use_lock ob). Qed.

Lemma release_fields ob :
  in_use (release ob) = in_use ob /\ buf_size (release ob) = buf_size ob /\
  ob_fd (release ob) = ob_fd ob /\ magic (release ob) = magic ob.
Proof. unfold release. by destruct (use_lock ob). Qed.

Lemma wf_not_bad ob : ob_wf ob -> bad_buffer ob = false.
Proof. intros [Hm _]. unfold bad_buffer. rewrite Hm. done. Qed.

Lemma outbuf_write_spec ob data k :
  ob_wf ob -> ob_free ob ->
  exists n ob' k', hpcio_outbuf_write ob data k = Some (Z.of_nat n, ob', k') /\
    n <= length data /\ ob_wf ob' /\ ob_free ob' /\ ob_fd ob' = ob_fd ob /\ (exists bs, sent k bs k') /\
    (n < length data -> in_use ob' = buf_size ob') /\
    (reliable k -> n = length data /\ stream ob' k' = stream ob k ++ data).
Proof.
  intros Hwf Hfr. unfold hpcio_outbuf_write. rewrite wf_not_bad by done.
  destruct (acquire_free ob Hwf Hfr) as (ob1 & -> & Hwf1 & Hp1 & Hsz & Hfd & Hrel).
  cbn [mbind option_bind].
  destruct (write_loop_spec (length data) ob1 data 0 k Hwf1) as
    (n & ob' & k' & -> & Hn & Hwf' & Hfrm & Hs & Hful & Hr); [lia..|].
  cbn [mbind option_bind]. exists n, (release ob'), k'.
  destruct (release_fields ob') as (Hi & Hb & Hf' & _).
  split_and!; try done || lia.
  - by apply release_wf.
  - by apply Hrel.
  - rewrite Hf'. destruct Hfrm as (_ & _ & -> & _). done.
  - intros Hk. destruct (Hr Hk) as [-> Hst]. split; [done|].
    unfold stream in *. rewrite release_pending, Hst, Hp1, drop_0. done.
Qed.

Lemma outbuf_close_reliable ob k :
  ob_wf ob -> ob_free ob -> reliable k ->
  exists ob' k', hpcio_outbuf_close ob true k = Some (HPCFMT_OK, ob', k') /\
    k_log k' = stream ob k /\ magic ob' = 0%Z /\ ob_fd ob' = (-1)%Z.
Proof.
  intros Hwf Hfr Hk. unfold hpcio_outbuf_close. rewrite wf_not_bad by done.
  destruct (acquire_free ob Hwf Hfr) as (ob1 & -> & Hwf1 & Hp1 & _).
  cbn [mbind option_bind].
  destruct (flush_buffer_inv ob1 k Hwf1) as (st & ob2 & k' & -> & _ & _ & _ & Hr).
  destruct (Hr Hk) as (-> & H0 & Hst). cbn [mbind option_bind]. simpl.
  do 2 eexists. split; [done|]. unfold release. simpl. split_and!; [|by destruct (use_lock ob2)..].
  unfold stream in Hst. unfold pending at 1 in Hst. rewrite H0, take_0, app_nil_r, Hp1 in Hst. done.
Qed.

(** ** The interface a client of the buffer sees

    An output sink takes a part of each block it is given, at least one byte, and
    appends what it takes to its stream. *)
Class ByteSink (S : Type) := {
  sink_ok : S -> Prop;
  sink_stream : S -> list byte;
  sink_write : S -> list byte -> option (Z * S);
  sink_close : S -> option (fmt_status * S);
  sink_write_ok : forall s data, sink_ok s ->
    exists n s', sink_write s data = Some (Z.of_nat n, s') /\ n <= length data /\ sink_ok s' /\
      (data <> [] -> 0 < n) /\ sink_stream s' = sink_stream s ++ take n data;
  sink_close_ok : forall s, sink_ok s ->
    exists s', sink_close s = Some (HPCFMT_OK, s') /\ sink_stream s' = sink_stream s;
}.

(** A well-formed buffer in front of a reliable kernel is such a sink. *)
Definition outbuf_ok (s : hpcio_outbuf_t * kernel) : Prop :=
  ob_wf s.1 /\ ob_free s.1 /\ reliable s.2 /\ (0 <= ob_fd s.1)%Z.
Definition outbuf_stream (s : hpcio_outbuf_t * kernel) : list byte :=
  if bad_buffer s.1 then k_log s.2 else stream s.1 s.2.
Definition outbuf_put (s : hpcio_outbuf_t * kernel) (data : list byte)
  : option (Z * (hpcio_outbuf_t * kernel)) :=
  r ← hpcio_outbuf_write s.1 data s.2; let '(n, ob, k) := r in Some (n, (ob, k)).
Definition outbuf_end (s : hpcio_outbuf_t * kernel)
  : option (fmt_status * (hpcio_outbuf_t * kernel)) :=
  r ← hpcio_outbuf_close s.1 true s.2; let '(st, ob, k) := r in Some (st, (ob, k)).

#[export] Program Instance outbuf_sink : ByteSink (hpcio_outbuf_t * kernel) := {
  sink_ok := outbuf_ok;
  sink_stream := outbuf_stream;
  sink_write := outbuf_put;
  sink_close := outbuf_end;
}.
Next Obligation.
  intros [ob k] data (Hwf & Hf & Hk & Hfd). cbn [fst snd] in *.
  destruct (outbuf_write_spec ob data k Hwf Hf) as
    (n & ob' & k' & E & Hn & Hwf' & Hf' & Hfd' & [bs Hs] & _ & Hr).
  destruct (Hr Hk) as [-> Hst]. exists (length data), (ob', k').
  unfold outbuf_put, outbuf_ok, outbuf_stream. cbn [fst snd]. rewrite E. cbn [mbind option_bind].
  rewrite !wf_not_bad, take_ge by done.
  split_and!; try done; [by eapply sent_reliable|by rewrite Hfd'|]. destruct data; simpl; [done|lia].
Qed.
Next Obligation.
  intros [ob k] (Hwf & Hf & Hk & _). cbn [fst snd] in *.
  destruct (outbuf_close_reliable ob k Hwf Hf Hk) as (ob' & k' & E & Hl & Hm & _).
  exists (ob', k'). unfold outbuf_end, outbuf_stream. cbn [fst snd]. rewrite E. split; [done|].
  rewrite (wf_not_bad ob) by done. unfold bad_buffer. rewrite Hm. done.
Qed.

(** A sequence of writes to a sink: how much of each was taken. *)
Fixpoint sink_writes {S} `{ByteSink S} (s : S) (l : list (list byte)) : option (list Z * S) :=
  match l with
  | [] => Some ([], s)
  | d :: l' =>
      r ← sink_write s d; let '(n, s1) := r in
      r' ← sink_writes s1 l'; let '(ns, s2) := r' in Some (n :: ns, s2)
  end.

Lemma outbuf_writes_all l s :
  outbuf_ok s ->
  exists s', sink_writes s l = Some ((fun d => Z.of_nat (length d)) <$> l, s') /\ outbuf_ok s' /\
    outbuf_stream s' = outbuf_stream s ++ concat l.
Proof.
  revert s; induction l as [|d l IH]; intros s Hs; cbn [sink_writes].
  - exists s. by rewrite app_nil_r.
  - destruct s as [ob k]. pose proof Hs as (Hwf & Hf & Hk & Hfd). cbn [fst snd] in *.
    destruct (outbuf_write_spec ob d k Hwf Hf) as
      (n & ob' & k' & E & Hn & Hwf' & Hf' & Hfd' & [bs Hsent] & _ & Hr).
    destruct (Hr Hk) as [-> Hst]. cbn [sink_write outbuf_sink]. unfold outbuf_put. cbn [fst snd].
    rewrite E. cbn [mbind option_bind].
    destruct (IH (ob', k')) as (s' & -> & Hok & Hst'); [by split_and!; cbn [fst snd]; [| |eapply sent_reliable|lia]|].
    cbn [mbind option_bind]. exists s'. split_and!; [done..|]. rewrite Hst'.
    unfold outbuf_stream. cbn [fst snd]. rewrite !wf_not_bad by done. rewrite Hst. simpl.
    by rewrite app_assoc.
Qed.

(** ** Properties *)

(** Nothing is lost and nothing is reordered: over a kernel that neither
    fails nor is interrupted (its writes may be partial), after attaching a
    buffer of any positive size, with or without its lock, every write reports all of its bytes,
    whatever their sizes, and after the close the file holds the concatenation
    of all the data; the buffer is then detached and refuses more. *)
Theorem hpcio_outbuf_session (junk : hpcio_outbuf_t) (fd : Z) (b : list byte) (flags : Z)
    (l : list (list byte)) (k : kernel) :
  (0 <= fd)%Z -> 0 < length b -> reliable k -> k_log k = [] ->
  exists ob, hpcio_outbuf_attach (Some junk) fd (Some b) (length b) flags = (HPCFMT_OK, Some ob) /\
  exists ob1 k1, sink_writes (ob, k) l = Some ((fun d => Z.of_nat (length d)) <$> l, (ob1, k1)) /\
  exists ob2 k2, hpcio_outbuf_close ob1 true k1 = Some (HPCFMT_OK, ob2, k2) /\
    k_log k2 = concat l /\
    forall d k3, hpcio_outbuf_write ob2 d k3 = Some ((-1)%Z, ob2, k3).
Proof.
  intros Hfd Hb Hk Hl. eexists. split.
  { unfold hpcio_outbuf_attach.
    rewrite (proj2 (Z.ltb_ge fd 0)), (proj2 (Nat.eqb_neq (length b) 0)) by lia. done. }
  match goal with |- context [sink_writes (?o, k) l] => set (ob := o) end.
  assert (ob_wf ob) as Hwf by (repeat split; simpl; lia).
  destruct (outbuf_writes_all l (ob, k)) as ([ob1 k1] & -> & (Hwf1 & Hf1 & Hk1 & _) & Hst).
  { by split_and!. }
  do 2 eexists. split; [done|]. cbn [fst snd] in *.
  destruct (outbuf_close_reliable ob1 k1 Hwf1 Hf1 Hk1) as (ob2 & k2 & -> & Hlog & Hm & _).
  do 2 eexists. split; [done|]. split.
  - rewrite Hlog. revert Hst. unfold outbuf_stream. cbn [fst snd]. rewrite !wf_not_bad by done.
    intros ->. unfold stream, pending. simpl. by rewrite Hl.
  - intros d k3. unfold hpcio_outbuf_write, bad_buffer. by rewrite Hm.
Qed.

Lemma hpcio_outbuf_session_witness :
  let junk := mkOutbuf 0 [] 0 0 0 0 false 0 in
  let k := mkKernel [Wrote 1; Wrote 2] [] in
  exists ob, hpcio_outbuf_attach (Some junk) 3 (Some (replicate 2 NUL)) 2 1 = (HPCFMT_OK, Some ob) /\
  exists ob1 k1, sink_writes (ob, k) [[Init.Byte.x01]; [Init.Byte.x02; Init.Byte.x03]; []]
    = Some ([1; 2; 0]%Z, (ob1, k1)).
Proof.
  destruct (hpcio_outbuf_session (mkOutbuf 0 [] 0 0 0 0 false 0) 3 (replicate 2 NUL) 1
    [[Init.Byte.x01]; [Init.Byte.x02; Init.Byte.x03]; []] (mkKernel [Wrote 1; Wrote 2] []))
    as (ob & E & ob1 & k1 & E1 & _).
  - lia.
  - simpl. lia.
  - unfold reliable. simpl. rewrite !Forall_cons, Forall_nil. simpl. lia.
  - done.
  - exists ob. split; [exact E|]. exists ob1, k1. exact E1.
Defined.

(** A write terminates and stays inside the buffer whatever the kernel
    answers: it returns the number of bytes it took, fewer than it was given only
    when it leaves the buffer full; the block keeps its length, the bytes in use
    stay within it, the lock is released, and the file only grows. *)
Theorem hpcio_outbuf_write_total (ob : hpcio_outbuf_t) (data : list byte) (k : kernel) :
  ob_wf ob -> ob_free ob ->
  exists n ob' k', hpcio_outbuf_write ob data k = Some (Z.of_nat n, ob', k') /\
    n <= length data /\ (n < length data -> in_use ob' = buf_size ob') /\
    ob_wf ob' /\ ob_free ob' /\ ob_fd ob' = ob_fd ob /\
    exists bs, k_log k' = k_log k ++ bs.
Proof.
  intros Hwf Hf. destruct (outbuf_write_spec ob data k Hwf Hf) as
    (n & ob' & k' & E & Hn & Hwf' & Hf' & Hfd & [bs [Hs _]] & Hful & _).
  exists n, ob', k'. split_and!; eauto.
Qed.

Lemma hpcio_outbuf_write_total_witness :
  let ob := mkOutbuf HPCIO_OUTBUF_MAGIC [NUL; NUL] 2 2 3 2 false (-1) in
  let k := mkKernel [Failed] [] in
  (exists n ob' k', hpcio_outbuf_write ob [Init.Byte.x01] k = Some (Z.of_nat n, ob', k') /\ n <= 1) /\
  hpcio_outbuf_write ob [Init.Byte.x01] k = Some (0%Z, ob, mkKernel [] []).
Proof.
  split; [|reflexivity].
  destruct (hpcio_outbuf_write_total (mkOutbuf HPCIO_OUTBUF_MAGIC [NUL; NUL] 2 2 3 2 false (-1))
    [Init.Byte.x01] (mkKernel [Failed] [])) as (n & ob' & k' & E & Hn & _).
  - repeat split; simpl; lia.
  - done.
  - exists n, ob', k'. split; [exact E|exact Hn].
Defined.

(** A flush the kernel cuts short after [m] of the bytes in use keeps [m] bytes
    instead of the bytes not yet written: the byte stream survives only when
    nothing or exactly half was written.  Otherwise bytes are lost (less
    than half written) or stale bytes are appended (more than half). *)
Theorem outbuf_flush_partial (ob : hpcio_outbuf_t) (m : nat) (s : list wresp) (log : list byte) :
  ob_wf ob -> 0 < m < in_use ob ->
  exists ob' k', outbuf_flush_buffer ob (mkKernel (Wrote m :: Failed :: s) log)
      = Some (HPCFMT_ERR, ob', k') /\
    k_log k' = log ++ take m (pending ob) /\
    in_use ob' = m /\
    (2 * m <= in_use ob -> pending ob' = take m (drop m (pending ob))) /\
    (in_use ob <= 2 * m ->
       pending ob' = drop m (pending ob) ++ drop (in_use ob - m) (take m (pending ob))).
Proof.
  intros Hwf Hm. pose proof (length_pending ob Hwf) as Hp. destruct Hwf as (_ & Hl & _ & Hu).
  assert (take (in_use ob) (buf_start ob) = pending ob) as Ht by done.
  unfold outbuf_flush_buffer. cbn [k_script length flush_loop].
  rewrite (proj2 (Nat.ltb_lt 0 (in_use ob))), Nat.sub_0_r, drop_0, Ht by lia.
  unfold sys_write at 1. cbn [k_script k_log]. rewrite Hp.
  replace (m `min` in_use ob) with m by lia.
  rewrite (proj2 (Z.ltb_lt 0 (Z.of_nat m))), Nat2Z.id by lia. rewrite orb_true_l, Nat.add_0_l.
  cbn [flush_loop]. rewrite (proj2 (Nat.ltb_lt m (in_use ob))) by lia.
  unfold sys_write. cbn [k_script k_log]. simpl orb. cbn [mbind option_bind].
  rewrite (proj2 (Nat.ltb_lt 0 m)) by lia.
  do 2 eexists. split; [done|]. cbn [k_log in_use]. split_and!; try done.
  all: rewrite pending_set_buf; unfold memcpy_at; rewrite take_0, app_nil_l, Nat.add_0_l.
  all: assert (take (in_use ob - m) (drop m (buf_start ob)) = drop m (pending ob)) as ->
    by (unfold pending; by rewrite skipn_firstn_comm).
  - intros H. rewrite take_app_le by (rewrite length_drop; lia). done.
  - intros H. rewrite take_app_ge by (rewrite length_drop; lia). f_equal.
    rewrite length_drop, Hp. unfold pending. rewrite take_take.
    replace (m `min` in_use ob) with m by lia. by rewrite skipn_firstn_comm.
Qed.

Lemma outbuf_flush_partial_witness :
  let ob := mkOutbuf HPCIO_OUTBUF_MAGIC [Init.Byte.x01; Init.Byte.x02; Init.Byte.x03] 3 3 3 2 false (-1) in
  exists ob' k', outbuf_flush_buffer ob (mkKernel [Wrote 1; Failed] []) = Some (HPCFMT_ERR, ob', k') /\
    k_log k' = [Init.Byte.x01] /\ pending ob' = [Init.Byte.x02].
Proof.
  destruct (outbuf_flush_partial
    (mkOutbuf HPCIO_OUTBUF_MAGIC [Init.Byte.x01; Init.Byte.x02; Init.Byte.x03] 3 3 3 2 false (-1)) 1 [] [])
    as (ob' & k' & E & Hl & _ & Hp & _).
  - repeat split; simpl; lia.
  - simpl. lia.
  - exists ob', k'. split; [exact E|]. split; [exact Hl|]. apply Hp. simpl. lia.
Defined.
