(* ===== verification/OutputFile.v ===== *)
(** * Output files of the profiler

    Models the class [OUTPUT] of [src/src/profiler/io.cpp] and [io.h]: a named file
    behind an [hpcio] output buffer of 1024 bytes, created on the first write
    under a name nobody uses.

    The formatted output of a [writef] call, what its format and arguments denote,
    is its argument here; the two calls of [vsnprintf] cut it to their buffers.
    [EXC] is the outcome of a failed assertion; [None] is a call that does not
    come back: the loop of [writeb] has used up its [fuel], or the lock is held. *)
From stdpp Require Import base numbers list gmap strings.
From Stdlib Require Import ZArith Lia.
From S2P Require Import Prelude LibC Locks HpcFmt OutBuf.
Local Open Scope Z_scope.

Definition PRINT_BUFFER_SIZE : nat := 1024.
Definition NAME_BUFFER_SIZE : Z := 256.
Definition LOCAL_BUFFER_SIZE : Z := 2048.

(** The fields; once the block [_print_buffer] is attached, its contents are those
    of [_output_buffer].  The kernel is the one behind the descriptor. *)
Record OUTPUT := mkOUTPUT {
  o_lock : Z;
  o_print : list byte;
  o_name : string;
  o_buf : hpcio_outbuf_t;
  o_kern : kernel;
}.

Definition strlen (s : string) : Z := Z.of_nat (String.length s).

(** The loop of [_openFile]: the result, the name and the file system; [fuel]
    counts the calls of [open]. *)
Fixpoint open_loop (fuel : nat) (name : string) (fs : fsys) : option (option Z * string * fsys) :=
  match fuel with
  | O => None
  | S fuel' =>
      let '(fd, err, fs') := sys_open name (mkFlags true true false) fs in
      if fd <? 0 then
        if decide (err = EEXIST) then
          if NAME_BUFFER_SIZE - 1 <=? strlen name then Some (None, name, fs')
          else open_loop fuel' (name +:+ "f") fs'
        else Some (None, name, fs')
      else Some (Some fd, name, fs')
  end.

Definition open_fuel : nat := 256.

Definition _openFile (o : OUTPUT) (fs : fsys) : option (exc (bool * OUTPUT * fsys)) :=
  if 0 <=? ob_fd (o_buf o) then Some (RET (true, o, fs))
  else
    r ← open_loop open_fuel (o_name o) fs;
    let '(res, name, fs') := r in
    match res with
    | None => Some (RET (false, mkOUTPUT (o_lock o) (o_print o) name (o_buf o) (o_kern o), fs'))
    | Some fd =>
        let '(ret, ob) := hpcio_outbuf_attach (Some (o_buf o)) fd (Some (o_print o))
                            PRINT_BUFFER_SIZE HPCIO_OUTBUF_UNLOCKED in
        if bool_decide (ret = HPCFMT_OK)
        then Some (RET (true, mkOUTPUT (o_lock o) (o_print o) name (default (o_buf o) ob) (o_kern o), fs'))
        else Some EXC
    end.

(** [OUTPUT::OUTPUT()]: [junk] and [blk] are the uninitialised fields, [k] the
    answers of the kernel to come. *)
Definition OUTPUT_new (junk : hpcio_outbuf_t) (blk : list byte) (k : list wresp) : OUTPUT :=
  mkOUTPUT 0 blk ""
    (mkOutbuf (magic junk) (buf_start junk) (buf_size junk) (in_use junk) (-1) (ob_flags junk)
       (use_lock junk) (ob_lock junk))
    (mkKernel k []).

Definition setFileName (file_name : string) (o : OUTPUT) : bool * OUTPUT :=
  if 0 <? strlen (o_name o) then (false, o)
  else if NAME_BUFFER_SIZE - 1 <=? strlen file_name then (false, o)
  else (true, mkOUTPUT (o_lock o) (o_print o) file_name (o_buf o) (o_kern o)).

(** The constructor that takes a name. *)
Definition OUTPUT_named (file_name : string) (junk : hpcio_outbuf_t) (blk : list byte)
    (k : list wresp) : exc OUTPUT :=
  let '(ok, o) := setFileName file_name (OUTPUT_new junk blk k) in if ok then RET o else EXC.

(** [OUTPUT::~OUTPUT()]. *)
Definition OUTPUT_end (o : OUTPUT) : option OUTPUT :=
  if 0 <=? ob_fd (o_buf o) then
    r ← hpcio_outbuf_close (o_buf o) true (o_kern o);
    let '(_, ob, k) := r in Some (mkOUTPUT (o_lock o) (o_print o) (o_name o) ob k)
  else Some o.

(** The loop of [writeb], over whatever sink is behind it. *)
Fixpoint send_loop {S} `{ByteSink S} (fuel : nat) (buf : list byte) (data_size sent_size : Z) (s : S)
  : option (exc S) :=
  if sent_size <? data_size then
    match fuel with
    | O => None
    | Datatypes.S fuel' =>
        r ← sink_write s (take (Z.to_nat (data_size - sent_size)) (drop (Z.to_nat sent_size) buf));
        let '(ret, s') := r in
        let ret_size := i32 ret in
        if ret_size <? 0 then Some EXC
        else send_loop fuel' buf data_size (i32 (sent_size + ret_size)) s'
    end
  else Some (RET s).

Definition writeb (fuel : nat) (buf : list byte) (o : OUTPUT) (fs : fsys)
  : option (exc (Z * OUTPUT * fsys)) :=
  let '(w, locked) := tryLock (o_lock o) in
  if negb locked then None else
  let o := mkOUTPUT w (o_print o) (o_name o) (o_buf o) (o_kern o) in
  let unlock o := mkOUTPUT (SpinLock_unlock (o_lock o)) (o_print o) (o_name o) (o_buf o) (o_kern o) in
  r ← (if ob_fd (o_buf o) <? 0 then
         if strlen (o_name o) =? 0 then Some (RET (false, o, fs)) else _openFile o fs
       else Some (RET (true, o, fs)));
  match r with
  | EXC => Some EXC
  | RET (false, o1, fs1) => Some (RET (0, unlock o1, fs1))
  | RET (true, o1, fs1) =>
      let data_size := i32 (Z.of_nat (length (cstr buf))) in
      r ← send_loop fuel buf data_size 0 (o_buf o1, o_kern o1);
      match r with
      | EXC => Some EXC
      | RET (ob, k) =>
          Some (RET (data_size, unlock (mkOUTPUT (o_lock o1) (o_print o1) (o_name o1) ob k), fs1))
      end
  end.

(** [vsnprintf(buf, size, fmt, arg)] of a format and arguments that denote [text]:
    what it stores and what it returns. *)
Definition vsnprintf (size : Z) (text : list byte) : list byte * Z :=
  (if size <=? 0 then [] else take (Z.to_nat (size - 1)) text ++ [NUL], Z.of_nat (length text)).

(** [text] is the whole formatted output; [mem] tells whether [malloc] succeeds. *)
Definition writef (fuel : nat) (text : list byte) (mem : bool) (o : OUTPUT) (fs : fsys)
  : option (exc (Z * OUTPUT * fsys)) :=
  let '(local_buf, data_size) := vsnprintf LOCAL_BUFFER_SIZE text in
  if LOCAL_BUFFER_SIZE <=? data_size then
    if mem then
      let '(large_local_buf, _) := vsnprintf data_size text in
      writeb fuel large_local_buf o fs
    else Some EXC
  else writeb fuel local_buf o fs.

(** ** Opening *)

(** [name] followed by [n] letters f. *)
Fixpoint with_f (name : string) (n : nat) : string :=
  match n with O => name | S n' => with_f (name +:+ "f") n' end.

Lemma string_length_app s t : String.length (s +:+ t) = (String.length s + String.length t)%nat.
Proof. induction s; simpl; auto. Qed.

Lemma strlen_app_f name : strlen (name +:+ "f") = strlen name + 1.
Proof. unfold strlen. rewrite string_length_app. simpl. lia. Qed.

(** Every candidate name is one the system does not refuse. *)
Definition may_open (name : string) (fs : fsys) : Prop :=
  0 <= fs_next fs /\ forall j, with_f name j ∉ fs_denied fs.

Lemma open_loop_spec fuel name fs :
  may_open name fs -> strlen name <= 255 -> 256 - strlen name <= Z.of_nat fuel ->
  (exists j, strlen name + Z.of_nat j <= 255 /\ fs_files fs !! with_f name j = None /\
     (forall i, (i < j)%nat -> is_Some (fs_files fs !! with_f name i)) /\
     open_loop fuel name fs =
       Some (Some (fs_next fs), with_f name j, fs_fresh fs (with_f name j) [])) \/
  ((forall i, strlen name + Z.of_nat i <= 255 -> is_Some (fs_files fs !! with_f name i)) /\
   exists name', open_loop fuel name fs = Some (None, name', fs)).
Proof.
  revert name; induction fuel as [|fuel IH]; intros name [Hnx Hden] Hl Hf; [lia|].
  cbn [open_loop]. unfold sys_open. rewrite decide_False by apply (Hden O).
  destruct (fs_files fs !! name) as [c|] eqn:Ec; cbn [o_creat o_excl andb].
  - change (-1 <? 0) with true. cbn iota. rewrite decide_True by done.
    unfold NAME_BUFFER_SIZE. destruct (Z.leb_spec (256 - 1) (strlen name)).
    + right. split; [|by exists name]. intros [|i] Hi; [by simpl; rewrite Ec|lia].
    + destruct (IH (name +:+ "f")) as [(j & Hj & Hn & Hall & E)|[Hall E]];
        rewrite ?strlen_app_f in *; try lia.
      * split; [done|]. intros j. apply (Hden (S j)).
      * left. exists (S j). split_and!; [lia|done| |done].
        intros [|i] Hi; [by simpl; rewrite Ec|]. apply Hall. lia.
      * right. split; [|done]. intros [|i] Hi; [by simpl; rewrite Ec|]. apply Hall. lia.
  - rewrite (proj2 (Z.ltb_ge _ 0)) by done. left. exists O. split_and!; [lia|done|lia|done].
Qed.

(** ** Sending *)
Lemma send_loop_spec {S} `{ByteSink S} fuel buf data_size sent (s : S) :
  sink_ok s -> 0 <= sent <= data_size -> data_size < 2 ^ 31 ->
  data_size <= Z.of_nat (length buf) -> data_size - sent <= Z.of_nat fuel ->
  exists s', send_loop fuel buf data_size sent s = Some (RET s') /\ sink_ok s' /\
    sink_stream s' =
      sink_stream s ++ take (Z.to_nat (data_size - sent)) (drop (Z.to_nat sent) buf).
Proof.
  revert sent s; induction fuel as [|fuel IH]; intros sent s Hs Hsent Hlt Hbuf Hfuel;
  cbn [send_loop]; (destruct (Z.ltb_spec sent data_size); [try lia|]).
  1,3: exists s; split_and!; [done..|]; replace (data_size - sent) with 0 by lia;
       by rewrite take_0, app_nil_r.
  set (d := take (Z.to_nat (data_size - sent)) (drop (Z.to_nat sent) buf)).
  assert (length d = Z.to_nat (data_size - sent)) as Hd
    by (unfold d; rewrite length_take, length_drop; lia).
  destruct (sink_write_ok s d Hs) as (n & s' & -> & Hn & Hs' & Hpos & Hst).
  assert (0 < n)%nat by (apply Hpos; intros ->; simpl in Hd; lia).
  cbn [mbind option_bind]. unfold i32.
  rewrite (swrap_small 32 (Z.of_nat n)), (proj2 (Z.ltb_ge _ _)), swrap_small by lia.
  destruct (IH (sent + Z.of_nat n) s') as (s'' & -> & Hok & Hst''); [done|lia..|].
  exists s''. split_and!; [done..|]. rewrite Hst'', Hst, <- app_assoc. f_equal.
  replace (Z.to_nat (sent + Z.of_nat n)) with (Z.to_nat sent + n)%nat by lia.
  rewrite <- drop_drop. replace (Z.to_nat (data_size - (sent + Z.of_nat n)))
    with (Z.to_nat (data_size - sent) - n)%nat by lia.
  rewrite <- skipn_firstn_comm. apply take_drop.
Qed.

(** ** The object *)

(** An object whose file is open, and one that has a name only. *)
Definition is_open (o : OUTPUT) : Prop :=
  o_lock o = 0 /\ outbuf_ok (o_buf o, o_kern o).
Definition is_named (o : OUTPUT) (name : string) (k : list wresp) : Prop :=
  o_lock o = 0 /\ ob_fd (o_buf o) = -1 /\ length (o_print o) = PRINT_BUFFER_SIZE /\
  o_name o = name /\ o_kern o = mkKernel k [].

Definition o_stream (o : OUTPUT) : list byte := outbuf_stream (o_buf o, o_kern o).

(** A C string as its caller lays it out. *)
Definition text_ok (text : list byte) : Prop := (NUL ∉ text) /\ Z.of_nat (length text) < 2 ^ 31.

Lemma writeb_open fuel text rest o fs :
  is_open o -> text_ok text -> (length text <= fuel)%nat ->
  exists o', writeb fuel (text ++ NUL :: rest) o fs = Some (RET (Z.of_nat (length text), o', fs)) /\
    is_open o' /\ o_stream o' = o_stream o ++ text /\ o_name o' = o_name o.
Proof.
  intros (Hlk & Hok) [Hn Hlen] Hfuel. pose proof Hok as (_ & _ & _ & Hfd). cbn [fst] in Hfd. unfold writeb. rewrite Hlk.
  change (tryLock 0) with (1, true). cbn [negb o_buf o_name o_lock o_print o_kern].
  rewrite (proj2 (Z.ltb_ge _ _)) by lia. cbn [mbind option_bind o_buf o_kern].
  rewrite cstr_no_nul by done. unfold i32. rewrite swrap_small by lia.
  destruct (send_loop_spec (S := hpcio_outbuf_t * kernel) fuel (text ++ NUL :: rest)
    (Z.of_nat (length text)) 0 (o_buf o, o_kern o)) as ([ob k] & -> & Hok' & Hst); [done|lia|lia|rewrite length_app; simpl; lia|lia|].
  cbn [mbind option_bind]. eexists. split; [done|].
  rewrite Z.sub_0_r, Nat2Z.id, drop_0, take_app_length in Hst.
  by split_and!.
Qed.

(** The object after its file was created with descriptor [fd] under [name]. *)
Definition opened (o : OUTPUT) (fd : Z) (name : string) : OUTPUT :=
  mkOUTPUT (o_lock o) (o_print o) name
    (mkOutbuf HPCIO_OUTBUF_MAGIC (o_print o) PRINT_BUFFER_SIZE 0 fd HPCIO_OUTBUF_UNLOCKED
       false SPINLOCK_UNLOCKED_VALUE) (o_kern o).

Lemma opened_open o fd name nm k :
  is_named o nm k -> 0 <= fd -> Forall soft k ->
  is_open (opened o fd name) /\ o_stream (opened o fd name) = [].
Proof.
  intros (Hlk & _ & Hlen & _ & Hk) Hfd Hsoft. unfold is_open, opened, o_stream, outbuf_ok.
  cbn [o_lock o_buf o_kern fst snd]. split.
  - split; [done|]. split_and!; [|done|by rewrite Hk|done].
    repeat split; cbn; unfold PRINT_BUFFER_SIZE in *; lia || done.
  - by rewrite Hk.
Qed.

(** The first write creates the file, then it is like any other. *)
Lemma writeb_named fuel buf o fs name k :
  is_named o name k -> may_open name fs -> 0 < strlen name <= 255 ->
  (exists j, strlen name + Z.of_nat j <= 255 /\ fs_files fs !! with_f name j = None /\
     (forall i, (i < j)%nat -> is_Some (fs_files fs !! with_f name i)) /\
     writeb fuel buf o fs =
       writeb fuel buf (opened o (fs_next fs) (with_f name j)) (fs_fresh fs (with_f name j) [])) \/
  ((forall i, strlen name + Z.of_nat i <= 255 -> is_Some (fs_files fs !! with_f name i)) /\
   exists o', writeb fuel buf o fs = Some (RET (0, o', fs))).
Proof.
  intros (Hlk & Hfd & Hlen & Hnm & Hk) Hmay Hl. pose proof Hmay as [Hnx _].
  destruct (open_loop_spec open_fuel name fs Hmay) as [(j & Hj & Hn & Hall & E)|(Hall & nm' & E)];
    [lia|unfold open_fuel; lia| |].
  - left. exists j. split_and!; [done..|].
    unfold writeb. cbn [opened o_lock o_buf ob_fd]. rewrite Hlk. change (tryLock 0) with (1, true).
    cbn [negb o_buf o_name o_lock o_print o_kern ob_fd]. rewrite Hfd, Hnm.
    rewrite (proj2 (Z.eqb_neq (strlen name) 0)), (proj2 (Z.ltb_ge (fs_next fs) 0)) by lia.
    change (-1 <? 0) with true. unfold _openFile. cbn [o_buf o_name o_print o_kern o_lock].
    rewrite Hfd. change (0 <=? -1) with false. cbn iota. rewrite E.
    cbn [mbind option_bind]. unfold hpcio_outbuf_attach.
    rewrite (proj2 (Z.ltb_ge (fs_next fs) 0)) by lia. done.
  - right. split; [done|]. unfold writeb. rewrite Hlk. change (tryLock 0) with (1, true).
    cbn [negb o_buf o_name o_lock o_print o_kern ob_fd]. rewrite Hfd, Hnm.
    rewrite (proj2 (Z.eqb_neq (strlen name) 0)) by lia.
    change (-1 <? 0) with true. unfold _openFile. cbn [o_buf o_name o_print o_kern o_lock].
    rewrite Hfd. change (0 <=? -1) with false. cbn iota. rewrite E.
    cbn [mbind option_bind]. by eexists.
Qed.

(** What a caller prints, one [writef] after the other. *)
Fixpoint writefs (fuel : nat) (texts : list (list byte)) (o : OUTPUT) (fs : fsys)
  : option (exc (list Z * OUTPUT * fsys)) :=
  match texts with
  | [] => Some (RET ([], o, fs))
  | t :: ts =>
      r ← writef fuel t true o fs;
      match r with
      | EXC => Some EXC
      | RET (n, o1, fs1) =>
          r' ← writefs fuel ts o1 fs1;
          match r' with
          | EXC => Some EXC
          | RET (ns, o2, fs2) => Some (RET (n :: ns, o2, fs2))
          end
      end
  end.

(** What [writef] prints of a text: one that does not fit the local buffer loses its last
    character, because the buffer that is allocated for it has no room for the final NUL. *)
Definition printed {A} (t : list A) : list A :=
  if LOCAL_BUFFER_SIZE <=? Z.of_nat (length t) then take (length t - 1) t else t.

Lemma length_printed {A} (t : list A) : (length (printed t) <= length t)%nat.
Proof. unfold printed. destruct (_ <=? _); [rewrite length_take|]; lia. Qed.

Lemma printed_ok t : text_ok t -> text_ok (printed t).
Proof.
  intros [Hn Hl]. split; [|pose proof (length_printed t); lia]. unfold printed. destruct (_ <=? _); [|done].
  intros (i & Hi & _)%elem_of_take. apply Hn. by eapply list_elem_of_lookup_2.
Qed.

Lemma writef_writeb fuel t o fs : writef fuel t true o fs = writeb fuel (printed t ++ [NUL]) o fs.
Proof.
  unfold writef, printed, vsnprintf, LOCAL_BUFFER_SIZE. cbn.
  destruct (Z.leb_spec 2048 (Z.of_nat (length t))).
  - rewrite (proj2 (Z.leb_gt _ 0)) by lia. by replace (Z.to_nat (Z.of_nat (length t) - 1)) with (length t - 1)%nat by lia.
  - by rewrite take_ge by lia.
Qed.

Lemma writefs_open fuel texts o fs :
  is_open o -> Forall text_ok texts -> Forall (fun t => (length t <= fuel)%nat) texts ->
  exists o', writefs fuel texts o fs =
      Some (RET ((fun t => Z.of_nat (length (printed t))) <$> texts, o', fs)) /\
    is_open o' /\ o_stream o' = o_stream o ++ concat (printed <$> texts) /\ o_name o' = o_name o.
Proof.
  intros Ho Hts. revert o Ho; induction Hts as [|t ts Ht Hts IH]; intros o Ho Hf; cbn [writefs].
  - exists o. by rewrite app_nil_r.
  - apply Forall_cons in Hf as [Hft Hf]. rewrite writef_writeb. pose proof (length_printed t).
    destruct (writeb_open fuel (printed t) [] o fs) as (o1 & -> & Ho1 & Hs1 & Hn1); [done|by apply printed_ok|lia|].
    cbn [mbind option_bind]. destruct (IH o1 Ho1 Hf) as (o2 & -> & Ho2 & Hs2 & Hn2).
    cbn [mbind option_bind]. exists o2. split_and!; [done..| |congruence].
    rewrite Hs2, Hs1. simpl. by rewrite app_assoc.
Qed.

(** ** Properties *)

(** C35: A run of the profiler's output object: given a name of at most 254
    characters and a kernel that may write partially but does not fail, printing texts of any
    length and destroying the object leaves the concatenation of what is printed of them in one new file, and
    returns its lengths: the texts themselves, except that one of 2048 characters or more loses its
    last character. The file's name is the first of [name], [name]f, [name]ff, ... that nobody
    uses; the files that were there keep their contents. (There is memory for the long texts.) *)
Theorem OUTPUT_session (name : string) (junk : hpcio_outbuf_t) (blk : list byte) (k : list wresp)
    (text : list byte) (texts : list (list byte)) (fuel : nat) (fs : fsys) (j0 : nat) :
  0 < strlen name < 255 -> length blk = PRINT_BUFFER_SIZE -> Forall soft k ->
  may_open name fs -> Forall text_ok (text :: texts) -> Forall (fun t => (length t <= fuel)%nat) (text :: texts) ->
  strlen name + Z.of_nat j0 <= 255 -> fs_files fs !! with_f name j0 = None ->
  exists o, OUTPUT_named name junk blk k = RET o /\
  exists o1 fs1, writefs fuel (text :: texts) o fs =
      Some (RET ((fun t => Z.of_nat (length (printed t))) <$> (text :: texts), o1, fs1)) /\
  exists o2, OUTPUT_end o1 = Some o2 /\ k_log (o_kern o2) = concat (printed <$> text :: texts) /\
  exists j, (j <= j0)%nat /\ o_name o2 = with_f name j /\
    fs_files fs !! with_f name j = None /\
    (forall i, (i < j)%nat -> is_Some (fs_files fs !! with_f name i)) /\
    forall f, f <> with_f name j -> fs_files fs1 !! f = fs_files fs !! f.
Proof.
  intros Hl Hblk Hk Hmay Hts Hfuel Hj0 Hfree. unfold OUTPUT_named, setFileName. simpl.
  unfold NAME_BUFFER_SIZE. rewrite (proj2 (Z.leb_gt _ _)) by lia. eexists. split; [done|].
  match goal with |- context [writef fuel text true ?x fs] => set (o := x) end.
  assert (is_named o name k) as Hnamed by (by split_and!).
  destruct (writeb_named fuel (printed text ++ [NUL]) o fs name k Hnamed Hmay) as
    [(j & Hj & Hn & Hall & E)|[Hall _]]; [lia| |].
  2:{ destruct (Hall j0) as [? Hx]; [done|]. congruence. }
  assert (j <= j0)%nat as Hjj.
  { destruct (le_gt_dec j j0); [done|]. destruct (Hall j0) as [? Hx]; [lia|]. congruence. }
  destruct (opened_open o (fs_next fs) (with_f name j) name k) as [Hop Hst]; [done|apply Hmay|done|].
  pose proof (writefs_open fuel (text :: texts) _ (fs_fresh fs (with_f name j) []) Hop Hts Hfuel)
    as (o' & E' & Ho' & Hs' & Hn').
  exists o', (fs_fresh fs (with_f name j) []). split.
  { etrans; [|exact E']. cbn [writefs]. by rewrite !writef_writeb, E. }
  destruct Ho' as (_ & Hwf & Hfr & Hrel & Hfd). cbn [fst snd] in *.
  destruct (outbuf_close_reliable (o_buf o') (o_kern o') Hwf Hfr Hrel) as (ob2 & k2 & E2 & Hlog & _).
  unfold OUTPUT_end. rewrite (proj2 (Z.leb_le 0 _)), E2 by done. eexists. split; [done|].
  cbn [o_kern o_name]. split.
  { rewrite Hlog. rewrite Hst in Hs'. unfold o_stream, outbuf_stream in Hs'. cbn [fst snd] in Hs'.
    by rewrite wf_not_bad in Hs'. }
  exists j. split_and!; [done..|]. intros f Hf. simpl. by rewrite lookup_insert_ne.
Qed.

(** A short text and a long one. *)
Lemma OUTPUT_session_witness :
  let fs := mkFS {["a" := []]} ∅ ∅ 3 in
  exists o, OUTPUT_named "a" (mkOutbuf 0 [] 0 0 0 0 false 0) (replicate 1024 NUL) [Wrote 1] = RET o /\
  exists o1 fs1, writefs 3000 [[Init.Byte.x41]; replicate 2500 Init.Byte.x42] o fs
    = Some (RET ([1; 2499], o1, fs1)).
Proof.
  destruct (OUTPUT_session "a" (mkOutbuf 0 [] 0 0 0 0 false 0) (replicate 1024 NUL) [Wrote 1]
    [Init.Byte.x41] [replicate 2500 Init.Byte.x42] 3000 (mkFS {["a" := []]} ∅ ∅ 3) 1) as
    (o & E & o1 & fs1 & E1 & _).
  - vm_compute. done.
  - reflexivity.
  - repeat constructor.
  - split; [done|]. intros j. apply not_elem_of_empty.
  - repeat constructor; apply (bool_decide_unpack _); vm_compute; done.
  - repeat first [apply Forall_nil_2|apply Forall_cons_2]; apply Nat.leb_le; vm_compute; reflexivity.
  - vm_compute. done.
  - reflexivity.
  - exists o. split; [exact E|]. exists o1, fs1. exact E1.
Defined.

(** A text of 2048 characters or more loses its last character: [writef]
    allocates and formats into [data_size] bytes, of which the final NUL takes
    one, so that it prints and counts one character less than the text. *)
Theorem writef_drops_last (fuel : nat) (text : list byte) (o : OUTPUT) (fs : fsys) :
  is_open o -> (NUL ∉ text) -> 2048 <= Z.of_nat (length text) < 2 ^ 31 ->
  (length text <= fuel)%nat ->
  exists o', writef fuel text true o fs = Some (RET (Z.of_nat (length text) - 1, o', fs)) /\
    o_stream o' = o_stream o ++ take (length text - 1) text.
Proof.
  intros Ho Hn Hl Hf. rewrite writef_writeb. pose proof (length_printed text).
  destruct (writeb_open fuel (printed text) [] o fs) as (o' & -> & _ & Hs & _); [done|apply printed_ok; split; [done|lia]|lia|].
  exists o'. rewrite Hs. unfold printed, LOCAL_BUFFER_SIZE. rewrite (proj2 (Z.leb_le _ _)) by lia.
  split; [|done]. rewrite length_take. do 4 f_equal. lia.
Qed.

Lemma writef_drops_last_witness :
  let o := opened (OUTPUT_new (mkOutbuf 0 [] 0 0 0 0 false 0) (replicate 1024 NUL) []) 3 "a" in
  exists o', writef 2048 (replicate 2048 Init.Byte.x41) true o (mkFS ∅ ∅ ∅ 4)
    = Some (RET (2047, o', mkFS ∅ ∅ ∅ 4)).
Proof.
  destruct (writef_drops_last 2048 (replicate 2048 Init.Byte.x41)
    (opened (OUTPUT_new (mkOutbuf 0 [] 0 0 0 0 false 0) (replicate 1024 NUL) []) 3 "a")
    (mkFS ∅ ∅ ∅ 4)) as (o' & E & _).
  - split; [done|]. split_and!; cbn; try done; [|constructor].
    repeat split; cbn; unfold PRINT_BUFFER_SIZE; lia.
  - apply (bool_decide_unpack _). vm_compute. exact I.
  - vm_compute. split; congruence.
  - apply Nat.leb_le. reflexivity.
  - exists o'. exact E.
Defined.

(** [writeb] does not give up when the disk does: with a full buffer and a
    kernel that keeps failing, its loop has not come back after as many turns as
    there are failures, however many. *)
Theorem writeb_spins (n : nat) (ob : hpcio_outbuf_t) (s : list wresp) (log : list byte)
    (buf : list byte) (data_size : Z) :
  ob_wf ob -> use_lock ob = false -> in_use ob = buf_size ob ->
  0 < data_size <= Z.of_nat (length buf) ->
  send_loop n buf data_size 0 (ob, mkKernel (replicate n Failed ++ s) log) = None.
Proof.
  intros Hwf Hlk Hful Hd. induction n as [|n IH]; cbn [send_loop];
  rewrite (proj2 (Z.ltb_lt 0 data_size)) by lia; [done|].
  cbn [sink_write outbuf_sink]. unfold outbuf_put, hpcio_outbuf_write. cbn [fst snd].
  rewrite wf_not_bad by done. unfold acquire. rewrite Hlk. cbn [mbind option_bind].
  set (d := take (Z.to_nat (data_size - 0)) (drop (Z.to_nat 0) buf)).
  assert (length d = Z.to_nat data_size) as Hlen.
  { unfold d. rewrite length_take, length_drop. lia. }
  destruct Hwf as (Hm & Hbl & Hpos & _). rewrite Hlen.
  replace (Z.to_nat data_size) with (S (Z.to_nat data_size - 1)) by lia.
  cbn [write_loop]. rewrite Hlen, (proj2 (Nat.ltb_lt 0 (Z.to_nat data_size))) by lia.
  rewrite Hful, Nat.sub_diag, (proj2 (Nat.ltb_lt 0 (Z.to_nat data_size))) by lia.
  unfold outbuf_flush_buffer. cbn [k_script length replicate app flush_loop].
  rewrite (proj2 (Nat.ltb_lt 0 (in_use ob))) by lia.
  unfold sys_write. cbn [k_script k_log replicate app]. simpl orb. cbn [mbind option_bind].
  rewrite Nat.ltb_irrefl, Hful, Nat.eqb_refl. cbn [mbind option_bind]. change (i32 (Z.of_nat 0)) with 0.
  unfold release. rewrite Hlk. exact IH.
Qed.

Lemma writeb_spins_witness :
  send_loop 3 [Init.Byte.x41] 1 0
    (mkOutbuf HPCIO_OUTBUF_MAGIC [NUL; NUL] 2 2 3 2 false (-1), mkKernel (replicate 3 Failed) []) = None.
Proof.
  apply (writeb_spins 3 (mkOutbuf HPCIO_OUTBUF_MAGIC [NUL; NUL] 2 2 3 2 false (-1)) [] []); [|done|done|].
  - repeat split; simpl; lia.
  - simpl. lia.
Defined.
