(* ===== verification/RingBuffer.v ===== *)
(** * The sample ring buffer

    Models the reader of the kernel's [perf_event] ring in
    [src/src/perf/perf_mmap.cpp] and in
    [src/thirdparty/watchpoint-lib/src/watchpoint_mmap.c] ([ReadMmapBuffer],
    [ConsumeAllRingBufferData]), and shows that it implements a queue of
    bytes: [unread] is the abstraction, the kernel enqueues ([produce]) and the
    readers dequeue.

    The two positions are 64-bit; the data page is a list of bytes whose length is a power
    of two; an assertion that fails is [EXC]. *)
From stdpp Require Import base numbers list gmap.
From Stdlib Require Import ZArith Lia.
From S2P Require Import Prelude.
Local Open Scope Z_scope.

Record perf_mmap_t := mkMmap { data_head : Z; data_tail : Z; mm_data : list byte }.

Definition set_tail (t : Z) (m : perf_mmap_t) : perf_mmap_t := mkMmap (data_head m) t (mm_data m).

(** [PERF_BUFFER_PAGES * page_size]: one page. *)
Definition page_size (m : perf_mmap_t) : Z := Z.of_nat (length (mm_data m)).
Definition page_mask (m : perf_mmap_t) : Z := page_size m - 1.

(** ** Reading *)

(** The copy both readers make of [n] bytes at the tail, in two parts when it
    reaches the end of the page. *)
Definition copy_out (m : perf_mmap_t) (n : Z) : list byte :=
  let tail := Z.land (data_tail m) (page_mask m) in
  let bytes_at_right := page_mask m + 1 - tail in
  let right := if bytes_at_right <? n then bytes_at_right else n in
  take (Z.to_nat right) (drop (Z.to_nat tail) (mm_data m)) ++
  (if right <? n then take (Z.to_nat (n - right)) (mm_data m) else []).

(** 0 with the bytes read, -1 without a buffer, 1 when there are too few. *)
Definition perf_read_buffer_nbytes (mmap_buf : option perf_mmap_t) (n : Z)
  : Z * list byte * option perf_mmap_t :=
  match mmap_buf with
  | None => (-1, [], None)
  | Some m =>
      let bytes_available := u64 (data_head m - data_tail m) in
      if bytes_available <? n then (1, [], mmap_buf)
      else (0, copy_out m n, Some (set_tail (u64 (data_tail m + n)) m))
  end.

Definition perf_skip_buffer_nbytes (m : perf_mmap_t) (n : Z) : perf_mmap_t :=
  let n := if data_head m <? u64 (data_tail m + n) then u64 (data_head m - data_tail m) else n in
  set_tail (u64 (data_tail m + n)) m.

(** The result is an [int]. *)
Definition perf_num_of_remaining_data (m : perf_mmap_t) : Z := i32 (u64 (data_head m - data_tail m)).

Definition perf_skip_all (mmap_buf : option perf_mmap_t) : bool * option perf_mmap_t :=
  match mmap_buf with
  | None => (false, None)
  | Some m =>
      let remains := perf_num_of_remaining_data m in
      (true, Some (if 0 <? remains then perf_skip_buffer_nbytes m remains else m))
  end.

(** ** The same ring in the watchpoint library *)
Definition ReadMmapBuffer (m : perf_mmap_t) (sz : Z) : Z * list byte * perf_mmap_t :=
  let avail_sz := u64 (data_head m - data_tail m) in
  if avail_sz <? sz then (-1, [], m)
  else (0, copy_out m sz, set_tail (u64 (data_tail m + sz)) m).

Definition ConsumeAllRingBufferData (m : perf_mmap_t) : perf_mmap_t := set_tail (data_head m) m.

(** ** Abstraction: the bytes not yet read, oldest first *)
Definition avail (m : perf_mmap_t) : nat := Z.to_nat (data_head m - data_tail m).

Definition slot (m : perf_mmap_t) (pos : Z) : nat := Z.to_nat (pos mod page_size m).

Definition unread (m : perf_mmap_t) : list byte :=
  (fun i : nat => default Init.Byte.x00 (mm_data m !! slot m (data_tail m + Z.of_nat i)))
    <$> seq 0 (avail m).

(** The positions never wrap, as the kernel's documentation says, and what is
    unread fits the page. *)
Definition ring_ok (m : perf_mmap_t) : Prop :=
  (exists k, 0 <= k < 31 /\ page_size m = 2 ^ k) /\
  0 <= data_tail m <= data_head m /\ data_head m < 2 ^ 63 /\
  data_head m - data_tail m <= page_size m.

(** The kernel's side: it stores new bytes behind the head, when they fit, and
    moves the head. *)
Fixpoint put_bytes (m : perf_mmap_t) (bs : list byte) : perf_mmap_t :=
  match bs with
  | [] => m
  | b :: r =>
      put_bytes (mkMmap (data_head m + 1) (data_tail m) (<[slot m (data_head m) := b]> (mm_data m))) r
  end.

Definition produce (m : perf_mmap_t) (bs : list byte) : option perf_mmap_t :=
  if (data_head m - data_tail m + Z.of_nat (length bs) <=? page_size m) &&
     (data_head m + Z.of_nat (length bs) <? 2 ^ 63)
  then Some (put_bytes m bs) else None.

(** ** Lemmas *)
Lemma page_size_pos m : ring_ok m -> 0 < page_size m.
Proof. intros [(k & Hk & ->) _]. apply Z.pow_pos_nonneg; lia. Qed.

Lemma slot_lt m pos : ring_ok m -> (slot m pos < length (mm_data m))%nat.
Proof.
  intros Hm. pose proof (page_size_pos m Hm). unfold slot.
  pose proof (Z.mod_pos_bound pos (page_size m)). unfold page_size in *. lia.
Qed.

Lemma tail_slot m : ring_ok m -> Z.land (data_tail m) (page_mask m) = data_tail m mod page_size m.
Proof.
  intros [(k & Hk & E) _]. unfold page_mask. rewrite E.
  replace (2 ^ k - 1) with (Z.ones k) by (rewrite Z.ones_equiv; lia).
  apply Z.land_ones. lia.
Qed.

Lemma length_unread m : length (unread m) = avail m.
Proof. unfold unread. by rewrite length_fmap, length_seq. Qed.

Lemma lookup_unread m i :
  ring_ok m -> (i < avail m)%nat -> unread m !! i = mm_data m !! slot m (data_tail m + Z.of_nat i).
Proof.
  intros Hm Hi. unfold unread. rewrite list_lookup_fmap, lookup_seq_lt by done. simpl.
  destruct (lookup_lt_is_Some_2 (mm_data m) (slot m (data_tail m + Z.of_nat i))) as [b ->];
    [by apply slot_lt|done].
Qed.

Lemma avail_u64 m : ring_ok m -> u64 (data_head m - data_tail m) = Z.of_nat (avail m).
Proof. intros (_ & Ht & Hh & _). unfold u64, avail. rewrite wrap_small by lia. lia. Qed.

Lemma avail_page m : ring_ok m -> Z.of_nat (avail m) <= page_size m.
Proof. intros (_ & Ht & Hh & Hf). unfold avail. lia. Qed.

Lemma mod_add_wrap a i s : 0 < s -> 0 <= i -> a mod s + i < 2 * s ->
  (a + i) mod s = if a mod s + i <? s then a mod s + i else a mod s + i - s.
Proof.
  intros Hs Hi Hb. pose proof (Z.mod_pos_bound a s Hs).
  rewrite <- Zplus_mod_idemp_l. destruct (Z.ltb_spec (a mod s + i) s).
  - apply Z.mod_small. lia.
  - rewrite <- (Z_mod_plus_full _ (-1)). rewrite Z.mod_small; lia.
Qed.

(** Both copies give the oldest unread bytes. *)
Lemma copy_out_unread m n :
  ring_ok m -> 0 <= n <= Z.of_nat (avail m) -> copy_out m n = take (Z.to_nat n) (unread m).
Proof.
  intros Hm Hn. pose proof (page_size_pos m Hm) as Hs. pose proof (avail_page m Hm) as Ha.
  unfold copy_out. rewrite tail_slot by done. cbn zeta.
  replace (page_mask m + 1) with (page_size m) by (unfold page_mask; lia).
  set (t := data_tail m mod page_size m).
  assert (0 <= t < page_size m) as Ht by (apply Z.mod_pos_bound; lia).
  set (right := if page_size m - t <? n then page_size m - t else n).
  assert (0 <= right <= n /\ right <= page_size m - t /\ (right < n -> right = page_size m - t)) as (Hr & Hrt & Hre).
  { unfold right. destruct (Z.ltb_spec (page_size m - t) n); lia. }
  assert (length (mm_data m) = Z.to_nat (page_size m)) as Hlen by (unfold page_size; lia).
  assert (forall i, (i < Z.to_nat n)%nat ->
    unread m !! i = mm_data m !! (if t + Z.of_nat i <? page_size m then (Z.to_nat t + i)%nat
                                  else (Z.to_nat t + i - Z.to_nat (page_size m))%nat)) as Hun.
  { intros i Hi. rewrite lookup_unread by (done || lia). unfold slot.
    rewrite mod_add_wrap by lia. fold t. f_equal. destruct (Z.ltb_spec (t + Z.of_nat i) (page_size m)); lia. }
  apply list_eq. intros i.
  destruct (decide (i < Z.to_nat n)%nat) as [Hi|Hi].
  2:{ rewrite !lookup_ge_None_2; [done|rewrite length_take, length_unread; lia|].
      rewrite length_app, length_take, length_drop.
      destruct (Z.ltb_spec right n); rewrite ?length_take; simpl; lia. }
  rewrite lookup_take_lt, Hun by done.
  destruct (Z.ltb_spec (t + Z.of_nat i) (page_size m)).
  - rewrite lookup_app_l by (rewrite length_take, length_drop; lia).
    rewrite lookup_take_lt, lookup_drop by lia. done.
  - rewrite (proj2 (Z.ltb_lt right n)) by lia.
    rewrite lookup_app_r by (rewrite length_take, length_drop; lia).
    rewrite length_take, length_drop, Hlen.
    rewrite lookup_take_lt by lia. f_equal. lia.
Qed.

(** Moving the tail forward dequeues. *)
Lemma unread_drop m n :
  ring_ok m -> 0 <= n <= Z.of_nat (avail m) ->
  ring_ok (set_tail (data_tail m + n) m) /\
  unread (set_tail (data_tail m + n) m) = drop (Z.to_nat n) (unread m).
Proof.
  intros Hm Hn. assert (ring_ok (set_tail (data_tail m + n) m)) as Hm'.
  { destruct Hm as (Hk & Ht & Hh & Hf). unfold avail in Hn.
    unfold ring_ok. change (page_size (set_tail _ m)) with (page_size m).
    split_and!; simpl; [exact Hk|lia..]. }
  assert (avail (set_tail (data_tail m + n) m) = avail m - Z.to_nat n)%nat as Ha.
  { unfold avail in *. simpl. lia. }
  split; [done|]. apply list_eq. intros i. rewrite lookup_drop.
  destruct (decide (i < avail m - Z.to_nat n)%nat) as [Hi|Hi].
  - rewrite !lookup_unread by (done || lia). simpl. f_equal. unfold slot. simpl. do 2 f_equal. lia.
  - rewrite !lookup_ge_None_2; [done|rewrite length_unread; lia..].
Qed.

Lemma put_byte_ok m b :
  ring_ok m -> data_head m - data_tail m < page_size m -> data_head m + 1 < 2 ^ 63 ->
  let m' := mkMmap (data_head m + 1) (data_tail m) (<[slot m (data_head m) := b]> (mm_data m)) in
  ring_ok m' /\ unread m' = unread m ++ [b].
Proof.
  intros Hm Hroom Hh m'. pose proof (page_size_pos m Hm) as Hs.
  assert (page_size m' = page_size m) as Hp by (unfold page_size; simpl; by rewrite length_insert).
  pose proof Hm as (Hk & Ht & _ & Hf).
  assert (ring_ok m') as Hm' by (unfold ring_ok; rewrite Hp; split_and!; simpl; [done|lia..]).
  assert (avail m' = S (avail m)) as Ha by (unfold avail; simpl; lia).
  assert (data_head m = data_tail m + Z.of_nat (avail m)) as Hhd by (unfold avail; lia).
  split; [done|]. apply list_eq. intros i.
  assert (slot m' = slot m) as Hsl by (unfold slot; by rewrite Hp).
  destruct (Nat.lt_trichotomy i (avail m)) as [Hi|[->|Hi]].
  - rewrite lookup_app_l by (rewrite length_unread; done).
    rewrite !lookup_unread by (done || lia). rewrite Hsl. simpl.
    apply list_lookup_insert_ne. rewrite Hhd. unfold slot.
    assert (avail m < Z.to_nat (page_size m))%nat by (unfold avail; lia).
    intros E. apply Z2Nat.inj in E; [|apply Z.mod_pos_bound; lia..].
    assert ((Z.of_nat (avail m) - Z.of_nat i) mod page_size m = 0) as E0.
    { replace (Z.of_nat (avail m) - Z.of_nat i)
        with ((data_tail m + Z.of_nat (avail m)) - (data_tail m + Z.of_nat i)) by lia.
      rewrite Zminus_mod, E, Z.sub_diag. apply Z.mod_0_l. lia. }
    rewrite Z.mod_small in E0 by lia. lia.
  - rewrite lookup_app_r by (rewrite length_unread; done). rewrite length_unread, Nat.sub_diag.
    rewrite lookup_unread by (done || lia). rewrite Hsl. simpl. rewrite <- Hhd.
    apply list_lookup_insert_eq. by apply slot_lt.
  - rewrite !lookup_ge_None_2; [done| |]; rewrite ?length_app, !length_unread; simpl; lia.
Qed.

Lemma put_bytes_ok bs m :
  ring_ok m -> data_head m - data_tail m + Z.of_nat (length bs) <= page_size m ->
  data_head m + Z.of_nat (length bs) < 2 ^ 63 ->
  ring_ok (put_bytes m bs) /\ unread (put_bytes m bs) = unread m ++ bs.
Proof.
  revert m; induction bs as [|b bs IH]; intros m Hm Hr Hh; cbn [put_bytes].
  - by rewrite app_nil_r.
  - rewrite length_cons in *. destruct (put_byte_ok m b Hm) as [Hm' Hu]; [lia..|].
    destruct (IH _ Hm') as [Hm'' Hu']; simpl; [|lia|].
    + unfold page_size in *. simpl. rewrite length_insert. lia.
    + split; [done|]. by rewrite Hu', Hu, <- app_assoc.
Qed.

Lemma read_ok m n :
  ring_ok m -> 0 <= n <= Z.of_nat (avail m) ->
  perf_read_buffer_nbytes (Some m) n =
    (0, take (Z.to_nat n) (unread m), Some (set_tail (data_tail m + n) m)).
Proof.
  intros Hm Hn. unfold perf_read_buffer_nbytes. rewrite avail_u64 by done.
  rewrite (proj2 (Z.ltb_ge _ _)), copy_out_unread by (done || lia).
  destruct Hm as (_ & Ht & Hh & _). unfold u64, avail in *. rewrite wrap_small by lia. done.
Qed.

Lemma read_few m n :
  ring_ok m -> Z.of_nat (avail m) < n -> perf_read_buffer_nbytes (Some m) n = (1, [], Some m).
Proof.
  intros Hm Hn. unfold perf_read_buffer_nbytes. rewrite avail_u64 by done.
  by rewrite (proj2 (Z.ltb_lt _ _)).
Qed.

Lemma skip_ok m n :
  ring_ok m -> 0 <= n < 2 ^ 63 ->
  perf_skip_buffer_nbytes m n = set_tail (data_tail m + Z.min n (Z.of_nat (avail m))) m.
Proof.
  intros (_ & Ht & Hh & _) Hn. unfold perf_skip_buffer_nbytes, u64, avail.
  rewrite (wrap_small 64 (data_tail m + n)), (wrap_small 64 (data_head m - data_tail m)) by lia.
  destruct (Z.ltb_spec (data_head m) (data_tail m + n)); rewrite wrap_small by lia; f_equal; lia.
Qed.

Lemma remaining_ok m : ring_ok m -> perf_num_of_remaining_data m = Z.of_nat (avail m).
Proof.
  intros Hm. unfold perf_num_of_remaining_data. rewrite avail_u64 by done.
  pose proof (avail_page m Hm). destruct Hm as [(k & Hk & E) _].
  assert (2 ^ k < 2 ^ 31) by (apply Z.pow_lt_mono_r; lia).
  unfold i32. apply swrap_small; lia.
Qed.

Lemma skip_all_ok m :
  ring_ok m -> perf_skip_all (Some m) = (true, Some (set_tail (data_head m) m)).
Proof.
  intros Hm. unfold perf_skip_all. rewrite remaining_ok by done. do 2 f_equal.
  pose proof (avail_page m Hm) as Ha. pose proof Hm as (Hk & Ht & Hh & Hf).
  destruct (Z.ltb_spec 0 (Z.of_nat (avail m))).
  - rewrite skip_ok by (done || (unfold avail; lia)). unfold avail. f_equal. lia.
  - unfold avail in *. destruct m as [h t d]; unfold set_tail; simpl in *. f_equal. lia.
Qed.

(** ** The specification: a queue of bytes of bounded capacity *)
Inductive ring_op :=
  | Produce (bs : list byte)   (* the kernel; it drops what does not fit *)
  | Read (n : nat)             (* perf_read_buffer_nbytes *)
  | ReadWP (n : nat)           (* ReadMmapBuffer *)
  | Skip (n : nat)             (* perf_skip_buffer_nbytes *)
  | SkipAll                    (* perf_skip_all *)
  | Consume.                   (* ConsumeAllRingBufferData *)

Definition queue_step (cap : nat) (op : ring_op) (q : list byte) : Z * list byte * list byte :=
  match op with
  | Produce bs => if (length q + length bs <=? cap)%nat then (0, [], q ++ bs) else (-1, [], q)
  | Read n => if (length q <? n)%nat then (1, [], q) else (0, take n q, drop n q)
  | ReadWP n => if (length q <? n)%nat then (-1, [], q) else (0, take n q, drop n q)
  | Skip n => (0, [], drop n q)
  | SkipAll | Consume => (0, [], [])
  end.

Definition ring_step (op : ring_op) (m : perf_mmap_t) : Z * list byte * perf_mmap_t :=
  match op with
  | Produce bs => match produce m bs with Some m' => (0, [], m') | None => (-1, [], m) end
  | Read n =>
      let '(r, bs, m') := perf_read_buffer_nbytes (Some m) (Z.of_nat n) in (r, bs, default m m')
  | ReadWP n => ReadMmapBuffer m (Z.of_nat n)
  | Skip n => (0, [], perf_skip_buffer_nbytes m (Z.of_nat n))
  | SkipAll => (0, [], default m (perf_skip_all (Some m)).2)
  | Consume => (0, [], ConsumeAllRingBufferData m)
  end.

(** The outputs of a sequence of operations, and the state after them. *)
Fixpoint run_ops {S} (step : ring_op -> S -> Z * list byte * S) (ops : list ring_op) (s : S)
  : list (Z * list byte) * S :=
  match ops with
  | [] => ([], s)
  | op :: ops' =>
      let '(r, bs, s1) := step op s in
      let '(out, s2) := run_ops step ops' s1 in ((r, bs) :: out, s2)
  end.

Definition op_bytes (op : ring_op) : Z :=
  match op with Produce bs => Z.of_nat (length bs) | _ => 0 end.
Definition ops_bytes (ops : list ring_op) : Z := foldr (fun op n => op_bytes op + n) 0 ops.

(** Amounts C's [size_t] and the kernel can hold. *)
Definition op_ok (op : ring_op) : Prop :=
  match op with Skip n => Z.of_nat n < 2 ^ 63 | _ => True end.

Lemma drop_unread m n :
  ring_ok m ->
  ring_ok (set_tail (data_tail m + Z.min (Z.of_nat n) (Z.of_nat (avail m))) m) /\
  unread (set_tail (data_tail m + Z.min (Z.of_nat n) (Z.of_nat (avail m))) m) = drop n (unread m).
Proof.
  intros Hm. destruct (unread_drop m (Z.min (Z.of_nat n) (Z.of_nat (avail m))) Hm) as [Hm' ->]; [lia|].
  split; [done|]. destruct (decide (n <= avail m)%nat).
  - f_equal. lia.
  - rewrite !drop_ge by (rewrite length_unread; lia). done.
Qed.

Lemma drained_ok m : ring_ok m -> ring_ok (set_tail (data_head m) m) /\ unread (set_tail (data_head m) m) = [].
Proof.
  intros Hm. pose proof Hm as (_ & Ht & Hh & _).
  replace (data_head m) with (data_tail m + Z.of_nat (avail m)) by (unfold avail; lia).
  destruct (unread_drop m (Z.of_nat (avail m)) Hm) as [Hm' Hu]; [lia|].
  split; [done|]. rewrite Hu. apply drop_ge. rewrite length_unread. lia.
Qed.

(** The moves of the tail leave the page and the head alone. *)
Lemma set_tail_frame t m : page_size (set_tail t m) = page_size m /\ data_head (set_tail t m) = data_head m.
Proof. done. Qed.

Lemma put_bytes_frame bs m :
  length (mm_data (put_bytes m bs)) = length (mm_data m) /\
  data_head (put_bytes m bs) = data_head m + Z.of_nat (length bs).
Proof.
  revert m; induction bs as [|b bs IH]; intros m; cbn [put_bytes length]; [split; [done|lia]|].
  destruct (IH (mkMmap (data_head m + 1) (data_tail m) (<[slot m (data_head m) := b]> (mm_data m))))
    as [-> ->]. simpl. rewrite length_insert. split; [done|lia].
Qed.

Lemma ring_step_queue op m :
  ring_ok m -> op_ok op -> data_head m + op_bytes op < 2 ^ 63 ->
  let '(r, bs, m') := ring_step op m in
  queue_step (length (mm_data m)) op (unread m) = (r, bs, unread m') /\
  ring_ok m' /\ length (mm_data m') = length (mm_data m) /\ data_head m' <= data_head m + op_bytes op.
Proof.
  intros Hm Ho Hh. pose proof (length_unread m) as Hl.
  destruct op as [bs|n|n|n| |]; cbn [ring_step queue_step op_bytes op_ok] in *; rewrite ?Hl.
  - unfold produce. rewrite (proj2 (Z.ltb_lt _ _)), andb_true_r by done.
    assert (data_head m - data_tail m = Z.of_nat (avail m)) as E
      by (unfold avail; destruct Hm as (_ & ? & _); lia).
    unfold page_size. destruct (Z.leb_spec (data_head m - data_tail m + Z.of_nat (length bs))
      (Z.of_nat (length (mm_data m)))).
    + destruct (put_bytes_ok bs m Hm) as [Hm' ->]; [unfold page_size; lia|lia|].
      rewrite (proj2 (Nat.leb_le _ _)) by lia.
      destruct (put_bytes_frame bs m) as [-> ->]. split_and!; done || lia.
    + rewrite (proj2 (Nat.leb_gt _ _)) by lia. split_and!; done || lia.
  - destruct (Nat.ltb_spec (avail m) n).
    + rewrite read_few by (done || lia). simpl. split_and!; done || lia.
    + rewrite read_ok by (done || lia). rewrite Nat2Z.id. simpl.
      destruct (unread_drop m (Z.of_nat n) Hm) as [Hm' ->]; [lia|]. rewrite Nat2Z.id.
      split_and!; done || lia.
  - assert (ReadMmapBuffer m (Z.of_nat n) =
      let '(r, bs, m') := perf_read_buffer_nbytes (Some m) (Z.of_nat n) in
      (if r =? 0 then r else -1, bs, default m m')) as ->.
    { unfold ReadMmapBuffer, perf_read_buffer_nbytes. by destruct (_ <? Z.of_nat n). }
    destruct (Nat.ltb_spec (avail m) n).
    + rewrite read_few by (done || lia). simpl. split_and!; done || lia.
    + rewrite read_ok by (done || lia). rewrite Nat2Z.id. simpl.
      destruct (unread_drop m (Z.of_nat n) Hm) as [Hm' ->]; [lia|]. rewrite Nat2Z.id.
      split_and!; done || lia.
  - rewrite skip_ok by (done || lia). destruct (drop_unread m n Hm) as [Hm' ->].
    split_and!; simpl; done || lia.
  - rewrite skip_all_ok by done. simpl. destruct (drained_ok m Hm) as [Hm' ->].
    split_and!; simpl; done || lia.
  - unfold ConsumeAllRingBufferData. destruct (drained_ok m Hm) as [Hm' ->].
    split_and!; simpl; done || lia.
Qed.

(** ** Properties *)

(** C31: The ring is a queue: along any sequence of kernel writes and reader calls,
    of either reader, with the page's wrap-around anywhere, the results and the bytes
    returned are those of a byte queue whose capacity is the page, and what is
    left unread is what is left in the queue. *)
Theorem ring_refines_queue (ops : list ring_op) (m : perf_mmap_t) :
  ring_ok m -> Forall op_ok ops -> data_head m + ops_bytes ops < 2 ^ 63 ->
  let '(out, m') := run_ops ring_step ops m in
  run_ops (queue_step (length (mm_data m))) ops (unread m) = (out, unread m') /\ ring_ok m'.
Proof.
  intros Hm Ho. revert m Hm; induction Ho as [|op ops Hop Ho IH]; intros m Hm Hh.
  - by cbn [run_ops].
  - cbn [run_ops ops_bytes foldr] in *. fold (ops_bytes ops) in Hh.
    assert (0 <= ops_bytes ops).
    { clear. unfold ops_bytes. induction ops as [|[] ? IH]; cbn [foldr op_bytes]; lia. }
    pose proof (ring_step_queue op m Hm Hop ltac:(lia)) as Hs.
    destruct (ring_step op m) as [[r bs] m1]. destruct Hs as (-> & Hm1 & Hl & Hh1).
    rewrite <- Hl. specialize (IH m1 Hm1 ltac:(lia)).
    destruct (run_ops ring_step ops m1) as [out m2]. destruct IH as [-> Hm2]. done.
Qed.

Lemma ring_refines_queue_witness :
  let m := mkMmap 7 6 [Init.Byte.x01; Init.Byte.x02; Init.Byte.x03; Init.Byte.x04] in
  fst (run_ops ring_step [Produce [Init.Byte.x05; Init.Byte.x06]; Read 3; ReadWP 1] m)
    = [(0, []); (0, [Init.Byte.x03; Init.Byte.x05; Init.Byte.x06]); (-1, [])].
Proof.
  pose proof (ring_refines_queue [Produce [Init.Byte.x05; Init.Byte.x06]; Read 3; ReadWP 1]
    (mkMmap 7 6 [Init.Byte.x01; Init.Byte.x02; Init.Byte.x03; Init.Byte.x04])) as H.
  assert (ring_ok (mkMmap 7 6 [Init.Byte.x01; Init.Byte.x02; Init.Byte.x03; Init.Byte.x04])) as Hm.
  { split; [exists 2; split; [lia|done]|]. unfold page_size. simpl. lia. }
  specialize (H Hm ltac:(repeat constructor) ltac:(simpl; lia)).
  cbn zeta. destruct (run_ops ring_step _ _) as [out m'].
  destruct H as [E _]. apply (f_equal fst) in E. cbn [fst] in E |- *. rewrite <- E.
  vm_compute. reflexivity.
Defined.
