(* ===== verification/PerfEvents.v ===== *)
(** * Sampling events

    Models the signal handler of [src/src/perf/perf_interface.cpp] with the record
    readers of [perf_mmap.cpp], the attributes of [perf_util.cpp], and the
    re-entrance flag of [src/src/util/safe-sampling.h].

    The kernel's side of a file descriptor is whether it is open and enabled; the
    sample callback is a function on a state of its own, a parameter. [samples_in] says,
    apart from the code, which samples the bytes of a ring hold. *)
From stdpp Require Import base numbers list gmap.
From Stdlib Require Import ZArith Lia.
From S2P Require Import Prelude RingBuffer.
Local Open Scope Z_scope.

(** ** Attributes ([perf_util.cpp]) *)
Definition PERF_SAMPLE_IP : Z := 1.
Definition PERF_SAMPLE_TID : Z := 2.
Definition PERF_SAMPLE_TIME : Z := 4.
Definition PERF_SAMPLE_ADDR : Z := 8.
Definition PERF_SAMPLE_CALLCHAIN : Z := 32.
Definition PERF_SAMPLE_CPU : Z := 128.
Definition PERF_SAMPLE_PERIOD : Z := 256.

Record perf_event_attr := mkAttr {
  sample_type : Z;
  sample_period : Z;
  freq : Z;
  precise_ip : Z;
  disabled : Z;
  wakeup_events : Z;
  exclude_callchain_user : Z;
  exclude_callchain_kernel : Z;
  exclude_kernel : Z;
  exclude_hv : Z;
  exclude_idle : Z;
}.

Definition perf_attr_init (attr : perf_event_attr) (threshold more_sample_type : Z) : perf_event_attr :=
  let sample_type := more_sample_type in
  let sample_type := Z.lor sample_type PERF_SAMPLE_IP in
  let sample_type := Z.lor sample_type PERF_SAMPLE_CALLCHAIN in
  let sample_type := Z.lor sample_type PERF_SAMPLE_ADDR in
  let sample_type := Z.lor sample_type PERF_SAMPLE_CPU in
  let sample_type := Z.lor sample_type PERF_SAMPLE_PERIOD in
  let sample_type := Z.lor sample_type PERF_SAMPLE_TIME in
  mkAttr sample_type threshold (if threshold =? 0 then 1 else 0) (precise_ip attr) 1 1 1 1 1 1 1.

(** ** Records ([perf_mmap.cpp]) *)
Record perf_event_header := mkHdr { h_type : Z; h_misc : Z; h_size : Z }.

Definition PERF_RECORD_SAMPLE : Z := 9.
Definition PERF_RECORD_MISC_EXACT_IP : Z := Z.shiftl 1 14.
Definition sizeof_header : Z := 8.

Record perf_sample_data_t := mkSample {
  ip : Z; pid : Z; tid : Z; addr : Z; cpu : Z; isPrecise : bool }.

(** The header is stored as it lies in memory: 4, 2 and 2 bytes. *)
Definition header_of (bs : list byte) : perf_event_header :=
  mkHdr (le_val (take 4 bs)) (le_val (take 2 (drop 4 bs))) (le_val (take 2 (drop 6 bs))).

Definition perf_read_header (m : perf_mmap_t) : bool * perf_event_header * perf_mmap_t :=
  let '(ret, bs, m') := perf_read_buffer_nbytes (Some m) sizeof_header in
  (ret =? 0, header_of bs, default m m').

(** [COPY_SAMPLE_DATA]: the field's new value. *)
Definition COPY_SAMPLE_DATA (m : perf_mmap_t) (size : Z) : exc (Z * perf_mmap_t) :=
  let '(ret, bs, m') := perf_read_buffer_nbytes (Some m) size in
  _ ← assert_exc (ret =? 0); RET (le_val bs, default m m').

Definition has_bit (sample_type bit : Z) : bool := negb (Z.land sample_type bit =? 0).

Definition perf_read_record_sample (m : perf_mmap_t) (sample_type : Z) (sd : perf_sample_data_t)
  : exc (perf_sample_data_t * perf_mmap_t) :=
  r ← (if has_bit sample_type PERF_SAMPLE_IP then
         r ← COPY_SAMPLE_DATA m 8; let '(v, m) := r in
         RET (mkSample v (pid sd) (tid sd) (addr sd) (cpu sd) (isPrecise sd), m)
       else RET (sd, m));
  let '(sd, m) := r in
  r ← (if has_bit sample_type PERF_SAMPLE_TID then
         r ← COPY_SAMPLE_DATA m 4; let '(v, m) := r in
         r ← COPY_SAMPLE_DATA m 4; let '(w, m) := r in
         RET (mkSample (ip sd) v w (addr sd) (cpu sd) (isPrecise sd), m)
       else RET (sd, m));
  let '(sd, m) := r in
  r ← (if has_bit sample_type PERF_SAMPLE_ADDR then
         r ← COPY_SAMPLE_DATA m 8; let '(v, m) := r in
         RET (mkSample (ip sd) (pid sd) (tid sd) v (cpu sd) (isPrecise sd), m)
       else RET (sd, m));
  let '(sd, m) := r in
  if has_bit sample_type PERF_SAMPLE_CPU then
    r ← COPY_SAMPLE_DATA m 4; let '(v, m) := r in
    RET (mkSample (ip sd) (pid sd) (tid sd) (addr sd) v (isPrecise sd), m)
  else RET (sd, m).

(** [ehdr->size - sizeof(perf_event_header_t)] is a [size_t]. *)
Definition perf_skip_record (m : perf_mmap_t) (ehdr : perf_event_header) : perf_mmap_t :=
  perf_skip_buffer_nbytes m (u64 (h_size ehdr - sizeof_header)).

(** ** The handler's loop *)
Section parse.
Context {S : Type} (user_sample_cb : Z -> perf_sample_data_t -> S -> S).

(** One turn: the loop ends ([inl]) or goes on. *)
Definition parse_turn (id sample_type : Z) (m : perf_mmap_t) (cnt : Z) (s : S)
  : (perf_mmap_t * Z * S) + exc (perf_mmap_t * Z * S) :=
  let remaining_data_size := perf_num_of_remaining_data m in
  if remaining_data_size <=? 0 then inl (m, cnt, s)
  else if remaining_data_size <? sizeof_header then
    inl (default m (perf_skip_all (Some m)).2, cnt, s)
  else inr (
    let '(ok, ehdr, m1) := perf_read_header m in
    _ ← assert_exc ok;
    if h_type ehdr =? PERF_RECORD_SAMPLE then
      let sd := mkSample 0 0 0 0 0 (negb (Z.land (h_misc ehdr) PERF_RECORD_MISC_EXACT_IP =? 0)) in
      r ← perf_read_record_sample m1 sample_type sd;
      let '(sd, m2) := r in RET (m2, cnt + 1, user_sample_cb id sd s)
    else if h_size ehdr =? 0 then RET (default m1 (perf_skip_all (Some m1)).2, cnt, s)
    else RET (perf_skip_record m1 ehdr, cnt, s)).

(** [None]: more than [fuel] turns. *)
Fixpoint parse_loop (fuel : nat) (id sample_type : Z) (m : perf_mmap_t) (cnt : Z) (s : S)
  : option (exc (perf_mmap_t * Z * S)) :=
  match fuel with
  | O => None
  | Datatypes.S fuel' =>
      match parse_turn id sample_type m cnt s with
      | inl r => Some (RET r)
      | inr EXC => Some EXC
      | inr (RET (m', cnt', s')) => parse_loop fuel' id sample_type m' cnt' s'
      end
  end.
End parse.

(** ** The file descriptors ([ioctl]) and the signal handler *)

(** Which descriptors are open, and whether their counter is enabled. *)
Abbreviation kfds := (gmap Z bool).

(** Enabling, disabling and re-arming ([PERF_EVENT_IOC_REFRESH] enables) a
    counter; -1 on a descriptor that is not open. *)
Definition ioctl_set (fd : Z) (on : bool) (k : kfds) : Z * kfds :=
  match k !! fd with Some _ => (0, <[fd := on]> k) | None => (-1, k) end.
Definition ioctl_reset (fd : Z) (k : kfds) : Z * kfds :=
  match k !! fd with Some _ => (0, k) | None => (-1, k) end.

Record perf_event_thread_t := mkEvent {
  ev_id : Z; ev_fd : Z; ev_mmap : perf_mmap_t; ev_sample_type : Z }.

Definition restart_perf_event (fd : Z) (k : kfds) : bool * kfds :=
  if fd <? 0 then (false, k)
  else
    let '(r, k1) := ioctl_reset fd k in
    if r <? 0 then (false, k1)
    else let '(r, k2) := ioctl_set fd true k1 in if r <? 0 then (false, k2) else (true, k2).

(** [perf_start_all] with [on] true, [perf_stop_all] with [on] false. *)
Fixpoint perf_set_all (on : bool) (event_thread_list : list perf_event_thread_t) (k : kfds)
  : bool * kfds :=
  match event_thread_list with
  | [] => (true, k)
  | e :: rest =>
      if ev_fd e <? 0 then perf_set_all on rest k
      else let '(r, k1) := ioctl_set (ev_fd e) on k in
           if r <? 0 then (false, k1) else perf_set_all on rest k1
  end.
Definition perf_start_all := perf_set_all true.
Definition perf_stop_all := perf_set_all false.

(** The fields of the thread's data the handler uses. *)
Record thread_data_t := mkTD {
  inside_agent : bool;
  perf_state : option (list perf_event_thread_t);
}.

Definition profiler_safe_enter (td : thread_data_t) : bool * thread_data_t :=
  let prev := inside_agent td in (negb prev, mkTD true (perf_state td)).
Definition profiler_safe_exit (td : thread_data_t) : thread_data_t := mkTD false (perf_state td).

Definition assert_do {A} (r : bool * A) : exc A := if r.1 then RET r.2 else EXC.

(** The index of the first event of that descriptor. *)
Definition find_fd (fd : Z) (l : list perf_event_thread_t) : option (nat * perf_event_thread_t) :=
  list_find (fun e => ev_fd e = fd) l.

Section handler.
Context {S : Type} (user_sample_cb : Z -> perf_sample_data_t -> S -> S).

(** [fuel] bounds the turns of the parsing loop. *)
Definition perf_event_handler (fuel : nat) (si_code si_fd : Z) (td : thread_data_t) (k : kfds) (s : S)
  : option (exc (thread_data_t * kfds * S)) :=
  let '(ok, td) := profiler_safe_enter td in
  if negb ok then Some (RET (td, k, s)) else
  match perf_state td with
  | None => Some (RET (td, k, s))
  | Some event_thread_list =>
      match assert_do (perf_stop_all event_thread_list k) with
      | EXC => Some EXC
      | RET k =>
          if si_code <? 0 then
            Some (k ← assert_do (perf_start_all event_thread_list k);
                  RET (profiler_safe_exit td, k, s))
          else
            match find_fd si_fd event_thread_list with
            | None =>
                Some (k ← assert_do (restart_perf_event si_fd k);
                      k ← assert_do (perf_start_all event_thread_list k);
                      RET (profiler_safe_exit td, k, s))
            | Some (i, current) =>
                r ← parse_loop user_sample_cb fuel (ev_id current) (ev_sample_type current)
                      (ev_mmap current) 0 s;
                Some (
                  r ← r;
                  let '(m, cnt, s) := r in
                  _ ← assert_exc (cnt <? 2);
                  let l := <[i := mkEvent (ev_id current) (ev_fd current) m (ev_sample_type current)]>
                             event_thread_list in
                  k ← assert_do (restart_perf_event (ev_fd current) k);
                  k ← assert_do (perf_start_all l k);
                  RET (profiler_safe_exit (mkTD (inside_agent td) (Some l)), k, s))
            end
      end
  end.
End handler.

(** ** Lemmas on the records *)
Lemma header_read m :
  ring_ok m -> (8 <= avail m)%nat ->
  perf_read_header m = (true, header_of (take 8 (unread m)), set_tail (data_tail m + 8) m).
Proof.
  intros Hm Ha. unfold perf_read_header, sizeof_header. rewrite read_ok by (done || lia). done.
Qed.

Lemma copy_ok m n :
  ring_ok m -> 0 <= n <= Z.of_nat (avail m) ->
  COPY_SAMPLE_DATA m n = RET (le_val (take (Z.to_nat n) (unread m)), set_tail (data_tail m + n) m).
Proof. intros Hm Hn. unfold COPY_SAMPLE_DATA. rewrite read_ok by (done || lia). done. Qed.

(** Reading part of a record only moves the tail forward. *)
Definition advanced (m m' : perf_mmap_t) : Prop :=
  ring_ok m' /\ exists n, 0 <= n <= Z.of_nat (avail m) /\ m' = set_tail (data_tail m + n) m.

Lemma advanced_refl m : ring_ok m -> advanced m m.
Proof.
  intros Hm. split; [done|]. exists 0. split; [lia|]. rewrite Z.add_0_r. by destruct m.
Qed.

Lemma advanced_trans m m1 m2 : advanced m m1 -> advanced m1 m2 -> advanced m m2.
Proof.
  intros [Hm1 (n & Hn & ->)] [Hm2 (k & Hk & ->)]. split; [done|].
  exists (n + k). unfold avail in *. simpl in *. split; [lia|].
  unfold set_tail. simpl. f_equal. lia.
Qed.

Lemma advanced_avail m m' : advanced m m' -> (avail m' <= avail m)%nat.
Proof. intros [_ (n & Hn & ->)]. unfold avail. simpl. lia. Qed.

Lemma copy_advanced m n v m' :
  ring_ok m -> 0 <= n -> COPY_SAMPLE_DATA m n = RET (v, m') -> advanced m m'.
Proof.
  intros Hm Hn. destruct (Z.le_gt_cases n (Z.of_nat (avail m))).
  - rewrite copy_ok by done. intros [= <- <-].
    split; [apply unread_drop; done|]. by exists n.
  - unfold COPY_SAMPLE_DATA. rewrite read_few by done. done.
Qed.

Lemma sample_advanced m st sd sd' m' :
  ring_ok m -> perf_read_record_sample m st sd = RET (sd', m') -> advanced m m'.
Proof.
  intros Hm H. unfold perf_read_record_sample in H.
  repeat match goal with
  | H : (_ ≫= _) = RET _ |- _ => apply exc_bind_ret in H as ([? ?] & ? & ?)
  | H : (if ?b then _ else _) = RET _ |- _ => destruct b
  | H : RET _ = RET _ |- _ => injection H as <- <-
  end;
  repeat match goal with
  | Hm : ring_ok ?m, H : COPY_SAMPLE_DATA ?m _ = RET (_, ?m') |- _ =>
      apply copy_advanced in H; [|done|lia]; pose proof (proj1 H)
  end; eauto 6 using advanced_refl, advanced_trans.
Qed.

Lemma le_val_lt n bs : (length bs <= n)%nat -> 0 <= le_val bs < 256 ^ Z.of_nat n.
Proof.
  intros Hl. pose proof (le_val_range bs) as [H1 H2]. split; [done|].
  eapply Z.lt_le_trans; [exact H2|]. apply Z.pow_le_mono_r; lia.
Qed.

Lemma header_of_size bs : 0 <= h_size (header_of bs) < 2 ^ 16.
Proof. apply (le_val_lt 2). rewrite length_take. lia. Qed.

(** After its header, skipping a record moves the tail to the record's end, also
    when the size it claims is smaller than the header: the subtraction wraps
    around and the addition wraps back. *)
Lemma skip_record_ok m ehdr :
  ring_ok m -> (8 <= avail m)%nat -> 0 < h_size ehdr < 2 ^ 16 ->
  perf_skip_record (set_tail (data_tail m + 8) m) ehdr =
    set_tail (data_tail m + Z.min (h_size ehdr) (Z.of_nat (avail m))) m.
Proof.
  intros (_ & Ht & Hh & _) Ha Hs. unfold perf_skip_record, perf_skip_buffer_nbytes, sizeof_header, avail in *.
  cbn [data_head data_tail set_tail mm_data]. unfold u64.
  rewrite (wrap_add_r 64 (data_tail m + 8)).
  replace (data_tail m + 8 + (h_size ehdr - 8)) with (data_tail m + h_size ehdr) by lia.
  rewrite (wrap_small 64 (data_tail m + h_size ehdr)) by lia.
  unfold set_tail. cbn [data_head data_tail mm_data]. f_equal.
  destruct (Z.ltb_spec (data_head m) (data_tail m + h_size ehdr)).
  - rewrite wrap_add_r, wrap_small; lia.
  - rewrite wrap_add_r. replace (data_tail m + 8 + (h_size ehdr - 8)) with (data_tail m + h_size ehdr) by lia.
    rewrite wrap_small; lia.
Qed.

Section parse_lemmas.
Context {S : Type} (cb : Z -> perf_sample_data_t -> S -> S).

(** Every turn that does not end the loop consumes something. *)
Lemma parse_turn_progress id st m cnt s m' cnt' s' :
  ring_ok m -> parse_turn cb id st m cnt s = inr (RET (m', cnt', s')) ->
  ring_ok m' /\ (avail m' < avail m)%nat.
Proof.
  intros Hm. unfold parse_turn. rewrite remaining_ok by done. unfold sizeof_header.
  destruct (Z.leb_spec (Z.of_nat (avail m)) 0); [done|].
  destruct (Z.ltb_spec (Z.of_nat (avail m)) 8); [done|].
  rewrite header_read by (done || lia). cbn [assert_exc mbind exc_bind].
  assert (ring_ok (set_tail (data_tail m + 8) m) /\ (avail (set_tail (data_tail m + 8) m) < avail m)%nat)
    as [Hm1 Ha1].
  { split; [apply unread_drop; [done|lia]|]. unfold avail in *. simpl. lia. }
  pose proof (header_of_size (take 8 (unread m))) as Hsz.
  generalize dependent (header_of (take 8 (unread m))). intros hdr Hsz.
  destruct (Z.eqb_spec (h_type hdr) PERF_RECORD_SAMPLE).
  - intros [= Hx]. apply exc_bind_ret in Hx as ([sd m2] & Hx & [= <- <- <-]).
    apply sample_advanced in Hx; [|done]. pose proof (advanced_avail _ _ Hx). split; [apply Hx|lia].
  - destruct (Z.eqb_spec (h_size hdr) 0).
    + rewrite skip_all_ok by done. simpl. intros [= <- <- <-].
      destruct (drained_ok (set_tail (data_tail m + 8) m) Hm1) as [Hd _].
      split; [done|]. unfold avail in *. simpl in *. lia.
    + rewrite skip_record_ok by (done || lia). intros [= <- <- <-].
      split; [apply unread_drop; [done|lia]|]. unfold avail in *. simpl. lia.
Qed.

Lemma parse_turn_end id st m cnt s m' cnt' s' :
  ring_ok m -> parse_turn cb id st m cnt s = inl (m', cnt', s') ->
  unread m' = [] /\ ring_ok m' /\ cnt' = cnt /\ s' = s.
Proof.
  intros Hm. unfold parse_turn. rewrite remaining_ok by done.
  destruct (Z.leb_spec (Z.of_nat (avail m)) 0).
  - intros [= <- <- <-]. split_and!; try done. apply nil_length_inv. rewrite length_unread. lia.
  - destruct (Z.of_nat (avail m) <? sizeof_header); [|done].
    rewrite skip_all_ok by done. simpl. intros [= <- <- <-].
    by destruct (drained_ok m Hm).
Qed.

Lemma parse_loop_ends fuel id st m cnt s :
  ring_ok m -> (avail m < fuel)%nat ->
  exists r, parse_loop cb fuel id st m cnt s = Some r /\
    forall m' cnt' s', r = RET (m', cnt', s') -> unread m' = [] /\ ring_ok m'.
Proof.
  revert m cnt s; induction fuel as [|fuel IH]; intros m cnt s Hm Hf; [lia|]. cbn [parse_loop].
  destruct (parse_turn cb id st m cnt s) as [[[m1 c1] s1]|[[[m1 c1] s1]|]] eqn:E.
  - eexists. split; [done|]. intros m' cnt' s' [= -> -> ->].
    apply parse_turn_end in E as (? & ? & _); done.
  - apply parse_turn_progress in E as [Hm1 Hlt]; [|done]. apply IH; [done|lia].
  - by exists EXC.
Qed.
End parse_lemmas.

(** ** Streams of records *)

(** A sample with exactly the fields the reader expects for the mask IP | TID |
    ADDR, and a record of another kind with its body. *)
Inductive record :=
  | SampleRec (misc rip rpid rtid raddr : Z)
  | OtherRec (type misc : Z) (body : list byte).

Definition IP_TID_ADDR : Z := 11.

Definition enc_header (type misc size : Z) : list byte :=
  le_bytes 4 type ++ le_bytes 2 misc ++ le_bytes 2 size.

Definition enc_record (r : record) : list byte :=
  match r with
  | SampleRec misc rip rpid rtid raddr =>
      enc_header PERF_RECORD_SAMPLE misc 32 ++
      le_bytes 8 rip ++ le_bytes 4 rpid ++ le_bytes 4 rtid ++ le_bytes 8 raddr
  | OtherRec type misc body =>
      enc_header type misc (8 + Z.of_nat (length body)) ++ body
  end.

Definition record_ok (r : record) : Prop :=
  match r with
  | SampleRec misc rip rpid rtid raddr =>
      0 <= misc < 2 ^ 16 /\ 0 <= rip < 2 ^ 64 /\ 0 <= rpid < 2 ^ 32 /\ 0 <= rtid < 2 ^ 32 /\
      0 <= raddr < 2 ^ 64
  | OtherRec type misc body =>
      0 <= type < 2 ^ 32 /\ type <> PERF_RECORD_SAMPLE /\ 0 <= misc < 2 ^ 16 /\
      8 + Z.of_nat (length body) < 2 ^ 16
  end.

Definition sample_of (r : record) : option perf_sample_data_t :=
  match r with
  | SampleRec misc rip rpid rtid raddr =>
      Some (mkSample rip rpid rtid raddr 0 (negb (Z.land misc PERF_RECORD_MISC_EXACT_IP =? 0)))
  | OtherRec _ _ _ => None
  end.

Lemma length_enc_header t m s : length (enc_header t m s) = 8%nat.
Proof. unfold enc_header. by rewrite !length_app, !length_le_bytes. Qed.

Lemma header_of_enc t m s :
  0 <= t < 2 ^ 32 -> 0 <= m < 2 ^ 16 -> 0 <= s < 2 ^ 16 -> header_of (enc_header t m s) = mkHdr t m s.
Proof.
  intros Ht Hm Hs. unfold header_of, enc_header.
  rewrite take_app_length' by (by rewrite length_le_bytes).
  rewrite drop_app_length' by (by rewrite length_le_bytes).
  rewrite take_app_length' by (by rewrite length_le_bytes).
  rewrite app_assoc, drop_app_length' by (by rewrite length_app, !length_le_bytes).
  rewrite take_ge by (by rewrite length_le_bytes). rewrite !le_val_le_bytes.
  by rewrite !Z.mod_small by (simpl; lia).
Qed.

(** Reading a field of [n] bytes that starts the unread bytes. *)
Lemma copy_field m n v rest :
  ring_ok m -> unread m = le_bytes n v ++ rest -> 0 <= v < 256 ^ Z.of_nat n ->
  COPY_SAMPLE_DATA m (Z.of_nat n) = RET (v, set_tail (data_tail m + Z.of_nat n) m) /\
  ring_ok (set_tail (data_tail m + Z.of_nat n) m) /\
  unread (set_tail (data_tail m + Z.of_nat n) m) = rest.
Proof.
  intros Hm Hu Hv. assert (n + length rest = avail m)%nat as Ha.
  { rewrite <- length_unread, Hu, length_app, length_le_bytes. done. }
  rewrite copy_ok by (done || lia). rewrite Nat2Z.id, Hu, take_app_length' by (by rewrite length_le_bytes).
  rewrite le_val_le_bytes, Z.mod_small by done.
  destruct (unread_drop m (Z.of_nat n) Hm) as [Hm' ->]; [lia|].
  rewrite Nat2Z.id, Hu, drop_app_length' by (by rewrite length_le_bytes). done.
Qed.

Lemma unread_prefix m a rest :
  ring_ok m -> unread m = a ++ rest ->
  (length a + length rest = avail m)%nat /\
  ring_ok (set_tail (data_tail m + Z.of_nat (length a)) m) /\
  unread (set_tail (data_tail m + Z.of_nat (length a)) m) = rest.
Proof.
  intros Hm Hu. assert (length a + length rest = avail m)%nat as Ha
    by (rewrite <- length_unread, Hu, length_app; done).
  split; [done|]. destruct (unread_drop m (Z.of_nat (length a)) Hm) as [Hm' ->]; [lia|].
  split; [done|]. by rewrite Nat2Z.id, Hu, drop_app_length.
Qed.

(** A turn that meets a whole header. *)
Lemma parse_turn_header {S} (cb : Z -> perf_sample_data_t -> S -> S) id st m t mi sz rest cnt s :
  ring_ok m -> unread m = enc_header t mi sz ++ rest ->
  0 <= t < 2 ^ 32 -> 0 <= mi < 2 ^ 16 -> 0 <= sz < 2 ^ 16 ->
  exists m1, m1 = set_tail (data_tail m + 8) m /\ ring_ok m1 /\ unread m1 = rest /\ (8 <= avail m)%nat /\
  parse_turn cb id st m cnt s = inr (
    if t =? PERF_RECORD_SAMPLE then
      let sd := mkSample 0 0 0 0 0 (negb (Z.land mi PERF_RECORD_MISC_EXACT_IP =? 0)) in
      r ← perf_read_record_sample m1 st sd;
      let '(sd, m2) := r in RET (m2, cnt + 1, cb id sd s)
    else if sz =? 0 then RET (default m1 (perf_skip_all (Some m1)).2, cnt, s)
    else RET (perf_skip_record m1 (mkHdr t mi sz), cnt, s)).
Proof.
  intros Hm Hu Ht Hmi Hsz. destruct (unread_prefix m _ _ Hm Hu) as (Ha & Hm1 & Hu1).
  rewrite length_enc_header in *. exists (set_tail (data_tail m + 8) m).
  split_and!; try done || lia. unfold parse_turn. rewrite remaining_ok by done. unfold sizeof_header.
  rewrite (proj2 (Z.leb_gt _ _)), (proj2 (Z.ltb_ge _ _)) by lia.
  rewrite header_read by (done || lia).
  rewrite Hu, take_app_length' by (by rewrite length_enc_header).
  rewrite header_of_enc by done. done.
Qed.

Lemma read_sample_fields m rip rpid rtid raddr rest sd :
  ring_ok m ->
  unread m = le_bytes 8 rip ++ le_bytes 4 rpid ++ le_bytes 4 rtid ++ le_bytes 8 raddr ++ rest ->
  0 <= rip < 2 ^ 64 -> 0 <= rpid < 2 ^ 32 -> 0 <= rtid < 2 ^ 32 -> 0 <= raddr < 2 ^ 64 ->
  exists m', ring_ok m' /\ unread m' = rest /\ advanced m m' /\
    forall st, has_bit st PERF_SAMPLE_IP = true -> has_bit st PERF_SAMPLE_TID = true ->
    has_bit st PERF_SAMPLE_ADDR = true ->
    perf_read_record_sample m st sd =
      (if has_bit st PERF_SAMPLE_CPU then
         r ← COPY_SAMPLE_DATA m' 4; let '(v, m'') := r in
         RET (mkSample rip rpid rtid raddr v (isPrecise sd), m'')
       else RET (mkSample rip rpid rtid raddr (cpu sd) (isPrecise sd), m')).
Proof.
  intros Hm Hu Hi Hp Ht Ha.
  destruct (copy_field m 8 rip _ Hm Hu) as (E1 & Hm1 & Hu1); [done|].
  destruct (copy_field _ 4 rpid _ Hm1 Hu1) as (E2 & Hm2 & Hu2); [done|].
  destruct (copy_field _ 4 rtid _ Hm2 Hu2) as (E3 & Hm3 & Hu3); [done|].
  destruct (copy_field _ 8 raddr _ Hm3 Hu3) as (E4 & Hm4 & Hu4); [done|].
  eexists. split; [exact Hm4|]. split; [exact Hu4|]. split.
  { eapply advanced_trans; [eapply (copy_advanced m 8); [done|lia|exact E1]|].
    eapply advanced_trans; [eapply (copy_advanced _ 4); [done|lia|exact E2]|].
    eapply advanced_trans; [eapply (copy_advanced _ 4); [done|lia|exact E3]|].
    eapply (copy_advanced _ 8); [done|lia|exact E4]. }
  intros st B1 B2 B3. unfold perf_read_record_sample. rewrite B1, B2, B3.
  change (Z.of_nat 8) with 8 in *. change (Z.of_nat 4) with 4 in *.
  rewrite E1. cbn [mbind exc_bind]. rewrite E2. cbn [mbind exc_bind]. rewrite E3. cbn [mbind exc_bind].
  rewrite E4. cbn [mbind exc_bind]. done.
Qed.

(** ** The samples of a stream of bytes

    What the reader should make of the bytes of a ring, for a sample type: where the fields of a
    record lie is given by the type, and a record that is not a sample is as long as its
    header says. [None] is a sample that is cut off by the end. *)
Definition field_length (st bit : Z) (n : nat) : nat := if has_bit st bit then n else 0.
Definition tid_offset (st : Z) : nat := field_length st PERF_SAMPLE_IP 8.
Definition addr_offset (st : Z) : nat := tid_offset st + field_length st PERF_SAMPLE_TID 8.
Definition cpu_offset (st : Z) : nat := addr_offset st + field_length st PERF_SAMPLE_ADDR 8.
Definition sample_length (st : Z) : nat := cpu_offset st + field_length st PERF_SAMPLE_CPU 4.

Definition field_at (st bit : Z) (off n : nat) (body : list byte) : Z :=
  le_val (take (field_length st bit n) (drop off body)).

Definition sample_at (st misc : Z) (body : list byte) : perf_sample_data_t :=
  mkSample (field_at st PERF_SAMPLE_IP 0 8 body)
    (field_at st PERF_SAMPLE_TID (tid_offset st) 4 body) (field_at st PERF_SAMPLE_TID (tid_offset st + 4) 4 body)
    (field_at st PERF_SAMPLE_ADDR (addr_offset st) 8 body) (field_at st PERF_SAMPLE_CPU (cpu_offset st) 4 body)
    (negb (Z.land misc PERF_RECORD_MISC_EXACT_IP =? 0)).

(** Every record takes at least one byte: [fuel] is the number of bytes. *)
Fixpoint samples_from (fuel : nat) (st : Z) (bs : list byte) : option (list perf_sample_data_t) :=
  match fuel with
  | O => Some []
  | Datatypes.S fuel' =>
      if (length bs <? 8)%nat then Some []
      else
        let h := header_of (take 8 bs) in
        let body := drop 8 bs in
        if h_type h =? PERF_RECORD_SAMPLE then
          if (length body <? sample_length st)%nat then None
          else cons (sample_at st (h_misc h) body) <$> samples_from fuel' st (drop (sample_length st) body)
        else if h_size h =? 0 then Some []
        else samples_from fuel' st (drop (Z.to_nat (h_size h)) bs)
  end.
Definition samples_in (st : Z) (bs : list byte) : option (list perf_sample_data_t) := samples_from (length bs) st bs.

(** Reading [n] bytes that lie [k] bytes behind the tail. *)
Definition at_offset (m : perf_mmap_t) (k : nat) : perf_mmap_t := set_tail (data_tail m + Z.of_nat k) m.

Lemma copy_at m (k n : nat) :
  ring_ok m -> (k <= avail m)%nat ->
  COPY_SAMPLE_DATA (at_offset m k) (Z.of_nat n) =
    if (avail m <? k + n)%nat then EXC
    else RET (le_val (take n (drop k (unread m))), at_offset m (k + n)).
Proof.
  intros Hm Hk. destruct (unread_drop m (Z.of_nat k) Hm) as [Hm' Hu]; [lia|]. rewrite Nat2Z.id in Hu.
  assert (avail (at_offset m k) = avail m - k)%nat as Ha
    by (rewrite <- !length_unread; unfold at_offset; rewrite Hu, length_drop; done).
  destruct (Nat.ltb_spec (avail m) (k + n)).
  - unfold COPY_SAMPLE_DATA, at_offset in *. rewrite read_few by (done || lia). done.
  - unfold at_offset in *. rewrite copy_ok by (done || lia). rewrite Hu, Nat2Z.id. do 2 f_equal.
    unfold set_tail. cbn [data_head data_tail mm_data]. f_equal. lia.
Qed.

(** The reader reads the fields where the type puts them. *)
Lemma read_record_layout m st p :
  ring_ok m ->
  perf_read_record_sample m st (mkSample 0 0 0 0 0 p) =
    if (avail m <? sample_length st)%nat then EXC
    else RET (mkSample (field_at st PERF_SAMPLE_IP 0 8 (unread m))
      (field_at st PERF_SAMPLE_TID (tid_offset st) 4 (unread m)) (field_at st PERF_SAMPLE_TID (tid_offset st + 4) 4 (unread m))
      (field_at st PERF_SAMPLE_ADDR (addr_offset st) 8 (unread m)) (field_at st PERF_SAMPLE_CPU (cpu_offset st) 4 (unread m)) p,
      at_offset m (sample_length st)).
Proof.
  intros Hm. assert (E0 : at_offset m 0 = m) by (unfold at_offset; rewrite Z.add_0_r; by destruct m).
  unfold perf_read_record_sample.
  unfold sample_length, cpu_offset, addr_offset, tid_offset, field_at, field_length.
  change 8 with (Z.of_nat 8). change 4 with (Z.of_nat 4).
  destruct (has_bit st PERF_SAMPLE_IP), (has_bit st PERF_SAMPLE_TID), (has_bit st PERF_SAMPLE_ADDR), (has_bit st PERF_SAMPLE_CPU);
    cbn [mbind exc_bind ip pid tid addr cpu isPrecise Nat.add].
  all: try replace (COPY_SAMPLE_DATA m) with (COPY_SAMPLE_DATA (at_offset m 0)) by (by rewrite E0).
  all: repeat (rewrite copy_at by (done || lia); cbn [Nat.add];
    match goal with |- context [if (?a <? ?k)%nat then @EXC (Z * perf_mmap_t) else _] => destruct (Nat.ltb_spec a k) end;
    cbn [mbind exc_bind ip pid tid addr cpu isPrecise Nat.add]).
  all: try (match goal with |- context [(?a <? ?k)%nat] => destruct (Nat.ltb_spec a k); first [lia|done] end).
  all: first [done|by rewrite E0].
Qed.

(** The callback run on a list of samples, in order. *)
Definition deliver {S} (cb : Z -> perf_sample_data_t -> S -> S) (id : Z) (sds : list perf_sample_data_t)
    (s : S) : S := foldl (fun s sd => cb id sd s) s sds.

Lemma samples_short fuel st bs : (length bs < 8)%nat -> samples_from fuel st bs = Some [].
Proof. intros Hl. destruct fuel; [done|]. cbn [samples_from]. by rewrite (proj2 (Nat.ltb_lt _ _)). Qed.

(** The loop calls the callback on the samples of the unread bytes, in order; it fails when one is cut off. *)
Lemma parse_loop_samples {S} (cb : Z -> perf_sample_data_t -> S -> S) id st fuel n m cnt s :
  ring_ok m -> (avail m < fuel)%nat -> (avail m <= n)%nat ->
  exists m', unread m' = [] /\ ring_ok m' /\
    parse_loop cb fuel id st m cnt s = Some (
      match samples_from n st (unread m) with
      | Some sds => RET (m', cnt + Z.of_nat (length sds), deliver cb id sds s)
      | None => EXC
      end).
Proof.
  revert n m cnt s; induction fuel as [|fuel IH]; intros n m cnt s Hm Hf Hn; [lia|]. cbn [parse_loop].
  destruct (parse_turn cb id st m cnt s) as [[[m1 c1] s1]|x] eqn:E.
  - pose proof (parse_turn_end _ _ _ _ _ _ _ _ _ Hm E) as (Hu & Hm1 & -> & ->). exists m1. split_and!; [done..|].
    rewrite samples_short; [by rewrite Z.add_0_r|]. rewrite length_unread. revert E. unfold parse_turn. rewrite remaining_ok by done.
    unfold sizeof_header. destruct (Z.leb_spec (Z.of_nat (avail m)) 0); [lia|]. destruct (Z.ltb_spec (Z.of_nat (avail m)) 8); [lia|done].
  - pose proof E as E'. revert E. unfold parse_turn. rewrite remaining_ok by done. unfold sizeof_header.
    destruct (Z.leb_spec (Z.of_nat (avail m)) 0); [done|]. destruct (Z.ltb_spec (Z.of_nat (avail m)) 8); [done|].
    rewrite header_read by (done || lia). cbn [assert_exc mbind exc_bind].
    destruct n as [|n]; [lia|]. cbn [samples_from]. rewrite length_unread, (proj2 (Nat.ltb_ge _ _)) by lia.
    pose proof (header_of_size (take 8 (unread m))) as Hsz.
    generalize dependent (header_of (take 8 (unread m))). intros hdr Hsz.
    destruct (unread_drop m 8 Hm) as [Hm1 Hu1]; [lia|]. change (Z.to_nat 8) with 8%nat in Hu1.
    assert (Ha1 : avail (set_tail (data_tail m + 8) m) = (avail m - 8)%nat) by (by rewrite <- !length_unread, Hu1, length_drop).
    destruct (Z.eqb_spec (h_type hdr) PERF_RECORD_SAMPLE).
    + rewrite read_record_layout by done. rewrite Hu1, length_drop, length_unread, Ha1.
      destruct (Nat.ltb_spec (avail m - 8) (sample_length st)); intros [= <-].
      { destruct (drained_ok m Hm). by exists (set_tail (data_head m) m). }
      destruct (unread_drop _ (Z.of_nat (sample_length st)) Hm1) as [Hm2 Hu2]; [lia|].
      rewrite Nat2Z.id, Hu1 in Hu2. change (set_tail _ _) with (at_offset (set_tail (data_tail m + 8) m) (sample_length st)) in Hm2, Hu2.
      assert (avail (at_offset (set_tail (data_tail m + 8) m) (sample_length st)) <= avail m - 8)%nat
        by (rewrite <- length_unread, Hu2, !length_drop, length_unread; lia).
      cbn [mbind exc_bind].
      destruct (IH n _ (cnt + 1) (cb id (sample_at st (h_misc hdr) (drop 8 (unread m))) s) Hm2) as (m' & Hu' & Hm' & E3); [lia..|].
      exists m'. split_and!; [done..|]. etrans; [exact E3|]. rewrite Hu2.
      destruct (samples_from n st (drop (sample_length st) (drop 8 (unread m)))) as [sds|]; [|done].
      cbn [fmap option_fmap option_map length]. rewrite Nat2Z.inj_succ, <- Z.add_1_l, Z.add_assoc. done.
    + destruct (Z.eqb_spec (h_size hdr) 0).
      * rewrite skip_all_ok by done. cbn. intros [= <-]. destruct (drained_ok m Hm) as [Hd Hud].
        assert (avail (set_tail (data_head m) m) = 0%nat) as Hz by (by rewrite <- length_unread, Hud).
        destruct (IH n (set_tail (data_head m) m) cnt s Hd) as (m' & Hu' & Hm' & E3); [lia..|].
        exists m'. split_and!; [done..|]. etrans; [exact E3|]. rewrite Hud, samples_short by (cbn; lia). done.
      * rewrite skip_record_ok by (done || lia). intros [= <-]. set (k := Z.min _ _).
        destruct (unread_drop m k Hm) as [Hm2 Hu2]; [subst k; lia|].
        assert (avail (set_tail (data_tail m + k) m) = avail m - Z.to_nat k)%nat as Ha2
          by (by rewrite <- !length_unread, Hu2, length_drop).
        destruct (IH n _ cnt s Hm2) as (m' & Hu' & Hm' & E3); [subst k; lia..|].
        exists m'. split_and!; [done..|]. etrans; [exact E3|]. rewrite Hu2.
        assert (drop (Z.to_nat k) (unread m) = drop (Z.to_nat (h_size hdr)) (unread m)) as ->; [|done].
        subst k. destruct (Z.le_gt_cases (h_size hdr) (Z.of_nat (avail m))); [by rewrite Z.min_l|].
        rewrite Z.min_r, !drop_ge by (rewrite ?length_unread; lia). done.
Qed.

Lemma parse_turn_record {S} (cb : Z -> perf_sample_data_t -> S -> S) id r m rest cnt s :
  ring_ok m -> record_ok r -> unread m = enc_record r ++ rest ->
  exists m', ring_ok m' /\ unread m' = rest /\ (avail m' < avail m)%nat /\
    parse_turn cb id IP_TID_ADDR m cnt s = inr (RET
      (m', cnt + Z.of_nat (length (option_list (sample_of r))), deliver cb id (option_list (sample_of r)) s)).
Proof.
  intros Hm Hr Hu. destruct r as [mi rip rpid rtid raddr|t mi body]; cbn [enc_record record_ok] in *;
  rewrite <- ?app_assoc in Hu.
  - destruct Hr as (Hmi & Hi & Hp & Ht & Ha).
    destruct (parse_turn_header cb id IP_TID_ADDR m _ _ _ _ cnt s Hm Hu) as
      (m1 & -> & Hm1 & Hu1 & H8 & E); [unfold PERF_RECORD_SAMPLE; lia|lia|lia|].
    destruct (read_sample_fields _ rip rpid rtid raddr rest
      (mkSample 0 0 0 0 0 (negb (Z.land mi PERF_RECORD_MISC_EXACT_IP =? 0))) Hm1 Hu1)
      as (m' & Hm' & Hu' & Hadv & Hrd); [done..|].
    exists m'. split_and!; [done|done| |].
    + apply advanced_avail in Hadv. unfold avail in *. simpl in Hadv. lia.
    + rewrite E. change (PERF_RECORD_SAMPLE =? PERF_RECORD_SAMPLE) with true. cbn iota zeta.
      rewrite Hrd by reflexivity. reflexivity.
  - destruct Hr as (Ht & Hne & Hmi & Hsz).
    destruct (parse_turn_header cb id IP_TID_ADDR m _ _ _ _ cnt s Hm Hu) as
      (m1 & -> & Hm1 & Hu1 & H8 & E); [lia..|].
    destruct (unread_prefix m (enc_header t mi (8 + Z.of_nat (length body)) ++ body) rest Hm)
      as (Hlen & Hm' & Hu'); [by rewrite <- app_assoc|].
    rewrite length_app, length_enc_header in *.
    eexists. split; [exact Hm'|]. split; [exact Hu'|]. split; [unfold avail in *; simpl; lia|].
    rewrite E. rewrite (proj2 (Z.eqb_neq _ _) Hne), (proj2 (Z.eqb_neq _ 0)) by lia.
    rewrite skip_record_ok by (simpl; done || lia). cbn [h_size sample_of option_list deliver foldl].
    change (Z.of_nat (length [])) with 0. rewrite Z.add_0_r. do 6 f_equal. lia.
Qed.

Lemma parse_loop_records {S} (cb : Z -> perf_sample_data_t -> S -> S) id rs fuel m cnt s :
  ring_ok m -> Forall record_ok rs -> unread m = concat (enc_record <$> rs) -> (length rs < fuel)%nat ->
  exists m', ring_ok m' /\ unread m' = [] /\
    parse_loop cb fuel id IP_TID_ADDR m cnt s =
      Some (RET (m', cnt + Z.of_nat (length (omap sample_of rs)), deliver cb id (omap sample_of rs) s)).
Proof.
  intros Hm Hrs. revert fuel m cnt s Hm; induction Hrs as [|r rs Hr Hrs IH]; intros [|fuel] m cnt s Hm Hu Hf;
  try (simpl in Hf; lia); cbn [parse_loop].
  - assert (avail m = 0%nat) as Ha by (by rewrite <- length_unread, Hu).
    assert (parse_turn cb id IP_TID_ADDR m cnt s = inl (m, cnt, s)) as ->.
    { unfold parse_turn. rewrite remaining_ok by done. rewrite Ha. done. }
    exists m. split_and!; [done|done|]. simpl. by rewrite Z.add_0_r.
  - rewrite fmap_cons in Hu. cbn [concat] in Hu.
    destruct (parse_turn_record cb id r m _ cnt s Hm Hr Hu) as (m1 & Hm1 & Hu1 & _ & ->).
    destruct (IH fuel m1 (cnt + Z.of_nat (length (option_list (sample_of r)))) (deliver cb id (option_list (sample_of r)) s) Hm1 Hu1)
      as (m' & Hm' & Hu' & ->); [simpl in Hf; lia|].
    exists m'. split_and!; [done|done|].
    assert (omap sample_of (r :: rs) = option_list (sample_of r) ++ omap sample_of rs) as ->
      by (simpl; by destruct (sample_of r)).
    unfold deliver. rewrite length_app, Nat2Z.inj_add, Z.add_assoc, foldl_app. done.
Qed.

(** ** The kernel's own layout of a sample *)

(** The body of a sample record, the fields in the order [perf_event_open(2)]
    gives for the mask that [perf_attr_init] builds from [PERF_SAMPLE_TID]:
    ip, pid and tid, time, addr, cpu and a reserved word, period, and a
    call chain without entries. *)
Definition kernel_sample (rip rpid rtid time raddr rcpu period : Z) : list byte :=
  le_bytes 8 rip ++ le_bytes 4 rpid ++ le_bytes 4 rtid ++ le_bytes 8 time ++ le_bytes 8 raddr ++
  le_bytes 4 rcpu ++ le_bytes 4 0 ++ le_bytes 8 period ++ le_bytes 8 0.

Lemma le_bytes_8_split v : le_bytes 8 v = le_bytes 4 (v mod 2 ^ 32) ++ le_bytes 4 (v / 2 ^ 32).
Proof.
  change 8%nat with (4 + 4)%nat. rewrite le_bytes_app. f_equal.
  apply le_val_inj; [by rewrite !length_le_bytes|]. rewrite !le_val_le_bytes.
  by rewrite Zmod_mod.
Qed.

(** ** The handler *)
(** Setting all: it succeeds when every descriptor is open, and then they are all
    in the state asked for, and the others as they were. *)
Lemma perf_set_all_ok on l k :
  Forall (fun e => ev_fd e ∈ dom k) l -> Forall (fun e => 0 <= ev_fd e) l ->
  exists k', perf_set_all on l k = (true, k') /\ dom k' = dom k /\
    forall fd, k' !! fd = if decide (fd ∈ (ev_fd <$> l)) then Some on else k !! fd.
Proof.
  revert k; induction l as [|e l IH]; intros k Ho Hp; cbn [perf_set_all].
  - exists k. split_and!; [done|done|]. intros fd. rewrite decide_False; [done|apply not_elem_of_nil].
  - apply Forall_cons in Ho as [He Ho]. apply Forall_cons in Hp as [Hpe Hp].
    rewrite (proj2 (Z.ltb_ge _ _)) by done. unfold ioctl_set.
    apply elem_of_dom in He as [b Hb]. rewrite Hb. cbn iota. change (0 <? 0) with false. cbn iota.
    assert (dom (<[ev_fd e := on]> k) = dom k) as Hd.
    { apply elem_of_dom_2 in Hb. rewrite dom_insert_L. by apply subseteq_union_1_L, singleton_subseteq_l. }
    destruct (IH (<[ev_fd e := on]> k)) as (k' & -> & Hdk & Hk'); [by rewrite Hd|done|].
    exists k'. split_and!; [done|congruence|]. intros fd. rewrite Hk', fmap_cons.
    destruct (decide (fd = ev_fd e)) as [->|Hne].
    + rewrite lookup_insert_eq, (decide_True (P := ev_fd e ∈ ev_fd e :: _)) by (by left).
      by destruct (decide _).
    + rewrite lookup_insert_ne by done.
      destruct (decide (fd ∈ (ev_fd <$> l))), (decide (fd ∈ ev_fd e :: (ev_fd <$> l))); try done;
      exfalso; rewrite elem_of_cons in *; tauto.
Qed.

Lemma restart_ok fd k :
  fd ∈ dom k -> 0 <= fd -> restart_perf_event fd k = (true, <[fd := true]> k).
Proof.
  intros Hd Hp. unfold restart_perf_event, ioctl_reset, ioctl_set.
  rewrite (proj2 (Z.ltb_ge _ _)) by done. apply elem_of_dom in Hd as [b Hb].
  rewrite Hb. cbn iota. change (0 <? 0) with false. cbn iota. rewrite Hb. done.
Qed.

(** The thread's events, all on open descriptors. *)
Definition events_open (l : list perf_event_thread_t) (k : kfds) : Prop :=
  Forall (fun e => ev_fd e ∈ dom k) l /\ Forall (fun e => 0 <= ev_fd e) l.

(** The events with the ring of the one at [i] replaced. *)
Definition with_ring (l : list perf_event_thread_t) (i : nat) (e : perf_event_thread_t) (m : perf_mmap_t) :=
  <[i := mkEvent (ev_id e) (ev_fd e) m (ev_sample_type e)]> l.

Lemma with_ring_fds l i e m : l !! i = Some e -> ev_fd <$> with_ring l i e m = ev_fd <$> l.
Proof.
  intros Hi. unfold with_ring. rewrite list_fmap_insert. apply list_insert_id.
  by rewrite list_lookup_fmap, Hi.
Qed.

Lemma Forall_fd (P : Z -> Prop) l : Forall (fun e => P (ev_fd e)) l <-> Forall P (ev_fd <$> l).
Proof. by rewrite Forall_fmap. Qed.

Lemma events_open_fds l l' k k' :
  ev_fd <$> l' = ev_fd <$> l -> dom k' = dom k -> events_open l k -> events_open l' k'.
Proof.
  intros Hl Hd [H1 H2]. unfold events_open. rewrite Hd.
  rewrite (Forall_fd (fun fd => fd ∈ dom k)), (Forall_fd (fun fd => 0 <= fd)), Hl.
  by rewrite <- (Forall_fd (fun fd => fd ∈ dom k)), <- (Forall_fd (fun fd => 0 <= fd)).
Qed.

(** After the samples: the event is re-armed and all events are enabled. *)
Lemma handler_restarts l k k1 i e m :
  events_open l k -> l !! i = Some e -> dom k1 = dom k ->
  (forall fd, k1 !! fd = if decide (fd ∈ (ev_fd <$> l)) then Some false else k !! fd) ->
  restart_perf_event (ev_fd e) k1 = (true, <[ev_fd e := true]> k1) /\
  exists k2, perf_set_all true (with_ring l i e m) (<[ev_fd e := true]> k1) = (true, k2) /\
    forall fd, k2 !! fd = if decide (fd ∈ (ev_fd <$> l)) then Some true else k !! fd.
Proof.
  intros [Ho Hp] Hi Hd1 Hk1.
  assert (ev_fd e ∈ dom k1) as Hde by (rewrite Hd1; rewrite Forall_lookup in Ho; by eapply Ho).
  assert (0 <= ev_fd e) as Hpe by (rewrite Forall_lookup in Hp; by eapply Hp).
  split; [by apply restart_ok|].
  assert (dom (<[ev_fd e := true]> k1) = dom k) as Hd2.
  { rewrite dom_insert_L, <- Hd1. by apply subseteq_union_1_L, singleton_subseteq_l. }
  destruct (events_open_fds l (with_ring l i e m) k (<[ev_fd e := true]> k1)) as [Ho' Hp'];
    [by apply with_ring_fds|done|done|].
  destruct (perf_set_all_ok true _ _ Ho' Hp') as (k2 & E2 & _ & Hk2).
  exists k2. split; [done|]. intros fd. rewrite Hk2, with_ring_fds by done.
  destruct (decide (fd ∈ (ev_fd <$> l))) as [Hin|Hin]; [done|].
  rewrite lookup_insert_ne; [rewrite Hk1; by rewrite decide_False|].
  intros <-. apply Hin. apply list_elem_of_fmap. exists e. split; [done|]. by eapply list_elem_of_lookup_2.
Qed.

(** ** Properties *)

(** C32: The handler's loop ends on any contents of the ring, whatever sizes its
    headers claim (a record shorter than its header included): after at most one
    turn per unread byte it has consumed everything, unless an assertion of the
    record reader failed. *)
Theorem parse_loop_terminates {S} (cb : Z -> perf_sample_data_t -> S -> S) (id st : Z)
    (m : perf_mmap_t) (cnt : Z) (s : S) :
  ring_ok m ->
  exists r, parse_loop cb (length (unread m) + 1) id st m cnt s = Some r /\
    forall m' cnt' s', r = RET (m', cnt', s') -> unread m' = [] /\ ring_ok m'.
Proof. intros Hm. apply parse_loop_ends; [done|]. rewrite length_unread. lia. Qed.

Lemma parse_loop_terminates_witness :
  let m := mkMmap 12 0 (enc_header 2 0 3 ++ enc_header 9 0 8) in
  exists r, parse_loop (fun _ _ (n : nat) => n) 13 7 IP_TID_ADDR m 0 0%nat = Some r.
Proof.
  destruct (parse_loop_terminates (fun _ _ (n : nat) => n) 7 IP_TID_ADDR
    (mkMmap 12 0 (enc_header 2 0 3 ++ enc_header 9 0 8)) 0 0%nat) as (r & E & _).
  - split; [exists 4; split; [lia|reflexivity]|]. vm_compute. repeat split; congruence.
  - exists r. exact E.
Defined.

(** C33: Samples are decoded and delivered: when the sample type asks for the
    instruction pointer, the ids and the address only, the loop calls the
    callback with exactly the samples of the stream, in order, each field the value
    the kernel stored, and skips records of other kinds whole. *)
Theorem perf_records_delivered {S} (cb : Z -> perf_sample_data_t -> S -> S) (id : Z)
    (rs : list record) (m : perf_mmap_t) (s : S) :
  ring_ok m -> Forall record_ok rs -> unread m = concat (enc_record <$> rs) ->
  exists m', ring_ok m' /\ unread m' = [] /\
    parse_loop cb (length rs + 1) id IP_TID_ADDR m 0 s =
      Some (RET (m', Z.of_nat (length (omap sample_of rs)), deliver cb id (omap sample_of rs) s)).
Proof. intros Hm Hrs Hu. apply (parse_loop_records cb id rs _ m 0 s); [done..|lia]. Qed.

Lemma perf_records_delivered_witness :
  let rs := [OtherRec 2 0 [Init.Byte.x01]; SampleRec 0 5 6 7 8] in
  let m := mkMmap 41 0 (concat (enc_record <$> rs) ++ replicate 23 Init.Byte.x00) in
  exists m', unread m' = [] /\
    parse_loop (fun _ sd l => sd :: l) 3 1 IP_TID_ADDR m 0 [] =
      Some (RET (m', 1, [mkSample 5 6 7 8 0 false])).
Proof.
  destruct (perf_records_delivered (fun _ sd l => sd :: l) 1
    [OtherRec 2 0 [Init.Byte.x01]; SampleRec 0 5 6 7 8]
    (mkMmap 41 0 (concat (enc_record <$> [OtherRec 2 0 [Init.Byte.x01]; SampleRec 0 5 6 7 8])
       ++ replicate 23 Init.Byte.x00)) []) as (m' & _ & Hu & E).
  - split; [exists 6; split; [lia|reflexivity]|]. vm_compute. repeat split; congruence.
  - repeat constructor; done.
  - vm_compute. reflexivity.
  - exists m'. split; [exact Hu|exact E].
Defined.

(** C34: With the attributes the program sets up, samples are misread: the kernel puts the time
    before the address and a reserved word, the period and the call chain after
    the processor, none of which the reader knows.  So the address it reports is the
    time and the processor it reports is the low half of the address; what is left
    of the record is then taken for a header of size 0, and the whole rest of the ring,
    further samples included, is thrown away. *)
Theorem perf_real_layout {S} (cb : Z -> perf_sample_data_t -> S -> S) (attr : perf_event_attr)
    (threshold id misc rip rpid rtid time raddr rcpu period : Z) (rest : list byte)
    (m : perf_mmap_t) (s : S) :
  ring_ok m ->
  unread m = enc_header PERF_RECORD_SAMPLE misc 64 ++
             kernel_sample rip rpid rtid time raddr rcpu period ++ rest ->
  0 <= misc < 2 ^ 16 -> 0 <= rip < 2 ^ 64 -> 0 <= rpid < 2 ^ 32 -> 0 <= rtid < 2 ^ 32 ->
  0 <= time < 2 ^ 64 -> 0 <= raddr < 2 ^ 64 -> raddr / 2 ^ 32 <> PERF_RECORD_SAMPLE ->
  0 <= rcpu < 2 ^ 16 ->
  exists m', unread m' = [] /\
    parse_loop cb 3 id (sample_type (perf_attr_init attr threshold PERF_SAMPLE_TID)) m 0 s =
      Some (RET (m', 1, cb id (mkSample rip rpid rtid time (raddr mod 2 ^ 32)
        (negb (Z.land misc PERF_RECORD_MISC_EXACT_IP =? 0))) s)).
Proof.
  intros Hm Hu Hmi Hi Hp Ht Htm Ha Hne Hc.
  change (sample_type (perf_attr_init attr threshold PERF_SAMPLE_TID)) with 431.
  assert (0 <= raddr / 2 ^ 32 < 2 ^ 32) as Hhi
    by (split; [apply Z.div_pos; lia|apply Z.div_lt_upper_bound; lia]).
  destruct (parse_turn_header cb id 431 m _ _ _ _ 0 s Hm Hu) as (m1 & -> & Hm1 & Hu1 & H8 & E);
    [unfold PERF_RECORD_SAMPLE; lia|lia|lia|].
  unfold kernel_sample in Hu1. rewrite <- !app_assoc in Hu1.
  destruct (read_sample_fields _ rip rpid rtid time _
    (mkSample 0 0 0 0 0 (negb (Z.land misc PERF_RECORD_MISC_EXACT_IP =? 0))) Hm1 Hu1)
    as (m2 & Hm2 & Hu2 & _ & Hrd); [done..|].
  rewrite le_bytes_8_split, <- app_assoc in Hu2.
  destruct (copy_field m2 4 (raddr mod 2 ^ 32) _ Hm2 Hu2) as (E3 & Hm3 & Hu3);
    [apply Z.mod_pos_bound; lia|].
  assert (le_bytes 4 rcpu = le_bytes 2 rcpu ++ le_bytes 2 0) as Ec.
  { change 4%nat with (2 + 2)%nat. rewrite le_bytes_app. change (256 ^ Z.of_nat 2) with (2 ^ 16).
    by rewrite Z.div_small. }
  rewrite Ec, <- (app_assoc (le_bytes 2 rcpu)), (app_assoc (le_bytes 4 (raddr / _))),
    (app_assoc (_ ++ _) (le_bytes 2 0)), <- (app_assoc (le_bytes 4 (raddr / _))) in Hu3.
  fold (enc_header (raddr / 2 ^ 32) rcpu 0) in Hu3.
  destruct (parse_turn_header cb id 431 _ (raddr / 2 ^ 32) rcpu 0 _ 1
    (cb id (mkSample rip rpid rtid time (raddr mod 2 ^ 32)
       (negb (Z.land misc PERF_RECORD_MISC_EXACT_IP =? 0))) s) Hm3 Hu3) as (m4 & -> & Hm4 & Hu4 & H84 & E4);
    [lia..|].
  rewrite (proj2 (Z.eqb_neq _ _) Hne), skip_all_ok in E4 by done.
  destruct (drained_ok _ Hm4) as [Hm5 Hu5].
  eexists. split; [exact Hu5|]. cbn [parse_loop]. rewrite E.
  change (PERF_RECORD_SAMPLE =? PERF_RECORD_SAMPLE) with true. cbn iota zeta.
  rewrite Hrd by reflexivity. change (has_bit 431 PERF_SAMPLE_CPU) with true. cbn iota.
  change (Z.of_nat 4) with 4 in *. rewrite E3. cbn [mbind exc_bind]. change (0 + 1) with 1.
  cbn [isPrecise]. rewrite E4. change (0 =? 0) with true.
  cbn [snd default]. unfold Datatypes.id. cbn iota. unfold parse_turn at 1. rewrite remaining_ok by done.
  assert (forall m', ring_ok m' -> unread m' = [] -> avail m' = 0%nat) as Hz.
  { intros m' _ H. by rewrite <- length_unread, H. }
  rewrite (Hz _ Hm5 Hu5). done.
Qed.

Lemma perf_real_layout_witness :
  let m := mkMmap 64 0 (enc_header PERF_RECORD_SAMPLE 0 64 ++ kernel_sample 1 2 3 4 5 6 7) in
  let attr := mkAttr 0 0 0 0 0 0 0 0 0 0 0 in
  exists m', unread m' = [] /\
    parse_loop (fun _ sd l => sd :: l) 3 1
      (sample_type (perf_attr_init attr 1000 PERF_SAMPLE_TID)) m 0 [] =
      Some (RET (m', 1, [mkSample 1 2 3 4 5 false])).
Proof.
  refine (perf_real_layout (fun _ sd l => sd :: l) (mkAttr 0 0 0 0 0 0 0 0 0 0 0) 1000 1 0 1 2 3 4 5 6 7 []
    (mkMmap 64 0 (enc_header PERF_RECORD_SAMPLE 0 64 ++ kernel_sample 1 2 3 4 5 6 7)) [] _ _ _ _ _ _ _ _ _ _);
  try (split; [exists 6; split; [lia|reflexivity]|]; vm_compute; repeat split; congruence); try lia.
  - vm_compute. reflexivity.
  - vm_compute. congruence.
Defined.

(** C1: The handler's contract: for a signal from the kernel on one of the thread's
    events it always comes back or an assertion fails. What it delivers to the callback are
    the samples that the bytes of that event's ring hold for the event's sample type, in order, each field from its
    place in the record; there may be at most one, and none that is cut off by the end, otherwise an assertion
    fails. When it comes back the ring of the event is
    empty, every event of the thread is enabled again, other descriptors are untouched, and the
    re-entrance flag is down. (The layout is the reader's own: where the kernel's is another one,
    [perf_real_layout] says what is lost.) *)
Theorem perf_event_handler_contract {S} (cb : Z -> perf_sample_data_t -> S -> S)
    (l : list perf_event_thread_t) (k : kfds) (si_code si_fd : Z) (i : nat)
    (e : perf_event_thread_t) (s : S) :
  events_open l k -> 0 <= si_code -> find_fd si_fd l = Some (i, e) -> ring_ok (ev_mmap e) ->
  let fuel := (length (unread (ev_mmap e)) + 1)%nat in
  let result := perf_event_handler cb fuel si_code si_fd (mkTD false (Some l)) k s in
  match samples_in (ev_sample_type e) (unread (ev_mmap e)) with
  | Some sds =>
      if (length sds <? 2)%nat then
        exists m k', result = Some (RET (mkTD false (Some (with_ring l i e m)), k', deliver cb (ev_id e) sds s)) /\
          unread m = [] /\
          forall fd, k' !! fd = if decide (fd ∈ (ev_fd <$> l)) then Some true else k !! fd
      else result = Some EXC
  | None => result = Some EXC
  end.
Proof.
  intros [Ho Hp] Hc Hf Hm fuel result. unfold result, samples_in. clear result.
  destruct (parse_loop_samples cb (ev_id e) (ev_sample_type e) fuel (length (unread (ev_mmap e))) (ev_mmap e) 0 s Hm)
    as (m & Hu & _ & E); [unfold fuel; rewrite length_unread; lia..|].
  destruct (perf_set_all_ok false l k Ho Hp) as (k1 & E1 & Hd1 & Hk1).
  unfold perf_event_handler, perf_stop_all. cbn [profiler_safe_enter inside_agent perf_state negb].
  rewrite E1. cbn [assert_do fst snd]. rewrite (proj2 (Z.ltb_ge _ _)) by done. rewrite Hf, E. clear E.
  cbn [mbind option_bind]. destruct (samples_from _ _ _) as [sds|]; [|done]. cbn [mbind exc_bind].
  rewrite Z.add_0_l. destruct (Nat.ltb_spec (length sds) 2) as [Hlt|Hge];
    [rewrite (proj2 (Z.ltb_lt _ 2)) by lia|by rewrite (proj2 (Z.ltb_ge _ 2)) by lia].
  apply list_find_Some in Hf as (Hi & _ & _).
  destruct (handler_restarts l k k1 i e m) as (Er & k2 & E2 & Hk2); [by split|done..|].
  cbn [assert_exc mbind exc_bind]. rewrite Er. cbn [assert_do fst snd mbind exc_bind].
  unfold perf_start_all. fold (with_ring l i e m). rewrite E2. cbn [assert_do fst snd mbind exc_bind].
  by exists m, k2.
Qed.

(** A ring with a record of another kind and a sample. *)
Lemma perf_event_handler_contract_witness :
  let m := mkMmap 41 0 (concat (enc_record <$> [OtherRec 2 0 [Init.Byte.x01]; SampleRec 0 5 6 7 8]) ++ replicate 23 Init.Byte.x00) in
  let e := mkEvent 1 5 m IP_TID_ADDR in
  exists m' k', perf_event_handler (fun id sd l => (id, sd) :: l) 42 0 5 (mkTD false (Some [e])) {[5 := true]} [] =
      Some (RET (mkTD false (Some (with_ring [e] 0 e m')), k', [(1, mkSample 5 6 7 8 0 false)])) /\ unread m' = [].
Proof.
  intros m e.
  pose proof (perf_event_handler_contract (fun id sd l => (id, sd) :: l) [e] {[5 := true]} 0 5 0 e []) as H.
  destruct H as (m' & k' & E & Hu & _).
  - split; repeat constructor; by apply (bool_decide_unpack _).
  - lia.
  - reflexivity.
  - split; [exists 6; split; [lia|reflexivity]|]. vm_compute. repeat split; congruence.
  - exists m', k'. split; [exact E|exact Hu].
Defined.

(** A signal that arrives before the thread has its events leaves the
    re-entrance flag up: the handler returns early without lowering it, and
    from then on it drops every signal of the thread, also when the events exist. *)
Theorem perf_event_handler_flag_leak {S} (cb : Z -> perf_sample_data_t -> S -> S) (fuel : nat)
    (code fd : Z) (k : kfds) (s : S) :
  exists td, perf_event_handler cb fuel code fd (mkTD false None) k s = Some (RET (td, k, s)) /\
    inside_agent td = true /\
    forall l fuel' code' fd' k' s',
      perf_event_handler cb fuel' code' fd' (mkTD (inside_agent td) (Some l)) k' s' =
        Some (RET (mkTD true (Some l), k', s')).
Proof. eexists. split; [reflexivity|]. split; [done|]. intros. reflexivity. Qed.
