(* ===== verification/Metrics.v ===== *)
(** * Metrics

    Models [src/src/profiler/metrics.cpp] and [metrics.h] (metric descriptions and
    the metric values of a context), [welford.h] (running mean and variance) and
    [SetupWatermarkMetric] of [profiler.cpp].

    Doubles are a parameter, the class [DoubleOps]; its instance [spec_float] is
    IEEE binary64, and the instance [Q] is the exact arithmetic in which the
    running mean and variance are shown to be the mean and the variance. *)
From stdpp Require Import base numbers list gmap strings.
From Stdlib Require Import ZArith Lia QArith Qfield Floats.SpecFloat.
From S2P Require Import Prelude.
Local Open Scope Z_scope.

(** ** Doubles *)
Class DoubleOps (D : Type) := {
  d_of_Z : Z -> D;
  d_add : D -> D -> D;
  d_sub : D -> D -> D;
  d_mul : D -> D -> D;
  d_div : D -> D -> D;
}.

(** IEEE binary64, round to nearest even. *)
#[export] Instance double_ops : DoubleOps spec_float := {
  d_of_Z := fun z => binary_normalize 53 1024 z 0 false;
  d_add := SFadd 53 1024;
  d_sub := SFsub 53 1024;
  d_mul := SFmul 53 1024;
  d_div := SFdiv 53 1024;
}.

#[export] Instance exact_ops : DoubleOps Q := {
  d_of_Z := inject_Z;
  d_add := Qplus;
  d_sub := Qminus;
  d_mul := Qmult;
  d_div := Qdiv;
}.

(** ** Metric descriptions ([MetricInfoManager]) *)
Inductive metric_val_enum_t := METRIC_VAL_REAL | METRIC_VAL_INT.

Record metric_info_t := mkInfo {
  client_name : string;
  event_name : string;
  event_measure : string;
  threshold : Z;
  val_type : metric_val_enum_t;
}.

Definition registerMetric (info : metric_info_t) (l : list metric_info_t) : Z * list metric_info_t :=
  let l' := l ++ [info] in (i32 (Z.of_nat (length l') - 1), l').

Definition getMetricInfo (metric_idx : Z) (l : list metric_info_t) : option metric_info_t :=
  if (metric_idx <? 0) || (i32 (Z.of_nat (length l)) <=? metric_idx) then None
  else l !! Z.to_nat metric_idx.

Definition getNumMetrics (l : list metric_info_t) : Z := Z.of_nat (length l).

(** ** Metric values ([metric_val_t], [ContextMetrics]) *)
Section values.
Context {D : Type} `{DoubleOps D}.

Record metric_val_t := mkVal { m_i : Z; m_r : D; m_str : string }.

Definition zero_val : metric_val_t := mkVal 0 (d_of_Z 0) "".

(** [operator+=]: the string of the left operand stays. *)
Definition add_to (v1 v2 : metric_val_t) : metric_val_t :=
  mkVal (i64 (m_i v1 + m_i v2)) (d_add (m_r v1) (m_r v2)) (m_str v1).

(** [ContextMetrics::_val_list]. *)
Abbreviation ContextMetrics := (list metric_val_t).

(** [std::vector::resize]. *)
Definition resize (n : nat) (l : ContextMetrics) : ContextMetrics :=
  take n l ++ replicate (n - length l) zero_val.

(** The pointer returned is the index of an element of the list returned; [n] is
    the number of registered metrics. *)
Definition getMetricVal (n metric_idx : Z) (l : ContextMetrics) : option nat * ContextMetrics :=
  if (metric_idx <? 0) || (n <=? metric_idx) then (None, l)
  else if Z.of_nat (length l) <=? metric_idx
       then (Some (Z.to_nat metric_idx), resize (Z.to_nat metric_idx + 1) l)
       else (Some (Z.to_nat metric_idx), l).

Definition increment (n metric_idx : Z) (val : metric_val_t) (l : ContextMetrics)
  : bool * ContextMetrics :=
  match getMetricVal n metric_idx l with
  | (None, l') => (false, l')
  | (Some p, l') => (true, alter (fun v => add_to v val) p l')
  end.

Definition setMetricVal (n metric_idx : Z) (val : metric_val_t) (l : ContextMetrics)
  : bool * ContextMetrics :=
  match getMetricVal n metric_idx l with
  | (None, l') => (false, l')
  | (Some p, l') => (true, <[p := val]> l')
  end.

(** What a reader of metric [metric_idx] sees. *)
Definition valueOf (n metric_idx : Z) (l : ContextMetrics) : option metric_val_t :=
  match getMetricVal n metric_idx l with
  | (Some p, l') => l' !! p
  | (None, _) => None
  end.

(** ** [UpdateVarianceAndMean] ([welford.h]) *)
Record welford := mkW { w_mean : D; w_variance : D; w_M2 : D }.

Definition UpdateVarianceAndMean (sampleNum newValue : Z) (w : welford) : welford :=
  if sampleNum <? 2 then mkW (d_of_Z newValue) (d_of_Z 0) (d_of_Z 0)
  else
    let delta := d_sub (d_of_Z newValue) (w_mean w) in
    let mean := d_add (w_mean w) (d_div delta (d_of_Z sampleNum)) in
    let delta2 := d_sub (d_of_Z newValue) mean in
    let M2 := d_add (w_M2 w) (d_mul delta delta2) in
    mkW mean (d_div M2 (d_of_Z (sampleNum - 1))) M2.

(** The samples [xs], the first of which has number [k]. *)
Fixpoint welford_run (k : Z) (xs : list Z) (w : welford) : welford :=
  match xs with
  | [] => w
  | x :: xs' => welford_run (k + 1) xs' (UpdateVarianceAndMean k x w)
  end.
End values.
Arguments metric_val_t : clear implicits.
Arguments welford : clear implicits.
Abbreviation ContextMetrics D := (list (metric_val_t D)).

(** ** [SetupWatermarkMetric] ([profiler.cpp]) *)
Definition MAX_EVENTS : Z := 5.

(** The globals it fills: one map from event number to metric id per measure. *)
Record watermarks := mkWM {
  curWatermarkId : Z;
  sample_cnt_metric_id : Z;
  start_metric_id : gmap Z Z;
  end_metric_id : gmap Z Z;
  mean_metric_id : gmap Z Z;
  variance_metric_id : gmap Z Z;
  m2_metric_id : gmap Z Z;
  cv_metric_id : gmap Z Z;
}.

Definition SetupWatermarkMetric (client event : string) (event_threshold : Z)
    (s : watermarks * list metric_info_t) : exc (watermarks * list metric_info_t) :=
  let '(w, l) := s in
  let reg measure ty l :=
    registerMetric (mkInfo client event measure (u32 event_threshold) ty) l in
  let k := curWatermarkId w in
  if k =? MAX_EVENTS then EXC
  else if k =? 0 then
    let '(id, l) := reg "COUNT" METRIC_VAL_INT l in
    RET (mkWM (k + 1) id (start_metric_id w) (end_metric_id w) (mean_metric_id w)
           (variance_metric_id w) (m2_metric_id w) (cv_metric_id w), l)
  else
    let '(a, l) := reg "Start" METRIC_VAL_INT l in
    let '(b, l) := reg "End" METRIC_VAL_INT l in
    let '(c, l) := reg "MEAN" METRIC_VAL_REAL l in
    let '(d, l) := reg "VARIANCE" METRIC_VAL_REAL l in
    let '(e, l) := reg "M2" METRIC_VAL_REAL l in
    let '(f, l) := reg "CV" METRIC_VAL_REAL l in
    RET (mkWM (k + 1) (sample_cnt_metric_id w) (<[k := a]> (start_metric_id w))
           (<[k := b]> (end_metric_id w)) (<[k := c]> (mean_metric_id w))
           (<[k := d]> (variance_metric_id w)) (<[k := e]> (m2_metric_id w))
           (<[k := f]> (cv_metric_id w)), l).

(** The events in the order of the option string: name and threshold. *)
Fixpoint setup_all (client : string) (events : list (string * Z)) (s : watermarks * list metric_info_t)
  : exc (watermarks * list metric_info_t) :=
  match events with
  | [] => RET s
  | (ev, th) :: rest => s' ← SetupWatermarkMetric client ev th s; setup_all client rest s'
  end.

Definition no_watermarks : watermarks := mkWM 0 (-1) ∅ ∅ ∅ ∅ ∅ ∅.

(** ** Metric values: what the vector with its resizing stands for *)
Section value_lemmas.
Context {D : Type} `{DoubleOps D}.

(** A total map from metric ids to values. *)
Definition val_at (l : ContextMetrics D) (j : Z) : metric_val_t D := default zero_val (l !! Z.to_nat j).

Lemma resize_at n (l : ContextMetrics D) (j : nat) :
  (length l <= n)%nat -> default zero_val (resize n l !! j) = default zero_val (l !! j).
Proof.
  intros Hl. unfold resize. rewrite take_ge by lia.
  destruct (decide (j < length l)%nat) as [Hj|Hj].
  - by rewrite lookup_app_l.
  - rewrite lookup_app_r by lia. rewrite (lookup_ge_None_2 l) by lia.
    destruct (replicate _ _ !! _) as [v|] eqn:E; [|done].
    by apply lookup_replicate in E as [-> _].
Qed.

(** The element the pointer refers to exists, and no value has changed. *)
Lemma getMetricVal_spec n j (l : ContextMetrics D) :
  0 <= j < n ->
  exists l', getMetricVal n j l = (Some (Z.to_nat j), l') /\ (Z.to_nat j < length l')%nat /\
    forall i, val_at l' i = val_at l i.
Proof.
  intros Hj. unfold getMetricVal.
  rewrite (proj2 (Z.ltb_ge j 0)), (proj2 (Z.leb_gt n j)) by lia. simpl.
  destruct (Z.leb_spec (Z.of_nat (length l)) j).
  - eexists. split; [done|]. split.
    + unfold resize. rewrite length_app, length_take, length_replicate. lia.
    + intros i. apply resize_at. lia.
  - exists l. split_and!; [done|lia|done].
Qed.

Lemma valueOf_at n j (l : ContextMetrics D) : 0 <= j < n -> valueOf n j l = Some (val_at l j).
Proof.
  intros Hj. unfold valueOf. destruct (getMetricVal_spec n j l Hj) as (l' & -> & Hlt & Hl').
  rewrite <- Hl'. unfold val_at. by destruct (lookup_lt_is_Some_2 l' _ Hlt) as [v ->].
Qed.

Lemma increment_at n i v (l : ContextMetrics D) :
  0 <= i < n ->
  exists l', increment n i v l = (true, l') /\
    forall j, 0 <= j -> val_at l' j = if j =? i then add_to (val_at l i) v else val_at l j.
Proof.
  intros Hi. unfold increment. destruct (getMetricVal_spec n i l Hi) as (l1 & -> & Hlt & Hl1).
  eexists. split; [done|]. intros j Hj. rewrite <- !Hl1. unfold val_at.
  destruct (Z.eqb_spec j i) as [->|Hne].
  - rewrite list_lookup_alter_eq. by destruct (lookup_lt_is_Some_2 l1 _ Hlt) as [x ->].
  - rewrite list_lookup_alter_ne by lia. done.
Qed.

Lemma setMetricVal_at n i v (l : ContextMetrics D) :
  0 <= i < n ->
  exists l', setMetricVal n i v l = (true, l') /\
    forall j, 0 <= j -> val_at l' j = if j =? i then v else val_at l j.
Proof.
  intros Hi. unfold setMetricVal. destruct (getMetricVal_spec n i l Hi) as (l1 & -> & Hlt & Hl1).
  eexists. split; [done|]. intros j Hj. rewrite <- !Hl1. unfold val_at.
  destruct (Z.eqb_spec j i) as [->|Hne].
  - by rewrite list_lookup_insert_eq.
  - rewrite list_lookup_insert_ne by lia. done.
Qed.

(** A sequence of calls of [increment]: the conjunction of their results. *)
Fixpoint increments (n : Z) (ops : list (Z * metric_val_t D)) (l : ContextMetrics D)
  : bool * ContextMetrics D :=
  match ops with
  | [] => (true, l)
  | (i, v) :: rest =>
      let '(ok, l1) := increment n i v l in
      let '(oks, l2) := increments n rest l1 in (ok && oks, l2)
  end.

(** The sum of the integers added to metric [j]. *)
Definition added (j : Z) (ops : list (Z * metric_val_t D)) : Z :=
  foldr (fun op acc => (if op.1 =? j then m_i op.2 else 0) + acc) 0 ops.

End value_lemmas.

(** ** Running mean and variance, exactly *)
Section welford_exact.
Local Open Scope Q_scope.

Definition Qsum (f : Z -> Q) (xs : list Z) : Q := foldr (fun x acc => f x + acc) 0 xs.

Definition sum1 (xs : list Z) : Q := Qsum inject_Z xs.
Definition sum2 (xs : list Z) : Q := Qsum (fun x => inject_Z x * inject_Z x) xs.

Lemma Qsum_snoc f xs x : Qsum f (xs ++ [x]) == Qsum f xs + f x.
Proof. induction xs as [|y xs IH]; simpl; [ring|]. rewrite IH. ring. Qed.

(** The deviations from any [m], in terms of the two sums. *)
Lemma Qsum_deviation m xs :
  Qsum (fun x => (inject_Z x - m) * (inject_Z x - m)) xs ==
  sum2 xs - (2 # 1) * m * sum1 xs + inject_Z (Z.of_nat (length xs)) * m * m.
Proof.
  induction xs as [|x xs IH]; simpl length.
  - unfold sum1, sum2, Qsum. simpl. ring.
  - unfold sum1, sum2 in *. cbn [Qsum foldr] in *. fold (Qsum inject_Z xs).
    rewrite Nat2Z.inj_succ, <- Z.add_1_r, inject_Z_plus.
    change (foldr _ 0 xs) with (Qsum (fun x => (inject_Z x - m) * (inject_Z x - m)) xs) at 1.
    rewrite IH. unfold Qsum. ring.
Qed.

(** The state after the samples [xs]. *)
Definition welford_inv (xs : list Z) (w : welford Q) : Prop :=
  let n := inject_Z (Z.of_nat (length xs)) in
  w_mean w == sum1 xs / n /\ w_M2 w == sum2 xs - sum1 xs * sum1 xs / n /\
  w_variance w == (if (length xs =? 1)%nat then 0 else w_M2 w / (n - 1)).

Lemma inject_nonzero (n : nat) : (0 < n)%nat -> ~ inject_Z (Z.of_nat n) == 0.
Proof. intros Hn H. unfold Qeq in H. simpl in H. lia. Qed.

Lemma welford_step xs x w :
  xs <> [] -> welford_inv xs w ->
  welford_inv (xs ++ [x]) (UpdateVarianceAndMean (Z.of_nat (length xs) + 1) x w).
Proof.
  intros Hne (Hm & H2 & _). unfold UpdateVarianceAndMean.
  assert (0 < length xs)%nat as Hlen by (destruct xs; simpl; [done|lia]).
  rewrite (proj2 (Z.ltb_ge _ 2)) by lia.
  unfold welford_inv. cbn [w_mean w_variance w_M2 d_of_Z d_add d_sub d_mul d_div exact_ops].
  rewrite length_app. simpl length.
  rewrite (proj2 (Nat.eqb_neq (length xs + 1) 1)) by lia.
  replace (Z.of_nat (length xs) + 1 - 1)%Z with (Z.of_nat (length xs)) by lia.
  replace (Z.of_nat (length xs + 1)) with (Z.of_nat (length xs) + 1)%Z by lia.
  rewrite !inject_Z_plus. unfold sum1, sum2. rewrite !Qsum_snoc.
  fold (sum1 xs) (sum2 xs). rewrite Hm, H2.
  pose proof (inject_nonzero (length xs) Hlen) as Hn.
  assert (~ inject_Z (Z.of_nat (length xs)) + inject_Z 1 == 0) as Hn1.
  { rewrite <- inject_Z_plus. replace (Z.of_nat (length xs) + 1)%Z with (Z.of_nat (length xs + 1)) by lia.
    apply inject_nonzero. lia. }
  change (inject_Z 1) with 1 in *.
  split; [|split].
  - field. split; done.
  - field. split; done.
  - assert (inject_Z (Z.of_nat (length xs)) + 1 - 1 == inject_Z (Z.of_nat (length xs))) as -> by ring.
    reflexivity.
Qed.

Lemma welford_run_inv ys xs w :
  xs <> [] -> welford_inv xs w ->
  welford_inv (xs ++ ys) (welford_run (Z.of_nat (length xs) + 1) ys w).
Proof.
  revert xs w; induction ys as [|y ys IH]; intros xs w Hne Hw; cbn [welford_run].
  - by rewrite app_nil_r.
  - rewrite (cons_middle y xs ys), app_assoc.
    replace (Z.of_nat (length xs) + 1 + 1)%Z with (Z.of_nat (length (xs ++ [y])) + 1)%Z
      by (rewrite length_app; simpl; lia).
    apply IH; [by destruct xs|]. by apply welford_step.
Qed.

Lemma welford_first x w : welford_inv [x] (UpdateVarianceAndMean 1 x w).
Proof.
  unfold welford_inv, sum1, sum2, Qsum. simpl. split; [field|]. split; [field|done].
Qed.
End welford_exact.

(** ** Registration *)

(** The descriptions registered for the event at position [k]. *)
Definition infos (client : string) (k : nat) (ev : string) (th : Z) : list metric_info_t :=
  let mk measure ty := mkInfo client ev measure (u32 th) ty in
  match k with
  | O => [mk "COUNT" METRIC_VAL_INT]
  | _ => [mk "Start" METRIC_VAL_INT; mk "End" METRIC_VAL_INT; mk "MEAN" METRIC_VAL_REAL;
          mk "VARIANCE" METRIC_VAL_REAL; mk "M2" METRIC_VAL_REAL; mk "CV" METRIC_VAL_REAL]
  end.

Definition all_infos (client : string) (events : list (string * Z)) : list metric_info_t :=
  concat (imap (fun k e => infos client k e.1 e.2) events).

(** The state after [n] events. *)
Definition setup_inv (n : nat) (w : watermarks) : Prop :=
  curWatermarkId w = Z.of_nat n /\ ((0 < n)%nat -> sample_cnt_metric_id w = 0) /\
  forall k, 1 <= k < Z.of_nat n ->
    start_metric_id w !! k = Some (6 * k - 5) /\ end_metric_id w !! k = Some (6 * k - 4) /\
    mean_metric_id w !! k = Some (6 * k - 3) /\ variance_metric_id w !! k = Some (6 * k - 2) /\
    m2_metric_id w !! k = Some (6 * k - 1) /\ cv_metric_id w !! k = Some (6 * k).

Lemma registerMetric_small info l :
  Z.of_nat (length l) < 2 ^ 31 - 1 -> registerMetric info l = (Z.of_nat (length l), l ++ [info]).
Proof.
  intros Hl. unfold registerMetric. f_equal. rewrite length_app. simpl length.
  unfold i32. rewrite swrap_small; lia.
Qed.

Lemma setup_step n client ev th w l :
  (n < 5)%nat -> setup_inv n w -> length l = (if decide (n = 0) then 0 else 6 * n - 5)%nat ->
  exists w', SetupWatermarkMetric client ev th (w, l) = RET (w', l ++ infos client n ev th) /\
    setup_inv (S n) w'.
Proof.
  intros Hn (Hk & Hc & Hm) Hl. unfold SetupWatermarkMetric. rewrite Hk.
  rewrite (proj2 (Z.eqb_neq _ MAX_EVENTS)) by (unfold MAX_EVENTS; lia).
  destruct (Z.eqb_spec (Z.of_nat n) 0) as [H0|H0].
  - assert (n = 0%nat) as -> by lia. rewrite registerMetric_small by (rewrite Hl; simpl; lia).
    rewrite Hl. eexists. split; [reflexivity|]. split; [done|]. split; [done|]. intros k. lia.
  - rewrite decide_False in Hl by lia.
    rewrite !registerMetric_small by (rewrite ?length_app; simpl length; lia).
    rewrite <- !app_assoc, !length_app, Hl. simpl length. eexists. split.
    + destruct n; [lia|]. reflexivity.
    + split; [simpl; lia|]. split; [intros _; apply Hc; lia|]. intros k Hkn. cbn.
      destruct (decide (k = Z.of_nat n)) as [->|Hne].
      * rewrite !lookup_insert_eq. split_and!; f_equal; lia.
      * rewrite !lookup_insert_ne by done. apply Hm. lia.
Qed.

Lemma setup_all_spec client events : (length events <= 5)%nat ->
  exists w, setup_all client events (no_watermarks, []) = RET (w, all_infos client events) /\
    setup_inv (length events) w.
Proof.
  enough (forall n w l, setup_inv n w -> (n + length events <= 5)%nat ->
    length l = (if decide (n = 0) then 0 else 6 * n - 5)%nat ->
    exists w', setup_all client events (w, l) =
        RET (w', l ++ concat (imap (fun k e => infos client (n + k) e.1 e.2) events)) /\
      setup_inv (n + length events) w') as H.
  { intros Hl. apply (H 0%nat no_watermarks []); [|done|done].
    split; [done|]. split; [lia|]. intros k. simpl. lia. }
  induction events as [|[ev th] events IH]; intros n w l Hw Hn Hl; cbn [setup_all].
  - exists w. simpl. rewrite app_nil_r, Nat.add_0_r. done.
  - simpl length in Hn. destruct (setup_step n client ev th w l) as (w1 & -> & Hw1); [lia|done|done|].
    cbn [mbind exc_bind]. destruct (IH (S n) w1 (l ++ infos client n ev th) Hw1) as (w' & -> & Hw');
      [lia| |].
    + rewrite length_app, Hl. destruct n; simpl; lia.
    + exists w'. rewrite imap_cons. cbn [concat fst snd]. rewrite Nat.add_0_r, <- app_assoc.
      split; [|simpl length; by rewrite Nat.add_succ_r].
      do 4 f_equal. f_equal. apply imap_ext. intros i x _. simpl. by rewrite Nat.add_succ_r.
Qed.

(** Where the descriptions of an event are. *)
Lemma all_infos_lookup client events (k j : nat) ev th :
  events !! k = Some (ev, th) -> (0 < k)%nat -> (j < 6)%nat ->
  all_infos client events !! (6 * k - 5 + j)%nat = infos client k ev th !! j.
Proof.
  unfold all_infos. intros He Hk Hj.
  destruct events as [|[ev0 th0] events]; [done|]. rewrite imap_cons. cbn [concat infos fst snd].
  destruct k as [|k]; [lia|]. change (events !! k = Some (ev, th)) in He.
  replace (6 * S k - 5 + j)%nat with (S (6 * k + j)) by lia. cbn [app lookup list_lookup].
  etrans; [apply (lookup_concat_uniform 6)|]; [|done|].
  - apply Forall_lookup. intros i l. rewrite list_lookup_imap.
    destruct (events !! i) as [[]|]; [|done]. intros [= <-]. done.
  - rewrite list_lookup_imap, He. done.
Qed.

(** ** Properties *)

(** Counting is a sum: after any sequence of successful or refused
    calls of [increment] on a context's metrics, the integer read back for a metric
    is the 64-bit sum of the amounts added to it, whatever the order of the calls
    and however the value vector was resized in between; ids that are not
    registered are refused and change nothing. *)
Theorem increments_total {D} `{DoubleOps D} (n : Z) (ops : list (Z * metric_val_t D))
    (l : ContextMetrics D) (j : Z) :
  0 <= j < n -> - 2 ^ 63 <= m_i (val_at l j) < 2 ^ 63 ->
  let '(oks, l') := increments n ops l in
  oks = forallb (fun op => (0 <=? op.1) && (op.1 <? n)) ops /\
  exists v, valueOf n j l' = Some v /\
    m_i v = i64 (m_i (val_at l j) + added j ops).
Proof.
  intros Hj. revert l; induction ops as [|[i v] ops IH]; intros l Hl; cbn [increments added foldr].
  - split; [done|]. eexists. split; [by apply valueOf_at|].
    rewrite Z.add_0_r. unfold i64. symmetry. by apply swrap_small.
  - fold (added j ops). cbn [fst snd forallb].
    destruct (Z.leb_spec 0 i) as [Hi0|Hi0]; [destruct (Z.ltb_spec i n) as [Hin|Hin]|].
    + destruct (increment_at n i v l) as (l1 & -> & Hl1); [lia|].
      specialize (IH l1). rewrite Hl1 in IH by lia.
      destruct (increments n ops l1) as [oks l2]. rewrite (Z.eqb_sym i j).
      destruct (Z.eqb_spec j i) as [->|Hne].
      * destruct IH as (-> & v' & Hv & Hs); [apply (swrap_range 64); lia|]. split; [done|].
        exists v'. split; [done|]. rewrite Hs. simpl. unfold i64. rewrite swrap_add_l by lia. f_equal. lia.
      * destruct IH as (-> & v' & Hv & Hs); [done|]. split; [done|]. exists v'. split; [done|].
        rewrite Hs. f_equal.
    + unfold increment, getMetricVal. rewrite (proj2 (Z.ltb_ge i 0)), (proj2 (Z.leb_le n i)) by lia.
      simpl. specialize (IH l Hl). destruct (increments n ops l) as [oks l2].
      destruct IH as (-> & v' & Hv & Hs). split; [done|]. exists v'. split; [done|].
      rewrite (proj2 (Z.eqb_neq i j)) by lia. done.
    + unfold increment, getMetricVal. rewrite (proj2 (Z.ltb_lt i 0)) by lia.
      simpl. specialize (IH l Hl). destruct (increments n ops l) as [oks l2].
      destruct IH as (-> & v' & Hv & Hs). split; [done|]. exists v'. split; [done|].
      rewrite (proj2 (Z.eqb_neq i j)) by lia. done.
Qed.

Lemma increments_total_witness :
  exists v, valueOf 3 1 (increments 3 [(1, mkVal 5 (0%Q) ""); (7, mkVal 1 (0%Q) ""); (1, mkVal 2 (0%Q) "")] []).2
    = Some v /\ m_i v = 7.
Proof.
  destruct (increments_total 3 [(1, mkVal 5 (0%Q) ""); (7, mkVal 1 (0%Q) ""); (1, mkVal 2 (0%Q) "")] [] 1)
    as (_ & v & E & Hv); [lia|simpl; lia|].
  exists v. split; [exact E|]. exact Hv.
Defined.

(** The running update is the mean and the variance: fed the samples one by one
    with their numbers from 1, in exact arithmetic, it holds their mean, the
    sum of the squared deviations from it and the sample variance (0 for a single
    sample), whatever it held before. *)
Theorem welford_exact (x : Z) (xs : list Z) (w0 : welford Q) :
  let w := welford_run 1 (x :: xs) w0 in
  let n := inject_Z (Z.of_nat (length (x :: xs))) in
  (w_mean w == sum1 (x :: xs) / n /\
   w_M2 w == Qsum (fun y => (inject_Z y - w_mean w) * (inject_Z y - w_mean w)) (x :: xs) /\
   w_variance w == if (length xs =? 0)%nat then 0 else w_M2 w / (n - 1))%Q.
Proof.
  intros w n. pose proof (welford_run_inv xs [x] _ ltac:(done) (welford_first x w0)) as Hw.
  cbn [app length] in Hw. change (Z.of_nat 1 + 1) with 2 in Hw.
  assert (w = welford_run 2 xs (UpdateVarianceAndMean 1 x w0)) as Ew by done.
  rewrite <- Ew in Hw. clear Ew. destruct Hw as (Hm & H2 & Hv). fold n in Hm, H2, Hv.
  assert (~ n == 0)%Q as Hn by (apply inject_nonzero; simpl; lia).
  split; [done|]. split; [|by destruct xs].
  rewrite H2, Qsum_deviation. fold n. rewrite Hm. field. done.
Qed.

(** The ids the profiler keeps are right: after registering at most five events
    every metric id it stored for an event describes that event and that measure;
    the first event has the sample counter only. *)
Theorem SetupWatermarkMetric_ids (client : string) (events : list (string * Z)) :
  (0 < length events <= 5)%nat ->
  exists w l, setup_all client events (no_watermarks, []) = RET (w, l) /\
    (forall ev th, events !! 0%nat = Some (ev, th) ->
       getMetricInfo (sample_cnt_metric_id w) l = Some (mkInfo client ev "COUNT" (u32 th) METRIC_VAL_INT)) /\
    forall k ev th, (0 < k)%nat -> events !! k = Some (ev, th) ->
    Forall (fun '(ids, measure, ty) =>
      exists id, ids w !! Z.of_nat k = Some id /\
        getMetricInfo id l = Some (mkInfo client ev measure (u32 th) ty))
      [(start_metric_id, "Start", METRIC_VAL_INT); (end_metric_id, "End", METRIC_VAL_INT);
       (mean_metric_id, "MEAN", METRIC_VAL_REAL); (variance_metric_id, "VARIANCE", METRIC_VAL_REAL);
       (m2_metric_id, "M2", METRIC_VAL_REAL); (cv_metric_id, "CV", METRIC_VAL_REAL)].
Proof.
  intros Hlen. destruct (setup_all_spec client events) as (w & E & Hk & Hc & Hm); [lia|].
  exists w, (all_infos client events). split; [done|].
  assert (forall (i : nat) info, all_infos client events !! i = Some info -> (i < 100)%nat ->
    getMetricInfo (Z.of_nat i) (all_infos client events) = Some info) as Hget.
  { intros i info Hi Hlt. pose proof (lookup_lt_Some _ _ _ Hi). unfold getMetricInfo.
    rewrite (proj2 (Z.ltb_ge _ 0)) by lia. rewrite Nat2Z.id.
    assert (length (all_infos client events) < 100)%nat.
    { unfold all_infos. do 6 (destruct events as [|[] events]; [simpl; lia|]). simpl in Hlen. lia. }
    unfold i32. rewrite swrap_small by lia. rewrite (proj2 (Z.leb_gt _ _)) by lia. done. }
  split.
  - intros ev th He. rewrite Hc by lia. apply (Hget 0%nat); [|lia].
    destruct events as [|[] ?]; [done|]. simpl in He. simplify_eq. done.
  - intros k ev th Hk0 He. pose proof (lookup_lt_Some _ _ _ He) as Hlt.
    destruct (Hm (Z.of_nat k)) as (H1 & H2 & H3 & H4 & H5 & H6); [lia|].
    assert (forall j, (j < 6)%nat -> forall z info, z = 6 * Z.of_nat k - 5 + Z.of_nat j ->
      infos client k ev th !! j = Some info ->
      getMetricInfo z (all_infos client events) = Some info) as Hj.
    { intros j Hj z info -> Hi. replace (6 * Z.of_nat k - 5 + Z.of_nat j) with (Z.of_nat (6 * k - 5 + j)) by lia.
      apply Hget; [|lia]. by rewrite (all_infos_lookup _ _ _ _ ev th). }
    destruct k as [|k]; [lia|].
    repeat apply Forall_cons_2; try apply Forall_nil_2; eexists;
    (split; [eassumption|]);
    first [solve [eapply (Hj 0%nat); [lia|lia|reflexivity]]
          |solve [eapply (Hj 1%nat); [lia|lia|reflexivity]]
          |solve [eapply (Hj 2%nat); [lia|lia|reflexivity]]
          |solve [eapply (Hj 3%nat); [lia|lia|reflexivity]]
          |solve [eapply (Hj 4%nat); [lia|lia|reflexivity]]
          |solve [eapply (Hj 5%nat); [lia|lia|reflexivity]]].
Qed.

Lemma SetupWatermarkMetric_ids_witness :
  exists w l, setup_all "C" [("cycles", 1000); ("misses", 7)] (no_watermarks, []) = RET (w, l) /\
    getMetricInfo (sample_cnt_metric_id w) l = Some (mkInfo "C" "cycles" "COUNT" 1000 METRIC_VAL_INT).
Proof.
  destruct (SetupWatermarkMetric_ids "C" [("cycles", 1000); ("misses", 7)]) as (w & l & E & H0 & _).
  - simpl. lia.
  - exists w, l. split; [exact E|]. exact (H0 "cycles" 1000 eq_refl).
Defined.
