(* ===== verification/ContextTree.v ===== *)
(** * Calling contexts

    Models [src/src/profiler/context.cpp] and [context.h] (the calling-context tree
    of a thread) and [constructContext] of [profiler.cpp], which maps a stack walk
    to a node of the tree.

    Objects live in a heap of nodes; a [Context*] is an address of it and [None]
    the null pointer.  The set of children is the list of its elements; what
    [unordered_set::find] returns is the element that [contextRefEqual] equates
    with the one looked for.  [EXC] is a failed assertion, or the use of a pointer
    to no object.  The metrics of a node are a parameter [M]. *)
From stdpp Require Import base numbers list gmap strings.
From Stdlib Require Import ZArith Lia.
From S2P Require Import Prelude.
Local Open Scope Z_scope.

(** ** Frames *)
Record ContextFrame := mkFrame {
  binary_addr : Z;
  method_id : Z;
  method_name : string;
  method_version : Z;
  source_file : string;
  bci : Z;
  src_lineno : Z;
}.

(** A default-initialised frame. *)
Definition no_frame : ContextFrame := mkFrame 0 0 "" 0 "" (-1) 0.

(** The frames [AsyncGetCallTrace] fills in. *)
Record ASGCT_CallFrame := mkASGCT { lineno : Z; asgct_method_id : Z }.

(** [ContextFrame::operator=]. *)
Definition assign_frame (f : ContextFrame) (a : ASGCT_CallFrame) : ContextFrame :=
  mkFrame (binary_addr f) (asgct_method_id a) (method_name f) (method_version f) (source_file f)
    (lineno a) (src_lineno f).

(** What distinguishes two children of a node. *)
Definition frame_key (f : ContextFrame) : Z * Z * Z * Z :=
  (bci f, method_id f, binary_addr f, method_version f).

Definition contextRefEqual (a b : ContextFrame) : bool :=
  (bci a =? bci b) && (method_id a =? method_id b) && (binary_addr a =? binary_addr b) &&
  (method_version a =? method_version b).

Lemma contextRefEqual_key a b : contextRefEqual a b = true <-> frame_key a = frame_key b.
Proof.
  unfold contextRefEqual, frame_key. rewrite !andb_true_iff, !Z.eqb_eq. split.
  - intros (((-> & ->) & ->) & ->). done.
  - intros [= -> -> -> ->]. done.
Qed.

(** ** Nodes and the tree *)
Section tree.
Context {M : Type}.

Record node := mkNode {
  n_id : Z;
  n_triggered : bool;
  n_frame : ContextFrame;
  n_metrics : option M;
  n_children : list nat;
  n_parent : option nat;
}.

(** [Context::Context(uint32_t)]. *)
Definition Context_new (id : Z) : node := mkNode id false no_frame None [] None.

Definition set_frame (f : ContextFrame) (n : node) : node :=
  mkNode (n_id n) (n_triggered n) f (n_metrics n) (n_children n) (n_parent n).
Definition set_children (l : list nat) (n : node) : node :=
  mkNode (n_id n) (n_triggered n) (n_frame n) (n_metrics n) l (n_parent n).
Definition set_parent (p : nat) (n : node) : node :=
  mkNode (n_id n) (n_triggered n) (n_frame n) (n_metrics n) (n_children n) (Some p).

Record ContextTree := mkTree {
  heap : gmap nat node;
  next_addr : nat;
  context_map : gmap Z nat;
  tree_root : nat;
  id_counter : Z;
}.

Definition with_heap (h : gmap nat node) (t : ContextTree) : ContextTree :=
  mkTree h (next_addr t) (context_map t) (tree_root t) (id_counter t).

Definition getFrame (c : nat) (t : ContextTree) : option ContextFrame := n_frame <$> heap t !! c.
Definition getMetrics (c : nat) (t : ContextTree) : option (option M) := n_metrics <$> heap t !! c.
Definition getParent (c : nat) (t : ContextTree) : option (option nat) := n_parent <$> heap t !! c.
Definition getChildren (c : nat) (t : ContextTree) : option (list nat) := n_children <$> heap t !! c.

Definition setMetrics (c : nat) (m : M) (t : ContextTree) : ContextTree :=
  with_heap (alter (fun n => mkNode (n_id n) (n_triggered n) (n_frame n) (Some m) (n_children n)
                               (n_parent n)) c (heap t)) t.
Definition setTriggered (c : nat) (t : ContextTree) : ContextTree :=
  with_heap (alter (fun n => mkNode (n_id n) true (n_frame n) (n_metrics n) (n_children n)
                               (n_parent n)) c (heap t)) t.

(** [Context::findChild] of a node not yet in the heap. *)
Definition findChild (h : gmap nat node) (parent : node) (frame : ContextFrame) : option nat :=
  List.find (fun c => match h !! c with
                      | Some n => contextRefEqual (n_frame n) frame
                      | None => false
                      end) (n_children parent).

(** [Context::addChild]: the set keeps an equal element it already has, but the
    child's parent is set all the same. *)
Definition addChild (h : gmap nat node) (p c : nat) : gmap nat node :=
  match h !! p, h !! c with
  | Some pn, Some cn =>
      let h' := match findChild h pn (n_frame cn) with
                | Some _ => h
                | None => <[p := set_children (c :: n_children pn) pn]> h
                end in
      alter (set_parent p) c h'
  | _, _ => h
  end.

Definition ContextTree_new : ContextTree := mkTree {[0%nat := Context_new 0]} 1 {[0 := 0%nat]} 0 1.

(** [ContextTree::addContext(Context*, const ContextFrame&)]. *)
Definition addContext (parent : nat) (frame : ContextFrame) (t : ContextTree)
  : exc (nat * ContextTree) :=
  match heap t !! parent with
  | None => EXC
  | Some pn =>
      let ctxt_id := id_counter t in
      let new_ctxt := set_frame frame (Context_new ctxt_id) in
      match findChild (heap t) pn frame with
      | Some find_child => RET (find_child, t)
      | None =>
          let a := next_addr t in
          RET (a, mkTree (addChild (<[a := new_ctxt]> (heap t)) parent a) (S a)
                    (<[ctxt_id := a]> (context_map t)) (tree_root t) (u32 (id_counter t + 1)))
      end
  end.

(** [ContextTree::addContext(uint32_t, const ContextFrame&)]. *)
Definition addContext_id (parent_id : Z) (frame : ContextFrame) (t : ContextTree)
  : exc (nat * ContextTree) :=
  match context_map t !! parent_id with
  | None => EXC
  | Some parent => addContext parent frame t
  end.

(** ** [constructContext]

    [frames] are the frames of the stack walk, innermost first; a failed walk has
    none.  The innermost one is replaced by the leaf built from the arguments. *)
Definition CONTEXT_TREE_ROOT_ID : Z := 0.

Definition addNext (last_ctxt : option nat) (frame : ContextFrame) (t : ContextTree)
  : exc (nat * ContextTree) :=
  match last_ctxt with
  | None => addContext_id CONTEXT_TREE_ROOT_ID frame t
  | Some c => addContext c frame t
  end.

(** The loop, from the outermost frame down to the one above the innermost. *)
Fixpoint add_frames (frames : list ASGCT_CallFrame) (last_ctxt : option nat) (t : ContextTree)
  : exc (option nat * ContextTree) :=
  match frames with
  | [] => RET (last_ctxt, t)
  | f :: rest =>
      r ← addNext last_ctxt (assign_frame no_frame f) t;
      let '(c, t1) := r in add_frames rest (Some c) t1
  end.

Definition constructContext (frames : list ASGCT_CallFrame) (ip mid mversion : Z)
    (callee_ctxt_frame : ContextFrame) (t : ContextTree) : exc (nat * ContextTree) :=
  r ← add_frames (reverse (tail frames)) None t;
  let '(last_ctxt, t1) := r in
  let leaf := mkFrame ip mid (method_name no_frame) mversion (source_file no_frame) (bci no_frame)
                (src_lineno no_frame) in
  r ← addNext last_ctxt leaf t1;
  let '(c, t2) := r in
  addContext c callee_ctxt_frame t2.

(** ** Well-formed trees *)

(** Every node but the root is a child of its parent, which was allocated before
    it; the children of a node have different keys; the map finds every node by
    its id. *)
Record tree_ok (t : ContextTree) : Prop := {
  ok_root : exists r, heap t !! tree_root t = Some r /\ n_id r = 0 /\ n_parent r = None;
  ok_parent : forall c n, heap t !! c = Some n -> c <> tree_root t ->
    exists p pn, n_parent n = Some p /\ heap t !! p = Some pn /\ c ∈ n_children pn;
  ok_child : forall p pn c, heap t !! p = Some pn -> c ∈ n_children pn ->
    exists n, heap t !! c = Some n /\ n_parent n = Some p /\ (p < c)%nat;
  ok_keys : forall p pn c d cn dn, heap t !! p = Some pn -> c ∈ n_children pn -> d ∈ n_children pn ->
    heap t !! c = Some cn -> heap t !! d = Some dn ->
    frame_key (n_frame cn) = frame_key (n_frame dn) -> c = d;
  ok_map : forall i c, context_map t !! i = Some c <-> exists n, heap t !! c = Some n /\ n_id n = i;
  ok_ids : forall c n, heap t !! c = Some n -> 0 <= n_id n < id_counter t;
  ok_next : forall c, is_Some (heap t !! c) -> (c < next_addr t)%nat;
  ok_count : 0 < id_counter t < 2 ^ 32;
}.

Lemma ContextTree_new_ok : tree_ok ContextTree_new.
Proof.
  split; simpl.
  - exists (Context_new 0). by rewrite lookup_singleton_eq.
  - intros c n Hc Hne. by rewrite lookup_singleton_ne in Hc.
  - intros p pn c Hp. apply lookup_singleton_Some in Hp as [<- <-]. simpl. by intros ?%not_elem_of_nil.
  - intros p pn c d cn dn Hp. apply lookup_singleton_Some in Hp as [<- <-]. simpl. by intros ?%not_elem_of_nil.
  - intros i c. rewrite lookup_singleton_Some. split.
    + intros [<- <-]. exists (Context_new 0). by rewrite lookup_singleton_eq.
    + intros (n & Hn & <-). by apply lookup_singleton_Some in Hn as [<- <-].
  - intros c n Hc. apply lookup_singleton_Some in Hc as [<- <-]. simpl. lia.
  - intros c [n Hc]. apply lookup_singleton_Some in Hc as [<- _]. lia.
  - lia.
Qed.

(** What a search among the children returns. *)
Lemma findChild_Some t p pn frame c :
  tree_ok t -> heap t !! p = Some pn -> findChild (heap t) pn frame = Some c ->
  c ∈ n_children pn /\ exists n, heap t !! c = Some n /\ frame_key (n_frame n) = frame_key frame.
Proof.
  intros Ht Hp Hf. unfold findChild in Hf. apply List.find_some in Hf as [Hin Hc].
  apply list_elem_of_In in Hin. split; [done|]. destruct (heap t !! c) as [n|]; [|done].
  exists n. split; [done|]. by apply contextRefEqual_key.
Qed.

Lemma findChild_None t p pn frame c n :
  tree_ok t -> heap t !! p = Some pn -> findChild (heap t) pn frame = None ->
  c ∈ n_children pn -> heap t !! c = Some n -> frame_key (n_frame n) <> frame_key frame.
Proof.
  intros Ht Hp Hf Hin Hc Hk. eapply List.find_none in Hf; [|by apply list_elem_of_In].
  simpl in Hf. rewrite Hc in Hf. apply contextRefEqual_key in Hk. congruence.
Qed.

(** The heap after a node was added under [p] at the fresh address [a]. *)
Lemma heap_add t p pn frame :
  tree_ok t -> heap t !! p = Some pn -> findChild (heap t) pn frame = None ->
  let a := next_addr t in
  let new := set_frame frame (Context_new (id_counter t)) in
  addChild (<[a := new]> (heap t)) p a =
    <[a := set_parent p new]> (<[p := set_children (a :: n_children pn) pn]> (heap t)).
Proof.
  intros Ht Hp Hf a new. assert (p < a)%nat as Hpa by (apply (ok_next t Ht); eauto).
  unfold addChild. rewrite lookup_insert_ne, Hp, lookup_insert_eq by lia.
  assert (findChild (<[a := new]> (heap t)) pn (n_frame new) = None) as ->.
  { destruct (findChild (<[a := new]> (heap t)) pn (n_frame new)) as [c|] eqn:E; [|done].
    unfold findChild in *.
    apply List.find_some in E as [Hin Hc]. eapply List.find_none in Hf; [|exact Hin].
    apply list_elem_of_In in Hin. destruct (ok_child t Ht p pn c Hp Hin) as (n & Hn & _).
    assert (c < a)%nat by (apply (ok_next t Ht); eauto).
    rewrite lookup_insert_ne, Hn in Hc by lia. rewrite Hn in Hf. simpl in Hc. congruence. }
  apply map_eq. intros x. destruct (decide (x = a)) as [->|Hxa].
  - rewrite lookup_alter_eq, lookup_insert_ne, !lookup_insert_eq by lia. done.
  - rewrite lookup_alter_ne, (lookup_insert_ne _ a) by congruence.
    destruct (decide (x = p)) as [->|Hxp].
    + by rewrite !lookup_insert_eq.
    + by rewrite !lookup_insert_ne by congruence.
Qed.

(** The tree after the addition. *)
Definition added_tree (t : ContextTree) (p : nat) (pn : node) (frame : ContextFrame) : ContextTree :=
  let a := next_addr t in
  mkTree (<[a := set_parent p (set_frame frame (Context_new (id_counter t)))]>
            (<[p := set_children (a :: n_children pn) pn]> (heap t)))
    (S a) (<[id_counter t := a]> (context_map t)) (tree_root t) (u32 (id_counter t + 1)).

(** What a node keeps when another is added: all but its children, which can only
    gain one. *)
Definition same_node (t : ContextTree) (p c : nat) (n n' : node) : Prop :=
  n_id n' = n_id n /\ n_frame n' = n_frame n /\ n_parent n' = n_parent n /\
  n_metrics n' = n_metrics n /\
  n_children n' = (if decide (c = p) then [next_addr t] else []) ++ n_children n.

Lemma added_old t p pn frame c n :
  tree_ok t -> heap t !! p = Some pn -> heap t !! c = Some n ->
  exists n', heap (added_tree t p pn frame) !! c = Some n' /\ same_node t p c n n'.
Proof.
  intros Ht Hp Hc. assert (c < next_addr t)%nat by (apply (ok_next t Ht); eauto).
  unfold added_tree. cbn [heap]. rewrite lookup_insert_ne by lia. unfold same_node.
  destruct (decide (c = p)) as [->|Hne].
  - rewrite lookup_insert_eq. simplify_eq. eexists. split; [done|]. done.
  - rewrite lookup_insert_ne by congruence. rewrite Hc. eexists. split; [done|]. done.
Qed.

Lemma added_new t p pn frame :
  heap (added_tree t p pn frame) !! next_addr t =
    Some (set_parent p (set_frame frame (Context_new (id_counter t)))).
Proof. unfold added_tree. cbn [heap]. by rewrite lookup_insert_eq. Qed.

Lemma added_inv t p pn frame c n' :
  tree_ok t -> heap t !! p = Some pn -> heap (added_tree t p pn frame) !! c = Some n' ->
  (c = next_addr t /\ n' = set_parent p (set_frame frame (Context_new (id_counter t)))) \/
  (c <> next_addr t /\ exists n, heap t !! c = Some n /\ same_node t p c n n').
Proof.
  intros Ht Hp Hc. destruct (decide (c = next_addr t)) as [->|Hne].
  - left. rewrite added_new in Hc. by simplify_eq.
  - right. split; [done|].
    assert (is_Some (heap t !! c)) as [n Hn].
    { unfold added_tree in Hc. cbn [heap] in Hc. rewrite lookup_insert_ne in Hc by congruence.
      destruct (decide (c = p)) as [->|Hcp]; [by exists pn|].
      rewrite lookup_insert_ne in Hc by congruence. by exists n'. }
    destruct (added_old t p pn frame c n Ht Hp Hn) as (n'' & Hn'' & Hs).
    exists n. split; [done|]. congruence.
Qed.

(** The children of a node after the addition. *)
Lemma added_children t p pn frame x xn c :
  tree_ok t -> heap t !! p = Some pn ->
  heap (added_tree t p pn frame) !! x = Some xn -> c ∈ n_children xn ->
  (x = p /\ c = next_addr t) \/
  (c <> next_addr t /\ exists xo, heap t !! x = Some xo /\ c ∈ n_children xo).
Proof.
  intros Ht Hp Hx Hc. apply (added_inv t p pn frame) in Hx as [[-> ->]|(_ & xo & Hxo & Hs)]; [| |done|done].
  - simpl in Hc. by apply not_elem_of_nil in Hc.
  - destruct Hs as (_ & _ & _ & _ & Hch). rewrite Hch in Hc.
    assert (c ∈ n_children xo -> c <> next_addr t) as Hold.
    { intros Hin. destruct (ok_child t Ht x xo c Hxo Hin) as (n & Hn & _).
      assert (c < next_addr t)%nat by (apply (ok_next t Ht); eauto). lia. }
    apply elem_of_app in Hc as [Hc|Hc]; [|right; eauto].
    destruct (decide (x = p)) as [->|]; [|by apply not_elem_of_nil in Hc].
    apply list_elem_of_singleton in Hc. by left.
Qed.

(** Children are still told apart by their keys. *)
Lemma added_keys t p pn frame :
  tree_ok t -> heap t !! p = Some pn -> findChild (heap t) pn frame = None ->
  forall x xn c d cn dn, heap (added_tree t p pn frame) !! x = Some xn -> c ∈ n_children xn -> d ∈ n_children xn ->
    heap (added_tree t p pn frame) !! c = Some cn -> heap (added_tree t p pn frame) !! d = Some dn ->
    frame_key (n_frame cn) = frame_key (n_frame dn) -> c = d.
Proof.
  intros Ht Hp Hf.
  intros x xn c d cn dn Hx Hc Hd Hcn Hdn Hk.
  apply (added_children t p pn frame x xn _ Ht Hp Hx) in Hc as [[-> ->]|(Hca & xo & Hxo & Hc)];
  apply (added_children t p pn frame _ _ _ Ht Hp Hx) in Hd as [[Hxd ->]|(Hda & xo' & Hxo' & Hd)];
  [done| | |].
  - apply (added_inv t p pn frame) in Hdn as [[? _]|(_ & dno & Hdo & (_ & Ef & _))]; [done| |done|done].
    rewrite added_new in Hcn. injection Hcn as <-. exfalso.
    assert (xo' = pn) as -> by congruence.
    eapply (findChild_None t p pn frame d dno); [done..|]. rewrite <- Ef, <- Hk. done.
  - subst x. apply (added_inv t p pn frame) in Hcn as [[? _]|(_ & cno & Hco & (_ & Ef & _))]; [done| |done|done].
    rewrite added_new in Hdn. injection Hdn as <-. exfalso.
    assert (xo = pn) as -> by congruence.
    eapply (findChild_None t p pn frame c cno); [done..|]. rewrite <- Ef, Hk. done.
  - apply (added_inv t p pn frame) in Hcn as [[? _]|(_ & cno & Hco & (_ & Efc & _))]; [done| |done|done].
    apply (added_inv t p pn frame) in Hdn as [[? _]|(_ & dno & Hdo & (_ & Efd & _))]; [done| |done|done].
    assert (xo' = xo) as -> by congruence.
    eapply (ok_keys t Ht x xo c d cno dno); try done. by rewrite <- Efc, <- Efd.
Qed.

(** The map of ids knows the new node. *)
Lemma added_map t p pn frame :
  tree_ok t -> heap t !! p = Some pn -> findChild (heap t) pn frame = None ->
  forall i c, context_map (added_tree t p pn frame) !! i = Some c <->
    exists n, heap (added_tree t p pn frame) !! c = Some n /\ n_id n = i.
Proof.
  intros Ht Hp Hf.
  intros i c. unfold added_tree at 1. cbn [context_map].
  assert (context_map t !! id_counter t = None) as Hnone.
  { destruct (context_map t !! id_counter t) as [d|] eqn:E; [|done].
    apply (ok_map t Ht) in E as (n & Hn & E). pose proof (ok_ids t Ht d n Hn). lia. }
  destruct (decide (i = id_counter t)) as [->|Hne].
  - rewrite lookup_insert_eq. split.
    + intros [= <-]. eexists. split; [apply added_new|done].
    + intros (n & Hn & E). apply (added_inv t p pn frame) in Hn as [[-> _]|(_ & no & Hno & (Ei & _))]; [done| |done|done].
      pose proof (ok_ids t Ht c no Hno). lia.
  - rewrite lookup_insert_ne by congruence. rewrite (ok_map t Ht). split.
    + intros (n & Hn & <-). destruct (added_old t p pn frame c n Ht Hp Hn) as (n' & Hn' & (Ei & _)).
      by exists n'.
    + intros (n & Hn & E). apply (added_inv t p pn frame) in Hn as [[-> ->]|(_ & no & Hno & (Ei & _))]; [done| |done|done].
      exists no. split; [done|congruence].
Qed.

Lemma added_ok t p pn frame :
  tree_ok t -> heap t !! p = Some pn -> findChild (heap t) pn frame = None ->
  id_counter t + 1 < 2 ^ 32 -> tree_ok (added_tree t p pn frame).
Proof.
  intros Ht Hp Hf Hid. set (t' := added_tree t p pn frame).
  assert (id_counter t' = id_counter t + 1) as Hc'.
  { subst t'. simpl. apply wrap_small. pose proof (ok_count t Ht). lia. }
  assert (forall c n, heap t !! c = Some n -> c <> next_addr t) as Hfresh.
  { intros c n Hn ->. assert (next_addr t < next_addr t)%nat by (apply (ok_next t Ht); eauto). lia. }
  split.
  - destruct (ok_root t Ht) as (r & Hr & Hr0 & Hrp).
    destruct (added_old t p pn frame _ r Ht Hp Hr) as (r' & Hr' & (Ei & _ & Ep & _)).
    exists r'. split_and!; [done|congruence|congruence].
  - intros c n Hc Hne. apply (added_inv t p pn frame) in Hc as [[-> ->]|(Hn & co & Hco & Hs)]; [| |done|done].
    + destruct (added_old t p pn frame p pn Ht Hp Hp) as (pn' & Hpn' & (_ & _ & _ & _ & Hch)).
      exists p, pn'. split_and!; [done|done|]. rewrite Hch, decide_True by done. by left.
    + destruct (ok_parent t Ht c co Hco Hne) as (q & qn & Hq & Hqn & Hin).
      destruct (added_old t p pn frame q qn Ht Hp Hqn) as (qn' & Hqn' & (_ & _ & _ & _ & Hch)).
      exists q, qn'. destruct Hs as (_ & _ & Epar & _). split_and!; [congruence|done|].
      rewrite Hch. apply elem_of_app. by right.
  - intros x xn c Hx Hc.
    destruct (added_children t p pn frame x xn c Ht Hp Hx Hc) as [[-> ->]|(Hcn & xo & Hxo & Hin)].
    + eexists. split; [apply added_new|]. split; [done|]. apply (ok_next t Ht). eauto.
    + destruct (ok_child t Ht x xo c Hxo Hin) as (n & Hn & Hpar & Hlt).
      destruct (added_old t p pn frame c n Ht Hp Hn) as (n' & Hn' & (_ & _ & Ep & _)).
      exists n'. split_and!; [done|congruence|done].
  - by apply added_keys.
  - by apply added_map.
  - intros c n Hc. rewrite Hc'. pose proof (ok_count t Ht).
    apply (added_inv t p pn frame) in Hc as [[-> ->]|(_ & no & Hno & (Ei & _))]; [simpl; lia| |done|done].
    pose proof (ok_ids t Ht c no Hno). lia.
  - intros c [n Hc]. change (next_addr t') with (S (next_addr t)).
    apply (added_inv t p pn frame) in Hc as [[-> ->]|(_ & no & Hno & _)]; [lia| |done|done].
    assert (c < next_addr t)%nat by (apply (ok_next t Ht); eauto). lia.
  - rewrite Hc'. pose proof (ok_count t Ht). lia.
Qed.

(** ** Paths: what a node stands for *)

(** The keys from the root down to a node. *)
Inductive has_path (t : ContextTree) : nat -> list (Z * Z * Z * Z) -> Prop :=
  | path_root : has_path t (tree_root t) []
  | path_step p pn c n ks :
      has_path t p ks -> heap t !! p = Some pn -> c ∈ n_children pn -> heap t !! c = Some n ->
      has_path t c (ks ++ [frame_key (n_frame n)]).

Lemma path_heap t c ks : tree_ok t -> has_path t c ks -> is_Some (heap t !! c).
Proof. intros Ht [|p pn d n ks' _ _ _ Hd]; [|by eauto]. destruct (ok_root t Ht) as (r & ? & _). eauto. Qed.

Lemma path_inv t c ks :
  has_path t c ks ->
  (c = tree_root t /\ ks = []) \/
  exists p pn n ks', has_path t p ks' /\ heap t !! p = Some pn /\ c ∈ n_children pn /\
    heap t !! c = Some n /\ ks = ks' ++ [frame_key (n_frame n)].
Proof. intros [|p pn d n ks' Hp Hpn Hin Hn]; [by left|right]. exists p, pn, n, ks'. done. Qed.

(** The path of a child. *)
Lemma path_inv_snoc t c ks k :
  has_path t c (ks ++ [k]) ->
  exists p pn n, has_path t p ks /\ heap t !! p = Some pn /\ c ∈ n_children pn /\
    heap t !! c = Some n /\ k = frame_key (n_frame n).
Proof.
  intros Hc. apply path_inv in Hc as [[_ E]|(p & pn & n & ks' & Hp & Hpn & Hin & Hn & E)].
  - by destruct ks.
  - apply app_inj_tail in E as [-> ->]. by exists p, pn, n.
Qed.

(** A path leads to one node, and a node has one path. *)
Lemma path_inj t c d ks : tree_ok t -> has_path t c ks -> has_path t d ks -> c = d.
Proof.
  intros Ht Hc. revert d. induction Hc as [|p pn c n ks Hp IH Hpn Hin Hn]; intros d Hd.
  - apply path_inv in Hd as [[-> _]|(? & ? & ? & ks' & _ & _ & _ & _ & E)]; [done|by destruct ks'].
  - apply path_inv_snoc in Hd as (q & qn & m & Hq & Hqn & Hind & Hm & Ek).
    assert (p = q) as <- by (by apply IH). assert (pn = qn) as <- by congruence.
    by eapply (ok_keys t Ht p).
Qed.

Lemma path_fun t c ks ks' : tree_ok t -> has_path t c ks -> has_path t c ks' -> ks = ks'.
Proof.
  intros Ht Hc. revert ks'. destruct (ok_root t Ht) as (r & Hr & _ & Hrp).
  induction Hc as [|p pn c n ks Hp IH Hpn Hin Hn]; intros ks' Hd;
  apply path_inv in Hd as [[E ->]|(q & qn & m & ks'' & Hq & Hqn & Hind & Hm & ->)]; [done| | |].
  - destruct (ok_child t Ht q qn _ Hqn Hind) as (x & Hx & Hpar & _). congruence.
  - subst c. destruct (ok_child t Ht p pn _ Hpn Hin) as (x & Hx & Hpar & _). congruence.
  - destruct (ok_child t Ht p pn _ Hpn Hin) as (x & Hx & Hpar & _).
    destruct (ok_child t Ht q qn _ Hqn Hind) as (y & Hy & Hpar' & _).
    assert (p = q) as <- by congruence. assert (n = m) as <- by congruence.
    f_equal. by apply IH.
Qed.

(** A tree that grew: every node keeps its path and its metrics. *)
Definition extends (t t' : ContextTree) : Prop :=
  (forall c ks, has_path t c ks -> has_path t' c ks) /\
  forall c n, heap t !! c = Some n -> exists n', heap t' !! c = Some n' /\ n_metrics n' = n_metrics n.

#[export] Instance extends_preorder : PreOrder extends.
Proof.
  split.
  - intros t. split; [done|]. eauto.
  - intros t1 t2 t3 [H1 M1] [H2 M2]. split; [auto|]. intros c n Hc.
    destruct (M1 c n Hc) as (n' & Hc' & E). destruct (M2 c n' Hc') as (n'' & ? & ?).
    exists n''. split; [done|congruence].
Qed.

Lemma added_extends t p pn frame :
  tree_ok t -> heap t !! p = Some pn -> extends t (added_tree t p pn frame).
Proof.
  intros Ht Hp. split.
  - intros c ks Hc. induction Hc as [|q qn c n ks Hq IH Hqn Hin Hn].
    + change (tree_root t) with (tree_root (added_tree t p pn frame)). constructor.
    + destruct (added_old t p pn frame q qn Ht Hp Hqn) as (qn' & Hqn' & (_ & _ & _ & _ & Hch)).
      destruct (added_old t p pn frame c n Ht Hp Hn) as (n' & Hn' & (_ & Ef & _)).
      rewrite <- Ef. eapply path_step; [done|done| |done]. rewrite Hch. apply elem_of_app. by right.
  - intros c n Hc. destruct (added_old t p pn frame c n Ht Hp Hc) as (n' & Hn' & (_ & _ & _ & Em & _)).
    by exists n'.
Qed.

(** ** Adding a context *)
Lemma addContext_spec parent frame t ks :
  tree_ok t -> has_path t parent ks -> id_counter t + 1 < 2 ^ 32 ->
  exists c t', addContext parent frame t = RET (c, t') /\ tree_ok t' /\ extends t t' /\
    has_path t' c (ks ++ [frame_key frame]) /\
    id_counter t <= id_counter t' <= id_counter t + 1 /\
    forall d, has_path t d (ks ++ [frame_key frame]) -> c = d /\ t' = t.
Proof.
  intros Ht Hp Hid. destruct (path_heap t parent ks Ht Hp) as [pn Hpn].
  unfold addContext. rewrite Hpn.
  destruct (findChild (heap t) pn frame) as [c|] eqn:Hf.
  - destruct (findChild_Some t parent pn frame c Ht Hpn Hf) as (Hin & n & Hn & Hk).
    assert (has_path t c (ks ++ [frame_key frame])) as Hc by (rewrite <- Hk; by eapply path_step).
    exists c, t. split_and!; try done || lia. intros d Hd. split; [|done]. by eapply path_inj.
  - exists (next_addr t), (added_tree t parent pn frame).
    rewrite (heap_add t parent pn) by done. split_and!; [done|by apply added_ok|by apply added_extends| | | |].
    + destruct (added_old t parent pn frame parent pn Ht Hpn Hpn) as (pn' & Hpn' & (_ & _ & _ & _ & Hch)).
      change (frame_key frame) with (frame_key (n_frame (set_parent parent (set_frame frame (Context_new (id_counter t)))))).
      eapply path_step; [by apply added_extends|exact Hpn'| |apply added_new].
      rewrite Hch, decide_True by done. by left.
    + unfold added_tree. cbn [id_counter]. unfold u32. rewrite wrap_small; pose proof (ok_count t Ht); lia.
    + unfold added_tree. cbn [id_counter]. unfold u32. rewrite wrap_small; pose proof (ok_count t Ht); lia.
    + intros d Hd. exfalso. apply path_inv_snoc in Hd as (q & qn & m & Hq & Hqn & Hind & Hm & Ek).
      assert (q = parent) as -> by (by eapply path_inj).
      assert (qn = pn) as -> by congruence.
      eapply (findChild_None t parent pn frame d m); done.
Qed.

Lemma addNext_spec last frame t ks :
  tree_ok t -> (match last with None => ks = [] | Some c => has_path t c ks end) ->
  id_counter t + 1 < 2 ^ 32 ->
  exists c t', addNext last frame t = RET (c, t') /\ tree_ok t' /\ extends t t' /\
    has_path t' c (ks ++ [frame_key frame]) /\
    id_counter t <= id_counter t' <= id_counter t + 1 /\
    forall d, has_path t d (ks ++ [frame_key frame]) -> c = d /\ t' = t.
Proof.
  intros Ht Hl Hid. destruct last as [c|]; cbn [addNext]; [by apply addContext_spec|].
  subst ks. unfold addContext_id, CONTEXT_TREE_ROOT_ID.
  destruct (ok_root t Ht) as (r & Hr & Hr0 & _).
  rewrite (proj2 (ok_map t Ht 0 (tree_root t))) by eauto.
  apply addContext_spec; [done|constructor|done].
Qed.

(** Every prefix of a path that exists, exists. *)
Lemma path_prefix_app t c ks ks' : has_path t c (ks ++ ks') -> exists p, has_path t p ks.
Proof.
  revert c. induction ks' as [|k ks' IH] using rev_ind; intros c Hc.
  - rewrite app_nil_r in Hc. eauto.
  - rewrite app_assoc in Hc. apply path_inv_snoc in Hc as (p & _ & _ & Hp & _). eauto.
Qed.

(** ** Walks of the stack *)
Definition leaf_frame (ip mid mversion : Z) : ContextFrame := mkFrame ip mid "" mversion "" (-1) 0.

Definition frame_keys (frames : list ASGCT_CallFrame) : list (Z * Z * Z * Z) :=
  (fun f => frame_key (assign_frame no_frame f)) <$> frames.

(** The calling context a stack walk and its arguments denote, outermost first. *)
Definition walk (frames : list ASGCT_CallFrame) (ip mid mversion : Z) (callee : ContextFrame)
  : list (Z * Z * Z * Z) :=
  frame_keys (reverse (tail frames)) ++ [frame_key (leaf_frame ip mid mversion); frame_key callee].

Definition last_at (t : ContextTree) (last : option nat) (ks : list (Z * Z * Z * Z)) : Prop :=
  match last with None => ks = [] | Some c => has_path t c ks end.

Lemma add_frames_spec frames last t ks :
  tree_ok t -> last_at t last ks -> id_counter t + Z.of_nat (length frames) < 2 ^ 32 ->
  exists last' t', add_frames frames last t = RET (last', t') /\ tree_ok t' /\ extends t t' /\
    last_at t' last' (ks ++ frame_keys frames) /\
    id_counter t' <= id_counter t + Z.of_nat (length frames) /\
    forall d, has_path t d (ks ++ frame_keys frames) -> t' = t.
Proof.
  revert last t ks; induction frames as [|f frames IH]; intros last t ks Ht Hl Hid; cbn [add_frames].
  - exists last, t. rewrite app_nil_r. split_and!; done || lia.
  - rewrite length_cons in Hid.
    destruct (addNext_spec last (assign_frame no_frame f) t ks) as
      (c & t1 & -> & Ht1 & He1 & Hp1 & Hid1 & Hold1); [done|done|lia|].
    cbn [mbind exc_bind].
    destruct (IH (Some c) t1 (ks ++ [frame_key (assign_frame no_frame f)])) as
      (last' & t' & -> & Ht' & He' & Hp' & Hid' & Hold'); [done|done|lia|].
    exists last', t'. rewrite <- app_assoc in *. rewrite length_cons.
    split_and!; [done|done|by etrans|done|lia|].
    intros d Hd. destruct (path_prefix_app t d (ks ++ [frame_key (assign_frame no_frame f)])
      (frame_keys frames)) as [e He]; [by rewrite <- app_assoc|].
    destruct (Hold1 e He) as [_ ->]. by eapply Hold'.
Qed.

Lemma constructContext_walk frames ip mid mversion callee t :
  tree_ok t -> id_counter t + Z.of_nat (length frames) + 2 < 2 ^ 32 ->
  exists c t', constructContext frames ip mid mversion callee t = RET (c, t') /\ tree_ok t' /\
    extends t t' /\ has_path t' c (walk frames ip mid mversion callee) /\
    id_counter t' <= id_counter t + Z.of_nat (length frames) + 2 /\
    forall d, has_path t d (walk frames ip mid mversion callee) -> c = d /\ t' = t.
Proof.
  intros Ht Hid. unfold constructContext.
  assert (length (reverse (tail frames)) <= length frames)%nat as Hlen
    by (rewrite length_reverse; destruct frames; simpl; lia).
  destruct (add_frames_spec (reverse (tail frames)) None t []) as
    (last & t1 & -> & Ht1 & He1 & Hp1 & Hid1 & Hold1); [done|done|lia|].
  cbn [mbind exc_bind app] in *.
  change (mkFrame ip mid (method_name no_frame) mversion (source_file no_frame) (bci no_frame)
            (src_lineno no_frame)) with (leaf_frame ip mid mversion).
  destruct (addNext_spec last (leaf_frame ip mid mversion) t1 _ Ht1 Hp1) as
    (c1 & t2 & -> & Ht2 & He2 & Hp2 & Hid2 & Hold2); [lia|].
  cbn [mbind exc_bind].
  destruct (addContext_spec c1 callee t2 _ Ht2 Hp2) as (c & t3 & -> & Ht3 & He3 & Hp3 & Hid3 & Hold3); [lia|].
  rewrite <- app_assoc in Hp3, Hold3. cbn [app] in Hp3, Hold3.
  exists c, t3. split_and!; [done|done|by do 2 (etrans; [eassumption|])|done|lia|].
  intros d Hd. unfold walk in Hd.
  destruct (path_prefix_app _ _ _ _ Hd) as [e1 H1].
  assert (t1 = t) as E1 by (by eapply Hold1). subst t1.
  destruct (path_prefix_app t d (frame_keys (reverse (tail frames)) ++ [frame_key (leaf_frame ip mid mversion)])
    [frame_key callee]) as [e2 H2]; [by rewrite <- app_assoc|].
  destruct (Hold2 e2 H2) as [_ ->]. by apply Hold3.
Qed.

(** ** Properties *)

(** A tree only grows: adding a frame under a node of a well-formed tree
    returns the node whose path is the parent's followed by the frame; the tree stays
    well formed, every node keeps its path and metrics, and when the node was already
    there nothing changes. *)
Theorem addContext_correct (parent : nat) (frame : ContextFrame) (t : ContextTree)
    (ks : list (Z * Z * Z * Z)) :
  tree_ok t -> has_path t parent ks -> id_counter t + 1 < 2 ^ 32 ->
  exists c t', addContext parent frame t = RET (c, t') /\ tree_ok t' /\ extends t t' /\
    has_path t' c (ks ++ [frame_key frame]) /\
    forall d, has_path t d (ks ++ [frame_key frame]) -> c = d /\ t' = t.
Proof.
  intros Ht Hp Hid.
  destruct (addContext_spec parent frame t ks Ht Hp Hid) as (c & t' & ? & ? & ? & ? & _ & ?).
  exists c, t'. by split_and!.
Qed.

(** C40: Contexts are identified: two stack walks, however many other contexts are
    built between them, get the same node exactly when their calling contexts
    are equal, that is the frames above the innermost one, the leaf built
    from the address and method, and the callee's frame; the node's metrics survive, and a walk
    seen before does not change the tree. *)
Theorem constructContext_identity (fr1 fr2 : list ASGCT_CallFrame) (ip1 ip2 mid1 mid2 v1 v2 : Z)
    (callee1 callee2 : ContextFrame) (t t1 : ContextTree) (c1 : nat) (tm : ContextTree) :
  tree_ok t -> id_counter t + Z.of_nat (length fr1) + 2 < 2 ^ 32 ->
  constructContext fr1 ip1 mid1 v1 callee1 t = RET (c1, t1) ->
  tree_ok tm -> extends t1 tm -> id_counter tm + Z.of_nat (length fr2) + 2 < 2 ^ 32 ->
  exists c2 t2, constructContext fr2 ip2 mid2 v2 callee2 tm = RET (c2, t2) /\
    tree_ok t2 /\ extends tm t2 /\
    (c1 = c2 <-> walk fr1 ip1 mid1 v1 callee1 = walk fr2 ip2 mid2 v2 callee2) /\
    (walk fr1 ip1 mid1 v1 callee1 = walk fr2 ip2 mid2 v2 callee2 -> t2 = tm) /\
    getMetrics c1 t2 = getMetrics c1 t1.
Proof.
  intros Ht Hid1 E1 Htm Hext Hid2.
  destruct (constructContext_walk fr1 ip1 mid1 v1 callee1 t Ht Hid1) as
    (c1' & t1' & E1' & Ht1 & He1 & Hp1 & _ & _).
  assert (c1' = c1 /\ t1' = t1) as [-> ->] by (split; congruence).
  destruct (constructContext_walk fr2 ip2 mid2 v2 callee2 tm Htm Hid2) as
    (c2 & t2 & E2 & Ht2 & He2 & Hp2 & _ & Hold2).
  exists c2, t2. pose proof (proj1 He2 _ _ (proj1 Hext _ _ Hp1)) as Hp1'. split_and!; try done.
  - split; [intros <-; by eapply path_fun|]. intros E. rewrite E in Hp1'. by eapply path_inj.
  - intros E. eapply Hold2. rewrite <- E. by apply Hext.
  - unfold getMetrics. destruct (path_heap t1 c1 _ Ht1 Hp1) as [n Hn].
    destruct (proj2 Hext c1 n Hn) as (n' & Hn' & Em). destruct (proj2 He2 c1 n' Hn') as (n'' & Hn'' & Em').
    rewrite Hn, Hn''. simpl. congruence.
Qed.
End tree.

Lemma addContext_correct_witness :
  exists c t', addContext 0 no_frame (ContextTree_new (M := nat)) = RET (c, t') /\
    has_path t' c [frame_key no_frame].
Proof.
  destruct (addContext_correct 0 no_frame (ContextTree_new (M := nat)) []) as (c & t' & E & _ & _ & Hp & _).
  - apply ContextTree_new_ok.
  - constructor.
  - vm_compute. reflexivity.
  - exists c, t'. split; [exact E|exact Hp].
Defined.

Lemma constructContext_identity_witness :
  let t := ContextTree_new (M := nat) in
  let fr := [mkASGCT 1 2; mkASGCT 3 4] in
  exists c1 t1 c2 t2, constructContext fr 10 2 1 no_frame t = RET (c1, t1) /\
    constructContext fr 11 2 1 no_frame t1 = RET (c2, t2) /\ (c1 = c2 -> False).
Proof.
  intros t fr.
  assert (exists c1 t1, constructContext fr 10 2 1 no_frame t = RET (c1, t1)) as (c1 & t1 & E1)
    by (do 2 eexists; vm_compute; reflexivity).
  destruct (constructContext_walk fr 10 2 1 no_frame t ContextTree_new_ok) as (c & t' & E & Ht1 & _ & _ & Hid & _);
    [vm_compute; reflexivity|].
  assert (t' = t1) as -> by congruence.
  destruct (constructContext_identity fr fr 10 11 2 2 1 1 no_frame no_frame t t1 c1 t1) as
    (c2 & t2 & E2 & _ & _ & Hc & _).
  - apply ContextTree_new_ok.
  - vm_compute. reflexivity.
  - exact E1.
  - exact Ht1.
  - reflexivity.
  - change (id_counter t + Z.of_nat (length fr) + 2) with 5 in Hid. simpl length. lia.
  - exists c1, t1, c2, t2. split; [exact E1|]. split; [exact E2|].
    intros Heq. apply Hc in Heq. vm_compute in Heq. discriminate.
Defined.
