(* ===== verification/CallTree.v ===== *)
(** * CallTree: the shape of the trees that the profiler builds

    [constructContext] adds to a tree the frames of a stack walk, then a leaf with the
    address of the call, then the frame of the callee, and only callees get metrics. The lemmas say
    that such a tree keeps its shape: no context that has metrics has children. *)
From stdpp Require Import base numbers list gmap strings.
From Stdlib Require Import ZArith Lia.
From S2P Require Import Prelude ContextTree.
Local Open Scope Z_scope.

(** ** Metrics *)

(** Setting the metrics of a node keeps the tree. *)
Lemma setMetrics_lookup {M} (t : ContextTree (M := M)) c m d n' :
  heap (setMetrics c m t) !! d = Some n' ->
  exists n, heap t !! d = Some n /\ n_id n' = n_id n /\ n_frame n' = n_frame n /\
    n_children n' = n_children n /\ n_parent n' = n_parent n.
Proof. unfold setMetrics. cbn. rewrite lookup_alter_Some. naive_solver. Qed.

Lemma setMetrics_back {M} (t : ContextTree (M := M)) c m d n :
  heap t !! d = Some n ->
  exists n', heap (setMetrics c m t) !! d = Some n' /\ n_id n' = n_id n /\ n_frame n' = n_frame n /\
    n_children n' = n_children n /\ n_parent n' = n_parent n.
Proof.
  unfold setMetrics. cbn. intros Hd. destruct (decide (c = d)) as [->|].
  - rewrite lookup_alter_eq, Hd. eexists. split; [done|]. done.
  - rewrite lookup_alter_ne by done. by exists n.
Qed.

Lemma setMetrics_ok {M} (t : ContextTree (M := M)) c m : tree_ok t -> tree_ok (setMetrics c m t).
Proof.
  intros Ht. split.
  - destruct (ok_root t Ht) as (r & Hr & Hi & Hp).
    destruct (setMetrics_back t c m _ _ Hr) as (r' & Hr' & Ei & _ & _ & Ep). exists r'. split_and!; [done|congruence|congruence].
  - intros d n (no & Hno & _ & _ & _ & Ep)%setMetrics_lookup Hne.
    destruct (ok_parent t Ht d no Hno Hne) as (p & pn & Hp & Hpn & Hin).
    destruct (setMetrics_back t c m _ _ Hpn) as (pn' & Hpn' & _ & _ & Ec & _).
    exists p, pn'. split_and!; [congruence|done|by rewrite Ec].
  - intros p pn d (po & Hpo & _ & _ & Ec & _)%setMetrics_lookup Hd. rewrite Ec in Hd.
    destruct (ok_child t Ht p po d Hpo Hd) as (n & Hn & Hp & Hlt).
    destruct (setMetrics_back t c m _ _ Hn) as (n' & Hn' & _ & _ & _ & Ep). exists n'. split_and!; [done|congruence|done].
  - intros p pn d e dn en (po & Hpo & _ & _ & Ec & _)%setMetrics_lookup Hd He
      (do & Hdo & _ & Efd & _)%setMetrics_lookup (eo & Heo & _ & Efe & _)%setMetrics_lookup Hk.
    rewrite Ec in Hd, He. rewrite Efd, Efe in Hk. by eapply (ok_keys t Ht p po d e do eo).
  - intros i d. change (context_map (setMetrics c m t)) with (context_map t). rewrite (ok_map t Ht). split.
    + intros (n & Hn & <-). destruct (setMetrics_back t c m _ _ Hn) as (n' & Hn' & Ei & _). by exists n'.
    + intros (n & (no & Hno & Ei & _)%setMetrics_lookup & <-). by exists no.
  - intros d n (no & Hno & -> & _)%setMetrics_lookup. by apply (ContextTree.ok_ids t Ht d).
  - intros d [n (no & Hno & _)%setMetrics_lookup]. apply (ContextTree.ok_next t Ht). eauto.
  - apply (ok_count t Ht).
Qed.


(** The tree's shape does not depend on its metrics. *)
Lemma setMetrics_path {M} (t : ContextTree (M := M)) c m d ks : has_path (setMetrics c m t) d ks <-> has_path t d ks.
Proof.
  split; induction 1 as [|p pn d n ks Hp IH Hpn Hin Hn].
  - change (tree_root (setMetrics c m t)) with (tree_root t). constructor.
  - apply setMetrics_lookup in Hpn as (pn0 & Hpn0 & _ & _ & Ec & _). apply setMetrics_lookup in Hn as (n0 & Hn0 & _ & -> & _).
    eapply path_step; [done|exact Hpn0|by rewrite <- Ec|done].
  - change (tree_root t) with (tree_root (setMetrics c m t)). constructor.
  - destruct (setMetrics_back t c m p pn Hpn) as (pn' & Hpn' & _ & _ & Ec & _).
    destruct (setMetrics_back t c m d n Hn) as (n' & Hn' & _ & <- & _). eapply path_step; [done|exact Hpn'|by rewrite Ec|done].
Qed.

Lemma setMetrics_at {M} (t : ContextTree (M := M)) c m d n :
  heap (setMetrics c m t) !! d = Some n -> n_metrics n = if decide (d = c) then Some m else default None (n_metrics <$> heap t !! d).
Proof.
  unfold setMetrics. cbn. intros Hd. case_decide as Hc.
  - subst d. rewrite lookup_alter_eq in Hd. destruct (heap t !! c); [|done]. by injection Hd as <-.
  - rewrite lookup_alter_ne in Hd by done. by rewrite Hd.
Qed.

(** ** Shapes of paths *)
Definition key_addr (k : Z * Z * Z * Z) : Z := k.1.2.
Definition inner_keys : list (Z * Z * Z * Z) -> Prop := Forall (fun k => key_addr k = 0).

(** The path of a callee: frames without an address, a leaf with one, and the callee. *)
Definition callee_path (ks : list (Z * Z * Z * Z)) : Prop :=
  exists fs leaf callee, ks = fs ++ [leaf; callee] /\ inner_keys fs /\ key_addr leaf <> 0.
Definition path_shape (ks : list (Z * Z * Z * Z)) : Prop :=
  inner_keys ks \/ (exists fs leaf, ks = fs ++ [leaf] /\ inner_keys fs /\ key_addr leaf <> 0) \/ callee_path ks.

Lemma callee_last ks k : callee_path ks -> ~ path_shape (ks ++ [k]).
Proof.
  intros (fs & leaf & callee & -> & Hfs & Hl) Hs. rewrite <- app_assoc in Hs. cbn in Hs.
  assert (Hfirst : forall gs g rest, inner_keys gs -> key_addr g <> 0 -> fs ++ leaf :: callee :: [k] = gs ++ g :: rest -> rest = [callee; k]).
  { clear Hs. induction Hfs as [|f fs Hf _ IH]; intros [|x gs] g rest Hgs Hg E; cbn in E.
    - congruence.
    - injection E as <- E. apply Forall_cons in Hgs as [? _]. done.
    - injection E as <- E. done.
    - injection E as <- E. apply Forall_cons in Hgs as [_ Hgs]. by eapply IH. }
  destruct Hs as [Hin|[(gs & g & E & Hgs & Hg)|(gs & g & c & E & Hgs & Hg)]].
  - apply Forall_app in Hin as [_ Hin]. by apply Forall_cons in Hin as [? _].
  - by apply Hfirst in E.
  - by apply Hfirst in E.
Qed.

(** ** Trees of such paths *)
Section shape.
Context {M : Type}.
Abbreviation tree := (ContextTree (M := M)).

Lemma added_paths (t : tree) p pn frame d ks ksp :
  tree_ok t -> heap t !! p = Some pn -> has_path t p ksp ->
  has_path (added_tree t p pn frame) d ks ->
  (d <> next_addr t /\ has_path t d ks) \/ (d = next_addr t /\ ks = ksp ++ [frame_key frame]).
Proof.
  intros Ht Hp Hpp Hd.
  assert (Hold : forall c, is_Some (heap t !! c) -> c <> next_addr t) by (intros c Hc; pose proof (ok_next t Ht c Hc); lia).
  induction Hd as [|q qn d n ks Hq IH Hqn Hin Hn].
  { left. destruct (ok_root t Ht) as (r & Hr & _). split; [by apply (Hold (tree_root t)); eexists|].
    change (tree_root (added_tree t p pn frame)) with (tree_root t). constructor. }
  destruct (added_children t p pn frame q qn d Ht Hp Hqn Hin) as [[-> ->]|(Hne & qo & Hqo & Hdo)].
  - right. rewrite added_new in Hn. injection Hn as <-. split; [done|]. cbn. f_equal.
    destruct IH as [[_ Hpk]|[E _]]; [by eapply path_fun|]. exfalso. by apply (Hold p); [eexists|].
  - left. split; [done|]. destruct IH as [[_ Hq']|[-> _]]; [|exfalso; by apply (Hold (next_addr t)); [eexists|]].
    apply (added_inv t p pn frame) in Hn as [[? _]|(_ & no & Hno & (_ & -> & _))]; [done| |done|done].
    by eapply path_step.
Qed.

Lemma has_path_of (t : tree) c n : tree_ok t -> heap t !! c = Some n -> exists ks, has_path t c ks.
Proof.
  intros Ht. revert n. induction c as [c IH] using lt_wf_ind. intros n Hc.
  destruct (decide (c = tree_root t)) as [->|Hne]; [exists []; constructor|].
  destruct (ok_parent t Ht c n Hc Hne) as (p & pn & _ & Hpn & Hch). destruct (ok_child t Ht p pn c Hpn Hch) as (n' & _ & _ & Hlt).
  destruct (IH p Hlt pn Hpn) as [ks Hks]. exists (ks ++ [frame_key (n_frame n)]). by eapply path_step.
Qed.

(** [Q] holds of the metrics of each node that has some, and only callees have some. The ids have
    not run out: the counter of ids is the number of nodes. *)
Record call_tree (Q : nat -> M -> Prop) (t : tree) : Prop := {
  ct_ok : tree_ok t;
  ct_count : id_counter t = Z.of_nat (next_addr t);
  ct_shape : forall c ks, has_path t c ks -> path_shape ks;
  ct_metrics : forall c n m, heap t !! c = Some n -> n_metrics n = Some m ->
    (exists ks, has_path t c ks /\ callee_path ks) /\ Q c m;
}.

Lemma new_call_tree Q : call_tree Q ContextTree_new.
Proof.
  split; [apply ContextTree_new_ok|done| |].
  - intros c ks Hc. apply path_inv in Hc as [[_ ->]|(p & pn & n & ks' & _ & Hp & Hc & _)]; [by left; constructor|].
    cbn in Hp. apply lookup_singleton_Some in Hp as [_ <-]. by apply not_elem_of_nil in Hc.
  - intros c n m Hc. cbn in Hc. apply lookup_singleton_Some in Hc as [_ <-]. done.
Qed.

(** A context with metrics has no children. *)
Lemma measured_leaf Q t c n m : call_tree Q t -> heap t !! c = Some n -> n_metrics n = Some m -> n_children n = [].
Proof.
  intros Ht Hc Hm. destruct (ct_metrics Q t Ht c n m Hc Hm) as [(ks & Hks & Hcal) _].
  destruct (n_children n) as [|d l] eqn:E; [done|]. exfalso.
  assert (Hd : d ∈ n_children n) by (rewrite E; by left).
  destruct (ok_child t (ct_ok Q t Ht) c n d Hc Hd) as (dn & Hdn & _).
  eapply (callee_last ks (frame_key (n_frame dn)) Hcal), (ct_shape Q t Ht d). by eapply path_step.
Qed.

Definition small (t : tree) : Prop := Z.of_nat (next_addr t) < 2 ^ 32.

Lemma addContext_grows parent frame (t t' : tree) c : addContext parent frame t = RET (c, t') -> (next_addr t <= next_addr t')%nat.
Proof.
  unfold addContext. destruct (heap t !! parent); [|done]. destruct (findChild _ _ _); [by intros [= _ <-]|].
  intros [= _ <-]. cbn. lia.
Qed.

Lemma addContext_shape Q parent frame (t t' : tree) c ks :
  addContext parent frame t = RET (c, t') -> small t' -> call_tree Q t -> has_path t parent ks -> path_shape (ks ++ [frame_key frame]) ->
  call_tree Q t' /\ has_path t' c (ks ++ [frame_key frame]).
Proof.
  intros E Hsmall Hct Hp Hs. destruct Hct as [Ht Hn Hsh Hm].
  destruct (path_heap t parent ks Ht Hp) as [pn Hpn]. unfold addContext in E. rewrite Hpn in E.
  destruct (findChild (heap t) pn frame) as [c'|] eqn:Hf.
  - injection E as <- <-. destruct (findChild_Some t parent pn frame c' Ht Hpn Hf) as (Hin & n & Hcn & Hk).
    split; [done|]. rewrite <- Hk. by eapply path_step.
  - rewrite (heap_add t parent pn) in E by done. change (RET (next_addr t, added_tree t parent pn frame) = RET (c, t')) in E.
    injection E as <- <-. unfold small in Hsmall. cbn in Hsmall.
    assert (Ht' : tree_ok (added_tree t parent pn frame)) by (apply added_ok; [done..|lia]).
    assert (Hnew : has_path (added_tree t parent pn frame) (next_addr t) (ks ++ [frame_key frame])).
    { destruct (added_old t parent pn frame parent pn Ht Hpn Hpn) as (pn' & Hpn' & (_ & _ & _ & _ & Hch)).
      change (frame_key frame) with (frame_key (n_frame (set_parent parent (set_frame frame (Context_new (M := M) (id_counter t)))))).
      eapply path_step; [by apply added_extends|exact Hpn'| |apply added_new]. rewrite Hch, decide_True by done. by left. }
    split; [|done]. split; [done| | |].
    + cbn. unfold u32. rewrite wrap_small by lia. lia.
    + intros d kd Hd. destruct (added_paths t parent pn frame d kd ks Ht Hpn Hp Hd) as [[_ Hold]|[_ ->]]; [by eapply Hsh|done].
    + intros d n m Hd Hdm. apply (added_inv t parent pn frame) in Hd as [[-> ->]|(_ & no & Hno & (_ & _ & _ & Em & _))]; [done| |done|done].
      rewrite Em in Hdm. destruct (Hm d no m Hno Hdm) as [(kd & Hkd & Hc) HQ]. split; [|done]. exists kd. split; [|done]. by apply added_extends.
Qed.

(** What [last_at] says of the walk so far. *)
Lemma addNext_shape Q last frame (t t' : tree) c ks :
  addNext last frame t = RET (c, t') -> small t' -> call_tree Q t -> last_at t last ks -> path_shape (ks ++ [frame_key frame]) ->
  call_tree Q t' /\ has_path t' c (ks ++ [frame_key frame]).
Proof.
  intros E Hs Ht Hl Hsh. destruct last as [p|]; [by eapply addContext_shape|]. cbn in Hl. subst ks.
  cbn [addNext] in E. unfold addContext_id in E. destruct (ok_root t (ct_ok Q t Ht)) as (r & Hr & Hr0 & _).
  rewrite (proj2 (ok_map t (ct_ok Q t Ht) CONTEXT_TREE_ROOT_ID (tree_root t))) in E by eauto.
  eapply addContext_shape; [done..| |done]. constructor.
Qed.

Lemma addNext_grows last frame (t t' : tree) c : addNext last frame t = RET (c, t') -> (next_addr t <= next_addr t')%nat.
Proof.
  destruct last; cbn; [apply addContext_grows|]. unfold addContext_id. destruct (_ !! _); [|done]. apply addContext_grows.
Qed.

Lemma add_frames_grows frames : forall last last' (t t' : tree), add_frames frames last t = RET (last', t') -> (next_addr t <= next_addr t')%nat.
Proof.
  induction frames as [|f frames IH]; intros last last' t t'; cbn [add_frames]; [by intros [= _ <-]|].
  intros ([c t1] & E1 & E)%exc_bind_ret. apply addNext_grows in E1. apply IH in E. lia.
Qed.

Lemma add_frames_shape Q frames : forall last last' (t t' : tree) ks,
  add_frames frames last t = RET (last', t') -> small t' -> call_tree Q t -> last_at t last ks -> inner_keys ks ->
  call_tree Q t' /\ last_at t' last' (ks ++ frame_keys frames) /\ inner_keys (ks ++ frame_keys frames).
Proof.
  induction frames as [|f frames IH]; intros last last' t t' ks; cbn [add_frames].
  - intros [= <- <-] Hs Ht Hl Hk. rewrite app_nil_r. done.
  - intros ([c t1] & E1 & E)%exc_bind_ret Hs Ht Hl Hk. pose proof (add_frames_grows _ _ _ _ _ E) as Hg.
    assert (Hk' : inner_keys (ks ++ [frame_key (assign_frame no_frame f)])) by (apply Forall_app; split; [done|by repeat constructor]).
    destruct (addNext_shape Q last (assign_frame no_frame f) t t1 c ks E1) as [Ht1 Hc]; [unfold small in *; lia|done|done|by left|].
    destruct (IH (Some c) last' t1 t' _ E Hs Ht1 Hc Hk') as (Ht' & Hl' & Hk2).
    change (frame_keys (f :: frames)) with ([frame_key (assign_frame no_frame f)] ++ frame_keys frames).
    by rewrite app_assoc.
Qed.

Lemma constructContext_grows frames ip mid mversion callee (t t' : tree) c :
  constructContext frames ip mid mversion callee t = RET (c, t') -> (next_addr t <= next_addr t')%nat.
Proof.
  intros ([last t1] & E1 & ([d t2] & E2 & E3)%exc_bind_ret)%exc_bind_ret.
  apply add_frames_grows in E1. apply addNext_grows in E2. apply addContext_grows in E3. lia.
Qed.

(** A walk keeps the shape and ends in a callee. *)
Lemma constructContext_shape Q frames ip mid mversion callee (t t' : tree) c :
  constructContext frames ip mid mversion callee t = RET (c, t') -> ip <> 0 -> small t' -> call_tree Q t ->
  call_tree Q t' /\ exists ks, has_path t' c ks /\ callee_path ks.
Proof.
  intros ([last t1] & E1 & ([d t2] & E2 & E3)%exc_bind_ret)%exc_bind_ret Hip Hs Ht.
  pose proof (addContext_grows _ _ _ _ _ E3). pose proof (addNext_grows _ _ _ _ _ E2).
  destruct (add_frames_shape Q _ None last t t1 [] E1) as (Ht1 & Hl1 & Hk1); [unfold small in *; lia|done|done|by constructor|].
  set (ks := [] ++ _) in Hl1, Hk1. set (leaf := mkFrame _ _ _ _ _ _ _) in E2.
  destruct (addNext_shape Q last leaf t1 t2 d ks E2) as (Ht2 & Hd); [unfold small in *; lia|done|done|right; left; by exists ks, (frame_key leaf)|].
  assert (Hcal : callee_path ((ks ++ [frame_key leaf]) ++ [frame_key callee])) by (exists ks, (frame_key leaf), (frame_key callee); by rewrite <- app_assoc).
  destruct (addContext_shape Q d callee t2 t' c _ E3 Hs Ht2 Hd) as (Ht' & Hc); [by right; right|]. split; [done|]. by eexists.
Qed.

(** Setting the metrics of a callee. *)
Lemma setMetrics_call Q Q' (t : tree) c m :
  call_tree Q t -> (exists ks, has_path t c ks /\ callee_path ks) -> Q' c m -> (forall d m', d <> c -> Q d m' -> Q' d m') ->
  call_tree Q' (setMetrics c m t).
Proof.
  intros [Ht Hn Hsh Hm] Hc HQ Hother. split; [by apply setMetrics_ok|exact Hn| |].
  - intros d ks Hd%setMetrics_path. by eapply Hsh.
  - intros d n m' Hd Hdm. pose proof (setMetrics_at t c m d n Hd) as Em. rewrite Hdm in Em.
    destruct (decide (d = c)) as [->|Hne].
    + injection Em as ->. split; [|done]. destruct Hc as (ks & Hks & Hcal). exists ks. by rewrite setMetrics_path.
    + apply setMetrics_lookup in Hd as (no & Hno & _). rewrite Hno in Em. cbn in Em. symmetry in Em.
      destruct (Hm d no m' Hno Em) as [(ks & Hks & Hcal) HQd]. split; [|by apply Hother]. exists ks. by rewrite setMetrics_path.
Qed.
End shape.
