(* ===== verification/BranchDecode.v ===== *)
(** * Following control transfers

    Models the part of [src/src/profiler/profiler.cpp] that decides where the
    execution goes after a control-transfer instruction: [readReg],
    [get_branch_target] and the conditions of [OnBranchWatchPoint], over the
    register accessors of [src/src/util/arch/x86-family/context-pc.h].

    The instruction decoder (XED) is not part of the repository: a decoded
    instruction is a record of what the code asks of it, and the function from
    addresses to decoded instructions is a parameter of the definitions that use
    it; so are the contents of the memory. *)
From stdpp Require Import base numbers list gmap.
From Stdlib Require Import ZArith Lia.
From S2P Require Import Prelude.
Local Open Scope Z_scope.

(** ** Decoded instructions *)
Inductive xed_reg :=
  | RAX | RBX | RCX | RDX | RSI | RDI | RBP | RSP | R8 | R9 | R10 | R11 | R12 | R13 | R14 | R15
  | REG_OTHER.

#[export] Instance xed_reg_eq_decision : EqDecision xed_reg.
Proof. solve_decision. Defined.

(** The conditional jumps, by XED's names. *)
Inductive jcc :=
  | JB | JBE | JL | JLE | JNB | JNBE | JNL | JNLE | JNO | JNP | JNS | JNZ | JO | JP | JRCXZ | JS | JZ.

Inductive xed_iclass :=
  | RET_NEAR | RET_FAR
  | JCC (c : jcc)
  | LOOP | LOOPE | LOOPNE
  | JMP | JMP_FAR
  | CALL_NEAR | CALL_FAR
  | ICLASS_OTHER.

#[export] Instance jcc_eq_decision : EqDecision jcc.
Proof. solve_decision. Defined.
#[export] Instance xed_iclass_eq_decision : EqDecision xed_iclass.
Proof. solve_decision. Defined.

(** The first operand: a displacement, a register, a memory cell, or another. *)
Inductive xed_operand := RELBR | OPREG (r : xed_reg) | MEM0 | OPERAND_OTHER.

Record xed_decoded_inst := mkInst {
  iclass : xed_iclass;
  inst_length : Z;
  op0 : xed_operand;
  displacement : Z;      (* xed_decoded_inst_get_branch_displacement *)
  has_displacement : bool;
  (* the effective address xed_agen computes from the base registers *)
  base_reg : xed_reg;
  base_disp : Z;
}.

(** ** The interrupted thread's registers ([context-pc.h]) *)
Record ucontext := mkCtx { gregs : xed_reg -> Z; reg_pc : Z; reg_efl : Z }.

Definition getContextPC (u : ucontext) : Z := reg_pc u.
Definition getContextSP (u : ucontext) : Z := gregs u RSP.
Definition getContextFL (u : ucontext) : Z := reg_efl u.
Definition getContextRCX (u : ucontext) : Z := gregs u RCX.
Definition getContextR10 (u : ucontext) : Z := gregs u R10.
Definition getContextRBX (u : ucontext) : Z := gregs u RBX.
Definition getContextRAX (u : ucontext) : Z := gregs u RAX.
Definition getContextRDX (u : ucontext) : Z := gregs u RDX.
Definition getContextR8 (u : ucontext) : Z := gregs u R8.
Definition getContextR9 (u : ucontext) : Z := gregs u R9.
Definition getContextR11 (u : ucontext) : Z := gregs u R11.
Definition getContextR12 (u : ucontext) : Z := gregs u R12.
Definition getContextR13 (u : ucontext) : Z := gregs u R13.
Definition getContextR14 (u : ucontext) : Z := gregs u R14.
Definition getContextR15 (u : ucontext) : Z := gregs u R15.
Definition getContextRSI (u : ucontext) : Z := gregs u RSI.
Definition getContextRDI (u : ucontext) : Z := gregs u RBP.

(** ** [Profiler::readReg] and [Profiler::get_branch_target] *)
Definition readReg (reg : xed_reg) (uCtxt : ucontext) : exc Z :=
  match reg with
  | RCX => RET (getContextRCX uCtxt)
  | RBX => RET (getContextRBX uCtxt)
  | R10 => RET (getContextR10 uCtxt)
  | RAX => RET (getContextRAX uCtxt)
  | RDX => RET (getContextRDX uCtxt)
  | R8 => RET (getContextR8 uCtxt)
  | R9 => RET (getContextR9 uCtxt)
  | R11 => RET (getContextR11 uCtxt)
  | R12 => RET (getContextR12 uCtxt)
  | R13 => RET (getContextR13 uCtxt)
  | R14 => RET (getContextR14 uCtxt)
  | R15 => RET (getContextR15 uCtxt)
  | RSI => RET (getContextRSI uCtxt)
  | RDI => RET (getContextRDI uCtxt)
  | RBP => RET (getContextRDI uCtxt)
  | RSP | REG_OTHER => EXC
  end.

Section target.
(** The 64-bit words of the memory, and XED's address generation. *)
Context (mem : Z -> Z) (xed_agen : xed_decoded_inst -> ucontext -> Z).

Definition get_branch_target (TempIp : Z) (xedd : xed_decoded_inst) (uCtxt : ucontext) : exc Z :=
  match op0 xedd with
  | RELBR => RET (u64 (TempIp + inst_length xedd + displacement xedd))
  | OPREG r => readReg r uCtxt
  | MEM0 => RET (mem (xed_agen xedd uCtxt))
  | OPERAND_OTHER => EXC
  end.
End target.

(** ** The conditions of [OnBranchWatchPoint] *)
Definition flag (flag_set mask : Z) : bool := negb (Z.land flag_set mask =? 0).

Definition jcc_taken (c : jcc) (flag_set rcx_value : Z) : bool :=
  match c with
  | JB => flag flag_set 0x0001
  | JBE => flag flag_set 0x0041
  | JL => negb (eqb (negb (flag flag_set 0x0800)) (negb (flag flag_set 0x0080)))
  | JLE => negb (eqb (negb (flag flag_set 0x0800)) (negb (flag flag_set 0x0080))) || flag flag_set 0x0040
  | JNB => negb (flag flag_set 0x0001)
  | JNBE => negb (flag flag_set 0x0041)
  | JNL => eqb (negb (flag flag_set 0x0800)) (negb (flag flag_set 0x0080))
  | JNLE => eqb (negb (flag flag_set 0x0800)) (negb (flag flag_set 0x0080)) && negb (flag flag_set 0x0040)
  | JNO => negb (flag flag_set 0x0800)
  | JNP => negb (flag flag_set 0x0004)
  | JNS => negb (flag flag_set 0x0080)
  | JNZ => negb (flag flag_set 0x0040)
  | JO => flag flag_set 0x0800
  | JP => flag flag_set 0x0004
  | JRCXZ => rcx_value =? 0
  | JS => flag flag_set 0x0080
  | JZ => flag flag_set 0x0040
  end.

(** [rcx_value] is an [int64_t]. *)
Definition loop_taken (ic : xed_iclass) (flag_set rcx_value : Z) : bool :=
  match ic with
  | LOOP => 1 <? rcx_value
  | LOOPE => (1 <? rcx_value) && flag flag_set 0x0040
  | LOOPNE => (1 <? rcx_value) && negb (flag flag_set 0x0040)
  | _ => false
  end.

(** Where [OnBranchWatchPoint] goes on decoding after a jump at [TempIp]; [None]
    for the instructions it handles otherwise. *)
Definition branch_next (mem : Z -> Z) (xed_agen : xed_decoded_inst -> ucontext -> Z)
    (TempIp : Z) (xedd : xed_decoded_inst) (uCtxt : ucontext) : option (exc Z) :=
  let flag_set := i64 (getContextFL uCtxt) in
  let rcx_value := i64 (getContextRCX uCtxt) in
  let target := get_branch_target mem xed_agen TempIp xedd uCtxt in
  let fall := RET (u64 (TempIp + inst_length xedd)) in
  match iclass xedd with
  | JCC c => Some (if jcc_taken c flag_set rcx_value then target else fall)
  | LOOP | LOOPE | LOOPNE => Some (if loop_taken (iclass xedd) flag_set rcx_value then target else fall)
  | JMP | JMP_FAR => Some target
  | _ => None
  end.

(** ** The processor's definition (Intel SDM, volume 2)

    The flags by their bit numbers, the sixteen conditions, and LOOP, which
    decrements RCX first. *)
Definition CF (f : Z) : bool := Z.testbit f 0.
Definition PF (f : Z) : bool := Z.testbit f 2.
Definition ZF (f : Z) : bool := Z.testbit f 6.
Definition SF (f : Z) : bool := Z.testbit f 7.
Definition OF (f : Z) : bool := Z.testbit f 11.

Definition x86_jcc (c : jcc) (f rcx : Z) : bool :=
  match c with
  | JB => CF f
  | JBE => CF f || ZF f
  | JL => xorb (SF f) (OF f)
  | JLE => ZF f || xorb (SF f) (OF f)
  | JNB => negb (CF f)
  | JNBE => negb (CF f) && negb (ZF f)
  | JNL => negb (xorb (SF f) (OF f))
  | JNLE => negb (ZF f) && negb (xorb (SF f) (OF f))
  | JNO => negb (OF f)
  | JNP => negb (PF f)
  | JNS => negb (SF f)
  | JNZ => negb (ZF f)
  | JO => OF f
  | JP => PF f
  | JRCXZ => rcx =? 0
  | JS => SF f
  | JZ => ZF f
  end.

Definition x86_loop (ic : xed_iclass) (f rcx : Z) : bool :=
  let count := u64 (rcx - 1) in
  match ic with
  | LOOP => negb (count =? 0)
  | LOOPE => negb (count =? 0) && ZF f
  | LOOPNE => negb (count =? 0) && negb (ZF f)
  | _ => false
  end.

(** Where a near jump goes when it is taken: the operand is a displacement, a register with the
    address, or a memory cell with it. *)
Definition x86_target (mem : Z -> Z) (agen : xed_decoded_inst -> ucontext -> Z) (ip : Z)
    (i : xed_decoded_inst) (u : ucontext) : option Z :=
  match op0 i with
  | RELBR => Some (u64 (ip + inst_length i + displacement i))
  | OPREG REG_OTHER | OPERAND_OTHER => None
  | OPREG r => Some (gregs u r)
  | MEM0 => Some (mem (agen i u))
  end.

Definition is_loop (ic : xed_iclass) : bool := match ic with LOOP | LOOPE | LOOPNE => true | _ => false end.

(** The address of the instruction that the processor executes after a near jump; [None] for other
    instructions. *)
Definition x86_next (mem : Z -> Z) (agen : xed_decoded_inst -> ucontext -> Z) (ip : Z)
    (i : xed_decoded_inst) (u : ucontext) : option Z :=
  target ← x86_target mem agen ip i u;
  let fall := u64 (ip + inst_length i) in
  match iclass i with
  | JCC c => Some (if x86_jcc c (reg_efl u) (gregs u RCX) then target else fall)
  | LOOP | LOOPE | LOOPNE => Some (if x86_loop (iclass i) (reg_efl u) (gregs u RCX) then target else fall)
  | JMP => Some target
  | _ => None
  end.

(** ** Lemmas *)
Lemma land_bit f n : 0 <= n -> negb (Z.land f (2 ^ n) =? 0) = Z.testbit f n.
Proof.
  intros Hn. destruct (Z.testbit f n) eqn:E.
  - apply negb_true_iff, Z.eqb_neq. intros H0.
    assert (Z.testbit (Z.land f (2 ^ n)) n = true) as Hb
      by (rewrite Z.land_spec, E, Z.pow2_bits_true by lia; done).
    rewrite H0, Z.bits_0 in Hb. done.
  - apply negb_false_iff, Z.eqb_eq, Z.bits_inj'. intros m Hm. rewrite Z.land_spec, Z.bits_0.
    destruct (decide (n = m)) as [<-|Hne]; [by rewrite E|].
    rewrite Z.pow2_bits_false by done. apply andb_false_r.
Qed.

(** The masks of the code are the flags. *)
Lemma flag_CF f : flag f 0x0001 = CF f. Proof. apply (land_bit f 0). lia. Qed.
Lemma flag_PF f : flag f 0x0004 = PF f. Proof. apply (land_bit f 2). lia. Qed.
Lemma flag_ZF f : flag f 0x0040 = ZF f. Proof. apply (land_bit f 6). lia. Qed.
Lemma flag_SF f : flag f 0x0080 = SF f. Proof. apply (land_bit f 7). lia. Qed.
Lemma flag_OF f : flag f 0x0800 = OF f. Proof. apply (land_bit f 11). lia. Qed.

Lemma flag_CF_ZF f : flag f 0x0041 = CF f || ZF f.
Proof.
  rewrite <- flag_CF, <- flag_ZF. unfold flag.
  change 0x0041 with (Z.lor 0x0001 0x0040). rewrite Z.land_lor_distr_r.
  rewrite <- negb_andb. f_equal.
  destruct (Z.eqb_spec (Z.lor (Z.land f 1) (Z.land f 64)) 0) as [E|E].
  - apply Z.lor_eq_0_iff in E as [-> ->]. done.
  - symmetry. apply andb_false_iff.
    destruct (Z.eqb_spec (Z.land f 1) 0) as [E1|]; [|by left].
    destruct (Z.eqb_spec (Z.land f 64) 0) as [E2|]; [|by right].
    rewrite E1, E2 in E. done.
Qed.

(** The sign extension of the flags does not touch the low 32 bits. *)
Lemma testbit_i64 f n : 0 <= n < 63 -> Z.testbit (i64 f) n = Z.testbit f n.
Proof.
  intros Hn. unfold i64. rewrite <- (Z.mod_pow2_bits_low (swrap 64 f) 64) by lia.
  change (swrap 64 f mod 2 ^ 64) with (wrap 64 (swrap 64 f)). rewrite wrap_swrap by lia.
  unfold wrap. by rewrite Z.mod_pow2_bits_low by lia.
Qed.

Create Rewrite HintDb flags.
#[export] Hint Rewrite flag_CF flag_PF flag_ZF flag_SF flag_OF flag_CF_ZF : flags.

Lemma jcc_taken_x86 c f rcx :
  0 <= rcx < 2 ^ 64 -> jcc_taken c (i64 f) (i64 rcx) = x86_jcc c f rcx.
Proof.
  intros Hr. unfold jcc_taken, x86_jcc. autorewrite with flags.
  unfold CF, PF, ZF, SF, OF. rewrite !testbit_i64 by lia.
  destruct c; try done;
    repeat match goal with |- context [Z.testbit ?a ?b] => destruct (Z.testbit a b) end; try done.
  destruct (Z.eqb_spec (i64 rcx) 0) as [E|E], (Z.eqb_spec rcx 0) as [E'|E']; try done; exfalso.
  - apply E'. rewrite <- (wrap_small 64 rcx) by done. rewrite <- wrap_swrap by lia.
    change (swrap 64 rcx) with (i64 rcx). by rewrite E.
  - subst. done.
Qed.

(** A loop instruction's count, as the code tests it. *)
Lemma loop_count rcx :
  0 <= rcx < 2 ^ 64 -> 0 < i64 rcx -> (1 <? i64 rcx) = negb (u64 (rcx - 1) =? 0).
Proof.
  intros Hr Hp. assert (i64 rcx = rcx) as E.
  { unfold i64, swrap in *. rewrite wrap_small in * by done. destruct (Z.ltb_spec rcx (2 ^ (64 - 1))); lia. }
  rewrite E in *. unfold u64. rewrite wrap_small by lia.
  destruct (Z.ltb_spec 1 rcx), (Z.eqb_spec (rcx - 1) 0); simpl; lia.
Qed.

(** The operand is read as the processor reads it, but for two registers. *)
Lemma target_read mem agen ip i u target :
  x86_target mem agen ip i u = Some target -> op0 i <> OPREG RDI -> op0 i <> OPREG RSP ->
  get_branch_target mem agen ip i u = RET target.
Proof.
  unfold x86_target, get_branch_target. intros E Hrdi Hrsp.
  destruct (op0 i) as [|[]| |]; try congruence; by injection E as <-.
Qed.

Lemma loop_taken_x86 ic f rcx :
  0 <= rcx < 2 ^ 64 -> 0 < i64 rcx -> is_loop ic = true -> loop_taken ic (i64 f) (i64 rcx) = x86_loop ic f rcx.
Proof.
  intros Hr Hp Hic. unfold loop_taken, x86_loop. rewrite flag_ZF.
  assert (ZF (i64 f) = ZF f) as -> by (apply testbit_i64; lia).
  rewrite loop_count by done. by destruct ic.
Qed.

(** ** Properties *)

(** C39: Jumps are followed as the processor takes them. After a conditional jump, a loop
    instruction or a near unconditional jump, direct or through a register or a memory cell, the profiler goes on decoding at the
    address that the instruction-set manual gives, for any flags and RCX, with these exceptions:
    a loop instruction needs a counter that is positive as a signed number; through RDI it goes on at the address in RBP;
    and through RSP the process ends. *)
Theorem branch_next_correct (mem : Z -> Z) (agen : xed_decoded_inst -> ucontext -> Z) (ip next : Z)
    (i : xed_decoded_inst) (u : ucontext) :
  0 <= gregs u RCX < 2 ^ 64 -> x86_next mem agen ip i u = Some next ->
  ((is_loop (iclass i) = true -> 0 < i64 (gregs u RCX)) -> op0 i <> OPREG RDI -> op0 i <> OPREG RSP ->
     branch_next mem agen ip i u = Some (RET next)) /\
  (iclass i = JMP -> op0 i = OPREG RDI -> branch_next mem agen ip i u = Some (RET (gregs u RBP))) /\
  (iclass i = JMP -> op0 i = OPREG RSP -> branch_next mem agen ip i u = Some EXC).
Proof.
  intros Hr Hn. unfold branch_next. split_and!.
  - intros Hloop Hrdi Hrsp. destruct (x86_target mem agen ip i u) as [target|] eqn:Et; [|by unfold x86_next in Hn; rewrite Et in Hn].
    rewrite (target_read mem agen ip i u target) by done. unfold x86_next in Hn. rewrite Et in Hn. cbn [mbind option_bind] in Hn.
    unfold getContextFL, getContextRCX.
    destruct (iclass i) as [| |c| | | | | | | |]; try done; try (apply (inj Some) in Hn as <-).
    + rewrite jcc_taken_x86 by done. by destruct (x86_jcc c _ _).
    + rewrite loop_taken_x86 by auto. by destruct (x86_loop _ _ _).
    + rewrite loop_taken_x86 by auto. by destruct (x86_loop _ _ _).
    + rewrite loop_taken_x86 by auto. by destruct (x86_loop _ _ _).
    + done.
  - intros -> Ho. unfold get_branch_target. by rewrite Ho.
  - intros -> Ho. unfold get_branch_target. by rewrite Ho.
Qed.

(** A jump through a memory cell, and a conditional one. *)
Lemma branch_next_correct_witness :
  let u := mkCtx (fun _ => 0) 0 0 in
  branch_next (fun a => a + 7) (fun _ _ => 5000) 100 (mkInst JMP 6 MEM0 0 false RAX 0) u = Some (RET 5007) /\
  branch_next (fun a => a + 7) (fun _ _ => 5000) 100 (mkInst (JCC JNZ) 2 RELBR (-5) true RAX 0) u = Some (RET 97).
Proof.
  intros u. split.
  - apply (branch_next_correct (fun a => a + 7) (fun _ _ => 5000) 100 5007 (mkInst JMP 6 MEM0 0 false RAX 0) u);
      [cbn; lia|reflexivity|done..].
  - apply (branch_next_correct (fun a => a + 7) (fun _ _ => 5000) 100 97 (mkInst (JCC JNZ) 2 RELBR (-5) true RAX 0) u);
      [cbn; lia|reflexivity|done..].
Defined.

(** The loop instructions are followed correctly exactly for counters that are
    positive as signed numbers: the code compares RCX with 1 before the decrement, so
    that for a counter of 0, or of [2^63] and more, it takes the loop for ended where
    the processor jumps. *)
Theorem loop_taken_correct (ic : xed_iclass) (f rcx : Z) :
  0 <= rcx < 2 ^ 64 -> ic = LOOP \/ ic = LOOPE \/ ic = LOOPNE ->
  (0 < i64 rcx -> loop_taken ic (i64 f) (i64 rcx) = x86_loop ic f rcx) /\
  (i64 rcx <= 0 -> loop_taken ic (i64 f) (i64 rcx) = false /\
     x86_loop ic f rcx = match ic with LOOPE => ZF f | LOOPNE => negb (ZF f) | _ => true end).
Proof.
  intros Hr Hic. unfold loop_taken, x86_loop. rewrite flag_ZF.
  assert (ZF (i64 f) = ZF f) as -> by (apply testbit_i64; lia). split; intros Hp.
  - rewrite loop_count by done. by destruct Hic as [->|[->| ->]].
  - rewrite (proj2 (Z.ltb_ge 1 (i64 rcx))) by lia.
    assert ((u64 (rcx - 1) =? 0) = false) as ->.
    { apply Z.eqb_neq. intros E. unfold i64, swrap in Hp. rewrite wrap_small in Hp by done.
      destruct (Z.ltb_spec rcx (2 ^ (64 - 1))).
      - assert (rcx = 0) as -> by lia. done.
      - unfold u64 in E. rewrite wrap_small in E by lia. lia. }
    by destruct Hic as [->|[->| ->]].
Qed.

Lemma loop_taken_correct_witness :
  loop_taken LOOP (i64 0) (i64 0) = false /\ x86_loop LOOP 0 0 = true.
Proof.
  apply (proj2 (loop_taken_correct LOOP 0 0 ltac:(lia) (or_introl eq_refl))).
  vm_compute. congruence.
Defined.

(** Indirect targets are read from the right register for every general-purpose
    register but two: RSP, which stops the process, and RDI, for which the value of
    RBP is returned. *)
Theorem readReg_correct (r : xed_reg) (u : ucontext) :
  readReg r u =
    match r with
    | RSP | REG_OTHER => EXC
    | RDI => RET (gregs u RBP)
    | _ => RET (gregs u r)
    end.
Proof. by destruct r. Qed.
