(* ===== verification/RangeSet.v ===== *)
(** * Sets of ranges

    Models [src/src/util/range.h]: the template [RangeSet], a [std::map] from the start
    of a range to the range, with its insertion, its two removals and its
    searches. The map is the list of its entries in the order of the keys, which is the order
    in which its iterators go; an iterator is a position, [end()] being the length.

    [isDisjointRange] and [getRangesIntersect] call [end] and [start], which are data
    members, as functions; nothing instantiates them and they would not compile, so
    they have no model. *)
From stdpp Require Import base numbers list.
From Stdlib Require Import ZArith Lia Sorting.Sorted.
From S2P Require Import Prelude.
Local Open Scope Z_scope.

Section range_set.
Context {T : Type}.

Record Range := mkRange { start : Z; end_ : Z; data : T }.

(** The constructor, with its assertion. *)
Definition Range_new (i_start i_end : Z) (i_data : T) : exc Range :=
  _ ← assert_exc (i_start <=? i_end); RET (mkRange i_start i_end i_data).

(** ** [std::map] *)
Abbreviation RangeSet := (list (Z * Range)).

Definition lower_bound (k : Z) (m : RangeSet) : nat :=
  match list_find (fun e => k <= e.1) m with Some (i, _) => i | None => length m end.
Definition upper_bound (k : Z) (m : RangeSet) : nat :=
  match list_find (fun e => k < e.1) m with Some (i, _) => i | None => length m end.

(** [emplace] keeps the entry that is there. *)
Fixpoint emplace (k : Z) (r : Range) (m : RangeSet) : RangeSet :=
  match m with
  | [] => [(k, r)]
  | e :: m' => if k <? e.1 then (k, r) :: m else if k =? e.1 then m else e :: emplace k r m'
  end.

Definition erase (k : Z) (m : RangeSet) : RangeSet := filter (fun e => e.1 <> k) m.

(** ** The operations *)
Definition isEmpty (m : RangeSet) : bool := bool_decide (m = []).

Definition insert (s e : Z) (d : T) (m : RangeSet) : exc (bool * RangeSet) :=
  r ← Range_new s e d; RET (true, emplace s r m).

Definition getRange (probe_key : Z) (m : RangeSet) : option Range :=
  if (length m =? 0)%nat then None
  else
    let it := upper_bound probe_key m in
    if (it =? 0)%nat then None
    else
      e ← m !! (it - 1)%nat;
      if end_ e.2 <? probe_key then None else Some e.2.

Definition getData (probe_key : Z) (m : RangeSet) : option T := data <$> getRange probe_key m.

(** The loop from an iterator on, as long as the ranges end in time. *)
Fixpoint inside_from (e : Z) (m : RangeSet) : list Range :=
  match m with
  | [] => []
  | x :: m' => if end_ x.2 <=? e then x.2 :: inside_from e m' else []
  end.

Definition getRangesInside (s e : Z) (m : RangeSet) : exc (list Range) :=
  _ ← assert_exc (s <=? e);
  RET (if (length m =? 0)%nat then [] else inside_from e (drop (lower_bound s m) m)).

Definition remove_range (s e : Z) (m : RangeSet) : exc (bool * RangeSet) :=
  inside_ranges ← getRangesInside s e m;
  match inside_ranges with
  | [r] => if (start r =? s) && (end_ r =? e) then RET (true, erase (start r) m) else RET (false, m)
  | _ => RET (false, m)
  end.

Definition remove (s : Z) (m : RangeSet) : bool * RangeSet :=
  match getRange s m with
  | Some r => if start r =? s then (true, erase s m) else (false, m)
  | None => (false, m)
  end.

Definition getAllRanges (m : RangeSet) : list Range := m.*2.

(** ** Well-formed sets *)

(** The entries are in order; ranges are stored under their start. *)
Definition before (a b : Z * Range) : Prop := a.1 < b.1.
Definition entry_ok (e : Z * Range) : Prop := e.1 = start e.2 /\ start e.2 <= end_ e.2.
Definition set_ok (m : RangeSet) : Prop := StronglySorted before m /\ Forall entry_ok m.

(** The stronger one: the ranges keep apart. *)
Definition apart (a b : Z * Range) : Prop := end_ a.2 < b.1.
Definition disjoint_set (m : RangeSet) : Prop := StronglySorted apart m /\ Forall entry_ok m.

Definition covers (r : Range) (p : Z) : Prop := start r <= p <= end_ r.

Lemma disjoint_ok m : disjoint_set m -> set_ok m.
Proof.
  intros [Hs He]. split; [|done]. induction Hs as [|e m Hs IH Hall]; [constructor|].
  apply Forall_cons in He as [[? ?] He]. constructor; [by apply IH|].
  eapply Forall_impl; [exact Hall|]. unfold apart, before. intros x Hx. lia.
Qed.

Lemma emplace_elem k r m x : x ∈ emplace k r m -> x = (k, r) \/ x ∈ m.
Proof.
  induction m as [|e m IH]; simpl; [rewrite list_elem_of_singleton; auto|].
  destruct (k <? e.1); [rewrite elem_of_cons; tauto|]. destruct (k =? e.1); [auto|].
  rewrite !elem_of_cons. tauto.
Qed.

Lemma emplace_old k r m x : x ∈ m -> x ∈ emplace k r m.
Proof.
  induction m as [|e m IH]; simpl; [by rewrite elem_of_nil|].
  destruct (k <? e.1); [by rewrite (elem_of_cons (e :: m)); right|]. destruct (k =? e.1); [done|].
  rewrite !elem_of_cons. tauto.
Qed.

Lemma emplace_new k r m : Forall (fun e => e.1 <> k) m -> (k, r) ∈ emplace k r m.
Proof.
  induction 1 as [|e m He _ IH]; simpl; [by apply list_elem_of_singleton|].
  destruct (k <? e.1); [by apply elem_of_cons; left|]. rewrite (proj2 (Z.eqb_neq k e.1)) by done.
  apply elem_of_cons. by right.
Qed.

(** An entry is put in order among those it is in relation with. *)
Lemma emplace_sorted (R : Z * Range -> Z * Range -> Prop) k r m :
  StronglySorted R m ->
  (forall e, e ∈ m -> k < e.1 -> R (k, r) e) -> (forall e, e ∈ m -> e.1 < k -> R e (k, r)) ->
  (forall x e, e ∈ m -> x ∈ m -> k < e.1 -> R e x -> k < x.1) ->
  StronglySorted R (emplace k r m).
Proof.
  induction 1 as [|e m Hs IH Hall]; intros Ha Hb Hc; simpl; [by repeat constructor|].
  destruct (Z.ltb_spec k e.1) as [Hk|Hk].
  - constructor; [by constructor|]. apply Forall_forall. intros x Hx. apply Ha; [done|].
    apply elem_of_cons in Hx as [->|Hx]; [done|]. rewrite Forall_forall in Hall.
    apply (Hc x e); [left|by right|done|by apply Hall].
  - destruct (Z.eqb_spec k e.1) as [->|Hne]; [by constructor|]. constructor.
    + apply IH; [intros x Hx; apply Ha; by right|intros x Hx; apply Hb; by right|].
      intros x y Hy Hx. apply Hc; by right.
    + apply Forall_forall. intros x Hx. apply emplace_elem in Hx as [->|Hx].
      * apply Hb; [left|lia].
      * by rewrite Forall_forall in Hall; apply Hall.
Qed.

(** ** Searches *)
Lemma sorted_lookup (R : Z * Range -> Z * Range -> Prop) m i j a b :
  StronglySorted R m -> (i < j)%nat -> m !! i = Some a -> m !! j = Some b -> R a b.
Proof.
  intros Hs. revert i j; induction Hs as [|e m Hs IH Hall]; intros i j Hij Ha Hb; [done|].
  destruct j as [|j]; [lia|]. simpl in Hb. destruct i as [|i].
  - simpl in Ha. injection Ha as <-. rewrite Forall_forall in Hall. apply Hall. by eapply list_elem_of_lookup_2.
  - apply (IH i j); [lia|done|done].
Qed.

(** [upper_bound] parts the entries. *)
Lemma upper_bound_spec k m : StronglySorted before m -> forall i e, m !! i = Some e ->
  ((i < upper_bound k m)%nat <-> e.1 <= k).
Proof.
  intros Hs i e Hi. unfold upper_bound. destruct (list_find _ m) as [[n x]|] eqn:E.
  - apply list_find_Some in E as (Hn & Hx & Hbefore). split; intros Hlt.
    + specialize (Hbefore i e Hi Hlt). lia.
    + destruct (Nat.lt_trichotomy i n) as [?|[->|Hni]]; [done| |].
      * assert (e = x) as -> by congruence. simpl in *. lia.
      * pose proof (sorted_lookup _ _ _ _ _ _ Hs Hni Hn Hi) as Hb. unfold before in Hb. simpl in *. lia.
  - apply list_find_None in E. rewrite Forall_forall in E. pose proof (E e (list_elem_of_lookup_2 _ _ _ Hi)) as He.
    pose proof (lookup_lt_Some _ _ _ Hi). simpl in He. split; intros; [lia|done].
Qed.

Lemma upper_bound_le k m : (upper_bound k m <= length m)%nat.
Proof.
  unfold upper_bound. destruct (list_find _ m) as [[n x]|] eqn:E; [|done].
  apply list_find_Some in E as (Hn & _). apply lookup_lt_Some in Hn. lia.
Qed.

(** The range found is the last one that starts in time, if it covers the key. *)
Lemma getRange_spec p m r :
  set_ok m -> getRange p m = Some r <->
    (start r, r) ∈ m /\ covers r p /\ forall e, e ∈ m -> e.1 <= p -> e.1 <= start r.
Proof.
  intros [Hs Hok]. rewrite Forall_forall in Hok. pose proof (upper_bound_le p m) as Hle. unfold getRange. split.
  - destruct (length m =? 0)%nat; [done|]. destruct (Nat.eqb_spec (upper_bound p m) 0) as [|Hn]; [done|].
    destruct (m !! (upper_bound p m - 1)%nat) as [e|] eqn:Ee; [|done]. simpl.
    destruct (Z.ltb_spec (end_ e.2) p) as [|He]; [done|]. intros [= <-].
    pose proof (list_elem_of_lookup_2 _ _ _ Ee) as Hin. destruct (Hok e Hin) as [Ek Hse].
    assert (e.1 <= p) as Hp by (apply (upper_bound_spec p m Hs _ _ Ee); lia).
    split_and!; [by rewrite <- Ek; destruct e|unfold covers; lia|].
    intros x [j Hj]%list_elem_of_lookup_1 Hx. apply (upper_bound_spec p m Hs j x Hj) in Hx.
    destruct (decide (j = (upper_bound p m - 1)%nat)) as [->|Hne]; [assert (x = e) as -> by congruence; lia|].
    pose proof (sorted_lookup _ _ j (upper_bound p m - 1) _ _ Hs ltac:(lia) Hj Ee) as Hb. unfold before in Hb. lia.
  - intros ([i Hi]%list_elem_of_lookup_1 & Hc & Hmax). unfold covers in Hc.
    assert ((i < upper_bound p m)%nat) as Hlt by (apply (upper_bound_spec p m Hs i _ Hi); simpl; lia).
    destruct (Nat.eqb_spec (length m) 0); [lia|]. destruct (Nat.eqb_spec (upper_bound p m) 0); [lia|].
    assert (upper_bound p m - 1 = i)%nat as ->.
    { destruct (decide (upper_bound p m - 1 = i)%nat) as [|Hne]; [done|].
      destruct (lookup_lt_is_Some_2 m (upper_bound p m - 1)) as [x Hx]; [lia|].
      pose proof (sorted_lookup _ _ i (upper_bound p m - 1) _ _ Hs ltac:(lia) Hi Hx) as Hb. unfold before in Hb. simpl in Hb.
      assert (x.1 <= p) as Hxp by (apply (upper_bound_spec p m Hs _ _ Hx); lia).
      specialize (Hmax x (list_elem_of_lookup_2 _ _ _ Hx) Hxp). lia. }
    rewrite Hi. simpl. by rewrite (proj2 (Z.ltb_ge _ _)) by lia.
Qed.

Lemma disjoint_covers m e x p :
  disjoint_set m -> e ∈ m -> x ∈ m -> covers e.2 p -> x.1 <= p -> x.1 <= e.1.
Proof.
  intros [Hs Hok] [i Hi]%list_elem_of_lookup_1 [j Hj]%list_elem_of_lookup_1 [_ Hc] Hp.
  destruct (Nat.lt_trichotomy i j) as [Hij|[->|Hij]].
  - pose proof (sorted_lookup _ _ _ _ _ _ Hs Hij Hi Hj) as Ha. unfold apart in Ha. lia.
  - by assert (e = x) as -> by congruence.
  - pose proof (sorted_lookup _ _ _ _ _ _ Hs Hij Hj Hi) as Ha. unfold apart in Ha.
    rewrite Forall_forall in Hok. destruct (Hok x (list_elem_of_lookup_2 _ _ _ Hj)). lia.
Qed.

Lemma getRange_disjoint p m r :
  disjoint_set m -> getRange p m = Some r <-> (start r, r) ∈ m /\ covers r p.
Proof.
  intros Hd. rewrite (getRange_spec p m r (disjoint_ok m Hd)). split; [tauto|]. intros [Hr Hc].
  split_and!; [done|done|]. intros e He Hp. by apply (disjoint_covers m (start r, r) e p).
Qed.

Lemma getRange_None p m : disjoint_set m -> (forall e, e ∈ m -> ~ covers e.2 p) -> getRange p m = None.
Proof.
  intros Hd Hn. destruct (getRange p m) as [r|] eqn:E; [|done].
  apply getRange_disjoint in E as [Hr Hc]; [|done]. by apply Hn in Hr.
Qed.

(** ** Insertions and removals *)

(** Nothing in the set meets [s .. e]. *)
Definition free (s e : Z) (m : RangeSet) : Prop := forall x, x ∈ m -> end_ x.2 < s \/ e < start x.2.

Lemma emplace_disjoint s e d m :
  disjoint_set m -> s <= e -> free s e m -> disjoint_set (emplace s (mkRange s e d) m).
Proof.
  intros [Hs Hok] Hse Hfree. rewrite Forall_forall in Hok. split.
  - apply emplace_sorted; [done|..].
    + intros x Hx Hk. destruct (Hok x Hx), (Hfree x Hx); unfold apart; simpl; lia.
    + intros x Hx Hk. destruct (Hok x Hx), (Hfree x Hx); unfold apart; simpl; lia.
    + intros x y Hy Hx Hk Ha. destruct (Hok y Hy). unfold apart in Ha. lia.
  - apply Forall_forall. intros x [->|Hx]%emplace_elem; [done|by apply Hok].
Qed.

Lemma erase_elem s m x : x ∈ erase s m <-> x ∈ m /\ x.1 <> s.
Proof. unfold erase. rewrite list_elem_of_filter. tauto. Qed.

Lemma erase_sorted (R : Z * Range -> Z * Range -> Prop) s m : StronglySorted R m -> StronglySorted R (erase s m).
Proof.
  unfold erase. induction 1 as [|e m Hs IH Hall]; [constructor|]. rewrite filter_cons.
  destruct (decide _); [|done]. constructor; [done|]. rewrite Forall_forall in *.
  intros x [_ Hx]%list_elem_of_filter. by apply Hall.
Qed.

Lemma erase_disjoint s m : disjoint_set m -> disjoint_set (erase s m).
Proof.
  intros [Hs Hok]. split; [by apply erase_sorted|]. rewrite Forall_forall in *.
  intros x [Hx _]%erase_elem. by apply Hok.
Qed.

Lemma emplace_present k r m : StronglySorted before m -> (exists e, e ∈ m /\ e.1 = k) -> emplace k r m = m.
Proof.
  induction 1 as [|e m Hs IH Hall]; intros (x & Hx & Hk); [by rewrite elem_of_nil in Hx|]. simpl.
  rewrite Forall_forall in Hall. apply elem_of_cons in Hx as [->|Hx].
  - rewrite Hk, Z.ltb_irrefl, Z.eqb_refl. done.
  - pose proof (Hall x Hx) as Hb. unfold before in Hb. rewrite (proj2 (Z.ltb_ge _ _)), (proj2 (Z.eqb_neq _ _)) by lia.
    f_equal. apply IH. by exists x.
Qed.

(** Lookups after the operations. *)
Lemma getRange_emplace s e d m p :
  disjoint_set m -> s <= e -> free s e m ->
  getRange p (emplace s (mkRange s e d) m) =
    (if (s <=? p) && (p <=? e) then Some (mkRange s e d) else getRange p m).
Proof.
  intros Hd Hse Hfree. pose proof (emplace_disjoint s e d m Hd Hse Hfree) as Hd'.
  destruct (_ && _) eqn:Ein.
  - apply andb_true_iff in Ein as [H1%Z.leb_le H2%Z.leb_le]. apply getRange_disjoint; [done|].
    split; [|done]. apply emplace_new. apply Forall_forall. intros x Hx Ek.
    destruct Hd as [_ Hok]. rewrite Forall_forall in Hok. destruct (Hok x Hx), (Hfree x Hx); lia.
  - destruct (getRange p m) as [r|] eqn:E.
    + apply getRange_disjoint in E as [Hr Hc]; [|done]. apply getRange_disjoint; [done|].
      split; [by apply emplace_old|done].
    + apply getRange_None; [done|]. intros x [->|Hx]%emplace_elem Hc.
      * unfold covers in Hc. simpl in Hc. apply andb_false_iff in Ein as [?%Z.leb_gt|?%Z.leb_gt]; lia.
      * assert (getRange p m = Some x.2) as E'; [|congruence]. apply getRange_disjoint; [done|]. split; [|done].
        destruct Hd as [_ Hok]. rewrite Forall_forall in Hok. destruct (Hok x Hx) as [<- _]. by destruct x.
Qed.

Lemma getRange_erase s m p :
  disjoint_set m ->
  getRange p (erase s m) = match getRange p m with Some r => if start r =? s then None else Some r | None => None end.
Proof.
  intros Hd. pose proof (erase_disjoint s m Hd) as Hd'. destruct (getRange p m) as [r|] eqn:E.
  - apply getRange_disjoint in E as [Hr Hc]; [|done]. destruct (Z.eqb_spec (start r) s) as [<-|Hne].
    + apply getRange_None; [done|]. intros x [Hx Hk]%erase_elem Hcx.
      pose proof (disjoint_covers m _ _ p Hd Hr Hx Hc) as H1. pose proof (disjoint_covers m _ _ p Hd Hx Hr Hcx) as H2.
      destruct Hd as [_ Hok]. rewrite Forall_forall in Hok. destruct (Hok x Hx). unfold covers in *. simpl in *. lia.
    + apply getRange_disjoint; [done|]. split; [|done]. by apply erase_elem.
  - apply getRange_None; [done|]. intros x [Hx Hk]%erase_elem Hc.
    assert (getRange p m = Some x.2) as E'; [|congruence]. apply getRange_disjoint; [done|]. split; [|done].
    destruct Hd as [_ Hok]. rewrite Forall_forall in Hok. destruct (Hok x Hx) as [<- _]. by destruct x.
Qed.

Lemma getRange_start s m : disjoint_set m -> forall x, x ∈ m -> x.1 = s -> getRange s m = Some x.2.
Proof.
  intros Hd x Hx <-. apply getRange_disjoint; [done|]. pose proof (proj2 Hd) as Hok. rewrite Forall_forall in Hok.
  destruct (Hok x Hx) as [Ek Hse]. split; [rewrite <- Ek; by destruct x|]. unfold covers. lia.
Qed.

(** *** The ranges inside another *)
Lemma filter_all (P : Z * Range -> Prop) `{!forall x, Decision (P x)} m : Forall P m -> filter P m = m.
Proof. induction 1 as [|e m He _ IH]; [done|]. rewrite filter_cons_True by done. by rewrite IH. Qed.

Lemma drop_lower_bound s m :
  StronglySorted before m -> drop (lower_bound s m) m = filter (fun e => s <= e.1) m.
Proof.
  induction 1 as [|e m Hs IH Hall]; [done|]. unfold lower_bound. simpl.
  destruct (decide (s <= e.1)) as [Hle|Hlt].
  - simpl. rewrite filter_cons_True by done. f_equal. symmetry. apply filter_all.
    rewrite Forall_forall in *. intros x Hx. pose proof (Hall x Hx) as Hb. unfold before in Hb. lia.
  - rewrite filter_cons_False by done. rewrite <- IH. unfold lower_bound.
    destruct (list_find _ m) as [[i x]|]; done.
Qed.

Lemma inside_from_filter e m :
  disjoint_set m -> inside_from e m = (filter (fun x => end_ x.2 <= e) m).*2.
Proof.
  intros [Hs Hok]. induction Hs as [|x m Hs IH Hall]; [done|]. simpl.
  apply Forall_cons in Hok as [[Ek Hx] Hok]. destruct (Z.leb_spec (end_ x.2) e) as [Hle|Hlt].
  - rewrite filter_cons_True by done. simpl. by rewrite IH.
  - rewrite filter_cons_False by lia. replace (filter (fun y => end_ y.2 <= e) m) with (@nil (Z * Range)); [done|].
    symmetry.
    rewrite Forall_forall in Hall, Hok. destruct (filter _ m) as [|y l] eqn:E; [done|].
    assert (y ∈ filter (fun y => end_ y.2 <= e) m) as [Hy Hin]%list_elem_of_filter by (rewrite E; left).
    pose proof (Hall y Hin) as Ha. destruct (Hok y Hin). unfold apart in Ha. lia.
Qed.

Lemma filter_sorted_disjoint (P : Z * Range -> Prop) `{!forall x, Decision (P x)} m :
  disjoint_set m -> disjoint_set (filter P m).
Proof.
  intros [Hs Hok]. split.
  - induction Hs as [|e m Hs IH Hall]; [constructor|]. apply Forall_cons in Hok as [_ Hok]. rewrite filter_cons.
    destruct (decide _); [|by apply IH]. constructor; [by apply IH|]. rewrite Forall_forall in *.
    intros x [_ Hx]%list_elem_of_filter. by apply Hall.
  - rewrite Forall_forall in *. intros x [_ Hx]%list_elem_of_filter. by apply Hok.
Qed.

Lemma getRangesInside_filter s e m :
  disjoint_set m -> s <= e ->
  getRangesInside s e m = RET (filter (fun r => s <= start r /\ end_ r <= e) (getAllRanges m)).
Proof.
  intros Hd Hse. unfold getRangesInside. rewrite (proj2 (Z.leb_le _ _)) by done. simpl. f_equal.
  destruct (Nat.eqb_spec (length m) 0) as [E|_]; [by destruct m|].
  rewrite drop_lower_bound by (by apply disjoint_ok).
  rewrite inside_from_filter by (by apply filter_sorted_disjoint). unfold getAllRanges.
  destruct Hd as [_ Hok]. induction Hok as [|x m [Ek _] _ IH]; [done|].
  rewrite fmap_cons, !filter_cons. rewrite Ek. destruct (decide (s <= start x.2)).
  - rewrite filter_cons. destruct (decide (end_ x.2 <= e)), (decide (s <= start x.2 /\ end_ x.2 <= e)); try tauto.
    rewrite fmap_cons. by f_equal.
  - destruct (decide (s <= start x.2 /\ end_ x.2 <= e)); [tauto|done].
Qed.

(** ** The set as a map from points to data *)

(** C13: A set of ranges that keep apart is a map from points to data: [insert] of a
    free range gives its points the new data and no other point another one; [remove] says
    whether a range starts there and takes away just the points of that range;
    [getRangesInside] lists the ranges inside an interval, all and in order. The ranges stay
    apart. *)
Theorem RangeSet_point_map (m : RangeSet) :
  disjoint_set m ->
  (forall s e d, s <= e -> free s e m -> exists m', insert s e d m = RET (true, m') /\ disjoint_set m' /\
     forall p, getData p m' = if (s <=? p) && (p <=? e) then Some d else getData p m) /\
  (forall s, disjoint_set (remove s m).2 /\ ((remove s m).1 = true <-> exists r, (s, r) ∈ m) /\
     forall p, getRange p (remove s m).2 =
       match getRange p m with Some r => if start r =? s then None else Some r | None => None end) /\
  (forall s e, s <= e ->
     getRangesInside s e m = RET (filter (fun r => s <= start r /\ end_ r <= e) (getAllRanges m))).
Proof.
  intros Hd. split_and!.
  - intros s e d Hse Hfree. unfold insert, Range_new. rewrite (proj2 (Z.leb_le _ _)) by done. simpl.
    eexists. split; [done|]. split; [by apply emplace_disjoint|]. intros p. unfold getData.
    rewrite getRange_emplace by done. by destruct (_ && _).
  - intros s. pose proof (getRange_start s m Hd) as Hstart. unfold remove.
    assert (forall p, getRange p m =
      match getRange p m with Some r => if start r =? s then None else Some r | None => None end \/
      exists r, getRange p m = Some r /\ start r = s) as Hcase.
    { intros p. destruct (getRange p m) as [r|]; [|by left]. destruct (Z.eqb_spec (start r) s); [right; by exists r|by left]. }
    destruct (getRange s m) as [r|] eqn:E; [destruct (Z.eqb_spec (start r) s) as [Er|Er]|].
    + split_and!; [by apply erase_disjoint| |intros p; by apply getRange_erase].
      apply getRange_disjoint in E as [Hr _]; [|done]. rewrite Er in Hr. split; [by exists r|done].
    + split_and!; [done|split; [done|]|].
      * intros [r' Hr']. specialize (Hstart _ Hr' eq_refl). injection Hstart as ->.
        destruct Hd as [_ Hok]. rewrite Forall_forall in Hok. destruct (Hok _ Hr') as [? _]. by simpl in *.
      * intros p. destruct (Hcase p) as [|(r' & E' & Es)]; [done|].
        apply getRange_disjoint in E' as [Hr' _]; [|done]. rewrite Es in Hr'. specialize (Hstart _ Hr' eq_refl).
        simpl in Hstart. congruence.
    + split_and!; [done|split; [done|]|].
      * intros [r' Hr']. by specialize (Hstart _ Hr' eq_refl).
      * intros p. destruct (Hcase p) as [|(r' & E' & Es)]; [done|].
        apply getRange_disjoint in E' as [Hr' _]; [|done]. rewrite Es in Hr'. by specialize (Hstart _ Hr' eq_refl).
  - intros s e. by apply getRangesInside_filter.
Qed.

End range_set.

Arguments Range : clear implicits.

(** Three ranges, the last of them added last. *)
Definition demo_set : list (Z * Range Z) :=
  [(10, mkRange 10 19 1); (20, mkRange 20 25 2); (40, mkRange 40 40 3)].

Lemma demo_set_disjoint : disjoint_set demo_set.
Proof.
  split.
  - repeat first [constructor | progress (unfold apart; simpl; lia)].
  - repeat first [constructor | progress (unfold entry_ok; simpl; lia)].
Qed.

Lemma RangeSet_point_map_witness :
  exists m', insert 26 39 7 demo_set = RET (true, m') /\ getData 30 m' = Some 7 /\ getData 40 m' = Some 3 /\
    getRange 21 (remove 20 demo_set).2 = None /\
    getRangesInside 11 40 demo_set = RET [mkRange 20 25 2; mkRange 40 40 3].
Proof.
  destruct (RangeSet_point_map demo_set demo_set_disjoint) as (Hins & Hrem & Hin).
  destruct (Hins 26 39 7) as (m' & E & _ & Hget); [lia| |].
  - intros x Hx. unfold demo_set in Hx. repeat (apply elem_of_cons in Hx as [->|Hx]; [simpl; lia|]).
    by apply not_elem_of_nil in Hx.
  - exists m'. split; [exact E|]. rewrite !Hget. split; [reflexivity|]. split; [vm_compute; reflexivity|].
    destruct (Hrem 20) as (_ & _ & ->). rewrite (Hin 11 40) by lia. split; vm_compute; reflexivity.
Defined.
