(* ===== verification/CodeCache.v ===== *)
(** * The code cache

    Models [src/src/profiler/code_cache.cpp] and [code_cache.h]: the methods the virtual
    machine has compiled, by the range of their code and by the method's id, with the tables
    from bytecode indices and from addresses to source lines.

    What the program asks JVMTI about a method is a record of functions. A [CompiledMethod *]
    is an address of the map [cc_heap]; using one that is not there ends the computation
    with [EXC], as a failed assertion does. [addMethod] releases the lock while it constructs the
    method: its two critical sections are two operations, between which others may run. The
    XML forms are in Report.v. *)
From stdpp Require Import base numbers list gmap strings.
From Stdlib Require Import ZArith Lia Sorting.Sorted.
From Stdlib Require Import Strings.Ascii.
From S2P Require Import Prelude RangeSet.
Local Open Scope Z_scope.

(** ** What JVMTI answers; [None] is an error. *)
Record jvmti := mkJvmti {
  GetMethodName : Z -> option string;
  GetMethodDeclaringClass : Z -> option Z;
  IsMethodNative : Z -> option bool;
  GetSourceFileName : Z -> option string;
  GetClassSignature : Z -> option string;
  GetMethodLocation : Z -> option (Z * Z);
  GetLineNumberTable : Z -> option (list (Z * Z));
}.

(** ** [Method] *)
Record Method := mkMethod {
  m_id : Z;
  m_name : string;
  m_src_file : string;
  m_class_name : string;
  m_native : bool;
  bci2line_rangeset : list (Z * Range Z);
}.

(** [std::replace] of one character by another. *)
Fixpoint replace_char (a b : ascii) (s : string) : string :=
  match s with
  | EmptyString => EmptyString
  | String c s' => String (if decide (c = a) then b else c) (replace_char a b s')
  end.

(** [substr(1, length - 2)]; it throws on an empty string. *)
Definition class_of_signature (sig : string) : exc string :=
  if (String.length sig =? 0)%nat then EXC
  else RET (replace_char "/"%char "."%char (String.substring 1 (String.length sig - 2) sig)).

(** The loop of [loadBCILineTable]: an entry ends where the next one starts. *)
Fixpoint load_lines (end_location : Z) (line_table : list (Z * Z)) (m : list (Z * Range Z))
  : exc (list (Z * Range Z)) :=
  match line_table with
  | [] => RET m
  | (tmp_start, line_number) :: rest =>
      let tmp_end := match rest with (next, _) :: _ => i64 (next - 1) | [] => end_location end in
      if tmp_end <? tmp_start then load_lines end_location rest m
      else r ← insert (u64 tmp_start) (u64 tmp_end) line_number m; load_lines end_location rest r.2
  end.

Section code_cache.
Context (jvm : jvmti).

Definition loadBCILineTable (id : Z) (native : bool) (m : list (Z * Range Z)) : exc (list (Z * Range Z)) :=
  if native then RET m
  else if negb (isEmpty m) then RET m
  else
    match GetMethodLocation jvm id, GetLineNumberTable jvm id with
    | Some (_, end_location), Some line_table => load_lines end_location line_table m
    | _, _ => RET m
    end.

(** The constructor. *)
Definition Method_new (id : Z) : exc Method :=
  let name := default "" (GetMethodName jvm id) in
  let native := default false (IsMethodNative jvm id) in
  match GetMethodDeclaringClass jvm id with
  | None => lines ← loadBCILineTable id native []; RET (mkMethod id name "" "" native lines)
  | Some c =>
      let src := default "" (GetSourceFileName jvm c) in
      cls ← match GetClassSignature jvm c with Some sig => class_of_signature sig | None => RET "" end;
      lines ← loadBCILineTable id native [];
      RET (mkMethod id name src cls native lines)
  end.

(** ** [CompiledMethod] *)
Record CompiledMethod := mkCompiled {
  cm_method : Method;
  cm_version : Z;
  code_size : Z;
  start_addr : Z;
  addr2line_rangeset : list (Z * Range Z);
}.

Definition isAddrIn (addr : Z) (m : CompiledMethod) : bool :=
  (start_addr m <=? addr) && (addr <? u64 (start_addr m + code_size m)).

Definition getMethodBoundary (m : CompiledMethod) : Z * Z :=
  (start_addr m, u64 (start_addr m + code_size m - 1)).

(** The loop of [loadAddrLocationMap] from one entry to the next; it stops at a bytecode index
    without a line. *)
Fixpoint load_addrs (lines : list (Z * Range Z)) (code_end prev : Z) (map : list (Z * Z))
    (m : list (Z * Range Z)) : exc (list (Z * Range Z)) :=
  match map with
  | [] => RET m
  | (next, location) :: rest =>
      let end_addr := u64 (next - 1) in
      _ ← assert_exc (prev <=? end_addr);
      _ ← assert_exc (end_addr <=? code_end);
      match getData (u64 location) lines with
      | None => RET m
      | Some lineno => r ← insert prev end_addr lineno m; load_addrs lines code_end next rest r.2
      end
  end.

Definition loadAddrLocationMap (map : list (Z * Z)) (c : CompiledMethod) : exc CompiledMethod :=
  let lines := bci2line_rangeset (cm_method c) in
  if m_native (cm_method c) then RET c
  else
    match map with
    | [] => RET c
    | (first, location) :: rest =>
        if isEmpty lines then RET c
        else
          let end_addr := u64 (first - 1) in
          _ ← assert_exc (start_addr c <=? end_addr);
          match getData (u64 location) lines with
          | None => RET c
          | Some lineno =>
              r ← insert (start_addr c) end_addr lineno (addr2line_rangeset c);
              m ← load_addrs lines (u64 (start_addr c + code_size c - 1)) first rest r.2;
              RET (mkCompiled (cm_method c) (cm_version c) (code_size c) (start_addr c) m)
          end
    end.

Definition addr2line (addr : Z) (m : CompiledMethod) : exc Z :=
  if isEmpty (addr2line_rangeset m) then RET 0
  else
    match getData addr (addr2line_rangeset m) with
    | Some line => RET line
    | None =>
        _ ← assert_exc ((start_addr m <=? addr) && (addr <=? u64 (start_addr m + code_size m - 1))); RET 0
    end.

(** The constructor and the loading of the map, without the lock. *)
Definition build_method (id version size code_addr : Z) (map : list (Z * Z)) : exc CompiledMethod :=
  m ← Method_new id; loadAddrLocationMap map (mkCompiled m version size code_addr []).

(** ** [CompiledMethodGroup], [MethodCache] and [CodeCacheManager] *)
Record CompiledMethodGroup := mkGroup { recent_version : Z; address_method_map : gmap Z nat }.

Record CodeCache := mkCache {
  method_range_set : list (Z * Range nat);
  method_id_map : gmap Z CompiledMethodGroup;
  cc_heap : gmap nat CompiledMethod;
  cc_next : nat;
  method_set : gset Z;
}.

Definition CodeCache_new : CodeCache := mkCache [] ∅ ∅ 0 ∅.

Definition with_groups (g : gmap Z CompiledMethodGroup) (c : CodeCache) : CodeCache :=
  mkCache (method_range_set c) g (cc_heap c) (cc_next c) (method_set c).
Definition with_methods (s : gset Z) (c : CodeCache) : CodeCache :=
  mkCache (method_range_set c) (method_id_map c) (cc_heap c) (cc_next c) s.

(** [MethodCache]. *)
Definition hasMethod (id : Z) (c : CodeCache) : bool := bool_decide (id ∈ method_set c).
Definition cache_addMethod (id : Z) (c : CodeCache) : CodeCache := with_methods ({[id]} ∪ method_set c) c.
Definition cache_removeMethod (id : Z) (c : CodeCache) : CodeCache := with_methods (method_set c ∖ {[id]}) c.

(** The group of a method, made if there is none. *)
Definition group_of (id : Z) (c : CodeCache) : CompiledMethodGroup :=
  default (mkGroup 0 ∅) (method_id_map c !! id).

(** The first critical section of [addMethod]: the group and the new version. *)
Definition add_begin (id : Z) (c : CodeCache) : Z * CodeCache :=
  let g := group_of id c in
  let version := u32 (recent_version g + 1) in
  (version, with_groups (<[id := mkGroup version (address_method_map g)]> (method_id_map c)) c).

(** The second one: the new object goes into the group and the range set. *)
Definition add_commit (id : Z) (m : CompiledMethod) (c : CodeCache) : exc (nat * CodeCache) :=
  let p := cc_next c in
  let g := group_of id c in
  r ← insert (start_addr m) (u64 (start_addr m + code_size m - 1)) p (method_range_set c);
  _ ← assert_exc r.1;
  RET (p, mkCache r.2 (<[id := mkGroup (recent_version g) (<[start_addr m := p]> (address_method_map g))]>
                         (method_id_map c))
            (<[p := m]> (cc_heap c)) (Datatypes.S p) (method_set c)).

Definition addMethod (id size code_addr : Z) (map : list (Z * Z)) (c : CodeCache) : exc (nat * CodeCache) :=
  let '(version, c) := add_begin id c in
  m ← build_method id version size code_addr map;
  add_commit id m c.

Definition addMethodAndRemoveFromUncompiledSet (id size code_addr : Z) (map : list (Z * Z)) (c : CodeCache)
  : exc (nat * CodeCache) :=
  addMethod id size code_addr map (cache_removeMethod id c).

Definition removeMethodByAddr (id code_addr : Z) (g : CompiledMethodGroup) (c : CodeCache) : exc CodeCache :=
  match address_method_map g !! code_addr with
  | None => RET c
  | Some p =>
      match cc_heap c !! p with
      | None => EXC
      | Some _ =>
          RET (mkCache (method_range_set c)
                 (<[id := mkGroup (recent_version g) (delete code_addr (address_method_map g))]> (method_id_map c))
                 (delete p (cc_heap c)) (cc_next c) (method_set c))
      end
  end.

Definition removeMethod (id code_addr : Z) (c : CodeCache) : exc CodeCache :=
  match method_id_map c !! id with
  | None => RET c
  | Some g =>
      c ← removeMethodByAddr id code_addr g c;
      let '(ok, m) := remove code_addr (method_range_set c) in
      _ ← assert_exc ok;
      RET (mkCache m (method_id_map c) (cc_heap c) (cc_next c) (method_set c))
  end.

(** By an address of the code: the method, and what the caller reads of it. *)
Definition getMethod (addr : Z) (c : CodeCache) : option nat := getData addr (method_range_set c).

Definition getMethod_ids (addr : Z) (c : CodeCache) : exc (option (nat * Z * Z)) :=
  match getMethod addr c with
  | None => RET None
  | Some p =>
      match cc_heap c !! p with
      | Some m => RET (Some (p, m_id (cm_method m), cm_version m))
      | None => EXC
      end
  end.

Definition findMethodByAddr (addr : Z) (c : CodeCache) : exc (option (Z * Z)) :=
  r ← getMethod_ids addr c;
  RET (match r with Some (_, id, version) => Some (id, version) | None => None end).

(** [getMethodByVersion]: over the entries of the map in some order. *)
Fixpoint newest (entries : list nat) (best : option (nat * Z)) (c : CodeCache) : exc (option nat) :=
  match entries with
  | [] => RET (fst <$> best)
  | p :: entries' =>
      match cc_heap c !! p with
      | None => EXC
      | Some m =>
          newest entries'
            (match best with
             | Some (_, v) => if v <? cm_version m then Some (p, cm_version m) else best
             | None => Some (p, cm_version m)
             end) c
      end
  end.

Fixpoint of_version (version : Z) (entries : list nat) (c : CodeCache) : exc (option nat) :=
  match entries with
  | [] => RET None
  | p :: entries' =>
      match cc_heap c !! p with
      | None => EXC
      | Some m => if cm_version m =? version then RET (Some p) else of_version version entries' c
      end
  end.

Definition getMethodByVersion (version : Z) (entries : list nat) (c : CodeCache) : exc (option nat) :=
  if version =? 0 then newest entries None c else of_version version entries c.

(** By the method's id, for the order [order] of the group's map. *)
Definition getMethod_id (order : gmap Z nat -> list nat) (id : Z) (c : CodeCache) : exc (option nat) :=
  match method_id_map c !! id with
  | None => RET None
  | Some g => getMethodByVersion 0 (order (address_method_map g)) c
  end.

Definition checkAndMoveMethodToUncompiledSet (id : Z) (c : CodeCache) : CodeCache :=
  match method_id_map c !! id with
  | None => cache_addMethod id c
  | Some _ => c
  end.

(** ** The specification: the methods that are loaded and not unloaded *)
Record live_method := mkLive { l_id : Z; l_version : Z; l_size : Z }.

Definition live_covers (s : Z) (l : live_method) (a : Z) : Prop := s <= a < s + l_size l.
Definition live_free (s size : Z) (live : gmap Z live_method) : Prop :=
  forall s' l, live !! s' = Some l -> s' + l_size l <= s \/ s + size <= s'.

(** The histories of the cache: both critical sections of loads, which any number of other events
    may separate, and unloads. [pending] are the loads between the two: the method's id
    and the version it was given. The virtual machine loads no code over live code and
    unloads what it has loaded. *)
Inductive history : CodeCache -> gmap Z live_method -> list (Z * Z) -> Prop :=
  | history_init : history CodeCache_new ∅ []
  | history_begin c live pending id version c' :
      history c live pending -> recent_version (group_of id c) < 2 ^ 32 - 1 ->
      add_begin id c = (version, c') -> history c' live ((id, version) :: pending)
  | history_commit c live pending1 pending2 id version size code_addr map m p c' :
      history c live (pending1 ++ (id, version) :: pending2) ->
      0 < size -> 0 <= code_addr -> code_addr + size <= 2 ^ 64 -> live_free code_addr size live ->
      build_method id version size code_addr map = RET m -> add_commit id m c = RET (p, c') ->
      history c' (<[code_addr := mkLive id version size]> live) (pending1 ++ pending2)
  | history_unload c live pending id code_addr l c' :
      history c live pending -> live !! code_addr = Some l -> l_id l = id ->
      removeMethod id code_addr c = RET c' -> history c' (delete code_addr live) pending
  | history_uncompiled c live pending id :
      history c live pending -> history (checkAndMoveMethodToUncompiledSet id c) live pending
  | history_compiled c live pending id :
      history c live pending -> history (cache_removeMethod id c) live pending.

(** How the cache represents them. *)
Record cache_ok (c : CodeCache) (live : gmap Z live_method) (pending : list (Z * Z)) : Prop := {
  ok_ranges : disjoint_set (method_range_set c);
  ok_range : forall s r, (s, r) ∈ method_range_set c <->
    exists l, live !! s = Some l /\ start r = s /\ end_ r = s + l_size l - 1 /\
      address_method_map (group_of (l_id l) c) !! s = Some (data r);
  ok_group : forall id s p, address_method_map (group_of id c) !! s = Some p ->
    exists l m, live !! s = Some l /\ l_id l = id /\ cc_heap c !! p = Some m /\
      m_id (cm_method m) = id /\ cm_version m = l_version l /\ start_addr m = s;
  ok_live : forall s l, live !! s = Some l -> 0 < l_size l /\
    exists p, address_method_map (group_of (l_id l) c) !! s = Some p;
  ok_next : forall p m, cc_heap c !! p = Some m -> (p < cc_next c)%nat;
  ok_recent : forall id, 0 <= recent_version (group_of id c) < 2 ^ 32;
  ok_pending : forall id v, (id, v) ∈ pending -> 0 < v <= recent_version (group_of id c);
  ok_version : forall s l, live !! s = Some l -> 0 < l_version l <= recent_version (group_of (l_id l) c);
  ok_distinct : NoDup pending /\
    (forall s l, live !! s = Some l -> (l_id l, l_version l) ∉ pending) /\
    (forall s s' l l', live !! s = Some l -> live !! s' = Some l' ->
       l_id l = l_id l' -> l_version l = l_version l' -> s = s');
}.

(** ** The representation is kept *)
Lemma Method_new_id id m : Method_new id = RET m -> m_id m = id.
Proof.
  unfold Method_new. destruct (GetMethodDeclaringClass jvm id) as [c|].
  - intros E. apply exc_bind_ret in E as (cls & _ & E). by apply exc_bind_ret in E as (lines & _ & [= <-]).
  - intros E. by apply exc_bind_ret in E as (lines & _ & [= <-]).
Qed.

Lemma loadAddrLocationMap_fields map c c' :
  loadAddrLocationMap map c = RET c' ->
  cm_method c' = cm_method c /\ cm_version c' = cm_version c /\ code_size c' = code_size c /\ start_addr c' = start_addr c.
Proof.
  unfold loadAddrLocationMap. destruct (m_native _); [by intros [= <-]|]. destruct map as [|[first loc] rest]; [by intros [= <-]|].
  destruct (isEmpty _); [by intros [= <-]|]. intros E. apply exc_bind_ret in E as (_ & _ & E).
  destruct (getData _ _); [|by injection E as <-]. apply exc_bind_ret in E as (r & _ & E).
  by apply exc_bind_ret in E as (m & _ & [= <-]).
Qed.

Lemma build_fields id v size addr map m :
  build_method id v size addr map = RET m ->
  m_id (cm_method m) = id /\ cm_version m = v /\ code_size m = size /\ start_addr m = addr.
Proof.
  intros E. apply exc_bind_ret in E as (m0 & E0%Method_new_id & E).
  apply loadAddrLocationMap_fields in E as (-> & -> & -> & ->). done.
Qed.

Lemma group_of_insert id g c id' :
  group_of id' (with_groups (<[id := g]> (method_id_map c)) c) = if decide (id = id') then g else group_of id' c.
Proof.
  unfold group_of. simpl. destruct (decide (id = id')) as [<-|?]; [by rewrite lookup_insert_eq|by rewrite lookup_insert_ne].
Qed.

Lemma begin_ok c live pending id version c' :
  cache_ok c live pending -> recent_version (group_of id c) < 2 ^ 32 - 1 -> add_begin id c = (version, c') ->
  cache_ok c' live ((id, version) :: pending).
Proof.
  intros [Hd Hr Hg Hl Hn Hrec Hpen Hver (Hnd & Hlp & Hdis)] Hlt [= <- <-].
  pose proof (Hrec id) as Hid. unfold u32. rewrite wrap_small by lia.
  assert (forall id', address_method_map (group_of id' (with_groups
    (<[id := mkGroup (recent_version (group_of id c) + 1) (address_method_map (group_of id c))]> (method_id_map c)) c))
    = address_method_map (group_of id' c)) as Ea.
  { intros id'. rewrite group_of_insert. by destruct (decide _) as [->|]. }
  assert (forall id', recent_version (group_of id' c) <= recent_version (group_of id' (with_groups
    (<[id := mkGroup (recent_version (group_of id c) + 1) (address_method_map (group_of id c))]> (method_id_map c)) c))) as Ev.
  { intros id'. rewrite group_of_insert. destruct (decide _) as [->|]; simpl; lia. }
  split; simpl.
  - done.
  - intros s r. rewrite Hr. by setoid_rewrite Ea.
  - intros id' s p. rewrite Ea. apply Hg.
  - intros s l Hs. rewrite Ea. by apply Hl.
  - done.
  - intros id'. rewrite group_of_insert. destruct (decide _) as [<-|]; simpl; [lia|apply Hrec].
  - intros id' v [[= -> ->]|Hv]%elem_of_cons; [rewrite group_of_insert, decide_True by done; simpl; lia|].
    specialize (Ev id'). apply Hpen in Hv. lia.
  - intros s l Hs. apply Hver in Hs. specialize (Ev (l_id l)). lia.
  - split_and!.
    + apply NoDup_cons. split; [|done]. intros Hin%Hpen. lia.
    + intros s l Hs [[= <- Ev']|Hin]%elem_of_cons; [|by apply (Hlp s l)]. apply Hver in Hs. lia.
    + done.
Qed.

(** One group with another map, under the version it has. *)
Lemma group_of_set c c' id am :
  method_id_map c' = <[id := mkGroup (recent_version (group_of id c)) am]> (method_id_map c) ->
  (forall id', recent_version (group_of id' c') = recent_version (group_of id' c)) /\
  (forall id', address_method_map (group_of id' c') = if decide (id = id') then am else address_method_map (group_of id' c)).
Proof.
  intros E. assert (forall id', group_of id' c' =
    if decide (id = id') then mkGroup (recent_version (group_of id c)) am else group_of id' c) as Eg.
  { intros id'. rewrite <- (group_of_insert id _ c id'). unfold group_of at 1 3. simpl. by rewrite E. }
  split; intros id'; rewrite Eg; by destruct (decide _) as [<-|].
Qed.

Lemma group_add c c' id s0 p :
  method_id_map c' = <[id := mkGroup (recent_version (group_of id c))
    (<[s0 := p]> (address_method_map (group_of id c)))]> (method_id_map c) ->
  (forall id', recent_version (group_of id' c') = recent_version (group_of id' c)) /\
  (forall id' s, address_method_map (group_of id' c') !! s =
     if decide (id = id' /\ s = s0) then Some p else address_method_map (group_of id' c) !! s).
Proof.
  intros [Er Em]%group_of_set. split; [done|]. intros id' s. rewrite Em. destruct (decide (id = id')) as [<-|?].
  - rewrite lookup_insert. destruct (decide (s0 = s)) as [->|?]; [by rewrite decide_True|by rewrite decide_False by intuition].
  - by rewrite decide_False by intuition.
Qed.

Lemma group_del c c' id s0 :
  method_id_map c' = <[id := mkGroup (recent_version (group_of id c))
    (delete s0 (address_method_map (group_of id c)))]> (method_id_map c) ->
  (forall id', recent_version (group_of id' c') = recent_version (group_of id' c)) /\
  (forall id' s, address_method_map (group_of id' c') !! s =
     if decide (id = id' /\ s = s0) then None else address_method_map (group_of id' c) !! s).
Proof.
  intros [Er Em]%group_of_set. split; [done|]. intros id' s. rewrite Em. destruct (decide (id = id')) as [<-|?].
  - rewrite lookup_delete. destruct (decide (s0 = s)) as [->|?]; [by rewrite decide_True|by rewrite decide_False by intuition].
  - by rewrite decide_False by intuition.
Qed.

(** A new entry of the range set and of a group. *)
(** A pending load becomes a live method. *)
Lemma commit_distinct (live : gmap Z live_method) pending1 pending2 id version size code_addr :
  NoDup (pending1 ++ (id, version) :: pending2) ->
  (forall s l, live !! s = Some l -> (l_id l, l_version l) ∉ pending1 ++ (id, version) :: pending2) ->
  (forall s s' l l', live !! s = Some l -> live !! s' = Some l' -> l_id l = l_id l' -> l_version l = l_version l' -> s = s') ->
  let live' := <[code_addr := mkLive id version size]> live in
  NoDup (pending1 ++ pending2) /\
  (forall s l, live' !! s = Some l -> (l_id l, l_version l) ∉ pending1 ++ pending2) /\
  (forall s s' l l', live' !! s = Some l -> live' !! s' = Some l' -> l_id l = l_id l' -> l_version l = l_version l' -> s = s').
Proof.
  intros Hnd Hlp Hdis. cbn zeta.
  assert (forall x, x ∈ pending1 ++ (id, version) :: pending2 <-> x ∈ (id, version) :: (pending1 ++ pending2)) as Hmid
    by (intros x; by rewrite <- Permutation_middle).
  rewrite <- Permutation_middle in Hnd. apply NoDup_cons in Hnd as [Hnin Hnd].
  assert (forall s l, live !! s = Some l -> l_id l = id -> l_version l = version -> False) as Hold.
  { intros s l Hs <- <-. apply (Hlp s l Hs), Hmid. by left. }
  split_and!; [done|..].
  - intros s l [[<- <-]|[_ Hs]]%lookup_insert_Some; [done|]. intros Hin. apply (Hlp s l Hs), Hmid. by right.
  - intros s s' l l' [[<- <-]|[_ Hs]]%lookup_insert_Some [[<- <-]|[_ Hs']]%lookup_insert_Some E1 E2; simpl in *.
    + done.
    + by destruct (Hold s' l').
    + by destruct (Hold s l).
    + by apply (Hdis s s' l l').
Qed.

Lemma commit_ok c live pending1 pending2 id version size code_addr m :
  cache_ok c live (pending1 ++ (id, version) :: pending2) ->
  0 < size -> 0 <= code_addr -> code_addr + size <= 2 ^ 64 -> live_free code_addr size live ->
  m_id (cm_method m) = id -> cm_version m = version -> code_size m = size -> start_addr m = code_addr ->
  exists p c', add_commit id m c = RET (p, c') /\
    cache_ok c' (<[code_addr := mkLive id version size]> live) (pending1 ++ pending2).
Proof.
  intros [Hd Hr Hg Hl Hn Hrec Hpen Hver (Hnd & Hlp & Hdis)] Hsize Ha Hb Hfree Eid Ev Es Est.
  unfold add_commit. rewrite Es, Est. unfold insert, Range_new. unfold u64. rewrite wrap_small by lia.
  rewrite (proj2 (Z.leb_le _ _)) by lia. simpl.
  assert (live !! code_addr = None) as Hnone.
  { destruct (live !! code_addr) as [l|] eqn:E; [|done]. destruct (Hl _ _ E), (Hfree _ _ E); lia. }
  assert (free code_addr (code_addr + size - 1) (method_range_set c)) as Hrfree.
  { intros [s r] Hin. apply Hr in Hin as (l & El & <- & Ee & _). simpl. rewrite Ee. destruct (Hfree _ _ El); lia. }
  assert (Forall (fun e => e.1 <> code_addr) (method_range_set c)) as Hkeys.
  { apply Forall_forall. intros [s r] (l & El & _)%Hr. simpl. congruence. }
  set (R := mkRange code_addr (code_addr + size - 1) (cc_next c)).
  set (c' := mkCache (emplace code_addr R (method_range_set c))
    (<[id := mkGroup (recent_version (group_of id c)) (<[code_addr := cc_next c]> (address_method_map (group_of id c)))]>
      (method_id_map c)) (<[cc_next c := m]> (cc_heap c)) (Datatypes.S (cc_next c)) (method_set c)).
  exists (cc_next c), c'. split; [done|].
  destruct (group_add c c' id code_addr (cc_next c) eq_refl) as [Erec Em].
  assert (method_range_set c' = emplace code_addr R (method_range_set c) /\ cc_heap c' = <[cc_next c := m]> (cc_heap c) /\
    cc_next c' = Datatypes.S (cc_next c)) as (Erange & Eheap & Enext) by done. clearbody c'.
  assert (forall x, x ∈ pending1 ++ (id, version) :: pending2 <-> x ∈ (id, version) :: (pending1 ++ pending2)) as Hmid
    by (intros x; by rewrite <- Permutation_middle).
  split; rewrite ?Erange, ?Eheap, ?Enext.
  - by apply emplace_disjoint; [done|lia|].
  - intros s r. setoid_rewrite Em. split.
    + intros [[= -> ->]|Hin]%emplace_elem.
      * exists (mkLive id version size). rewrite lookup_insert_eq. simpl. rewrite decide_True by done. split_and!; done.
      * apply Hr in Hin as (l & El & E1 & E2 & E3). exists l. rewrite lookup_insert_ne by congruence.
        split_and!; try done. rewrite decide_False; [done|]. intros [_ ->]. congruence.
    + intros (l & El & E1 & E2 & E3). destruct (decide (s = code_addr)) as [->|Hne].
      * rewrite lookup_insert_eq in El. injection El as <-. simpl in *. rewrite decide_True in E3 by done.
        injection E3 as E3. assert (r = R) as -> by (destruct r; simpl in *; subst; done). by apply emplace_new.
      * rewrite lookup_insert_ne in El by done. apply emplace_old, Hr. exists l. split_and!; try done.
        rewrite decide_False in E3 by intuition. done.
  - intros id' s p. rewrite Em. destruct (decide _) as [[<- ->]|Hne].
    + intros [= <-]. exists (mkLive id version size), m. rewrite !lookup_insert_eq. done.
    + intros (l & m' & El & E1 & Eh & E2)%Hg. exists l, m'. split_and!; try done.
      * rewrite lookup_insert_ne; [done|]. intros <-. congruence.
      * rewrite lookup_insert_ne; [done|]. intros <-. apply Hn in Eh. lia.
      * apply E2.
      * apply E2.
      * apply E2.
  - intros s l. setoid_rewrite Em. destruct (decide (s = code_addr)) as [->|Hne].
    + rewrite lookup_insert_eq. intros [= <-]. simpl. rewrite decide_True by done. eauto.
    + rewrite lookup_insert_ne by done. intros Hs. rewrite decide_False by intuition. by apply Hl.
  - intros p m' Hp. apply lookup_insert_Some in Hp as [[<- _]|[_ Hp]]; [lia|]. apply Hn in Hp. lia.
  - intros id'. rewrite Erec. apply Hrec.
  - intros id' v Hin. rewrite Erec. apply Hpen. rewrite Hmid. by right.
  - intros s l. rewrite Erec. destruct (decide (s = code_addr)) as [->|Hne].
    + rewrite lookup_insert_eq. intros [= <-]. simpl. apply Hpen. rewrite Hmid. by left.
    + rewrite lookup_insert_ne by done. apply Hver.
  - by apply commit_distinct.
Qed.

Lemma unload_ok c live pending code_addr l :
  cache_ok c live pending -> live !! code_addr = Some l ->
  exists c', removeMethod (l_id l) code_addr c = RET c' /\ cache_ok c' (delete code_addr live) pending.
Proof.
  intros [Hd Hr Hg Hl Hn Hrec Hpen Hver (Hnd & Hlp & Hdis)] El.
  destruct (Hl _ _ El) as [_ [p Hp]]. destruct (Hg _ _ _ Hp) as (l' & m & El' & _ & Hm & _).
  assert (l' = l) as -> by congruence. set (id := l_id l) in *.
  assert (exists g, method_id_map c !! id = Some g /\ g = group_of id c) as (g & Eg & Eg').
  { unfold group_of in *. destruct (method_id_map c !! id) as [g|]; [by exists g|].
    simpl in Hp. by rewrite lookup_empty in Hp. }
  unfold removeMethod, removeMethodByAddr. rewrite Eg, Eg', Hp, Hm. simpl.
  assert ((code_addr, mkRange code_addr (code_addr + l_size l - 1) p) ∈ method_range_set c) as Hin by (apply Hr; by exists l).
  unfold remove. rewrite (getRange_start code_addr _ Hd _ Hin eq_refl). simpl. rewrite Z.eqb_refl. simpl.
  eexists. split; [done|].
  match goal with |- cache_ok ?x _ _ => set (c' := x) end.
  destruct (group_del c c' id code_addr eq_refl) as [Erec Em].
  assert (method_range_set c' = erase code_addr (method_range_set c) /\ cc_heap c' = delete p (cc_heap c) /\
    cc_next c' = cc_next c) as (Erange & Eheap & Enext) by done. clearbody c'.
  assert (forall s l', delete code_addr live !! s = Some l' <-> s <> code_addr /\ live !! s = Some l') as Elive
    by (intros s l'; rewrite lookup_delete_Some; intuition congruence).
  split; rewrite ?Erange, ?Eheap, ?Enext.
  - by apply erase_disjoint.
  - intros s r. rewrite erase_elem, Hr. setoid_rewrite Elive. setoid_rewrite Em. simpl. split.
    + intros [(l' & E1 & E2 & E3 & E4) Hne]. exists l'. split_and!; try done. rewrite decide_False by intuition. done.
    + intros (l' & [Hne E1] & E2 & E3 & E4). split; [|done]. exists l'. split_and!; try done.
      by rewrite decide_False in E4 by intuition.
  - intros id' s p'. rewrite Em. destruct (decide _) as [|Hne]; [done|].
    intros Hp'. destruct (Hg _ _ _ Hp') as (l' & m' & E1 & E2 & E3 & E4). exists l', m'.
    assert (s <> code_addr) as Hs by (intros ->; apply Hne; split; [|done]; unfold id; congruence).
    split_and!; [by rewrite lookup_delete_ne|done|rewrite lookup_delete_ne; [done|]|apply E4..].
    intros ->. assert (m' = m) as -> by congruence. destruct (Hg _ _ _ Hp) as (l2 & m2 & _ & _ & E5 & E6).
    assert (m2 = m) as -> by congruence. apply Hs. destruct E4 as (_ & _ & <-). by destruct E6 as (_ & _ & <-).
  - intros s l' [Hs Hl']%Elive. setoid_rewrite Em. rewrite decide_False by intuition. by apply Hl.
  - intros p' m' [_ Hp']%lookup_delete_Some. by apply Hn in Hp'.
  - intros id'. rewrite Erec. apply Hrec.
  - intros id' v Hin'. rewrite Erec. by apply Hpen.
  - intros s l' [Hs Hl']%Elive. rewrite Erec. by apply (Hver s).
  - split_and!; [done| |].
    + intros s l' [_ Hs]%Elive. by apply (Hlp s).
    + intros s s' l1 l2 [_ H1]%Elive [_ H2]%Elive. by apply (Hdis s s' l1 l2).
Qed.

Lemma methods_ok s c live pending : cache_ok c live pending -> cache_ok (with_methods s c) live pending.
Proof. intros []. by split. Qed.

Lemma history_ok c live pending : history c live pending -> cache_ok c live pending.
Proof.
  induction 1 as [|c live pending id v c' _ IH Hlt E|c live pending1 pending2 id v size addr map m p c' _ IH H1 H2 H3 Hf Hb E
    |c live pending id addr l c' _ IH Hl <- E|c live pending id _ IH|c live pending id _ IH].
  - split; simpl; try done.
    + split; constructor.
    + intros s r. split; [by intros ?%not_elem_of_nil|]. intros (l & El & _). by rewrite lookup_empty in El.
    + intros id v Hin. by apply not_elem_of_nil in Hin.
    + split_and!; [constructor|done|done].
  - by eapply begin_ok.
  - apply build_fields in Hb as (? & ? & ? & ?).
    destruct (commit_ok _ _ _ _ _ _ _ _ m IH H1 H2 H3 Hf) as (p' & c1 & E' & Hok); try done.
    rewrite E in E'. by injection E' as _ ->.
  - destruct (unload_ok _ _ _ _ _ IH Hl) as (c1 & E' & Hok). rewrite E in E'. by injection E' as ->.
  - unfold checkAndMoveMethodToUncompiledSet. destruct (method_id_map c !! id); [done|by apply methods_ok].
  - by apply methods_ok.
Qed.

(** ** Lookups *)
Lemma ok_lookup c live pending a :
  cache_ok c live pending ->
  exists r, getMethod_ids a c = RET r /\
    forall id v, (exists p, r = Some (p, id, v)) <->
      exists s l, live !! s = Some l /\ live_covers s l a /\ l_id l = id /\ l_version l = v.
Proof.
  intros [Hd Hr Hg Hl _ _ _ _ _]. unfold getMethod_ids, getMethod, getData.
  destruct (getRange a (method_range_set c)) as [r|] eqn:E; simpl.
  - apply getRange_disjoint in E as [Hin Hc]; [|done]. pose proof Hin as (l & El & _ & Ee & Hp)%Hr.
    destruct (Hg _ _ _ Hp) as (l' & m & El' & _ & Hm & Eid & Ev & _). assert (l' = l) as -> by congruence.
    rewrite Hm. eexists. split; [done|]. intros id v. unfold covers in Hc. split.
    + intros [p [= <- <- <-]]. exists (start r), l. unfold live_covers. split_and!; [done|lia|lia|done|done].
    + intros (s & l2 & El2 & Hc2 & <- & <-). unfold live_covers in Hc2. exists (data r).
      destruct (Hl _ _ El2) as [_ [p2 Hp2]].
      assert ((s, mkRange s (s + l_size l2 - 1) p2) ∈ method_range_set c) as Hin2 by (apply Hr; by exists l2).
      assert (s = start r) as ->.
      { pose proof (disjoint_covers _ _ _ a Hd Hin Hin2 Hc). pose proof (disjoint_covers _ _ _ a Hd Hin2 Hin).
        unfold covers in *. simpl in *. lia. }
      assert (l2 = l) as -> by congruence. congruence.
  - eexists. split; [done|]. intros id v. split; [by intros [? ?]|]. intros (s & l & El & Hc & _).
    destruct (Hl _ _ El) as [_ [p Hp]]. unfold live_covers in Hc.
    assert ((s, mkRange s (s + l_size l - 1) p) ∈ method_range_set c) as Hin by (apply Hr; by exists l).
    rewrite (proj2 (getRange_disjoint a _ (mkRange s (s + l_size l - 1) p) Hd)) in E; [done|].
    split; [done|]. unfold covers. simpl. lia.
Qed.

Lemma newest_spec entries best c :
  (forall p, p ∈ entries -> is_Some (cc_heap c !! p)) ->
  (forall p v, best = Some (p, v) -> exists m, cc_heap c !! p = Some m /\ cm_version m = v) ->
  exists r, newest entries best c = RET r /\
    match r with
    | None => entries = [] /\ best = None
    | Some p => (p ∈ entries \/ fst <$> best = Some p) /\ exists m, cc_heap c !! p = Some m /\
        (forall q mq, q ∈ entries -> cc_heap c !! q = Some mq -> cm_version mq <= cm_version m) /\
        (forall q v, best = Some (q, v) -> v <= cm_version m)
    end.
Proof.
  revert best; induction entries as [|p entries IH]; intros best Hin Hbest; simpl.
  - eexists. split; [done|]. destruct best as [[p v]|]; [|done]. simpl. split; [by right|].
    destruct (Hbest p v eq_refl) as (m & Hm & <-). exists m. split_and!; [done| |by intros ? ? [= _ <-]].
    by intros q mq ?%not_elem_of_nil.
  - destruct (Hin p) as [m Hm]; [by left|]. rewrite Hm.
    set (best' := match best with Some (_, v) => if v <? cm_version m then Some (p, cm_version m) else best
                  | None => Some (p, cm_version m) end).
    assert (best' = Some (p, cm_version m) \/ best' = best) as Hcase
      by (unfold best'; destruct best as [[? v]|]; [destruct (v <? _)|]; auto).
    assert (exists q v, best' = Some (q, v) /\ cm_version m <= v /\ forall q' v', best = Some (q', v') -> v' <= v)
      as (q & v & Eb & Hv & Hold).
    { unfold best'. destruct best as [[q0 v0]|]; [destruct (Z.ltb_spec v0 (cm_version m))|]; do 2 eexists;
        (split; [done|]); split; try lia; intros ? ? [= _ <-]; lia. }
    destruct (IH best') as (r & -> & Hr); [intros; apply Hin; by right| |].
    { intros p' v' E'. destruct Hcase as [E|E]; rewrite E in E'; [|by apply Hbest]. injection E' as <- <-. by exists m. }
    exists r. split; [done|]. destruct r as [p'|]; [|by destruct Hr as [_ E]; congruence].
    destruct Hr as (Hp' & m' & Hm' & Hmax & Hb). split.
    + destruct Hp' as [?|Ep]; [left; by right|]. destruct Hcase as [E|E]; rewrite E in Ep; [|by right].
      injection Ep as <-. left. by left.
    + exists m'. split; [done|]. specialize (Hb _ _ Eb). split.
      * intros q' mq [->|Hq]%elem_of_cons Hmq; [assert (mq = m) as -> by congruence; lia|by eapply Hmax].
      * intros q' v' E. specialize (Hold _ _ E). lia.
Qed.

(** C11: The cache knows the code that is loaded: after any history of loads and unloads, with
    the two halves of loads interleaved in any way, [getMethod] of an address gives the id and the version of
    the live method around it, or nothing if there is none; [getMethod] of an id
    gives a live version that no live one exceeds, in whatever order the group's
    map is gone through; and no further load or unload fails. *)
Theorem code_cache_correct (c : CodeCache) (live : gmap Z live_method) (pending : list (Z * Z)) :
  history c live pending ->
  (forall a, exists r, getMethod_ids a c = RET r /\
     forall id v, (exists p, r = Some (p, id, v)) <->
       exists s l, live !! s = Some l /\ live_covers s l a /\ l_id l = id /\ l_version l = v) /\
  (forall order id, (forall g, order g ≡ₚ (map_to_list g).*2) ->
     exists r, getMethod_id order id c = RET r /\
       match r with
       | None => forall s l, live !! s = Some l -> l_id l <> id
       | Some p => exists s l m, live !! s = Some l /\ l_id l = id /\ cc_heap c !! p = Some m /\
           start_addr m = s /\ cm_version m = l_version l /\
           forall s' l', live !! s' = Some l' -> l_id l' = id -> l_version l' <= l_version l
       end) /\
  (forall pending1 pending2 id version size code_addr map m,
     pending = pending1 ++ (id, version) :: pending2 ->
     0 < size -> 0 <= code_addr -> code_addr + size <= 2 ^ 64 -> live_free code_addr size live ->
     build_method id version size code_addr map = RET m -> exists p c', add_commit id m c = RET (p, c')) /\
  (forall code_addr l, live !! code_addr = Some l -> exists c', removeMethod (l_id l) code_addr c = RET c').
Proof.
  intros Hok%history_ok. split_and!.
  - intros a. by eapply ok_lookup.
  - intros order id Horder. destruct Hok as [_ _ Hg Hl _ _ _ _ _]. unfold getMethod_id.
    assert (forall s l, live !! s = Some l -> l_id l = id -> exists p m,
      address_method_map (group_of id c) !! s = Some p /\ cc_heap c !! p = Some m /\ cm_version m = l_version l) as Hlive.
    { intros s l El <-. destruct (Hl _ _ El) as [_ [p Hp]]. destruct (Hg _ _ _ Hp) as (l' & m & El' & _ & ? & _ & Ev & _).
      exists p, m. split_and!; [done|done|]. congruence. }
    unfold group_of in *. destruct (method_id_map c !! id) as [g|] eqn:Eg; simpl in *; cycle 1.
    { eexists. split; [done|]. intros s l El <-. destruct (Hlive s l El eq_refl) as (p & m & Hp & _).
      by rewrite lookup_empty in Hp. }
    assert (forall p, p ∈ order (address_method_map g) <-> exists s, address_method_map g !! s = Some p) as Hord.
    { intros p. rewrite Horder, list_elem_of_fmap. split.
      - intros ([s p'] & -> & Hs%elem_of_map_to_list). by exists s.
      - intros [s Hs]. exists (s, p). split; [done|]. by apply elem_of_map_to_list. }
    specialize (Hg id). rewrite Eg in Hg. simpl in Hg. unfold getMethodByVersion. simpl.
    destruct (newest_spec (order (address_method_map g)) None c) as (r & -> & Hr); [|done|].
    { intros p [s Hs]%Hord. destruct (Hg _ _ Hs) as (l & m & _ & _ & Hm & _). by exists m. }
    eexists. split; [done|]. destruct r as [p|].
    + destruct Hr as ([[s Hs]%Hord|?] & m & Hm & Hmax & _); [|done].
      destruct (Hg _ _ Hs) as (l & m' & El & Eid & Hm' & _ & Ev & Es). assert (m' = m) as -> by congruence.
      exists s, l, m. split_and!; try done. intros s' l' El' Eid'. destruct (Hlive s' l' El' Eid') as (p' & mp & Hp' & Hmp & <-).
      rewrite <- Ev. apply (Hmax p'); [|done]. apply Hord. by exists s'.
    + destruct Hr as [Enil _]. intros s l El Eid. destruct (Hlive s l El Eid) as (p & m & Hp & _).
      assert (p ∈ order (address_method_map g)) as Hin by (apply Hord; by exists s). rewrite Enil in Hin.
      by apply not_elem_of_nil in Hin.
  - intros p1 p2 id v size addr map m -> H1 H2 H3 Hf (? & ? & ? & ?)%build_fields.
    destruct (commit_ok _ _ _ _ _ _ _ _ m Hok H1 H2 H3 Hf) as (p & c' & E & _); [done..|]. by exists p, c'.
  - intros addr l El. destruct (unload_ok _ _ _ _ _ Hok El) as (c' & E & _). by exists c'.
Qed.

(** Code loaded over live code stays unknown: when a method is loaded where another one
    still is, [getMethod] keeps answering with the old one; once that is unloaded the
    address belongs to no method although the new one is in its group; and the unloading
    of the new one ends the process. *)
Theorem code_cache_reload (c c1 : CodeCache) (live : gmap Z live_method) (pending : list (Z * Z))
    (l : live_method) (id : Z) (p : nat) (m : CompiledMethod) :
  history c live pending -> live !! start_addr m = Some l -> id <> l_id l ->
  0 < code_size m -> 0 <= start_addr m -> start_addr m + code_size m <= 2 ^ 64 ->
  add_commit id m c = RET (p, c1) ->
  (forall a, getMethod a c1 = getMethod a c) /\
  exists c2, removeMethod (l_id l) (start_addr m) c1 = RET c2 /\ getMethod (start_addr m) c2 = None /\
    removeMethod id (start_addr m) c2 = EXC.
Proof.
  intros [Hd Hr Hg Hl Hn _ _ _ _]%history_ok El Hid H1 H2 H3 E. set (s := start_addr m) in *.
  destruct (Hl _ _ El) as [_ [p1 Hp1]]. destruct (Hg _ _ _ Hp1) as (l' & m1 & _ & _ & Hm1 & _).
  assert ((s, mkRange s (s + l_size l - 1) p1) ∈ method_range_set c) as Hin by (apply Hr; by exists l).
  unfold add_commit, insert, Range_new in E. fold s in E. unfold u64 in E. rewrite wrap_small in E by lia.
  rewrite (proj2 (Z.leb_le _ _)) in E by lia. simpl in E. injection E as <- <-.
  rewrite emplace_present by (try apply (disjoint_ok _ Hd); by exists (s, mkRange s (s + l_size l - 1) p1)).
  split; [done|]. unfold removeMethod at 1. simpl. rewrite lookup_insert_ne by done.
  unfold group_of in Hp1. destruct (method_id_map c !! l_id l) as [g1|] eqn:Eg1; simpl in Hp1; [|by rewrite lookup_empty in Hp1].
  unfold removeMethodByAddr at 1. rewrite Hp1. simpl.
  assert (cc_next c <> p1) as Hne by (intros <-; apply Hn in Hm1; lia).
  rewrite lookup_insert_ne, Hm1 by done. simpl.
  unfold remove at 1. rewrite (getRange_start s _ Hd _ Hin eq_refl). simpl. rewrite Z.eqb_refl. simpl.
  eexists. split; [done|].
  assert (getRange s (erase s (method_range_set c)) = None) as Hnone.
  { rewrite getRange_erase by done. rewrite (getRange_start s _ Hd _ Hin eq_refl). simpl. by rewrite Z.eqb_refl. }
  unfold getMethod, getData. cbn [method_range_set]. rewrite Hnone. split; [done|].
  unfold removeMethod. cbn [method_id_map]. rewrite lookup_insert_ne by done. rewrite lookup_insert_eq.
  unfold removeMethodByAddr. cbn [address_method_map cc_heap method_range_set method_id_map].
  rewrite lookup_insert_eq, lookup_delete_ne, lookup_insert_eq by done.
  cbn [mbind exc_bind method_range_set]. unfold remove. by rewrite Hnone.
Qed.

(** ** Source lines *)

(** The line of a bytecode index: that of the last entry that starts in time. *)
Fixpoint last_line (table : list (Z * Z)) (bci : Z) : option Z :=
  match table with
  | [] => None
  | (s, line) :: rest =>
      match last_line rest bci with Some l => Some l | None => if s <=? bci then Some line else None end
  end.

(** The starts of a table from [lo] on: in order, up to the method's end. *)
Fixpoint table_ok (lo end_location : Z) (table : list (Z * Z)) : Prop :=
  match table with
  | [] => True
  | (s, _) :: rest => lo <= s <= end_location /\ table_ok s end_location rest
  end.

Lemma last_line_before lo e table bci : table_ok lo e table -> bci < lo -> last_line table bci = None.
Proof.
  revert lo; induction table as [|[s line] rest IH]; intros lo; [done|]. simpl. intros [H1 H2] Hb.
  rewrite (IH s) by (done || lia). by rewrite (proj2 (Z.leb_gt _ _)) by lia.
Qed.

Lemma last_line_from lo e table bci s line :
  table_ok lo e ((s, line) :: table) -> s <= bci -> exists l, last_line ((s, line) :: table) bci = Some l.
Proof.
  intros _ Hb. simpl. destruct (last_line table bci) as [l|]; [by exists l|].
  rewrite (proj2 (Z.leb_le _ _)) by done. by exists line.
Qed.

(** Nothing is known above the ranges. *)
Lemma getData_above lo (m : list (Z * Range Z)) p :
  disjoint_set m -> (forall x, x ∈ m -> end_ x.2 < lo) -> lo <= p -> getData p m = None.
Proof.
  intros Hd Hm Hp. unfold getData. rewrite getRange_None; [done|done|].
  intros x Hx Hc. specialize (Hm x Hx). unfold covers in Hc. lia.
Qed.

(** A range put above the others. *)
Lemma getData_emplace_above lo s e d (m : list (Z * Range Z)) :
  disjoint_set m -> (forall x, x ∈ m -> end_ x.2 < lo) -> lo <= s <= e ->
  disjoint_set (emplace s (mkRange s e d) m) /\ (forall x, x ∈ emplace s (mkRange s e d) m -> end_ x.2 < e + 1) /\
  (forall p, getData p (emplace s (mkRange s e d) m) = if (s <=? p) && (p <=? e) then Some d else getData p m).
Proof.
  intros Hd Hm Hs. assert (free s e m) as Hfree by (intros x Hx; specialize (Hm x Hx); lia). split_and!.
  - apply emplace_disjoint; [done|lia|done].
  - intros x [->|Hx]%emplace_elem; [simpl; lia|]. specialize (Hm x Hx). lia.
  - intros p. unfold getData. rewrite getRange_emplace by (done || lia). by destruct (_ && _).
Qed.

Lemma load_lines_spec e table : forall lo m,
  0 <= lo -> e < 2 ^ 63 -> table_ok lo e table -> disjoint_set m -> (forall x, x ∈ m -> end_ x.2 < lo) ->
  exists m', load_lines e table m = RET m' /\ disjoint_set m' /\
    (forall p, lo <= p <= e -> getData p m' = last_line table p) /\
    (forall p, p < lo -> getData p m' = getData p m).
Proof.
  induction table as [|[s line] rest IH]; intros lo m Hlo He Ht Hd Hm.
  - exists m. split_and!; try done. intros p Hp. apply (getData_above lo); [done|done|lia].
  - destruct Ht as [Hs Ht]. cbn [load_lines].
    set (te := match rest with [] => e | (next, _) :: _ => i64 (next - 1) end).
    assert (te = match rest with [] => e | (next, _) :: _ => next - 1 end) as Ete.
    { unfold te. destruct rest as [|[next l'] rest']; [done|]. destruct Ht as [Hnext _].
      unfold i64. apply swrap_small; lia. }
    destruct (Z.ltb_spec te s) as [Hlt|Hge].
    + assert (exists l' rest', rest = (s, l') :: rest') as (l' & rest' & Er).
      { rewrite Ete in Hlt. destruct rest as [|[next l'] rest']; [lia|]. destruct Ht as [? _]. exists l', rest'.
        by assert (next = s) as -> by lia. }
      destruct (IH lo m) as (m' & E & Hd' & Hin & Hout); try done.
      { rewrite Er in *. destruct Ht as [? ?]. split; [lia|done]. }
      exists m'. split_and!; [done|done| |done]. intros p Hp. rewrite Hin by done. rewrite Er in *. simpl.
      destruct (last_line rest' p), (s <=? p); done.
    + assert (te <= e) as Hte by (rewrite Ete; destruct rest as [|[next l'] rest']; [lia|destruct Ht; lia]).
      unfold u64. rewrite !wrap_small by lia. unfold insert, Range_new. rewrite (proj2 (Z.leb_le _ _)) by done. simpl.
      destruct (getData_emplace_above lo s te line m Hd Hm ltac:(lia)) as (Hd1 & Hm1 & Hget).
      assert (table_ok (te + 1) e rest) as Ht1.
      { rewrite Ete. destruct rest as [|[next l'] rest']; [done|]. destruct Ht. split; [lia|done]. }
      destruct (IH (te + 1) (emplace s (mkRange s te line) m)) as (m' & E & Hd' & Hin & Hout); [lia|done..|].
      exists m'. split_and!; [done|done|intros p Hp|intros p Hp].
      * destruct (decide (p <= te)) as [Hpt|Hpt].
        -- rewrite Hout, Hget, (last_line_before (te + 1) e rest p), (proj2 (Z.leb_le p te)) by (done || lia).
           rewrite andb_true_r. destruct (s <=? p); [done|]. apply (getData_above lo); [done|done|lia].
        -- rewrite Hin by lia. destruct rest as [|[next l'] rest']; [lia|].
           destruct (last_line_from s e rest' p next l' Ht) as [l El]; [lia|]. by rewrite El.
      * rewrite Hout, Hget by lia. by rewrite (proj2 (Z.leb_gt s p)) by lia.
Qed.

(** The bytecode index an address is taken for: that of the first entry behind it. *)
Fixpoint next_location (map : list (Z * Z)) (a : Z) : option Z :=
  match map with
  | [] => None
  | (next, location) :: rest => if a <? next then Some location else next_location rest a
  end.

(** The addresses of a map behind [prev]: increasing, and not behind [code_end] + 1; the
    bytecode indices have lines. *)
Fixpoint map_ok (lines : list (Z * Range Z)) (code_end prev : Z) (map : list (Z * Z)) : Prop :=
  match map with
  | [] => True
  | (next, location) :: rest =>
      prev < next <= code_end + 1 /\ 0 <= location < 2 ^ 64 /\ is_Some (getData location lines) /\
      map_ok lines code_end next rest
  end.

Lemma load_addrs_spec lines code_end map : forall prev m,
  0 <= prev -> code_end < 2 ^ 64 -> map_ok lines code_end prev map ->
  disjoint_set m -> (forall x, x ∈ m -> end_ x.2 < prev) ->
  exists m', load_addrs lines code_end prev map m = RET m' /\ disjoint_set m' /\
    forall a, getData a m' = if prev <=? a then next_location map a ≫= (fun loc => getData loc lines) else getData a m.
Proof.
  induction map as [|[next loc] rest IH]; intros prev m Hprev Hce Hmap Hd Hm.
  - exists m. split_and!; [done|done|]. intros a. destruct (Z.leb_spec prev a); [|done].
    by apply (getData_above prev).
  - destruct Hmap as (Hnext & Hloc & [lineno Eline] & Hmap). cbn [load_addrs].
    unfold u64. rewrite !wrap_small by lia. rewrite !(proj2 (Z.leb_le _ _)) by lia. simpl. rewrite Eline.
    unfold insert, Range_new. rewrite (proj2 (Z.leb_le _ _)) by lia. simpl.
    destruct (getData_emplace_above prev prev (next - 1) lineno m Hd Hm ltac:(lia)) as (Hd1 & Hm1 & Hget).
    destruct (IH next (emplace prev (mkRange prev (next - 1) lineno) m)) as (m' & E & Hd' & Hall); [lia|done..| |].
    { intros x Hx. specialize (Hm1 x Hx). lia. }
    exists m'. split_and!; [done|done|]. intros a. rewrite Hall, Hget. simpl.
    destruct (Z.leb_spec next a), (Z.leb_spec prev a), (Z.ltb_spec a next), (Z.leb_spec a (next - 1)); try lia; done.
Qed.

Lemma Method_new_lines id lo e table :
  IsMethodNative jvm id = Some false -> GetMethodLocation jvm id = Some (lo, e) ->
  GetLineNumberTable jvm id = Some table ->
  (forall c, GetMethodDeclaringClass jvm id = Some c -> GetClassSignature jvm c <> Some "") ->
  table_ok 0 e table -> e < 2 ^ 63 ->
  exists m, Method_new id = RET m /\ m_native m = false /\
    forall p, 0 <= p <= e -> getData p (bci2line_rangeset m) = last_line table p.
Proof.
  intros Hnat Hloc Htab Hsig Ht He. unfold Method_new. rewrite Hnat. change (default false (Some false)) with false.
  destruct (load_lines_spec e table 0 [] ltac:(lia) He Ht) as (lines & E & _ & Hget & _).
  { split; constructor. }
  { by intros x ?%not_elem_of_nil. }
  assert (loadBCILineTable id false [] = RET lines) as -> by (unfold loadBCILineTable; by rewrite Hloc, Htab).
  destruct (GetMethodDeclaringClass jvm id) as [c|] eqn:Ec; [|by eexists].
  assert (exists cls, match GetClassSignature jvm c with Some sig => class_of_signature sig | None => RET "" end = RET cls)
    as (cls & ->).
  { specialize (Hsig c eq_refl). destruct (GetClassSignature jvm c) as [sig|]; [|by eexists].
    unfold class_of_signature. destruct sig; [congruence|]. by eexists. }
  by eexists.
Qed.

(** The first entry goes the way of the others. *)
Lemma loadAddrLocationMap_addrs map c m :
  m_native (cm_method c) = false -> isEmpty (bci2line_rangeset (cm_method c)) = false ->
  (forall next loc rest, map = (next, loc) :: rest -> is_Some (getData (u64 loc) (bci2line_rangeset (cm_method c)))) ->
  load_addrs (bci2line_rangeset (cm_method c)) (u64 (start_addr c + code_size c - 1)) (start_addr c) map
    (addr2line_rangeset c) = RET m ->
  loadAddrLocationMap map c = RET (mkCompiled (cm_method c) (cm_version c) (code_size c) (start_addr c) m).
Proof.
  intros Hnat Hne Hfirst E. unfold loadAddrLocationMap. rewrite Hnat. destruct map as [|[first loc] rest].
  - injection E as <-. by destruct c.
  - rewrite Hne. cbn [load_addrs] in E. apply exc_bind_ret in E as (u & -> & E).
    apply exc_bind_ret in E as (_ & _ & E). cbn [mbind exc_bind].
    destruct (Hfirst first loc rest eq_refl) as [l El]. rewrite El in *.
    apply exc_bind_ret in E as (r & -> & E). cbn [mbind exc_bind]. by rewrite E.
Qed.

Lemma map_ok_intro lines code_end prev map :
  StronglySorted Z.lt (prev :: map.*1) -> Forall (fun e => e.1 <= code_end + 1) map ->
  (forall next loc, (next, loc) ∈ map -> 0 <= loc < 2 ^ 64 /\ is_Some (getData loc lines)) ->
  map_ok lines code_end prev map.
Proof.
  revert prev; induction map as [|[next loc] rest IH]; intros prev Hs Hle Hloc; [done|].
  apply StronglySorted_inv in Hs as [Hs Hlt]. apply Forall_cons in Hlt as [Hlt _]. apply Forall_cons in Hle as [Hn Hle].
  destruct (Hloc next loc) as [? ?]; [by left|]. simpl in *.
  refine (conj _ (conj _ (conj _ _))); [lia|done|done|].
  apply IH; [done|done|]. intros n l Hin. apply (Hloc n l). by right.
Qed.

(** C12: The line of an address: for a method whose line table is in order and whose address map
    increases strictly from behind its start, constructing it succeeds, and an
    address of its code has the line of the bytecode index of the first map entry
    behind the address, which is the line of the last table entry that starts no
    later; addresses from the last entry on have line 0. *)
Theorem addr2line_correct (id version size code_addr end_location lo bci0 line0 : Z)
    (table map : list (Z * Z)) :
  IsMethodNative jvm id = Some false -> GetMethodLocation jvm id = Some (lo, end_location) ->
  GetLineNumberTable jvm id = Some ((bci0, line0) :: table) ->
  (forall c, GetMethodDeclaringClass jvm id = Some c -> GetClassSignature jvm c <> Some "") ->
  table_ok 0 end_location ((bci0, line0) :: table) -> end_location < 2 ^ 63 ->
  0 <= code_addr -> code_addr + size <= 2 ^ 64 -> 0 < size ->
  (forall next loc, (next, loc) ∈ map -> bci0 <= loc <= end_location) ->
  StronglySorted Z.lt (code_addr :: map.*1) -> Forall (fun e => e.1 <= code_addr + size) map ->
  exists m, build_method id version size code_addr map = RET m /\
    forall a, code_addr <= a < code_addr + size ->
      addr2line a m = RET (default 0 (next_location map a ≫= last_line ((bci0, line0) :: table))).
Proof.
  intros Hnat Hlo Htab Hsig Ht He Ha Hb Hsize Hmap Hs Hle.
  destruct (Method_new_lines id lo end_location _ Hnat Hlo Htab Hsig Ht He) as (m0 & E0 & Hn0 & Hget).
  pose proof (proj1 Ht) as Hb0.
  assert (forall next loc, (next, loc) ∈ map -> exists l, getData loc (bci2line_rangeset m0) = Some l) as Hlines.
  { intros next loc Hin%Hmap. rewrite Hget by lia. apply (last_line_from 0 end_location); [done|lia]. }
  unfold build_method. rewrite E0. cbn [mbind exc_bind].
  assert (map_ok (bci2line_rangeset m0) (code_addr + size - 1) code_addr map) as Hok.
  { apply map_ok_intro; [done|eapply Forall_impl; [exact Hle|]; intros; simpl in *; lia|].
    intros next loc Hin. destruct (Hlines _ _ Hin) as [l El]. apply Hmap in Hin. split; [lia|by exists l]. }
  destruct (load_addrs_spec _ (code_addr + size - 1) map code_addr [] Ha ltac:(lia) Hok) as (m' & E & Hd & Hall).
  { split; constructor. }
  { by intros x ?%not_elem_of_nil. }
  rewrite (loadAddrLocationMap_addrs map (mkCompiled m0 version size code_addr []) m'); cbn; [|done| | |].
  2: { destruct (bci2line_rangeset m0) eqn:El; [|done]. specialize (Hget bci0 ltac:(lia)).
       destruct (last_line_from 0 end_location table bci0 bci0 line0 Ht) as [l El']; [lia|]. by rewrite El' in Hget. }
  2: { intros next loc rest ->. unfold u64. pose proof (Hmap next loc ltac:(by left)). rewrite wrap_small by lia.
       destruct (Hlines next loc) as [l El]; [by left|]. by exists l. }
  2: { unfold u64. by rewrite wrap_small by lia. }
  eexists. split; [done|]. intros a Hin. unfold addr2line. cbn [addr2line_rangeset start_addr code_size].
  pose proof (Hall a) as Hget'. rewrite (proj2 (Z.leb_le _ _)) in Hget' by lia.
  assert (next_location map a ≫= (fun loc => getData loc (bci2line_rangeset m0)) =
    next_location map a ≫= last_line ((bci0, line0) :: table)) as Eq.
  { destruct (next_location map a) as [loc|] eqn:En; [|done]. cbn [mbind option_bind]. apply Hget.
    assert (exists next, (next, loc) ∈ map) as [next Hnl]; [|apply Hmap in Hnl; lia].
    clear -En. induction map as [|[n l] rest IH]; [done|]. simpl in En. destruct (a <? n).
    - injection En as ->. exists n. by left.
    - destruct (IH En) as [n' ?]. exists n'. by right. }
  rewrite Eq in Hget'. destruct (isEmpty m') eqn:Eemp.
  - apply bool_decide_eq_true in Eemp as ->. unfold getData in Hget'. simpl in Hget'. by rewrite <- Hget'.
  - rewrite Hget'. destruct (_ ≫= _); [done|]. unfold u64. rewrite wrap_small by lia.
    by rewrite !(proj2 (Z.leb_le _ _)) by lia.
Qed.

End code_cache.

(** ** A virtual machine with two methods *)
Module Demo.

Definition demo_jvm : jvmti :=
  mkJvmti (fun _ => Some "get") (fun _ => Some 1) (fun _ => Some false) (fun _ => Some "Bar.java")
    (fun _ => Some "Lfoo/Bar;") (fun _ => Some (0, 9)) (fun _ => Some [(0, 10); (5, 12)]).

Definition demo_map : list (Z * Z) := [(104, 0); (110, 7)].

(** Two loads that overlap in time, and the methods they make. *)
Definition demo_ids (id : Z) (c : CodeCache) : CodeCache := (add_begin id c).2.
Definition demo_c1 : CodeCache := demo_ids 8 (demo_ids 7 CodeCache_new).
Definition demo_method (id version addr : Z) (map : list (Z * Z)) : CompiledMethod :=
  match build_method demo_jvm id version 16 addr map with
  | RET m => m
  | EXC => mkCompiled (mkMethod id "" "" "" false []) version 16 addr []
  end.
Definition commit_or (id : Z) (m : CompiledMethod) (c : CodeCache) : CodeCache :=
  match add_commit id m c with RET (_, c') => c' | EXC => c end.
Definition demo_c2 : CodeCache := commit_or 7 (demo_method 7 1 100 demo_map) demo_c1.
Definition demo_live : gmap Z live_method := <[100 := mkLive 7 1 16]> ∅.

Lemma demo_history : history demo_jvm demo_c2 demo_live [(8, 1)].
Proof.
  assert (history demo_jvm demo_c1 ∅ [(8, 1); (7, 1)]) as H1.
  { eapply history_begin; [eapply history_begin; [apply history_init|vm_compute; reflexivity|reflexivity]|
      vm_compute; reflexivity|vm_compute; reflexivity]. }
  eapply (history_commit _ _ _ [(8, 1)] [] 7 1 16 100 demo_map (demo_method 7 1 100 demo_map)) in H1;
    [exact H1|lia|lia|lia|intros s l Hs; by rewrite lookup_empty in Hs|vm_compute; reflexivity|vm_compute; reflexivity].
Qed.

Lemma code_cache_correct_witness :
  (exists p, getMethod_ids 105 demo_c2 = RET (Some (p, 7, 1))) /\
  (exists c', removeMethod 7 100 demo_c2 = RET c') /\
  exists p c', add_commit 8 (demo_method 8 1 200 []) demo_c2 = RET (p, c').
Proof.
  destruct (code_cache_correct demo_jvm demo_c2 demo_live [(8, 1)] demo_history) as (Hget & _ & Hadd & Hrem).
  split; [|split].
  - destruct (Hget 105) as (r & E & Hr). destruct (proj2 (Hr 7 1)) as [p ->]; [|by exists p].
    exists 100, (mkLive 7 1 16). split; [reflexivity|]. split; [unfold live_covers; simpl; lia|done].
  - apply (Hrem 100 (mkLive 7 1 16)). reflexivity.
  - apply (Hadd [] [] 8 1 16 200 [] (demo_method 8 1 200 []) eq_refl); [lia|lia|lia| |vm_compute; reflexivity].
    intros s l Hs. unfold demo_live in Hs.
    apply lookup_insert_Some in Hs as [[<- <-]|[_ Hs]]; [simpl; lia|by rewrite lookup_empty in Hs].
Defined.

(** The second method is loaded where the first one is. *)
Lemma code_cache_reload_witness :
  let c1 := commit_or 8 (demo_method 8 1 100 []) demo_c2 in
  getMethod_ids 105 c1 = RET (Some (0%nat, 7, 1)) /\
  exists c2, removeMethod 7 100 c1 = RET c2 /\ getMethod 100 c2 = None /\ removeMethod 8 100 c2 = EXC.
Proof.
  split; [vm_compute; reflexivity|].
  destruct (code_cache_reload demo_jvm demo_c2 (commit_or 8 (demo_method 8 1 100 []) demo_c2) demo_live [(8, 1)]
    (mkLive 7 1 16) 8 1 (demo_method 8 1 100 []) demo_history) as (_ & c2 & E1 & E2 & E3);
    [reflexivity|discriminate|vm_compute; reflexivity|vm_compute; discriminate|vm_compute; discriminate|vm_compute; reflexivity|].
  exists c2. split; [exact E1|]. split; [exact E2|exact E3].
Defined.

Lemma addr2line_correct_witness :
  exists m, build_method demo_jvm 7 1 16 100 demo_map = RET m /\
    addr2line 101 m = RET 10 /\ addr2line 104 m = RET 12 /\ addr2line 112 m = RET 0.
Proof.
  destruct (addr2line_correct demo_jvm 7 1 16 100 9 0 0 10 [(5, 12)] demo_map) as (m & E & Hline).
  - reflexivity.
  - reflexivity.
  - reflexivity.
  - intros c _. discriminate.
  - simpl. lia.
  - lia.
  - lia.
  - lia.
  - lia.
  - intros next loc Hin. unfold demo_map in Hin.
    repeat (apply elem_of_cons in Hin as [[= -> ->]|Hin]; [lia|]). by apply not_elem_of_nil in Hin.
  - repeat first [constructor | simpl; lia].
  - repeat first [constructor | simpl; lia].
  - exists m. split; [exact E|]. rewrite !Hline by lia. split; [reflexivity|]. split; reflexivity.
Defined.
End Demo.
