(* ===== verification/Report.v ===== *)
(** * Report: what the profiler writes about contexts and methods

    The [createXMLObj] functions of profiler/metrics.cpp, context.cpp and code_cache.cpp, and
    the part of [Profiler::threadEnd] that writes the calling contexts of a thread. The
    theorems say which contexts are written, and that the offline reader finds in the text
    what the objects hold. Contexts go through [OUTPUT::writef] (OutputFile.v), and so a long one
    lacks the end of its line; methods are printed by a stream. *)
From stdpp Require Import base numbers list strings pretty gmap.
From Stdlib Require Import ZArith Lia Ascii SpecFloat.
From S2P Require OutputFile.
From S2P Require Import Prelude Xml HomoXml Metrics ContextTree CallTree RangeSet CodeCache.
Local Open Scope Z_scope.

(** ** What [<<] prints

    Integers in decimal; pointers, and so method ids, in hexadecimal behind [0x], the null
    pointer as [0]. *)
Definition show_int (z : Z) : str := lit (pretty z).

Definition show_ptr (p : Z) : str := if p =? 0 then lit "0" else lit "0x" ++ show_hex 16 p [].

(** The macro [SET_ATTR], given what is printed. *)
Definition SET_ATTR (obj : XMLObj) (key : string) (value : str) : XMLObj := addAttr (lit key) value obj.

(** ** Metrics *)
Section metrics.
Context {D : Type} `{DoubleOps D}.
(** How the stream prints a double. *)
Variable show_double : D -> str.

Definition metric_value (v : metric_val_t D) : str :=
  if negb (m_i v =? 0) then show_int (m_i v)
  else if negb (bool_decide (m_str v = "")) then lit (m_str v)
  else show_double (m_r v).

(** The loop over [_val_list]; [None] is the dereference of the null pointer that
    [getMetricInfo] gives for a metric that is not registered. *)
Fixpoint metric_children (infos : list metric_info_t) (i : Z) (vals : list (metric_val_t D)) (obj : XMLObj)
  : option XMLObj :=
  match vals with
  | [] => Some obj
  | v :: vals =>
      let child_obj := SET_ATTR (XMLObj_new (lit "metric")) "id" (show_int i) in
      let child_obj := SET_ATTR child_obj "value" (metric_value v) in
      info ← getMetricInfo i infos;
      let child_obj := SET_ATTR child_obj "measure" (lit (event_measure info)) in
      let child_obj := SET_ATTR child_obj "event" (lit (event_name info)) in
      metric_children infos (u32 (i + 1)) vals (XMLObj_addChild i child_obj obj)
  end.

Definition createXMLObj_metrics (infos : list metric_info_t) (vals : list (metric_val_t D)) : option XMLObj :=
  metric_children infos 0 vals (XMLObj_new (lit "metrics")).

(** ** Contexts *)
Abbreviation ctree := (ContextTree (M := list (metric_val_t D))).

(** [createXMLObj<Context>]; the object of the metrics is never null. *)
Definition createXMLObj_context (infos : list metric_info_t) (t : ctree) (c : nat) : option XMLObj :=
  n ← heap t !! c;
  let f := n_frame n in
  let obj := XMLObj_new (lit "context") in
  let obj := SET_ATTR obj "id" (show_int (n_id n)) in
  let obj := SET_ATTR obj "method_id" (show_ptr (method_id f)) in
  let obj := SET_ATTR obj "method_version" (show_int (method_version f)) in
  let obj := SET_ATTR obj "binary_addr" (show_int (binary_addr f)) in
  let obj := SET_ATTR obj "bci" (show_int (bci f)) in
  obj ← match n_parent n with
        | Some p => pn ← heap t !! p; Some (SET_ATTR obj "parent_id" (show_int (n_id pn)))
        | None => Some (SET_ATTR obj "parent_id" (show_int (-1)))
        end;
  match n_metrics n with
  | Some m => child ← createXMLObj_metrics infos m; Some (XMLObj_addChild 0 child obj)
  | None => Some obj
  end.

(** ** Writing the contexts of a thread ([Profiler::threadEnd])

    The state of the walk: the contexts dumped so far, the contexts in the order they were
    written, and the code cache, which learns the methods without compiled code. *)
Record dump_state := mkDump { dump_ctxt : gset nat; written : list nat; dump_cache : CodeCache }.

(** The ancestors that are not yet written. *)
Fixpoint dump_up (fuel : nat) (t : ctree) (ctxt : option nat) (s : dump_state) : option dump_state :=
  match fuel with
  | O => None
  | S fuel =>
    match ctxt with
    | None => Some s
    | Some c =>
        if bool_decide (c ∈ dump_ctxt s) then Some s
        else
          p ← getParent c t;
          dump_up fuel t p (mkDump ({[c]} ∪ dump_ctxt s) (written s ++ [c]) (dump_cache s))
    end
  end.

Definition dump_one (t : ctree) (s : dump_state) (c : nat) : option dump_state :=
  f ← getFrame c t;
  let s := mkDump (dump_ctxt s) (written s)
             (checkAndMoveMethodToUncompiledSet (method_id f) (dump_cache s)) in
  m ← getMetrics c t;
  match m with
  | Some _ =>
      if bool_decide (c ∈ dump_ctxt s) then Some s
      else
        p ← getParent c t;
        dump_up (S (size (heap t))) t p (mkDump ({[c]} ∪ dump_ctxt s) (written s ++ [c]) (dump_cache s))
  | None => Some s
  end.

(** The loop over the tree; [elems] are the nodes in the order of the tree's iterator. *)
Fixpoint dump_tree (t : ctree) (elems : list nat) (s : dump_state) : option dump_state :=
  match elems with
  | [] => Some s
  | c :: elems => s ← dump_one t s c; dump_tree t elems s
  end.

(** What [writef] puts into the thread's file for an object: a text of 2048 characters or more
    loses its last one, which is the end of the line. *)
Definition context_text (order : gmap str str -> list (str * str)) (obj : XMLObj) : str :=
  OutputFile.printed (getXMLStr order 0 obj).

(** The texts written to the thread's file, in order. *)
Definition dump_text (order : gmap str str -> list (str * str)) (infos : list metric_info_t) (t : ctree)
    (s : dump_state) : option (list str) :=
  mapM (fun c => obj ← createXMLObj_context infos t c; Some (context_text order obj)) (written s).
End metrics.

(** ** Methods *)

(** The objects of the ranges, with their positions as ids. *)
Definition range_child (i : Z) (e : RangeSet.Range Z) (c_obj : XMLObj) : XMLObj :=
  let cc_obj := SET_ATTR (XMLObj_new (lit "range")) "start" (show_int (start e)) in
  let cc_obj := SET_ATTR cc_obj "end" (show_int (end_ e)) in
  let cc_obj := SET_ATTR cc_obj "data" (show_int (data e)) in
  XMLObj_addChild i cc_obj c_obj.
Fixpoint range_children (i : Z) (all_range : list (RangeSet.Range Z)) (c_obj : XMLObj) : XMLObj :=
  match all_range with
  | [] => c_obj
  | e :: all_range => range_children (i + 1) all_range (range_child i e c_obj)
  end.

Definition add_ranges (tag : string) (id : Z) (m : list (Z * RangeSet.Range Z)) (obj : XMLObj) : XMLObj :=
  if negb (isEmpty m) then
    XMLObj_addChild id (range_children 0 (getAllRanges m) (XMLObj_new (lit tag))) obj
  else obj.

Definition method_attrs (id version size start : str) (m : Method) : XMLObj :=
  let obj := XMLObj_new (lit "method") in
  let obj := SET_ATTR obj "id" id in
  let obj := SET_ATTR obj "version" version in
  let obj := SET_ATTR obj "code_size" size in
  let obj := SET_ATTR obj "start_addr" start in
  let obj := SET_ATTR obj "name" (lit (m_name m)) in
  let obj := SET_ATTR obj "file" (lit (m_src_file m)) in
  SET_ATTR obj "class" (lit (m_class_name m)).

(** [createXMLObj<CompiledMethod>] *)
Definition createXMLObj_compiled (c : CompiledMethod) : XMLObj :=
  let m := cm_method c in
  let obj := method_attrs (show_ptr (m_id m)) (show_int (cm_version c)) (show_int (code_size c))
               (show_int (start_addr c)) m in
  let obj := add_ranges "addr2line" 1 (addr2line_rangeset c) obj in
  add_ranges "bci2line" 2 (bci2line_rangeset m) obj.

(** [InterpretMethod::createXMLObj] *)
Definition createXMLObj_interpret (m : Method) : XMLObj :=
  let obj := method_attrs (show_ptr (m_id m)) (show_int 0) (show_int 0) (show_int 0) m in
  add_ranges "bci2line" 2 (bci2line_rangeset m) obj.

(** ** What is written *)
Section dump.
Context {D : Type}.
Variable t : ContextTree (M := list (metric_val_t D)).
Hypothesis Ht : tree_ok t.

(** [a] is the node [c] or one of its ancestors. *)
Inductive above (c : nat) : nat -> Prop :=
  | above_refl : above c c
  | above_up a an p : above c a -> heap t !! a = Some an -> n_parent an = Some p -> above c p.

Lemma above_cons c cn p a :
  heap t !! c = Some cn -> n_parent cn = Some p -> above p a -> above c a.
Proof. intros Hc Hp. induction 1; econstructor; eauto using above. Qed.

Lemma above_inv c a :
  above c a -> a = c \/ exists cn p, heap t !! c = Some cn /\ n_parent cn = Some p /\ above p a.
Proof.
  induction 1 as [|a an p _ IH Ha Hp]; [by left|right].
  destruct IH as [->|(cn & q & Hc & Hq & Hqa)]; [exists an, p; by repeat split; [..|constructor]|].
  exists cn, q. split_and!; [done..|]. by econstructor.
Qed.

Lemma parent_in c cn p : heap t !! c = Some cn -> n_parent cn = Some p -> is_Some (heap t !! p).
Proof.
  intros Hc Hp. destruct (decide (c = tree_root t)) as [->|Hne].
  - destruct (ok_root t Ht) as (r & Hr & _ & Hn). congruence.
  - destruct (ok_parent t Ht c cn Hc Hne) as (q & qn & Hq & Hqn & _). assert (p = q) as -> by congruence. eauto.
Qed.

(** The walk's invariant, [next] being the node it looks at next: nothing is written twice, and
    the parent of a written node is written or next. *)
Record dump_inv (next : option nat) (s : dump_state) : Prop := {
  inv_set : dump_ctxt s = list_to_set (written s);
  inv_once : NoDup (written s);
  inv_heap : forall c, c ∈ written s -> is_Some (heap t !! c);
  inv_next : forall c, next = Some c -> is_Some (heap t !! c);
  inv_up : forall c cn p, c ∈ written s -> heap t !! c = Some cn -> n_parent cn = Some p ->
    p ∈ written s \/ next = Some p;
}.

Lemma inv_size next s : dump_inv next s -> (length (written s) <= size (heap t))%nat.
Proof.
  intros Hs. rewrite <- (size_dom (D := gset nat)). 
  rewrite <- (size_list_to_set (C := gset nat) (written s)) by apply (inv_once _ _ Hs).
  apply subseteq_size. intros c Hc. apply elem_of_dom. apply elem_of_list_to_set in Hc. by apply (inv_heap _ _ Hs).
Qed.

Lemma inv_written next s c : dump_inv next s -> c ∈ dump_ctxt s <-> c ∈ written s.
Proof. intros Hs. rewrite (inv_set _ _ Hs). apply elem_of_list_to_set. Qed.

(** A node is written, and the walk goes to its parent. *)
Lemma inv_step c cn s :
  dump_inv (Some c) s -> heap t !! c = Some cn -> c ∉ written s ->
  dump_inv (n_parent cn) (mkDump ({[c]} ∪ dump_ctxt s) (written s ++ [c]) (dump_cache s)).
Proof.
  intros Hs Hc Hni. split; cbn.
  - rewrite list_to_set_app_L, (inv_set _ _ Hs). cbn. set_solver.
  - apply NoDup_app. split_and!; [apply (inv_once _ _ Hs)| |apply NoDup_singleton].
    intros x Hx ->%list_elem_of_singleton. done.
  - intros x [Hx| ->%list_elem_of_singleton]%elem_of_app; [by apply (inv_heap _ _ Hs)|eauto].
  - intros p Hp. by eapply parent_in.
  - intros x xn p [Hx| ->%list_elem_of_singleton]%elem_of_app Hxn Hp.
    + destruct (inv_up _ _ Hs x xn p Hx Hxn Hp) as [|[= <-]]; left; set_solver.
    + right. congruence.
Qed.

(** The walk is over at a node that is written. *)
Lemma inv_stop next s : dump_inv next s -> (forall c, next = Some c -> c ∈ written s) -> dump_inv None s.
Proof.
  intros Hs Hn. split; try apply Hs; [done|]. intros c cn p Hc Hcn Hp. left.
  destruct (inv_up _ _ Hs c cn p Hc Hcn Hp); auto.
Qed.

Lemma inv_above s c a : dump_inv None s -> c ∈ written s -> above c a -> a ∈ written s.
Proof.
  intros Hs Hc. induction 1 as [|a an p _ IH Ha Hp]; [done|].
  by destruct (inv_up _ _ Hs a an p IH Ha Hp).
Qed.

Lemma dump_up_ok fuel : forall next s,
  dump_inv next s -> (size (heap t) < fuel + length (written s))%nat ->
  exists s', dump_up fuel t next s = Some s' /\ dump_inv None s' /\ dump_cache s' = dump_cache s /\
    forall x, x ∈ written s' <-> x ∈ written s \/ exists c, next = Some c /\ above c x.
Proof.
  induction fuel as [|fuel IH]; intros next s Hs Hf; [pose proof (inv_size _ _ Hs); lia|].
  destruct next as [c|]; cbn [dump_up]; [|exists s; split_and!; [done..|]; naive_solver].
  destruct (decide (c ∈ written s)) as [Hin|Hni].
  - rewrite bool_decide_true by (by apply (inv_written _ _ _ Hs)).
    assert (Hs' : dump_inv None s) by (apply (inv_stop (Some c)); [done|by intros ? [= <-]]).
    exists s. split_and!; [done..|]. intros x. split; [by left|].
    intros [|(d & [= <-] & Hd)]; [done|by eapply inv_above].
  - rewrite bool_decide_false by (by rewrite (inv_written _ _ _ Hs)).
    destruct (inv_next _ _ Hs c eq_refl) as [cn Hcn].
    unfold getParent. rewrite Hcn. cbn [fmap option_fmap option_map mbind option_bind].
    destruct (IH _ _ (inv_step c cn s Hs Hcn Hni)) as (s' & E & Hs' & Ec & Hw).
    { cbn. rewrite length_app. cbn. lia. }
    exists s'. split_and!; [done..|]. intros x. rewrite Hw. cbn. rewrite elem_of_app, list_elem_of_singleton.
    split.
    + intros [[| ->]|(p & Hp & Hpx)]; [by left| |]; right; exists c; split; [done|constructor|done|by eapply above_cons].
    + intros [|(d & [= <-] & Hd)]; [by left; left|].
      apply above_inv in Hd as [->|(cn' & p & Hcn' & Hp & Hpx)]; [left; by right|].
      right. exists p. split; [congruence|done].
Qed.

(** A node that carries metrics. *)
Definition measured (c : nat) : Prop := exists n m, heap t !! c = Some n /\ n_metrics n = Some m.

Lemma dump_one_ok s c cn :
  dump_inv None s -> heap t !! c = Some cn ->
  exists s', dump_one t s c = Some s' /\ dump_inv None s' /\
    dump_cache s' = checkAndMoveMethodToUncompiledSet (method_id (n_frame cn)) (dump_cache s) /\
    forall x, x ∈ written s' <-> x ∈ written s \/ (measured c /\ above c x).
Proof.
  intros Hs Hcn. unfold dump_one, getFrame, getMetrics, getParent. rewrite Hcn.
  cbn [fmap option_fmap option_map mbind option_bind].
  set (s1 := mkDump _ _ _). assert (Hs1 : dump_inv None s1) by (by destruct Hs; split).
  assert (Hm : measured c <-> is_Some (n_metrics cn)).
  { split; [intros (n & m & Hn & Em)|intros [m Em]; by exists cn, m]. assert (n = cn) as -> by congruence. eauto. }
  destruct (n_metrics cn) as [m|]; cycle 1.
  { exists s1. split_and!; [done..|]. intros x. split; [by left|]. intros [|[[? ?]%Hm _]]; done. }
  destruct (decide (c ∈ written s)) as [Hin|Hni].
  - rewrite bool_decide_true by (by apply (inv_written _ _ _ Hs1)).
    exists s1. split_and!; [done..|]. intros x. split; [by left|].
    intros [|[_ Hx]]; [done|by eapply inv_above in Hx].
  - rewrite bool_decide_false by (by rewrite (inv_written _ _ _ Hs1)).
    assert (Hs2 : dump_inv (Some c) s1).
    { split; try apply Hs1; [intros ? [= <-]; eauto|]. intros x xn p Hx Hxn Hp.
      destruct (inv_up _ _ Hs1 x xn p Hx Hxn Hp); [by left|done]. }
    destruct (dump_up_ok (S (size (heap t))) _ _ (inv_step c cn s1 Hs2 Hcn Hni)) as (s' & E & Hs' & Ec & Hw); [cbn; lia|].
    exists s'. split_and!; [done..|]. intros x. rewrite Hw. cbn. rewrite elem_of_app, list_elem_of_singleton. split.
    + intros [[| ->]|(p & Hp & Hpx)]; [by left| |]; right; (split; [apply Hm; eauto|]); [constructor|by eapply above_cons].
    + intros [|[_ Hx]]; [by left; left|].
      apply above_inv in Hx as [->|(cn' & p & Hcn' & Hp & Hpx)]; [left; by right|].
      right. exists p. split; [congruence|done].
Qed.

(** A method the report can name: it has compiled code, or is among the others. *)
Definition known (c : CodeCache) (id : Z) : Prop := is_Some (method_id_map c !! id) \/ id ∈ method_set c.

(** The walk only adds to the other methods. *)
Definition grows (c c' : CodeCache) : Prop := method_id_map c' = method_id_map c /\ method_set c ⊆ method_set c'.

#[export] Instance grows_preorder : PreOrder grows.
Proof.
  split; [by split|]. intros c1 c2 c3 [E1 S1] [E2 S2]. split; [congruence|set_solver].
Qed.

Lemma checked_grows id c : grows c (checkAndMoveMethodToUncompiledSet id c).
Proof. unfold grows, checkAndMoveMethodToUncompiledSet. case_match; cbn; [done|]. split; [done|set_solver]. Qed.

Lemma grows_known c c' id : grows c c' -> known c id -> known c' id.
Proof. intros [E S] [Hm|Hm]; [left; by rewrite E|right; exact (S _ Hm)]. Qed.

Lemma checked_known id id' c :
  known (checkAndMoveMethodToUncompiledSet id c) id' <-> id' = id \/ known c id'.
Proof.
  unfold known, checkAndMoveMethodToUncompiledSet. destruct (method_id_map c !! id) as [m|] eqn:E; [|set_solver].
  split; [by right|]. intros [->|]; [left; eauto|done].
Qed.

Lemma dump_tree_ok elems : forall s,
  dump_inv None s -> Forall (fun c => is_Some (heap t !! c)) elems ->
  exists s', dump_tree t elems s = Some s' /\ dump_inv None s' /\
    grows (dump_cache s) (dump_cache s') /\
    (forall c cn, c ∈ elems -> heap t !! c = Some cn -> known (dump_cache s') (method_id (n_frame cn))) /\
    forall x, x ∈ written s' <-> x ∈ written s \/ exists c, c ∈ elems /\ measured c /\ above c x.
Proof.
  induction elems as [|c elems IH]; intros s Hs Hel; cbn [dump_tree].
  { exists s. split_and!; [done..| |]; [intros ? ? []%not_elem_of_nil|]. intros x. split; [by left|].
    by intros [|(? & []%not_elem_of_nil & _)]. }
  apply Forall_cons in Hel as [[cn Hcn] Hel].
  destruct (dump_one_ok s c cn Hs Hcn) as (s1 & -> & Hs1 & Ec & Hw). cbn [mbind option_bind].
  destruct (IH s1 Hs1 Hel) as (s' & E & Hs' & Hk & Hkn & Hw').
  exists s'. split_and!; [done..| | |].
  - etrans; [|exact Hk]. rewrite Ec. apply checked_grows.
  - intros d dn [->|Hd]%elem_of_cons Hdn; [|by eapply Hkn]. assert (dn = cn) as -> by congruence.
    eapply grows_known; [exact Hk|]. rewrite Ec. apply checked_known. by left.
  - intros x. rewrite Hw', Hw. split.
    + intros [[|[? ?]]|(d & ? & ?)]; [by left| |]; right; [exists c|exists d]; rewrite elem_of_cons; naive_solver.
    + intros [|(d & [->|Hd]%elem_of_cons & ? & ?)]; [by left; left|by left; right|right; eauto].
Qed.

(** The whole walk. *)
Lemma dump_whole elems cache :
  elems ≡ₚ (map_to_list (context_map t)).*2 ->
  exists s, dump_tree t elems (mkDump ∅ [] cache) = Some s /\ dump_inv None s /\
    (forall x, x ∈ written s <-> exists c, measured c /\ above c x) /\
    (forall c cn, heap t !! c = Some cn -> known (dump_cache s) (method_id (n_frame cn))) /\
    grows cache (dump_cache s).
Proof.
  intros Hel.
  assert (Hin : forall c, c ∈ elems <-> is_Some (heap t !! c)).
  { intros c. rewrite Hel, list_elem_of_fmap. split.
    - intros ([i x] & -> & Hi%elem_of_map_to_list). apply (ok_map t Ht) in Hi as (n & ? & _). eauto.
    - intros [n Hn]. exists (n_id n, c). split; [done|]. apply elem_of_map_to_list, (ok_map t Ht). eauto. }
  destruct (dump_tree_ok elems (mkDump ∅ [] cache)) as (s & E & Hs & Hg & Hk & Hw).
  - split; cbn; [done|constructor|set_solver|done|set_solver].
  - apply Forall_forall. intros c. apply Hin.
  - exists s. split_and!; [done..| | |exact Hg].
    + intros x. rewrite Hw. cbn. split; [intros [?%not_elem_of_nil|(c & _ & ?)]; [done|eauto]|].
      intros (c & Hm & Hx). right. exists c. split_and!; [|done..]. apply Hin.
      destruct Hm as (n & ? & ? & _). eauto.
    + intros c cn Hc. eapply Hk; [apply Hin; eauto|done].
Qed.
End dump.

(** C27: What a thread writes about its calling contexts when it ends: the walk over a well-formed
    tree terminates, and it writes exactly the contexts that carry metrics and their
    ancestors, up to the root, each of them once; and every method of a context of
    the tree is then known to the code cache, whose methods are written later. *)
Theorem threadEnd_dumps {D : Type} (t : ContextTree (M := list (metric_val_t D))) (elems : list nat) (cache : CodeCache) :
  tree_ok t -> elems ≡ₚ (map_to_list (context_map t)).*2 ->
  exists s, dump_tree t elems (mkDump ∅ [] cache) = Some s /\
    NoDup (written s) /\
    (forall x, x ∈ written s <-> exists c, measured t c /\ above t c x) /\
    (forall c cn, heap t !! c = Some cn -> known (dump_cache s) (method_id (n_frame cn))).
Proof.
  intros Ht Hel. destruct (dump_whole t Ht elems cache Hel) as (s & E & Hs & Hw & Hk & _).
  exists s. split_and!; [done|apply Hs|done..].
Qed.

(** ** The texts *)

Lemma value_ok_app a b : value_ok (a ++ b) <-> value_ok a /\ value_ok b.
Proof. unfold value_ok. by rewrite forallb_app, andb_true_iff. Qed.

Lemma pretty_N_go_value x s : value_ok (lit s) -> value_ok (lit (pretty_N_go x s)).
Proof.
  revert s; induction (N.lt_wf_0 x) as [x _ IH]; intros s Hs.
  destruct (decide (0 < x)%N) as [Hx|Hx].
  - rewrite pretty_N_go_step by done. apply IH; [apply N.div_lt; lia|].
    change (value_char (pretty_N_char (x `mod` 10)) && forallb value_char (lit s) = true).
    rewrite Hs, andb_true_r. unfold pretty_N_char. by repeat case_match.
  - assert (x = 0%N) as -> by lia. by rewrite pretty_N_go_0.
Qed.

Lemma show_int_value z : value_ok (show_int z).
Proof.
  assert (Hp : forall p : positive, value_ok (lit (pretty (N.pos p)))).
  { intros p. unfold pretty, pretty_N. rewrite decide_False by done. by apply pretty_N_go_value. }
  unfold show_int. destruct z; [done|apply Hp|]. unfold pretty, pretty_Z. unfold value_ok. cbn. apply Hp.
Qed.

Lemma show_ptr_value p : value_ok (show_ptr p).
Proof. unfold show_ptr. case_match; [done|]. apply value_ok_app. split; [done|by apply show_hex_value]. Qed.

(** Ids are told apart by their texts. *)
Lemma show_int_inj a b : show_int a = show_int b -> a = b.
Proof.
  unfold show_int, lit. intros E. apply (f_equal String.string_of_list_ascii) in E.
  rewrite !String.string_of_list_ascii_of_string in E. by apply (inj pretty) in E.
Qed.

(** *** What the reader finds *)
Definition py_attr (key : string) (o : PyObj) : option str := let '(mkPy _ a _) := o in a !! lit key.

Lemma py_attr_set key key' v o :
  py_attr key' (reading (SET_ATTR o key v)) = if decide (lit key = lit key') then Some v else py_attr key' (reading o).
Proof.
  destruct o as [t a cs].
  change (py_attr key' (reading (SET_ATTR (mkXML t a cs) key v)))
    with ((inner <$> <[lit key := quoted v]> a) !! lit key').
  rewrite fmap_insert, inner_quoted. case_decide as E.
  - by rewrite E, lookup_insert_eq.
  - by rewrite lookup_insert_ne.
Qed.

Lemma py_attr_child key i c o : py_attr key (reading (XMLObj_addChild i c o)) = py_attr key (reading o).
Proof. by destruct o. Qed.

Lemma SET_ATTR_ok o key v : name_ok (lit key) -> value_ok v -> xml_ok o -> xml_ok (SET_ATTR o key v).
Proof. apply addAttr_ok. Qed.

#[local] Hint Resolve SET_ATTR_ok XMLObj_addChild_ok XMLObj_new_ok show_int_value show_ptr_value : report.
#[local] Hint Extern 1 (name_ok _) => done : report.
#[local] Hint Resolve new_level addAttr_level addChild_level new_none addAttr_none addChild_none : report.
#[local] Hint Extern 1 (_ <> _) => done : report.

(** The ids of the children are below [i]. *)
Definition keys_below (i : nat) (o : XMLObj) : Prop := let '(mkXML _ _ cs) := o in Forall (fun ic => ic.1 < Z.of_nat i) cs.

Lemma map_put_end id c l : Forall (fun ic : Z * XMLObj => ic.1 < id) l -> map_put id c l = l ++ [(id, c)].
Proof.
  induction 1 as [|[i d] l Hi _ IH]; [done|]. cbn in *. rewrite (proj2 (Z.ltb_ge _ _)), (proj2 (Z.eqb_neq _ _)) by lia. by rewrite IH.
Qed.

Lemma addChild_below i c o : Z.of_nat i < 2 ^ 32 -> keys_below i o ->
  keys_below (S i) (XMLObj_addChild (Z.of_nat i) c o) /\
  py_children (reading (XMLObj_addChild (Z.of_nat i) c o)) = py_children (reading o) ++ [reading c] /\
  py_name (reading (XMLObj_addChild (Z.of_nat i) c o)) = py_name (reading o).
Proof.
  destruct o as [t a cs]. intros Hi Hk. cbn. unfold u32. rewrite wrap_small, map_put_end by (done || lia). split_and!; [|by rewrite map_app|done].
  apply Forall_app. split; [|by apply Forall_singleton; cbn; lia]. eapply Forall_impl; [exact Hk|]. cbn. lia.
Qed.

(** The reader makes no difference between the two forms of a text. *)
Lemma context_text_of order o : text_of order o (context_text order o).
Proof.
  unfold text_of, context_text, OutputFile.printed. destruct (_ <=? _); [right|by left].
  rewrite getXMLStr_body, length_app. cbn [length]. apply take_app_length'. lia.
Qed.

Lemma context_texts_of order os : Forall2 (text_of order) os (map (context_text order) os).
Proof. induction os; constructor; [apply context_text_of|done]. Qed.

Section text.
Context {D : Type} `{DoubleOps D}.
Variable show_double : D -> str.
Hypothesis show_double_value : forall d, value_ok (show_double d).
Variable order : gmap str str -> list (str * str).
Hypothesis order_perm : forall m, order m ≡ₚ map_to_list m.
Variable infos : list metric_info_t.
Hypothesis infos_plain : Forall (fun i => value_ok (lit (event_measure i)) /\ value_ok (lit (event_name i))) infos.
Hypothesis infos_few : Z.of_nat (length infos) < 2 ^ 31.

(** The metrics of a node are registered, and their texts are plain. *)
Definition metrics_plain (vals : list (metric_val_t D)) : Prop :=
  (length vals <= length infos)%nat /\ Forall (fun v => value_ok (lit (m_str v))) vals.

Lemma metric_value_ok v : value_ok (lit (m_str v)) -> value_ok (metric_value show_double v).
Proof. intros Hv. unfold metric_value. repeat case_match; auto using show_int_value. Qed.

Lemma getMetricInfo_at i :
  (i < length infos)%nat -> exists info, infos !! i = Some info /\ getMetricInfo (Z.of_nat i) infos = Some info /\ info ∈ infos.
Proof.
  intros Hi. destruct (lookup_lt_is_Some_2 infos i Hi) as [info E]. exists info.
  split; [done|]. split; [|by eapply list_elem_of_lookup_2]. unfold getMetricInfo.
  rewrite (proj2 (Z.ltb_ge _ _)) by lia. unfold i32. rewrite swrap_small by lia.
  rewrite (proj2 (Z.leb_gt _ _)) by lia. cbn. by rewrite Nat2Z.id.
Qed.

(** What the reader makes of the i-th metric, and of all of them. *)
Definition reads_metric (i : nat) (v : metric_val_t D) (o : PyObj) : Prop :=
  exists info, infos !! i = Some info /\ py_attr "value" o = Some (metric_value show_double v) /\
    py_attr "event" o = Some (lit (event_name info)) /\ py_attr "measure" o = Some (lit (event_measure info)).
Definition reads_values (i : nat) (vals : list (metric_val_t D)) (l : list PyObj) : Prop :=
  length l = length vals /\ forall j v c, vals !! j = Some v -> l !! j = Some c -> reads_metric (i + j) v c.
Definition reads_metrics (vals : list (metric_val_t D)) (o : PyObj) : Prop :=
  py_name o = lit "metrics" /\ reads_values 0 vals (py_children o).

Lemma metric_children_ok vals : forall i obj,
  (i + length vals <= length infos)%nat -> Forall (fun v => value_ok (lit (m_str v))) vals -> xml_ok obj -> none_named (lit "context") obj -> keys_below i obj ->
  exists obj' l, metric_children show_double infos (Z.of_nat i) vals obj = Some obj' /\ xml_ok obj' /\ none_named (lit "context") obj' /\
    py_name (reading obj') = py_name (reading obj) /\ py_children (reading obj') = py_children (reading obj) ++ l /\
    reads_values i vals l.
Proof.
  induction vals as [|v vals IH]; intros i obj Hi Hv Hobj Hnone Hk; cbn [metric_children].
  { exists obj, []. rewrite app_nil_r. by split_and!. }
  apply Forall_cons in Hv as [Hv Hvs]. cbn in Hi.
  destruct (getMetricInfo_at i) as (info & Ei & -> & Hin); [lia|]. cbn [mbind option_bind].
  rewrite Forall_forall in infos_plain. destruct (infos_plain info Hin).
  unfold u32. rewrite wrap_small by lia. replace (Z.of_nat i + 1) with (Z.of_nat (S i)) by lia.
  set (child := SET_ATTR _ _ _).
  assert (Hread : reads_metric i v (reading child)) by (exists info; subst child; rewrite !py_attr_set; by split_and!).
  destruct (addChild_below i child obj) as (Hk' & Ec & En); [lia|done|].
  destruct (IH (S i) (XMLObj_addChild (Z.of_nat i) child obj)) as (obj' & l & E & Hok & Hnone' & En' & Ec' & Hl & Hr);
    [lia|done|subst child; auto 20 using metric_value_ok with report|subst child; unfold SET_ATTR; auto 20 with report|done|].
  exists obj', (reading child :: l). split_and!; [done|done|done|by rewrite En'|by rewrite Ec', Ec, <- app_assoc|split; [cbn; lia|]].
  intros [|j] w c; cbn.
  - intros Hj Hc. apply (inj Some) in Hj as <-. apply (inj Some) in Hc as <-. rewrite Nat.add_0_r. exact Hread.
  - intros Hj Hc. replace (i + S j)%nat with (S i + j)%nat by lia. by apply Hr.
Qed.

Variable t : ContextTree (M := list (metric_val_t D)).
Hypothesis Ht : tree_ok t.
Hypothesis plain : forall c n, heap t !! c = Some n ->
  0 <= method_id (n_frame n) /\ forall m, n_metrics n = Some m -> metrics_plain m.

(** The id that the text gives for the parent. *)
Definition parent_text (n : node (M := list (metric_val_t D))) : option str :=
  match n_parent n with
  | Some p => pn ← heap t !! p; Some (show_int (n_id pn))
  | None => Some (show_int (-1))
  end.

(** What the reader makes of a context. *)
Definition reads_as (c : nat) (o : PyObj) : Prop :=
  exists n, heap t !! c = Some n /\
    py_attr "id" o = Some (show_int (n_id n)) /\ py_attr "parent_id" o = parent_text n /\
    py_attr "method_id" o = Some (show_ptr (method_id (n_frame n))) /\
    py_attr "method_version" o = Some (show_int (method_version (n_frame n))) /\
    py_attr "binary_addr" o = Some (show_int (binary_addr (n_frame n))) /\
    py_attr "bci" o = Some (show_int (bci (n_frame n))) /\
    match n_metrics n, py_children o with Some m, [c] => reads_metrics m c | None, [] => True | _, _ => False end.

Lemma createXMLObj_context_ok c :
  is_Some (heap t !! c) ->
  exists o, createXMLObj_context show_double infos t c = Some o /\ node_ok (lit "context") o /\ reads_as c (reading o).
Proof.
  intros [n Hn]. unfold createXMLObj_context. rewrite Hn. cbn [mbind option_bind].
  destruct (plain c n Hn) as [Hid Hm].
  assert (exists q, parent_text n = Some q /\ value_ok q /\
    forall obj, match n_parent n with
      | Some p => pn ← heap t !! p; Some (SET_ATTR obj "parent_id" (show_int (n_id pn)))
      | None => Some (SET_ATTR obj "parent_id" (show_int (-1)))
      end = Some (SET_ATTR obj "parent_id" q)) as (q & Eq & Hq & ->).
  { unfold parent_text. destruct (n_parent n) as [p|] eqn:Ep; [|eauto using show_int_value].
    destruct (parent_in t Ht c n p Hn Ep) as [pn ->]. cbn. eauto using show_int_value. }
  cbn [mbind option_bind]. set (obj := SET_ATTR _ "parent_id" q).
  assert (Hobj : node_ok (lit "context") obj) by (split; subst obj; [auto 20 with report|unfold SET_ATTR; auto 20 with report]).
  assert (Hread : forall o, (forall key, py_attr key (reading o) = py_attr key (reading obj)) ->
    match n_metrics n, py_children (reading o) with Some m, [c] => reads_metrics m c | None, [] => True | _, _ => False end ->
    reads_as c (reading o)).
  { intros o Ho Hl. exists n. rewrite !Ho. subst obj. rewrite !py_attr_set, Eq. by split_and!. }
  destruct (n_metrics n) as [m|] eqn:Em; cycle 1.
  { exists obj. split_and!; [done..|]. by apply Hread. }
  destruct (Hm m eq_refl) as [Hlen Hstr]. unfold createXMLObj_metrics.
  destruct (metric_children_ok m 0 (XMLObj_new (lit "metrics"))) as (child & l & Em' & Hchild & Hnone & Hname & Hl & Hvals);
    [done..|by apply XMLObj_new_ok|by apply new_none|by apply Forall_nil_2|].
  change (Z.of_nat 0) with 0 in Em'. rewrite Em'. cbn [mbind option_bind]. eexists. split_and!; [done|destruct Hobj; split; auto with report|].
  apply Hread; [intros key; apply py_attr_child|]. cbn in Hl. subst l. by split.
Qed.
Lemma contexts_ok cs :
  Forall (fun c => is_Some (heap t !! c)) cs ->
  exists os, mapM (fun c => obj ← createXMLObj_context show_double infos t c; Some (context_text order obj)) cs =
      Some (map (context_text order) os) /\
    Forall (node_ok (lit "context")) os /\ Forall2 reads_as cs (map reading os).
Proof.
  induction 1 as [|c cs Hc _ (os & E & Hos & Hr)]; [by exists []|].
  destruct (createXMLObj_context_ok c Hc) as (o & Eo & Ho & Hro).
  exists (o :: os). cbn. rewrite Eo. cbn. cbn in E. rewrite E. cbn. split_and!; [done| |]; by constructor.
Qed.
End text.

(** The report of a thread can be read: from the file that [threadEnd] writes for a
    well-formed tree whose metric descriptions and texts need no escaping, the offline reader
    gets one object for each context written, in order, with its id, the id of its parent, its
    method, its address and its bytecode index, and with the values of its metrics if it has any; and
    every parent's id in the file, but the root's [-1], is the id of an object of the file, so
    that the reader can rebuild the paths. *)
Theorem threadEnd_readable {D : Type} `{DoubleOps D} (show_double : D -> str)
    (order : gmap str str -> list (str * str)) (infos : list metric_info_t)
    (t : ContextTree (M := list (metric_val_t D))) (elems : list nat) (cache : CodeCache) (s : dump_state) :
  (forall d, value_ok (show_double d)) -> (forall m, order m ≡ₚ map_to_list m) ->
  Forall (fun i => value_ok (lit (event_measure i)) /\ value_ok (lit (event_name i))) infos ->
  Z.of_nat (length infos) < 2 ^ 31 -> tree_ok t ->
  (forall c n, heap t !! c = Some n ->
    0 <= method_id (n_frame n) /\ forall m, n_metrics n = Some m -> metrics_plain infos m) ->
  elems ≡ₚ (map_to_list (context_map t)).*2 ->
  dump_tree t elems (mkDump ∅ [] cache) = Some s ->
  exists texts os, dump_text show_double order infos t s = Some texts /\
    (forall arrive, HomoXMLParser arrive (lit "context") (lit XML_FILE_HEADER ++ [c_newline] ++ concat texts) =
      Some (mkPy (lit "root") ∅ (arrive os))) /\
    Forall2 (reads_as show_double infos t) (written s) os /\
    forall o, o ∈ os -> py_attr "parent_id" o = Some (show_int (-1)) \/
      exists o', o' ∈ os /\ py_attr "parent_id" o = py_attr "id" o'.
Proof.
  intros Hd Ho Hi Hn Ht Hp Hel E.
  destruct (dump_whole t Ht elems cache Hel) as (s' & E' & Hs & _). assert (s' = s) as -> by congruence.
  destruct (contexts_ok show_double Hd order infos Hi Hn t Ht Hp (written s)) as (os & Et & Hos & Hr).
  { apply Forall_forall. apply (inv_heap _ _ _ Hs). }
  exists (map (context_text order) os), (map reading os).
  split_and!; [done|intros arrive; by apply (HomoXMLParser_texts order), context_texts_of|done|].
  intros o [i Hio]%list_elem_of_lookup_1. destruct (Forall2_lookup_r _ _ _ _ _ Hr Hio) as (c & Hc & n & Hcn & _ & Hpar & _).
  rewrite Hpar. unfold parent_text. destruct (n_parent n) as [p|] eqn:Ep; [right|by left].
  destruct (inv_up _ _ _ Hs c n p (list_elem_of_lookup_2 _ _ _ Hc) Hcn Ep) as [[j Hj]%list_elem_of_lookup_1|]; [|done].
  destruct (Forall2_lookup_l _ _ _ _ _ Hr Hj) as (o' & Ho' & pn & Hpn & Hid & _).
  exists o'. split; [by eapply list_elem_of_lookup_2|]. rewrite Hpn, Hid. done.
Qed.

(** ** A tree with metrics *)
Module Demo.
(** The root, a context below it, and one with a metric below that. *)
Definition frame (i : Z) : ContextFrame := mkFrame 4096 i "run" 1 "Main.java" 3 10.
Definition tree0 : ContextTree (M := list (metric_val_t spec_float)) := ContextTree_new.
Definition add_or (p : nat) (f : ContextFrame) (t : ContextTree (M := list (metric_val_t spec_float))) :=
  match addContext p f t with RET (_, t') => t' | EXC => t end.
Definition tree2 := add_or 1 (frame 32) (add_or 0 (frame 16) tree0).
Definition tree := setMetrics 2 [mkVal 5 (d_of_Z 0) ""] tree2.
Definition elems : list nat := (map_to_list (context_map tree)).*2.
Definition infos : list metric_info_t := [mkInfo "trace" "CYCLES" "count" 0 METRIC_VAL_INT].
Definition show_double (d : spec_float) : str := lit "0".
Definition walked : dump_state := default (mkDump ∅ [] CodeCache_new) (dump_tree tree elems (mkDump ∅ [] CodeCache_new)).

Lemma add_or_ok p f t ks :
  tree_ok t -> has_path t p ks -> id_counter t + 1 < 2 ^ 32 ->
  tree_ok (add_or p f t) /\ exists c, addContext p f t = RET (c, add_or p f t) /\ has_path (add_or p f t) c (ks ++ [frame_key f]).
Proof.
  intros Ht Hp Hid. destruct (addContext_spec p f t ks Ht Hp Hid) as (c & t' & E & Ht' & _ & Hp' & _).
  unfold add_or. rewrite E. eauto.
Qed.

Lemma tree_is_ok : tree_ok tree.
Proof.
  apply setMetrics_ok. destruct (add_or_ok 0 (frame 16) tree0 []) as (Ht1 & c & E & Hp).
  - apply ContextTree_new_ok.
  - constructor.
  - done.
  - assert (c = 1%nat) as -> by (vm_compute in E; congruence).
    by eapply add_or_ok.
Qed.

Lemma demo_walk : dump_tree tree elems (mkDump ∅ [] CodeCache_new) = Some walked.
Proof. vm_compute. reflexivity. Qed.

Lemma demo_plain c n :
  heap tree !! c = Some n ->
  0 <= method_id (n_frame n) /\ forall m, n_metrics n = Some m -> metrics_plain infos m.
Proof.
  intros Hc%elem_of_map_to_list. revert Hc.
  assert (Forall (fun cn : nat * node => 0 <= method_id (n_frame cn.2) /\
    forall m, n_metrics cn.2 = Some m -> metrics_plain infos m) (map_to_list (heap tree))) as Hall.
  { vm_compute map_to_list. repeat apply Forall_cons_2; try apply Forall_nil_2; (split; [by vm_compute|]);
      intros m Hm; vm_compute in Hm; try discriminate Hm.
    injection Hm as <-. split; [cbn; lia|by apply Forall_singleton]. }
  rewrite Forall_forall in Hall. apply (Hall (c, n)).
Qed.

Lemma threadEnd_dumps_witness :
  dump_tree tree elems (mkDump ∅ [] CodeCache_new) = Some walked /\
    exists s, dump_tree tree elems (mkDump ∅ [] CodeCache_new) = Some s /\ NoDup (written s).
Proof.
  split; [exact demo_walk|].
  destruct (threadEnd_dumps tree elems CodeCache_new tree_is_ok (reflexivity _)) as (s & E & Hn & _).
  exists s. split; [exact E|exact Hn].
Defined.

(** The metric's context is written first, then its ancestors. *)
Example demo_written : written walked = [2; 1; 0]%nat.
Proof. vm_compute. reflexivity. Qed.

Lemma threadEnd_readable_witness :
  exists texts os, dump_text show_double map_to_list infos tree walked = Some texts /\
    HomoXMLParser id (lit "context") (lit XML_FILE_HEADER ++ [c_newline] ++ concat texts) = Some (mkPy (lit "root") ∅ os).
Proof.
  destruct (threadEnd_readable show_double map_to_list infos tree elems CodeCache_new walked)
    as (texts & os & E & Er & _).
  - intros d. reflexivity.
  - intros m. reflexivity.
  - repeat constructor.
  - reflexivity.
  - exact tree_is_ok.
  - exact demo_plain.
  - reflexivity.
  - exact demo_walk.
  - exists texts, os. split; [exact E|exact (Er id)].
Defined.
End Demo.
