(* ===== verification/Config.v ===== *)
(** * Config: the options of the agent

    argument.cpp, which cuts the option string at its commas, [get_env_int] of perf_util.cpp and
    [process_event_list] of perf_interface.cpp, which makes events, metrics and settings of the
    pieces. Strings are lists of characters; a position is a number, or [None] for [npos].
    [EXC] is a failed assertion, an exception, or an index out of range. *)
From stdpp Require Import base numbers list strings pretty gmap.
From Stdlib Require Import ZArith Lia Ascii.
From S2P Require Import Prelude Xml PerfEvents Metrics.
Local Open Scope Z_scope.

(** ** [std::string] *)
Definition find_first_of (delimiters str : Xml.str) (from : option nat) : option nat :=
  p ← from; e ← list_find (fun c => c ∈ delimiters) (drop p str); Some (p + e.1)%nat.
Definition find_first_not_of (delimiters str : Xml.str) (from : option nat) : option nat :=
  p ← from; e ← list_find (fun c => c ∉ delimiters) (drop p str); Some (p + e.1)%nat.

(** [substr(pos, count)]; [count] is [None] for [npos], or when it has wrapped around. *)
Definition substr (pos : nat) (count : option nat) (s : Xml.str) : exc Xml.str :=
  if (length s <? pos)%nat then EXC
  else RET (match count with Some n => take n (drop pos s) | None => drop pos s end).

Fixpoint is_prefix (p s : Xml.str) : bool :=
  match p, s with
  | [], _ => true
  | a :: p, b :: s => bool_decide (a = b) && is_prefix p s
  | _ :: _, [] => false
  end.
(** [find(p)] *)
Fixpoint find (p s : Xml.str) : option nat :=
  if is_prefix p s then Some 0%nat
  else match s with [] => None | _ :: s => S <$> find p s end.

Definition code (c : ascii) : Z := Z.of_nat (nat_of_ascii c).
Definition isdigit (c : ascii) : bool := (48 <=? code c) && (code c <=? 57).
Definition toupper (c : ascii) : ascii :=
  if (97 <=? code c) && (code c <=? 122) then ascii_of_nat (nat_of_ascii c - 32) else c.

(** The number at the start of a string, and whether there is one. *)
Fixpoint digits (acc : Z) (s : Xml.str) : Z :=
  match s with
  | c :: r => if isdigit c then digits (10 * acc + (code c - 48)) r else acc
  | [] => acc
  end.
Definition sign (s : Xml.str) : bool * Xml.str :=
  match s with
  | c :: r => if bool_decide (c = "-"%char) then (true, r) else if bool_decide (c = "+"%char) then (false, r) else (false, s)
  | [] => (false, [])
  end.
Definition starts_with_digit (s : Xml.str) : bool := match s with c :: _ => isdigit c | [] => false end.

(** [std::stoull(s, nullptr, 10)], which takes a sign, and throws when there is no number or too
    large a one. *)
Definition stoull (s : Xml.str) : exc Z :=
  let '(neg, s) := sign (lstrip s) in
  if negb (starts_with_digit s) then EXC
  else
    let v := digits 0 s in
    if 2 ^ 64 <=? v then EXC else RET (if neg : bool then u64 (- v) else v).

(** [strtol(s, ..., 10)] *)
Definition strtol10 (s : Xml.str) : Z :=
  let '(neg, s) := sign (lstrip s) in
  let v := digits 0 s in
  Z.max (- 2 ^ 63) (Z.min (2 ^ 63 - 1) (if neg : bool then - v else v)).

(** [iss >> x] for an unsigned number of 64 bits and a string of digits. *)
Definition read_u64 (s : Xml.str) (old : Z) : Z :=
  if bool_decide (s = []) then old else Z.min (2 ^ 64 - 1) (digits 0 s).

(** ** [Argument] *)

(** The loop of [Tokenize]. *)
Fixpoint tokenize_loop (fuel : nat) (delimiters str : Xml.str) (lastPos pos : option nat) (tokens : list Xml.str)
  : exc (list Xml.str) :=
  match fuel with
  | O => EXC
  | S fuel =>
      match lastPos, pos with
      | None, None => RET tokens
      | None, Some _ => EXC
      | Some l, _ =>
          t ← substr l ((fun p => (p - l)%nat) <$> pos) str;
          let lastPos := find_first_not_of delimiters str pos in
          tokenize_loop fuel delimiters str lastPos (find_first_of delimiters str lastPos) (tokens ++ [t])
      end
  end.

Definition Tokenize (str delimiters : Xml.str) : exc (list Xml.str) :=
  let lastPos := find_first_not_of delimiters str (Some 0%nat) in
  tokenize_loop (S (length str)) delimiters str lastPos (find_first_of delimiters str lastPos) [].

Definition c_comma : ascii := ","%char.
(** The constructor of [Argument]; the object is its list of events. *)
Definition Argument (arg : Xml.str) : exc (list Xml.str) := Tokenize arg [c_comma].

(** ** [get_env_int]

    The comparison of [end_ptr] with the name of the variable, which never holds, is left out. *)
Definition get_env_int (str_val : option Xml.str) : Z :=
  match str_val with
  | Some s =>
      let val := i32 (strtol10 s) in
      if (val <=? 3) && (0 <=? val) then val else if val <? 0 then 0 else if 3 <? val then 3 else 0
  | None => 0
  end.

(** ** [process_event_list] *)
Definition MAX_NUM_EVENTS : Z := 10.

Record perf_event_info_t := mkEventInfo { ei_name : Xml.str; ei_threshold : Z; ei_attr : perf_event_attr }.

(** The globals of perf_interface.cpp, and those that [SetupWatermarkMetric] fills. *)
Record config := mkConfig {
  event_info : list perf_event_info_t;
  num_events : Z;
  decodeThreshold : Z;
  selectedMethod : Xml.str;
  watermarks_ : watermarks * list metric_info_t;
}.

Definition isNumber (str : Xml.str) : bool := forallb isdigit str.

Definition to_string (s : Xml.str) : string := String.string_of_list_ascii s.

(** [event_list[i]] *)
Definition elem_at (event_list : list Xml.str) (i : Z) : option Xml.str :=
  if i <? Z.of_nat (length event_list) then event_list !! Z.to_nat i else None.

Section options.
(** libpfm's encoding of an event's name into the attribute, and the variable PRECISE_IP. *)
Context (perf_encode_event : Xml.str -> perf_event_attr -> option perf_event_attr) (precise_env : option Xml.str).

(** An event's text: the client, which stays that of the event before, the name and the threshold. *)
Definition parse_event (event client_name : Xml.str) (threshold : Z) : exc (Xml.str * Xml.str * Z) :=
  r ← match find (lit "::") event with
      | None => if bool_decide (client_name = []) then EXC else RET (client_name, 0%nat)
      | Some pos => RET (toupper <$> take pos event, (pos + 2)%nat)
      end;
  let '(client_name, pos) := r in
  match find (lit "@") event with
  | Some pos2 =>
      name ← substr pos (if (pos2 <? pos)%nat then None else Some (pos2 - pos)%nat) event;
      rate ← substr (pos2 + 1) None event;
      threshold ← stoull rate;
      RET (client_name, name, u32 threshold)
  | None => name ← substr pos None event; RET (client_name, name, threshold)
  end.

(** The rest of one turn of the loop: the event's entry, its attribute and its metrics. *)
Definition add_event (i : nat) (current : perf_event_info_t) (client_name name : Xml.str) (threshold : Z) (c : config)
  : exc config :=
  let attr := ei_attr current in
  let attr := if negb (threshold =? 0) then
                mkAttr (sample_type attr) (sample_period attr) (freq attr) (get_env_int precise_env) (disabled attr)
                  (wakeup_events attr) (exclude_callchain_user attr) (exclude_callchain_kernel attr)
                  (exclude_kernel attr) (exclude_hv attr) (exclude_idle attr)
              else attr in
  match perf_encode_event name attr with
  | None => EXC
  | Some attr =>
      let attr := perf_attr_init attr threshold PERF_SAMPLE_TID in
      w ← SetupWatermarkMetric (to_string client_name) (to_string name) (i32 threshold) (watermarks_ c);
      RET (mkConfig (<[i := mkEventInfo name threshold attr]> (event_info c)) (num_events c)
             (decodeThreshold c) (selectedMethod c) w)
  end.

(** One turn of the loop over the events. *)
Definition process_event (i : nat) (event client_name : Xml.str) (c : config) : exc (Xml.str * config) :=
  match event_info c !! i with
  | None => EXC
  | Some current =>
      r ← parse_event event client_name (ei_threshold current);
      let '(client_name, name, threshold) := r in
      c ← add_event i current client_name name threshold c;
      RET (client_name, c)
  end.

Fixpoint process_events (n i : nat) (event_list : list Xml.str) (client_name : Xml.str) (c : config) : exc config :=
  match n with
  | O => RET c
  | S n =>
      match event_list !! i with
      | None => EXC
      | Some event =>
          r ← process_event i event client_name c;
          process_events n (S i) event_list r.1 r.2
      end
  end.

Definition process_event_list (event_list : list Xml.str) (c : config) : exc (bool * config) :=
  let n := u32 (Z.of_nat (length event_list) - 1) in
  match elem_at event_list n with
  | None => EXC
  | Some last =>
      let '(n, decode) := if isNumber last then (n, read_u64 last (decodeThreshold c)) else (u32 (n + 1), decodeThreshold c) in
      let n := u32 (n - 1) in
      match elem_at event_list n with
      | None => EXC
      | Some tempstr =>
          let '(n, method) := match find (lit "Method:") tempstr with
                              | Some pos => (n, drop (pos + 7) tempstr)
                              | None => (u32 (n + 1), selectedMethod c)
                              end in
          _ ← assert_exc (n <? MAX_NUM_EVENTS);
          c ← process_events (Z.to_nat n) 0 event_list [] (mkConfig (event_info c) n decode method (watermarks_ c));
          RET (true, c)
      end
  end.

(** [PerfManager::processInit], for the outcomes of libpfm's initialisation and of the two calls of
    [installSignal]. *)
Definition installSignal (sigaction_ok sigmask_ok : bool) : bool :=
  if negb sigaction_ok then false else if negb sigmask_ok then false else true.

Definition processInit (pfm_ok sigaction_ok sigmask_ok : bool) (event_list : list Xml.str) (c : config) : exc (bool * config) :=
  if negb pfm_ok then RET (false, c) else
  r ← process_event_list event_list c;
  let '(ok, c) := r in
  _ ← assert_exc ok;
  RET (installSignal sigaction_ok sigmask_ok, c).
End options.

(** The globals before anything has run. *)
Definition no_attr : perf_event_attr := mkAttr 0 0 0 0 0 0 0 0 0 0 0.
Definition config0 : config :=
  mkConfig (replicate 10 (mkEventInfo [] 0 no_attr)) 0 0 [] (no_watermarks, []).

(** ** [Tokenize] against splitting

    All pieces between delimiters, empty ones too; the tokens are those that are not empty. *)
Fixpoint split_by (d s : Xml.str) : list Xml.str :=
  match s with
  | [] => [[]]
  | c :: r =>
      if bool_decide (c ∈ d) then [] :: split_by d r
      else match split_by d r with t :: ts => (c :: t) :: ts | [] => [[c]] end
  end.
Definition tokens_of (d s : Xml.str) : list Xml.str := filter (fun t => t <> []) (split_by d s).

Section tokenize.
Context (d : Xml.str).

(** A string begins with characters of one kind, and then there is another one or nothing. *)
Definition stops (P : ascii -> Prop) (s : Xml.str) : Prop := match s with [] => True | c :: _ => ~ P c end.

Lemma span (P : ascii -> Prop) `{!forall c, Decision (P c)} s :
  exists a b, s = a ++ b /\ Forall P a /\ stops P b.
Proof.
  induction s as [|c s (a & b & -> & Ha & Hb)]; [by exists [], []|].
  destruct (decide (P c)); [exists (c :: a), b; by split_and!; [|constructor|]|by exists [], (c :: a ++ b)].
Qed.

Lemma list_find_span (P : ascii -> Prop) `{!forall c, Decision (P c)} a b :
  Forall (fun c => ~ P c) a -> stops (fun c => ~ P c) b ->
  list_find P (a ++ b) = match b with [] => None | c :: _ => Some (length a, c) end.
Proof.
  intros Ha Hb. induction Ha as [|c a Hc _ IH]; cbn.
  - destruct b as [|c b]; [done|]. cbn in *. destruct (decide (P c)); [done|tauto].
  - rewrite decide_False by done. rewrite IH. by destruct b.
Qed.

Lemma tokens_skip sk r : Forall (fun c => c ∈ d) sk -> tokens_of d (sk ++ r) = tokens_of d r.
Proof.
  intros Hsk. induction Hsk as [|c sk Hc _ IH]; [done|]. cbn. unfold tokens_of. cbn. rewrite bool_decide_true by done.
  rewrite filter_cons_False by tauto. exact IH.
Qed.

Lemma split_token t r :
  Forall (fun c => c ∉ d) t -> stops (fun c => c ∉ d) r ->
  split_by d (t ++ r) = match r with [] => [t] | _ :: r' => t :: split_by d r' end.
Proof.
  intros Ht Hr. induction Ht as [|c t Hc _ IH]; cbn.
  - destruct r as [|c r]; [done|]. cbn in *. rewrite bool_decide_true; [done|]. by destruct (decide (c ∈ d)).
  - rewrite bool_decide_false by done. rewrite IH. by destruct r.
Qed.

Lemma tokens_token t r :
  t <> [] -> Forall (fun c => c ∉ d) t -> stops (fun c => c ∉ d) r -> tokens_of d (t ++ r) = t :: tokens_of d r.
Proof.
  intros Hne Ht Hr. unfold tokens_of. rewrite split_token by done. destruct r as [|c r]; [by rewrite filter_cons_True|].
  rewrite filter_cons_True by done. cbn. rewrite bool_decide_true by (by destruct (decide (c ∈ d))).
  by rewrite filter_cons_False by tauto.
Qed.

Lemma find_not_of_span s p sk r :
  drop p s = sk ++ r -> Forall (fun c => c ∈ d) sk -> stops (fun c => c ∈ d) r ->
  find_first_not_of d s (Some p) = match r with [] => None | _ => Some (p + length sk)%nat end.
Proof.
  intros E Hsk Hr. unfold find_first_not_of. cbn. rewrite E, list_find_span; [by destruct r| |].
  - eapply Forall_impl; [exact Hsk|]. tauto.
  - destruct r; [done|]. cbn in *. tauto.
Qed.

Lemma find_of_span s p t r :
  drop p s = t ++ r -> Forall (fun c => c ∉ d) t -> stops (fun c => c ∉ d) r ->
  find_first_of d s (Some p) = match r with [] => None | _ => Some (p + length t)%nat end.
Proof. intros E Ht Hr. unfold find_first_of. cbn. rewrite E, list_find_span by done. by destruct r. Qed.

Lemma tokenize_loop_ok s fuel : forall p toks,
  (length (drop p s) < fuel)%nat ->
  tokenize_loop fuel d s (find_first_not_of d s (Some p)) (find_first_of d s (find_first_not_of d s (Some p))) toks =
    RET (toks ++ tokens_of d (drop p s)).
Proof.
  induction fuel as [|fuel IH]; intros p toks Hf; [lia|].
  destruct (span (fun c => c ∈ d) (drop p s)) as (sk & r & E & Hsk & Hr).
  rewrite (find_not_of_span s p sk r E Hsk Hr). rewrite E, tokens_skip by done. rewrite E, length_app in Hf.
  destruct r as [|c r]; [cbn; by rewrite app_nil_r|]. cbn in Hr.
  set (l := (p + length sk)%nat). assert (El : drop l s = c :: r).
  { subst l. rewrite <- drop_drop, E. by rewrite drop_app_length. }
  assert (Hl : (l <= length s)%nat) by (destruct (Nat.le_gt_cases l (length s)); [done|]; rewrite drop_ge in El by lia; done).
  destruct (span (fun c => c ∉ d) (c :: r)) as (t & r2 & E2 & Ht & Hr2).
  assert (Hne : t <> []) by (intros ->; cbn in E2; subst r2; by apply Hr2).
  rewrite (find_of_span s l t r2) by (by rewrite ?El). rewrite E2, tokens_token by done.
  assert (Hlen : length (c :: r) = (length t + length r2)%nat) by (by rewrite E2, length_app).
  cbn [tokenize_loop]. unfold substr. rewrite (proj2 (Nat.ltb_ge _ _)) by done. rewrite El, E2.
  destruct r2 as [|c2 r2].
  - cbn. rewrite app_nil_r in *. destruct fuel; [cbn in *; lia|done].
  - cbn [fmap option_fmap option_map]. replace (l + length t - l)%nat with (length t) by lia. rewrite take_app_length.
    cbn [mbind exc_bind]. assert (Ep : drop (l + length t) s = c2 :: r2) by (by rewrite <- drop_drop, El, E2, drop_app_length).
    rewrite IH by (rewrite Ep; cbn in *; destruct t; [done|]; cbn in *; lia). by rewrite Ep, <- app_assoc.
Qed.
End tokenize.

(** [Tokenize] returns the pieces of the string between the delimiters, in order, without the empty
    ones: its walk over positions, which looks at both ends of a token separately, ends for
    every string and never asks [substr] for a position outside. *)
Theorem Tokenize_splits (str delimiters : Xml.str) :
  Tokenize str delimiters = RET (tokens_of delimiters str).
Proof. unfold Tokenize. rewrite tokenize_loop_ok; [done|]. rewrite drop_0. lia. Qed.

(** ** Options that are printed *)

(** *** Decimal numbers *)
Definition dec (z : Z) : Xml.str := lit (pretty z).

Lemma pretty_char_digit x : let c := pretty_N_char (x `mod` 10) in isdigit c = true /\ code c - 48 = Z.of_N (x `mod` 10).
Proof.
  assert (Hall : Forall (fun k => isdigit (pretty_N_char k) = true /\ code (pretty_N_char k) - 48 = Z.of_N k)
    (N.of_nat <$> seq 0 10)) by (repeat constructor).
  rewrite Forall_forall in Hall. apply Hall. apply list_elem_of_fmap. exists (N.to_nat (x `mod` 10)).
  split; [by rewrite N2Nat.id|]. apply elem_of_seq. assert (x `mod` 10 < 10)%N by (by apply N.mod_lt). generalize dependent (x `mod` 10)%N. intros y ?. lia.
Qed.

Lemma pretty_N_go_digits x s : forallb isdigit (lit (pretty_N_go x s)) = forallb isdigit (lit s) /\
  digits 0 (lit (pretty_N_go x s)) = digits (Z.of_N x) (lit s).
Proof.
  revert s. induction x as [x IH] using (well_founded_induction N.lt_wf_0); intros s.
  destruct (decide (x = 0%N)) as [->|Hx]; [by rewrite pretty_N_go_0|].
  rewrite pretty_N_go_step by lia. destruct (pretty_char_digit x) as [Hd Hv].
  assert (Hlt : (x `div` 10 < x)%N) by (apply N.div_lt; lia).
  destruct (IH (x `div` 10)%N Hlt (String (pretty_N_char (x `mod` 10)) s)) as [-> ->].
  unfold lit. cbn [String.list_ascii_of_string forallb digits]. rewrite Hd, Hv. split; [done|].
  f_equal. pose proof (N.div_mod x 10 ltac:(done)). lia.
Qed.

Lemma dec_digits z : 0 <= z -> forallb isdigit (dec z) = true /\ digits 0 (dec z) = z /\ dec z <> [].
Proof.
  intros Hz. destruct z as [|p|p]; [done| |lia]. change (dec (Z.pos p)) with (lit (pretty (N.pos p))).
  unfold pretty, pretty_N. rewrite decide_False by done. destruct (pretty_N_go_digits (N.pos p) "") as [Hd Hv]. rewrite Hd, Hv.
  split_and!; [done|done|]. intros E. rewrite E in Hv. done.
Qed.

Lemma digit_char c : isdigit c = true -> is_space c = false /\ c <> "-"%char /\ c <> "+"%char.
Proof. destruct c as [[] [] [] [] [] [] [] []]; done. Qed.

Lemma stoull_dec z : 0 <= z < 2 ^ 64 -> stoull (dec z) = RET z.
Proof.
  intros Hz. destruct (dec_digits z) as (Hd & Hv & Hne); [lia|]. destruct (dec z) as [|c r] eqn:E; [done|].
  cbn in Hd. apply andb_prop in Hd as [Hc _]. destruct (digit_char c Hc) as (Hs & H1 & H2).
  unfold stoull. cbn [lstrip]. rewrite Hs. unfold sign. rewrite !bool_decide_false by done. cbn [starts_with_digit].
  rewrite Hc, Hv. cbn [negb]. by rewrite (proj2 (Z.leb_gt _ _)) by lia.
Qed.

(** *** Searching *)
Lemma find_none (c : ascii) p s : Forall (fun x => x <> c) s -> find (c :: p) s = None.
Proof.
  induction 1 as [|x s Hx _ IH]; [done|]. cbn [find is_prefix]. rewrite bool_decide_false by congruence. cbn. by rewrite IH.
Qed.

Lemma is_prefix_app p s : is_prefix p (p ++ s) = true.
Proof. induction p as [|c p IH]; cbn; [done|]. by rewrite bool_decide_true. Qed.

Lemma find_app (c : ascii) p a b : Forall (fun x => x <> c) a -> find (c :: p) (a ++ (c :: p) ++ b) = Some (length a).
Proof.
  induction 1 as [|x a Hx _ IH].
  - cbn [app length]. change (c :: p ++ b) with ((c :: p) ++ b). destruct ((c :: p) ++ b) eqn:E; [done|].
    cbn [find]. rewrite <- E, is_prefix_app. done.
  - change ((x :: a) ++ (c :: p) ++ b) with (x :: (a ++ (c :: p) ++ b)). cbn [find is_prefix].
    rewrite bool_decide_false by congruence. cbn [andb]. rewrite IH. done.
Qed.

(** *** Events *)
Record event_spec := mkSpec { es_client : option Xml.str; es_name : Xml.str; es_rate : option Z }.

Definition event_text (e : event_spec) : Xml.str :=
  match es_client e with Some client => client ++ lit "::" | None => [] end ++ es_name e ++
  match es_rate e with Some rate => lit "@" ++ dec rate | None => [] end.

Definition c_colon : ascii := ":"%char.
Definition c_at : ascii := "@"%char.

(** Names that the separators do not occur in; an event without a client of its own has no
    double colon. *)
Record spec_ok (e : event_spec) : Prop := {
  sok_client : forall client, es_client e = Some client ->
    client <> [] /\ Forall (fun c => c <> c_colon /\ c <> c_at /\ c <> c_comma) client;
  sok_inherits : es_client e = None -> find (lit "::") (event_text e) = None;
  sok_name : es_name e <> [] /\ Forall (fun c => c <> c_at /\ c <> c_comma) (es_name e);
  sok_rate : forall rate, es_rate e = Some rate -> 0 <= rate < 2 ^ 32;
}.

(** The client of an event, behind one with the client [client_name]. *)
Definition client_after (client_name : Xml.str) (e : event_spec) : Xml.str :=
  match es_client e with Some client => toupper <$> client | None => client_name end.

Lemma substr_app a b s : s = a ++ b -> substr (length a) None s = RET b.
Proof.
  intros ->. unfold substr. rewrite (proj2 (Nat.ltb_ge _ _)) by (rewrite length_app; lia). by rewrite drop_app_length.
Qed.
Lemma substr_mid a b r s n : s = a ++ b ++ r -> n = length b -> substr (length a) (Some n) s = RET b.
Proof.
  intros -> ->. unfold substr. rewrite (proj2 (Nat.ltb_ge _ _)) by (rewrite length_app; lia).
  by rewrite drop_app_length, take_app_length.
Qed.

Lemma parse_event_ok e client_name threshold :
  spec_ok e -> (es_client e = None -> client_name <> []) ->
  parse_event (event_text e) client_name threshold =
    RET (client_after client_name e, es_name e, default threshold (es_rate e)).
Proof.
  intros [Hc Hi [Hne Hn] Hr] Hcl. unfold parse_event.
  assert (exists a, event_text e = a ++ es_name e ++ match es_rate e with Some rate => lit "@" ++ dec rate | None => [] end /\
    Forall (fun c => c <> c_at) a /\
    match find (lit "::") (event_text e) with
      | None => if bool_decide (client_name = []) then EXC else RET (client_name, 0%nat)
      | Some pos => RET (toupper <$> take pos (event_text e), (pos + 2)%nat)
    end = RET (client_after client_name e, length a)) as (a & E & Ha & ->).
  { unfold client_after, event_text in *. destruct (es_client e) as [client|].
    - destruct (Hc client eq_refl) as [_ Hcs]. exists (client ++ lit "::"). split; [done|]. split.
      + apply Forall_app. split; [|by repeat constructor]. eapply Forall_impl; [exact Hcs|]. naive_solver.
      + rewrite <- app_assoc. change (lit "::") with (c_colon :: [c_colon]) at 1 2 3. rewrite find_app.
        * rewrite take_app_length, length_app. done.
        * eapply Forall_impl; [exact Hcs|]. naive_solver.
    - exists []. split_and!; [done..|]. rewrite Hi by done. by rewrite bool_decide_false by auto. }
  cbn [mbind exc_bind]. destruct (es_rate e) as [rate|] eqn:Er.
  - assert (Hat : find (lit "@") (event_text e) = Some (length (a ++ es_name e))).
    { rewrite E, app_assoc. change (lit "@") with [c_at]. apply find_app. apply Forall_app. split; [done|].
      eapply Forall_impl; [exact Hn|]. naive_solver. }
    rewrite Hat, length_app. rewrite (proj2 (Nat.ltb_ge _ _)) by lia.
    rewrite (substr_mid a (es_name e) _ _ _ E) by lia. cbn [mbind exc_bind].
    replace (length a + length (es_name e) + 1)%nat with (length ((a ++ es_name e) ++ lit "@")) by (rewrite !length_app; cbn; lia).
    rewrite (substr_app _ (dec rate)) by (by rewrite E, <- !app_assoc). cbn [mbind exc_bind].
    pose proof (Hr rate eq_refl). rewrite stoull_dec by lia. cbn. unfold u32. by rewrite wrap_small by lia.
  - assert (Hat : find (lit "@") (event_text e) = None).
    { rewrite E, app_nil_r. apply find_none, Forall_app. split; [done|]. eapply Forall_impl; [exact Hn|]. naive_solver. }
    rewrite Hat. rewrite (substr_app a (es_name e)) by (by rewrite E, app_nil_r). done.
Qed.

(** *** The loop over the events *)
Section process.
Context (perf_encode_event : Xml.str -> perf_event_attr -> option perf_event_attr) (precise_env : option Xml.str).
Abbreviation process_events := (process_events perf_encode_event precise_env).
Abbreviation process_event_list := (process_event_list perf_encode_event precise_env).
Abbreviation cur c := (curWatermarkId (watermarks_ c).1).

Lemma Setup_next client event th s :
  0 <= curWatermarkId s.1 < MAX_EVENTS ->
  exists s', SetupWatermarkMetric client event th s = RET s' /\ curWatermarkId s'.1 = curWatermarkId s.1 + 1.
Proof.
  destruct s as [w l]. cbn. intros Hk. unfold SetupWatermarkMetric. rewrite (proj2 (Z.eqb_neq _ MAX_EVENTS)) by lia.
  unfold registerMetric. destruct (curWatermarkId w =? 0); by eexists.
Qed.

Definition encodes (e : event_spec) : Prop := forall a, is_Some (perf_encode_event (es_name e) a).

(** The entry of an event: its name and its threshold, which is also the period. *)
Definition entry_is (e : event_spec) (old new : perf_event_info_t) : Prop :=
  ei_name new = es_name e /\ ei_threshold new = default (ei_threshold old) (es_rate e) /\
  sample_period (ei_attr new) = ei_threshold new.

(** The settings that the loop does not touch. *)
Definition same_settings (c c' : config) : Prop :=
  num_events c' = num_events c /\ decodeThreshold c' = decodeThreshold c /\ selectedMethod c' = selectedMethod c /\
  length (event_info c') = length (event_info c).

Lemma process_event_ok i e client_name c old :
  spec_ok e -> encodes e -> (es_client e = None -> client_name <> []) -> event_info c !! i = Some old ->
  (0 <= cur c < MAX_EVENTS ->
    exists c' new, process_event perf_encode_event precise_env i (event_text e) client_name c = RET (client_after client_name e, c') /\
      event_info c' = <[i := new]> (event_info c) /\ entry_is e old new /\ same_settings c c' /\ cur c' = cur c + 1) /\
  (cur c = MAX_EVENTS -> process_event perf_encode_event precise_env i (event_text e) client_name c = EXC).
Proof.
  intros He Henc Hcl Hold. unfold process_event. rewrite Hold, parse_event_ok by done. cbn [mbind exc_bind]. unfold add_event.
  set (attr := if negb _ then _ else _). destruct (Henc attr) as [a ->]. split.
  - intros Hk. destruct (Setup_next (to_string (client_after client_name e)) (to_string (es_name e))
      (i32 (default (ei_threshold old) (es_rate e))) (watermarks_ c) Hk) as (s' & -> & Hk').
    cbn. eexists _, _. split; [done|]. cbn. split_and!; try done. unfold same_settings. cbn. split_and!; try done. apply length_insert.
  - intros Hk. unfold SetupWatermarkMetric. destruct (watermarks_ c) as [w l]. cbn in Hk. by rewrite Hk.
Qed.

Lemma client_after_nonempty client_name e :
  spec_ok e -> (es_client e = None -> client_name <> []) -> client_after client_name e <> [].
Proof.
  intros [Hc _ _ _] Hcl. unfold client_after. destruct (es_client e) as [client|]; [|auto].
  destruct (Hc client eq_refl) as [Hne _]. by destruct client.
Qed.

Lemma process_events_ok specs : forall pre post client_name c,
  Forall (fun e => spec_ok e /\ encodes e) specs ->
  (forall e, head specs = Some e -> es_client e = None -> client_name <> []) ->
  (length pre + length specs <= length (event_info c))%nat ->
  0 <= cur c -> cur c + Z.of_nat (length specs) <= MAX_EVENTS ->
  exists c', process_events (length specs) (length pre) (pre ++ map event_text specs ++ post) client_name c = RET c' /\
    same_settings c c' /\ cur c' = cur c + Z.of_nat (length specs) /\
    (forall j, (j < length pre)%nat -> event_info c' !! j = event_info c !! j) /\
    forall j e, specs !! j = Some e -> exists old new, event_info c !! (length pre + j)%nat = Some old /\
      event_info c' !! (length pre + j)%nat = Some new /\ entry_is e old new.
Proof.
  induction specs as [|e specs IH]; intros pre post client_name c Hs Hcl Hlen H0 Hcur.
  - exists c. cbn. split_and!; [done..|lia|done|done].
  - apply Forall_cons in Hs as [[He Henc] Hs]. cbn [length] in *.
    destruct (lookup_lt_is_Some_2 (event_info c) (length pre)) as [old Hold]; [lia|].
    destruct (process_event_ok (length pre) e client_name c old He Henc (Hcl e eq_refl) Hold) as [Hok _].
    destruct Hok as (c1 & new & E1 & Ei & Hnew & (Hn1 & Hd1 & Hm1 & Hl1) & Hk1); [lia|].
    cbn [process_events]. change (map event_text (e :: specs)) with (event_text e :: map event_text specs).
    change ((event_text e :: map event_text specs) ++ post) with (event_text e :: (map event_text specs ++ post)).
    rewrite list_lookup_middle by done. rewrite E1. cbn [mbind exc_bind fst snd].
    rewrite cons_middle, app_assoc. replace (S (length pre)) with (length (pre ++ [event_text e])) by (rewrite length_app; cbn; lia).
    destruct (IH (pre ++ [event_text e]) post (client_after client_name e) c1) as (c' & E & (Hn & Hd & Hm & Hl) & Hk & Hpre & Hent).
    + done.
    + intros _ _ _. apply client_after_nonempty; [done|by apply Hcl].
    + rewrite length_app, Hl1. cbn. lia.
    + lia.
    + lia.
    + rewrite length_app in *. cbn in Hpre, Hent. exists c'. split; [exact E|]. split; [by split_and!; try congruence|].
      split; [lia|]. split.
      * intros j Hj. rewrite Hpre by lia. rewrite Ei. apply list_lookup_insert_ne. lia.
      * intros [|j] e' He'; [injection He' as <-|].
        -- exists old, new. rewrite Nat.add_0_r. split; [done|]. rewrite Hpre by lia. rewrite Ei.
           split; [|done]. apply list_lookup_insert_eq. lia.
        -- destruct (Hent j e' He') as (o & n & Ho & Hn' & Hon). rewrite <- Nat.add_assoc in Ho, Hn'. exists o, n.
           split; [|done]. rewrite <- Ho, Ei. symmetry. apply list_lookup_insert_ne. lia.
Qed.

(** There is no room for the metrics of one of the events. *)
Lemma process_events_full specs : forall pre post client_name c,
  Forall (fun e => spec_ok e /\ encodes e) specs ->
  (forall e, head specs = Some e -> es_client e = None -> client_name <> []) ->
  (length pre + length specs <= length (event_info c))%nat ->
  0 <= cur c <= MAX_EVENTS -> MAX_EVENTS < cur c + Z.of_nat (length specs) ->
  process_events (length specs) (length pre) (pre ++ map event_text specs ++ post) client_name c = EXC.
Proof.
  induction specs as [|e specs IH]; intros pre post client_name c Hs Hcl Hlen H0 Hcur; [cbn in *; lia|].
  apply Forall_cons in Hs as [[He Henc] Hs]. cbn [length] in *.
  destruct (lookup_lt_is_Some_2 (event_info c) (length pre)) as [old Hold]; [lia|].
  destruct (process_event_ok (length pre) e client_name c old He Henc (Hcl e eq_refl) Hold) as [Hok Hno].
  cbn [process_events]. change (map event_text (e :: specs)) with (event_text e :: map event_text specs).
  change ((event_text e :: map event_text specs) ++ post) with (event_text e :: (map event_text specs ++ post)).
  rewrite list_lookup_middle by done. destruct (decide (cur c = MAX_EVENTS)) as [Hk|Hk]; [by rewrite Hno|].
  destruct Hok as (c1 & new & E1 & _ & _ & (_ & _ & _ & Hl1) & Hk1); [lia|]. rewrite E1. cbn [mbind exc_bind fst snd].
  rewrite cons_middle, app_assoc. replace (S (length pre)) with (length (pre ++ [event_text e])) by (rewrite length_app; cbn; lia).
  apply IH; [done| |rewrite length_app, Hl1; cbn; lia|lia|lia].
  intros _ _ _. apply client_after_nonempty; [done|by apply Hcl].
Qed.

(** *** The option string *)
Record options := mkOptions { op_events : list event_spec; op_method : option Xml.str; op_decode : option Z }.

Definition method_pieces (o : options) : list Xml.str := match op_method o with Some m => [lit "Method:" ++ m] | None => [] end.
Definition decode_pieces (o : options) : list Xml.str := match op_decode o with Some z => [dec z] | None => [] end.
Definition pieces (o : options) : list Xml.str := map event_text (op_events o) ++ method_pieces o ++ decode_pieces o.

Fixpoint join (l : list Xml.str) : Xml.str :=
  match l with [] => [] | [t] => t | t :: ts => t ++ c_comma :: join ts end.

(** The last event is not taken for one of the settings when those are not given; between
    one and nine events. *)
Record options_ok (o : options) : Prop := {
  opt_events : Forall (fun e => spec_ok e /\ encodes e) (op_events o);
  opt_first : forall e, head (op_events o) = Some e -> es_client e <> None;
  opt_count : (0 < length (op_events o) < 10)%nat;
  opt_method : forall m, op_method o = Some m -> Forall (fun c => c <> c_comma) m;
  opt_decode : forall z, op_decode o = Some z -> 0 <= z < 2 ^ 64;
  opt_last : forall e, last (op_events o) = Some e -> op_method o = None ->
    find (lit "Method:") (event_text e) = None /\ (op_decode o = None -> isNumber (event_text e) = false);
}.

Lemma tokens_join l :
  Forall (fun t => t <> [] /\ Forall (fun c => c ∉ [c_comma]) t) l -> tokens_of [c_comma] (join l) = l.
Proof.
  induction 1 as [|t ts [Hne Ht] Hts IH]; [done|]. destruct ts as [|t' ts].
  - cbn [join]. rewrite <- (app_nil_r t) at 1. by rewrite tokens_token.
  - change (join (t :: t' :: ts)) with (t ++ [c_comma] ++ join (t' :: ts)).
    rewrite tokens_token; [|done|done|cbn; set_solver]. rewrite tokens_skip by (repeat constructor; set_solver). by rewrite IH.
Qed.

Lemma digit_plain c : isdigit c = true -> c <> c_comma.
Proof. destruct c as [[] [] [] [] [] [] [] []]; done. Qed.

Lemma dec_plain z : 0 <= z -> dec z <> [] /\ Forall (fun c => c <> c_comma) (dec z).
Proof.
  intros Hz. destruct (dec_digits z Hz) as (Hd & _ & Hne). split; [done|]. apply Forall_forall. intros c Hc.
  rewrite forallb_forall in Hd. apply digit_plain, Hd. by apply list_elem_of_In.
Qed.

Lemma event_text_plain e : spec_ok e -> event_text e <> [] /\ Forall (fun c => c <> c_comma) (event_text e).
Proof.
  intros [Hc _ [Hne Hn] Hr]. unfold event_text. split.
  - intros E. apply app_nil in E as [_ E]. by apply app_nil in E as [E _].
  - rewrite !Forall_app. split_and!.
    + destruct (es_client e) as [client|]; [|done]. apply Forall_app. split; [|by repeat constructor].
      destruct (Hc client eq_refl) as [_ Hcs]. eapply Forall_impl; [exact Hcs|]. naive_solver.
    + eapply Forall_impl; [exact Hn|]. naive_solver.
    + destruct (es_rate e) as [rate|]; [|done]. apply Forall_app. split; [by repeat constructor|].
      apply dec_plain. pose proof (Hr rate eq_refl). lia.
Qed.

Lemma Argument_pieces o : options_ok o -> Argument (join (pieces o)) = RET (pieces o).
Proof.
  intros [He _ _ Hm Hd _]. unfold Argument, Tokenize. rewrite tokenize_loop_ok by (rewrite drop_0; lia).
  rewrite drop_0, tokens_join; [done|]. unfold pieces. rewrite !Forall_app.
  assert (Hplain : forall t, t <> [] /\ Forall (fun c => c <> c_comma) t -> t <> [] /\ Forall (fun c => c ∉ [c_comma]) t).
  { intros t [? Ht]. split; [done|]. eapply Forall_impl; [exact Ht|]. set_solver. }
  split_and!.
  - apply Forall_map. eapply Forall_impl; [exact He|]. intros e [Hs _]. by apply Hplain, event_text_plain.
  - unfold method_pieces. destruct (op_method o) as [m|]; [|done]. apply Forall_singleton, Hplain. split; [done|].
    apply Forall_app. split; [by repeat constructor|by apply Hm].
  - unfold decode_pieces. destruct (op_decode o) as [z|]; [|done]. apply Forall_singleton, Hplain, dec_plain.
    pose proof (Hd z eq_refl). lia.
Qed.

(** *** Reading the settings from the end *)
Lemma elem_at_end {l : list Xml.str} {t} n : n = Z.of_nat (length l) -> elem_at (l ++ [t]) n = Some t.
Proof.
  intros ->. unfold elem_at. rewrite length_app. cbn. rewrite (proj2 (Z.ltb_lt _ _)) by lia.
  rewrite Nat2Z.id. by rewrite list_lookup_middle.
Qed.
Lemma elem_at_app (l l' : list Xml.str) n t : elem_at l n = Some t -> elem_at (l ++ l') n = Some t.
Proof.
  unfold elem_at. intros E. destruct (Z.ltb_spec n (Z.of_nat (length l))); [|done].
  rewrite length_app, (proj2 (Z.ltb_lt _ _)) by lia. by apply lookup_app_l_Some.
Qed.

Lemma u32_small z : 0 <= z < 2 ^ 32 -> u32 z = z.
Proof. intros Hz. unfold u32. by apply wrap_small. Qed.

Lemma settings_read o c :
  options_ok o ->
  process_event_list (pieces o) c =
    c' ← process_events (length (op_events o)) 0 (pieces o) []
           (mkConfig (event_info c) (Z.of_nat (length (op_events o))) (default (decodeThreshold c) (op_decode o))
              (default (selectedMethod c) (op_method o)) (watermarks_ c));
    RET (true, c').
Proof.
  intros [_ _ Hn _ Hd Hl]. set (n := Z.of_nat (length (op_events o))).
  assert (exists es e, op_events o = es ++ [e]) as (es & e & Ees).
  { destruct (op_events o) as [|e0 es0] using rev_ind; [cbn in Hn; lia|eauto]. }
  assert (Hev : elem_at (map event_text (op_events o)) (n - 1) = Some (event_text e)).
  { rewrite Ees, map_app. apply elem_at_end. subst n. rewrite Ees, length_app, length_map. cbn. lia. }
  assert (Hlast : op_method o = None ->
    find (lit "Method:") (event_text e) = None /\ (op_decode o = None -> isNumber (event_text e) = false)).
  { apply Hl. rewrite Ees. apply last_snoc. }
  assert (Hlen : length (map event_text (op_events o)) = Z.to_nat n) by (rewrite length_map; subst n; lia).
  assert (Hn9 : (n <? MAX_NUM_EVENTS) = true) by (apply Z.ltb_lt; unfold MAX_NUM_EVENTS; lia).
  assert (Hnr : 0 < n < 10) by (subst n; lia).
  assert (Hnn : Z.to_nat n = length (op_events o)) by (subst n; lia).
  unfold process_event_list, pieces, method_pieces, decode_pieces in *.
  destruct (op_method o) as [m|], (op_decode o) as [z|]; rewrite !length_app, Hlen; cbn [length app default].
  - destruct (dec_digits z) as (Hdz & Hvz & Hnez); [pose proof (Hd z eq_refl); lia|].
    rewrite u32_small by lia. change [lit "Method:" ++ m; dec z] with ([lit "Method:" ++ m] ++ [dec z]). rewrite app_assoc.
    rewrite elem_at_end by (rewrite length_app, Hlen; cbn; lia). unfold isNumber. rewrite Hdz.
    unfold read_u64. rewrite bool_decide_false by done. rewrite Hvz. pose proof (Hd z eq_refl). rewrite Z.min_r by lia.
    rewrite u32_small by lia. rewrite (elem_at_app _ _ _ (lit "Method:" ++ m)) by (apply elem_at_end; lia).
    change (lit "Method:" ++ m) with ([] ++ lit "Method:" ++ m). change (lit "Method:") with ("M"%char :: lit "ethod:").
    rewrite find_app by done. cbn [length Nat.add]. replace (Z.of_nat (Z.to_nat n + 2) - 1 - 1) with n by lia.
    rewrite Hn9, Hnn. done.
  - rewrite u32_small by lia. rewrite elem_at_end by lia.
    change (isNumber (lit "Method:" ++ m)) with false. cbn iota.
    rewrite (u32_small (_ - 1 + 1)) by lia. rewrite (u32_small (_ + 1 - 1)) by lia.
    rewrite elem_at_end by lia. change (lit "Method:" ++ m) with ([] ++ lit "Method:" ++ m).
    change (lit "Method:") with ("M"%char :: lit "ethod:"). rewrite find_app by done. cbn [length Nat.add].
    replace (Z.of_nat (Z.to_nat n + 1) - 1 + 1 - 1) with n by lia. rewrite Hn9, Hnn. done.
  - destruct (dec_digits z) as (Hdz & Hvz & Hnez); [pose proof (Hd z eq_refl); lia|]. destruct (Hlast eq_refl) as [Hf _].
    rewrite u32_small by lia. rewrite elem_at_end by lia. unfold isNumber. rewrite Hdz.
    unfold read_u64. rewrite bool_decide_false by done. rewrite Hvz. pose proof (Hd z eq_refl). rewrite Z.min_r by lia.
    rewrite u32_small by lia. rewrite (elem_at_app _ _ _ (event_text e)) by (rewrite <- Hev; f_equal; lia).
    rewrite Hf, u32_small by lia. replace (Z.of_nat (Z.to_nat n + (0 + 1)) - 1 - 1 + 1) with n by lia. rewrite Hn9, Hnn. done.
  - destruct (Hlast eq_refl) as [Hf Hnum]. rewrite app_nil_r, u32_small by lia.
    replace (Z.of_nat (Z.to_nat n + (0 + 0)) - 1) with (n - 1) by lia. rewrite Hev, Hnum by done.
    rewrite (u32_small (n - 1 + 1)) by lia. rewrite (u32_small (_ + 1 - 1)) by lia. replace (n - 1 + 1 - 1) with (n - 1) by lia. rewrite Hev, Hf, u32_small by lia.
    replace (n - 1 + 1) with n by lia. rewrite Hn9, Hnn. done.
Qed.

(** What reading the options [o] makes of the settings [c]. *)
Definition reads (o : options) (c c' : config) : Prop :=
  num_events c' = Z.of_nat (length (op_events o)) /\
  decodeThreshold c' = default (decodeThreshold c) (op_decode o) /\
  selectedMethod c' = default (selectedMethod c) (op_method o) /\
  (forall i e, op_events o !! i = Some e -> exists old new,
    event_info c !! i = Some old /\ event_info c' !! i = Some new /\ entry_is e old new) /\
  cur c' = cur c + num_events c'.

Section events.
Context (o : options) (c : config).
Hypothesis Ho : options_ok o.
Hypothesis Hlen : (length (op_events o) <= length (event_info c))%nat.

Lemma process_options :
  0 <= cur c -> cur c + Z.of_nat (length (op_events o)) <= MAX_EVENTS ->
  exists c', process_event_list (pieces o) c = RET (true, c') /\ reads o c c' /\ length (event_info c') = length (event_info c).
Proof.
  intros H0 Hcur.
  destruct (process_events_ok (op_events o) [] (method_pieces o ++ decode_pieces o) []
    (mkConfig (event_info c) (Z.of_nat (length (op_events o))) (default (decodeThreshold c) (op_decode o))
       (default (selectedMethod c) (op_method o)) (watermarks_ c))) as (c' & E & (Hn & Hd & Hm & Hl) & Hk & _ & Hent);
    [apply Ho|intros e He Hc; by destruct (opt_first o Ho e He)|done..|].
  exists c'. rewrite settings_read by done. unfold pieces. cbn [length app] in E. rewrite E. unfold reads. cbn in *.
  split_and!; [done..|lia|done].
Qed.

Lemma process_options_full :
  0 <= cur c <= MAX_EVENTS -> MAX_EVENTS < cur c + Z.of_nat (length (op_events o)) -> process_event_list (pieces o) c = EXC.
Proof.
  intros H0 Hcur. rewrite settings_read by done.
  pose proof (process_events_full (op_events o) [] (method_pieces o ++ decode_pieces o) []
    (mkConfig (event_info c) (Z.of_nat (length (op_events o))) (default (decodeThreshold c) (op_decode o))
       (default (selectedMethod c) (op_method o)) (watermarks_ c))) as E.
  cbn [length app] in E. unfold pieces. rewrite E; try done; [apply Ho|].
  intros e He Hc. by destruct (opt_first o Ho e He).
Qed.
End events.

(** ** Properties *)

(** C26: Options survive printing and reading: the option string of up to five events, a method and a decode
    threshold, printed with the separators the agent expects, is read back as exactly
    these: [num_events] is the number of the events, each has its name, its threshold (the
    old one if it gives none) and that threshold as its period, and the two settings keep
    their old values when they are not given. There must be room for the metrics of the events. *)
Theorem options_roundtrip (o : options) (c : config) :
  options_ok o -> (length (op_events o) <= length (event_info c))%nat ->
  0 <= cur c -> cur c + Z.of_nat (length (op_events o)) <= MAX_EVENTS ->
  exists l c', Argument (join (pieces o)) = RET l /\ process_event_list l c = RET (true, c') /\ reads o c c'.
Proof.
  intros Ho Hlen H0 Hcur. exists (pieces o). destruct (process_options o c Ho Hlen H0 Hcur) as (c' & E & Hr & _).
  exists c'. split_and!; [by apply Argument_pieces|done..].
Qed.

(** There are metrics for five events in the life of the process: reading options whose events are more
    than the rest of that, although they are fewer than the ten of [MAX_NUM_EVENTS], ends the process in an assertion. The
    count is never taken back, so that this happens to every agent that is attached often enough. *)
Theorem options_limit (o : options) (c : config) :
  options_ok o -> (length (op_events o) <= length (event_info c))%nat ->
  0 <= cur c <= MAX_EVENTS -> MAX_EVENTS < cur c + Z.of_nat (length (op_events o)) ->
  Argument (join (pieces o)) = RET (pieces o) /\ process_event_list (pieces o) c = EXC.
Proof. intros Ho Hlen H0 Hcur. split; [by apply Argument_pieces|by apply process_options_full]. Qed.
End process.

(** ** The options of run_attach.sh *)
Module Demo.
Definition encode (name : Xml.str) (a : perf_event_attr) : option perf_event_attr := Some a.
Definition calls : event_spec := mkSpec (Some (lit "VARIANCE")) (lit "BR_INST_RETIRED.NEAR_CALL") (Some 1000000).
Definition misses : event_spec := mkSpec None (lit "PERF_COUNT_HW_CACHE_L1D:MISS") None.
Definition attach : options := mkOptions [calls; misses] None None.
Definition many : options := mkOptions [calls; misses; misses; misses; misses; misses] (Some (lit "run")) (Some 3).

Example attach_text :
  to_string (join (pieces attach)) = "VARIANCE::BR_INST_RETIRED.NEAR_CALL@1000000,PERF_COUNT_HW_CACHE_L1D:MISS"%string.
Proof. vm_compute. reflexivity. Qed.

Lemma calls_ok : spec_ok calls.
Proof.
  split.
  - intros client [= <-]. split; [done|]. repeat constructor; done.
  - done.
  - split; [done|]. repeat constructor; done.
  - intros rate [= <-]. lia.
Qed.
Lemma misses_ok : spec_ok misses.
Proof. split; [done|done|split; [done|]; repeat constructor; done|done]. Qed.

Lemma encodes_all e : encodes encode e.
Proof. intros a. by exists a. Qed.
Lemma attach_options_ok : options_ok encode attach.
Proof.
  split.
  - apply Forall_cons_2; [split; [apply calls_ok|apply encodes_all]|].
    apply Forall_cons_2; [split; [apply misses_ok|apply encodes_all]|apply Forall_nil_2].
  - by intros e [= <-].
  - cbn. lia.
  - done.
  - done.
  - intros e [= <-] _. vm_compute. done.
Qed.
Lemma many_options_ok : options_ok encode many.
Proof.
  split.
  - apply Forall_cons_2; [split; [apply calls_ok|apply encodes_all]|].
    change (Forall (fun e => spec_ok e /\ encodes encode e) (replicate 5 misses)); apply Forall_replicate. split; [apply misses_ok|apply encodes_all].
  - by intros e [= <-].
  - cbn. lia.
  - intros m [= <-]. repeat constructor; done.
  - intros z [= <-]. lia.
  - done.
Qed.

Lemma options_roundtrip_witness :
  exists l c', Argument (join (pieces attach)) = RET l /\ process_event_list encode None l config0 = RET (true, c') /\
    num_events c' = 2.
Proof.
  destruct (options_roundtrip encode None attach config0 attach_options_ok) as (l & c' & E & Ep & (En & _));
    [cbn; lia|cbn; lia|vm_compute; discriminate|]. exists l, c'. split_and!; [exact E|exact Ep|exact En].
Defined.

Lemma options_limit_witness :
  Argument (join (pieces many)) = RET (pieces many) /\ process_event_list encode None (pieces many) config0 = EXC.
Proof.
  apply (options_limit encode None many config0 many_options_ok); [cbn; lia|split; vm_compute; discriminate|vm_compute; reflexivity].
Defined.

(** A list with nothing but a number is read behind its end. *)
Example number_only : process_event_list encode None [lit "12"] config0 = EXC.
Proof. vm_compute. reflexivity. Qed.
End Demo.
