(* ===== verification/Methods.v ===== *)
(** * Methods: the offline reader's table of methods

    [Method] and [MethodManager] of offlineprocess/pylib/code_cache.py, and [load_method] of
    process_raw_data.py. A method's line tables are kept in the sorted trees of a package,
    which the class [RBTree] stands for. The theorem says that the tables read are those of the
    agent: the offline tools find the line of an address or of a bytecode index
    exactly where the agent's range sets have one.

    [None] is an exception. *)
From stdpp Require Import base numbers list strings pretty gmap sorting.
From Stdlib Require Import ZArith Lia Ascii.
From S2P Require Import Prelude Xml HomoXml Support Metrics ContextTree Config RangeSet CodeCache Report.
Local Open Scope Z_scope.

(** ** Numbers ([str2int])

    [int] of a text, for the forms that are printed: a sign and digits. *)
Definition py_int (s : str) : option Z :=
  let '(neg, s) := sign (strip s) in
  if bool_decide (s <> []) && forallb isdigit s then Some (if neg : bool then - digits 0 s else digits 0 s) else None.
(** [int(s, 16)] of digits. *)
Definition py_int16 (s : str) : option Z :=
  if bool_decide (s <> []) && forallb (fun c => bool_decide (is_Some (hex_val c))) s then Some (hex_prefix s 0) else None.
Definition str2int (s : str) : option Z :=
  if bool_decide (take 2 s = lit "0x") then py_int16 (drop 2 s) else py_int s.

(** ** The trees of the package bintrees

    A tree is a finite map, [rb_items], from keys to pairs of an end and a text. An operation that raises
    [KeyError] is [None]. *)
Class RBTree (T : Type) := {
  rb_empty : T;
  is_empty : T -> bool;
  rb_insert : Z -> Z * str -> T -> T;
  min_item : T -> option (Z * (Z * str));
  max_item : T -> option (Z * (Z * str));
  floor_item : Z -> T -> option (Z * (Z * str));
  ceiling_item : Z -> T -> option (Z * (Z * str));
}.

(** What its documentation promises. *)
Class RBTreeLaws (T : Type) `{RBTree T} := {
  rb_items : T -> gmap Z (Z * str);
  items_empty : rb_items rb_empty = ∅;
  items_insert k v t : rb_items (rb_insert k v t) = <[k := v]> (rb_items t);
  is_empty_spec t : is_empty t = bool_decide (rb_items t = ∅);
  min_spec t k : is_Some (rb_items t !! k) -> exists k' v, min_item t = Some (k', v) /\ rb_items t !! k' = Some v /\ k' <= k;
  max_spec t k : is_Some (rb_items t !! k) -> exists k' v, max_item t = Some (k', v) /\ rb_items t !! k' = Some v /\ k <= k';
  floor_spec t p k : is_Some (rb_items t !! k) -> k <= p ->
    exists k' v, floor_item p t = Some (k', v) /\ rb_items t !! k' = Some v /\ k <= k' <= p;
  ceiling_spec t p k : is_Some (rb_items t !! k) -> p <= k ->
    exists k' v, ceiling_item p t = Some (k', v) /\ rb_items t !! k' = Some v /\ p <= k' <= k;
}.

Section methods.
Context {T : Type} `{RBTree T}.

(** ** [Method] *)
Record PyMethod := mkPyMethod {
  pm_id : str;
  pm_version : str;
  pm_file : str;
  pm_start_addr : str;
  pm_code_size : str;
  pm_name : str;
  pm_class : str;
  addr2line_tree : T;
  bci2line_tree : T;
}.

Definition isOverlap (tree : T) (start end_ : Z) : option bool :=
  if is_empty tree then Some false else
  '(min_start, _) ← min_item tree;
  if end_ <? min_start then Some false else
  if start <=? min_start then Some true else
  '(_, (left_end, _)) ← floor_item start tree;
  if start <=? left_end then Some true else
  '(max_start, (max_end, _)) ← max_item tree;
  if max_end <? start then Some false else
  if max_start <=? end_ then Some true else
  '(right_start, _) ← ceiling_item start tree;
  Some (right_start <=? end_).

Definition addRangeToTree (tree : T) (start end_ data : str) : option T :=
  start ← str2int start; end_ ← str2int end_;
  overlap ← isOverlap tree start end_;
  if overlap : bool then None else Some (rb_insert start (end_, data) tree).

(** Its last component: the text of the range that [proxy_key] is in. *)
Definition queryTree (tree : T) (proxy_key : Z) : option (option str) :=
  if is_empty tree then Some None else
  '(min_key, _) ← min_item tree;
  if proxy_key <? min_key then Some None else
  '(_, (left_end, data)) ← floor_item proxy_key tree;
  Some (if proxy_key <=? left_end then Some data else None).

Definition py_addr2line (addr : str) (m : PyMethod) : option (option str) :=
  addr ← str2int addr; queryTree (addr2line_tree m) addr.
Definition py_bci2line (bci : str) (m : PyMethod) : option (option str) :=
  bci ← str2int bci; queryTree (bci2line_tree m) bci.

(** ** [load_method] *)

(** The two tables among the children of a method, of which there is at most one each. *)
Fixpoint find_tables (cs : list PyObj) (addr2line_xml bci2line_xml : option PyObj)
  : option (option PyObj * option PyObj) :=
  match cs with
  | [] => Some (addr2line_xml, bci2line_xml)
  | c :: cs =>
      if bool_decide (py_name c = lit "addr2line") then
        match addr2line_xml with Some _ => None | None => find_tables cs (Some c) bci2line_xml end
      else if bool_decide (py_name c = lit "bci2line") then
        match bci2line_xml with Some _ => None | None => find_tables cs addr2line_xml (Some c) end
      else find_tables cs addr2line_xml bci2line_xml
  end.

(** The loop over the ranges of a table. *)
Fixpoint add_range_list (rs : list PyObj) (tree : T) : option T :=
  match rs with
  | [] => Some tree
  | range_xml :: rs =>
      if bool_decide (py_name range_xml = lit "range") then
        start ← py_attr "start" range_xml; end_ ← py_attr "end" range_xml; lineno ← py_attr "data" range_xml;
        tree ← addRangeToTree tree start end_ lineno;
        add_range_list rs tree
      else None
  end.

Definition load_table (table : option PyObj) : option T :=
  match table with Some x => add_range_list (py_children x) rb_empty | None => Some rb_empty end.

(** One turn of its loop, up to [addMethod]. *)
Definition load_one (m_xml : PyObj) : option PyMethod :=
  id ← py_attr "id" m_xml; version ← py_attr "version" m_xml;
  file ← py_attr "file" m_xml; start_addr ← py_attr "start_addr" m_xml; code_size ← py_attr "code_size" m_xml;
  name ← py_attr "name" m_xml; class_name ← py_attr "class" m_xml;
  '(a, b) ← find_tables (py_children m_xml) None None;
  a ← load_table a; b ← load_table b;
  Some (mkPyMethod id version file start_addr code_size name class_name a b).

(** ** [MethodManager] *)
Definition c_hash : ascii := "#"%char.
Definition method_key (id version : str) : str := id ++ [c_hash] ++ version.

(** The first method with a key stays. *)
Definition manager_addMethod (m : PyMethod) (d : gmap str PyMethod) : gmap str PyMethod :=
  let key := method_key (pm_id m) (pm_version m) in
  match d !! key with Some _ => d | None => <[key := m]> d end.

Fixpoint load_method (ms : list PyObj) (d : gmap str PyMethod) : option (gmap str PyMethod) :=
  match ms with
  | [] => Some d
  | m_xml :: ms => m ← load_one m_xml; load_method ms (manager_addMethod m d)
  end.

(** The copy that [getMethod] makes for code without a version. *)
Definition interpreted_copy (m : PyMethod) : PyMethod :=
  mkPyMethod (pm_id m) (lit "0") (pm_file m) (lit "0") (lit "0") (pm_name m) (pm_class m) rb_empty (bci2line_tree m).

Definition manager_getMethod (id version : str) (d : gmap str PyMethod) : option PyMethod * gmap str PyMethod :=
  match d !! method_key id version with
  | Some m => (Some m, d)
  | None =>
      if bool_decide (version <> lit "0") then (None, d)
      else
        match d !! method_key id (lit "1") with
        | None => (None, d)
        | Some candidate_method =>
            let new_method := interpreted_copy candidate_method in (Some new_method, manager_addMethod new_method d)
        end
  end.
End methods.
Arguments PyMethod : clear implicits.

(** ** Numbers *)
Lemma strip_keep c s d : is_space c = false -> is_space d = false -> strip (c :: s ++ [d]) = c :: s ++ [d].
Proof.
  intros Hc Hd. unfold strip. cbn [lstrip]. rewrite Hc. change (c :: s ++ [d]) with ((c :: s) ++ d :: []).
  by rewrite rstrip_keep.
Qed.

Lemma strip_plain s : forallb (fun c => negb (is_space c)) s = true -> strip s = s.
Proof.
  destruct s as [|c s]; [done|]. destruct (decide (s = [])) as [->|Hne].
  - cbn. rewrite andb_true_r, negb_true_iff. intros Hc. unfold strip. cbn. rewrite Hc. unfold rstrip. cbn. by rewrite Hc.
  - destruct (exists_last Hne) as (s' & d & ->). cbn. rewrite forallb_app. cbn.
    intros [Hc%negb_true_iff [_ [Hd%negb_true_iff _]%andb_prop]%andb_prop]%andb_prop. by apply strip_keep.
Qed.

Lemma py_int_digits (neg : bool) s : s <> [] -> forallb isdigit s = true ->
  py_int ((if neg then ["-"%char] else []) ++ s) = Some (if neg then - digits 0 s else digits 0 s).
Proof.
  intros Hne Hd. unfold py_int. rewrite strip_plain.
  - assert (sign ((if neg then ["-"%char] else []) ++ s) = (neg, s)) as ->.
    { destruct neg; [done|]. destruct s as [|c s]; [done|]. cbn in Hd. apply andb_prop in Hd as [Hc _].
      destruct (digit_char c Hc) as (_ & H1 & H2). cbn. by rewrite !bool_decide_false. }
    rewrite bool_decide_true by done. by rewrite Hd.
  - rewrite forallb_app. replace (forallb _ (if neg then _ else _)) with true by (by destruct neg). cbn [andb].
    rewrite forallb_forall in Hd |- *. intros c Hc%Hd. by destruct (digit_char c Hc) as (-> & _).
Qed.

Lemma show_int_split z : exists neg s, show_int z = (if neg : bool then ["-"%char] else []) ++ s /\ s <> [] /\ forallb isdigit s = true /\
  z = if neg then - digits 0 s else digits 0 s.
Proof.
  destruct (Z.leb_spec 0 z) as [Hz|Hz].
  - destruct (dec_digits z Hz) as (Hd & Hv & Hne). exists false, (dec z). by split_and!.
  - destruct (dec_digits (- z)) as (Hd & Hv & Hne); [lia|]. exists true, (dec (- z)). split_and!; [|done..|lia].
    destruct z as [|p|p]; [lia..|]. done.
Qed.

Lemma py_int_show z : py_int (show_int z) = Some z.
Proof. destruct (show_int_split z) as (neg & s & -> & Hne & Hd & ->). by apply py_int_digits. Qed.

Lemma str2int_show z : str2int (show_int z) = Some z.
Proof.
  unfold str2int. rewrite bool_decide_false; [apply py_int_show|]. destruct (show_int_split z) as (neg & s & -> & Hne & Hd & _).
  intros E. destruct neg; [discriminate E|]. destruct s as [|c [|d s]]; [done|discriminate E|].
  cbn in E. injection E as -> ->. discriminate Hd.
Qed.

(** ** The trees *)
Section trees.
Context {T : Type} `{RBTreeLaws T}.

(** Every range of the tree is in order and ends before [s]. *)
Definition below (s : Z) (tree : T) : Prop := forall k e d, rb_items tree !! k = Some (e, d) -> k <= e < s.

Lemma not_empty tree : is_empty tree = false -> exists k, is_Some (rb_items tree !! k).
Proof.
  rewrite is_empty_spec. intros (k & v & Hk)%bool_decide_eq_false%map_choose. exists k. by exists v.
Qed.

Lemma isOverlap_below tree s e : below s tree -> s <= e -> isOverlap tree s e = Some false.
Proof.
  intros Hb He. unfold isOverlap. destruct (is_empty tree) eqn:Em; [done|].
  destruct (not_empty tree Em) as [k Hk].
  destruct (min_spec tree k Hk) as (k1 & [e1 d1] & -> & Hk1 & _). cbn [mbind option_bind]. pose proof (Hb _ _ _ Hk1).
  rewrite (proj2 (Z.ltb_ge _ _)), (proj2 (Z.leb_gt _ _)) by lia.
  destruct (floor_spec tree s k1) as (k2 & [e2 d2] & -> & Hk2 & _); [by eexists|lia|]. cbn [mbind option_bind]. pose proof (Hb _ _ _ Hk2).
  rewrite (proj2 (Z.leb_gt _ _)) by lia.
  destruct (max_spec tree k Hk) as (k3 & [e3 d3] & -> & Hk3 & _). cbn [mbind option_bind]. pose proof (Hb _ _ _ Hk3).
  by rewrite (proj2 (Z.ltb_lt _ _)) by lia.
Qed.

(** The tree of the ranges [l]. *)
Definition table_of (l : list (RangeSet.Range Z)) (tree : T) : Prop :=
  forall k e d, rb_items tree !! k = Some (e, d) <-> exists r, r ∈ l /\ k = start r /\ e = end_ r /\ d = show_int (data r).

Definition ordered (l : list (RangeSet.Range Z)) : Prop :=
  StronglySorted (fun a b => end_ a < start b) l /\ Forall (fun r => start r <= end_ r) l.

(** The reader's object of a range. *)
Definition reads_range (r : RangeSet.Range Z) (o : PyObj) : Prop :=
  py_name o = lit "range" /\ py_attr "start" o = Some (show_int (start r)) /\
  py_attr "end" o = Some (show_int (end_ r)) /\ py_attr "data" o = Some (show_int (data r)).

Lemma add_range_list_ok rs os : Forall2 reads_range rs os -> forall pre tree,
  table_of pre tree -> ordered (pre ++ rs) ->
  exists tree', add_range_list os tree = Some tree' /\ table_of (pre ++ rs) tree'.
Proof.
  induction 1 as [|r o rs os (Hn & Es & Ee & Ed) _ IH]; intros pre tree Ht [Hs Hf]; [exists tree; by rewrite app_nil_r|].
  cbn [add_range_list]. rewrite bool_decide_true, Es, Ee, Ed by done. cbn [mbind option_bind].
  unfold addRangeToTree. rewrite !str2int_show. cbn [mbind option_bind].
  pose proof Hf as Hfall. apply Forall_app in Hf as [Hf1 Hf2]. apply Forall_cons in Hf2 as [Hr _]. rewrite Forall_forall in Hf1.
  assert (Hbefore : forall x, x ∈ pre -> end_ x < start r) by (intros x Hx; apply (StronglySorted_app_1_elem_of _ pre (r :: rs) x r Hs Hx); by left).
  rewrite isOverlap_below; [|intros k e d (x & Hx & -> & -> & _)%Ht; split; [by apply Hf1|by apply Hbefore]|done].
  cbn [mbind option_bind]. rewrite cons_middle, app_assoc in *. apply IH.
  - intros k e d. rewrite items_insert. setoid_rewrite elem_of_app. setoid_rewrite list_elem_of_singleton.
    destruct (decide (k = start r)) as [->|Hk].
    + rewrite lookup_insert_eq. split; [intros [= <- <-]; exists r; auto|].
      intros (x & [Hx| ->] & E & -> & ->); [|done]. specialize (Hbefore x Hx). pose proof (Hf1 x Hx). lia.
    + rewrite lookup_insert_ne by done. rewrite (Ht k e d). split; [intros (x & ? & ?); eauto|].
      intros (x & [Hx| ->] & Ek & Ex); [by exists x|by destruct Hk].
  - by split.
Qed.

Lemma ordered_set (m : list (Z * RangeSet.Range Z)) : disjoint_set m -> ordered (getAllRanges m).
Proof.
  intros [Hs Hok]. unfold getAllRanges. split.
  - induction Hs as [|a m Hs IH Ha]; [constructor|]. apply Forall_cons in Hok as [Hao Hok]. cbn. constructor; [by apply IH|].
    apply Forall_map. rewrite Forall_forall in Ha, Hok |- *. intros b Hb. specialize (Ha b Hb). destruct (Hok b Hb). unfold apart in Ha. lia.
  - apply Forall_map. eapply Forall_impl; [exact Hok|]. by intros a [].
Qed.

(** A query of the tree of a range set is a query of the set. *)
Lemma queryTree_ok (m : list (Z * RangeSet.Range Z)) tree p :
  disjoint_set m -> table_of (getAllRanges m) tree -> queryTree tree p = Some (show_int <$> getData p m).
Proof.
  intros Hd Ht. pose proof Hd as [_ Hok]. rewrite Forall_forall in Hok.
  assert (Hin : forall k e d, rb_items tree !! k = Some (e, d) <-> exists r, (k, r) ∈ m /\ k = start r /\ e = end_ r /\ d = show_int (data r)).
  { intros k e d. rewrite (Ht k e d). unfold getAllRanges. split.
    - intros (r & ([k' r'] & -> & Hr)%list_elem_of_fmap & -> & -> & ->). cbn. exists r'. split_and!; try done.
      destruct (Hok _ Hr) as [E _]. cbn in E. by rewrite <- E.
    - intros (r & Hr & -> & -> & ->). exists r. split_and!; try done. apply list_elem_of_fmap. by exists (start r, r). }
  assert (Hnone : (forall k e d, rb_items tree !! k = Some (e, d) -> p < k \/ e < p) -> getData p m = None).
  { intros Hn. unfold getData. rewrite getRange_None; [done|done|]. intros [k r] Hr [Hc1 Hc2]. cbn in Hc1, Hc2.
    destruct (Hok _ Hr) as [E _]. cbn in E. subst k. destruct (Hn (start r) (end_ r) (show_int (data r))); [|lia..]. apply Hin. by exists r. }
  unfold queryTree. destruct (is_empty tree) eqn:Em.
  { rewrite Hnone; [done|]. intros k e d Hk. rewrite is_empty_spec in Em. apply bool_decide_eq_true in Em. by rewrite Em, lookup_empty in Hk. }
  destruct (not_empty tree Em) as [k Hk]. destruct (min_spec tree k Hk) as (k1 & [e1 d1] & Emin & Hk1 & _). rewrite Emin. cbn [mbind option_bind].
  destruct (Z.ltb_spec p k1) as [Hlt|Hge].
  - rewrite Hnone; [done|]. intros k' e' d' Hk'. left. destruct (min_spec tree k') as (k2 & v2 & E & Hk2 & Hle); [by eexists|].
    assert (k2 = k1) by congruence. lia.
  - destruct (floor_spec tree p k1) as (k2 & [e2 d2] & Efl & Hk2 & Hle); [by eexists|lia|]. rewrite Efl. cbn [mbind option_bind].
    apply Hin in Hk2 as Hr. destruct Hr as (r & Hr & -> & -> & ->). destruct (Z.leb_spec p (end_ r)) as [Hp|Hp].
    + unfold getData. rewrite (proj2 (getRange_disjoint p m r Hd)); [done|]. split; [done|]. split; lia.
    + rewrite Hnone; [done|]. intros k' e' d' Hk'. destruct (Z.ltb_spec p k') as [|Hkp]; [by left|right].
      destruct (floor_spec tree p k') as (k4 & [e4 d4] & E4 & Hk4 & Hle4); [by eexists|done|].
      apply Hin in Hk4 as (r4 & Hr4 & -> & -> & ->). apply Hin in Hk' as (r' & Hr' & -> & -> & ->).
      assert (Es : start r4 = start r) by congruence. destruct (Z.le_gt_cases p (end_ r')) as [Hle'|]; [|lia].
      pose proof (disjoint_covers m (start r', r') (start r, r) p Hd Hr' Hr) as Hc. cbn in Hc. unfold covers in Hc.
      assert (start r' = start r) by lia. assert (r' = r); [|subst; lia].
      pose proof (getRange_start (start r) m Hd (start r', r') Hr' ltac:(done)) as E1.
      pose proof (getRange_start (start r) m Hd (start r, r) Hr eq_refl) as E2. cbn in E1, E2. congruence.
Qed.
End trees.

(** ** The objects of the agent *)
Definition lines_ok (m : list (Z * RangeSet.Range Z)) : Prop := disjoint_set m /\ Z.of_nat (length m) < 2 ^ 32.

(** The reader's object of a table, which is left out when the set is empty. *)
Definition table_at (tag : string) (m : list (Z * RangeSet.Range Z)) (x : option PyObj) : Prop :=
  match x with
  | None => m = []
  | Some o => py_name o = lit tag /\ Forall2 reads_range (getAllRanges m) (py_children o)
  end.

Lemma range_children_read l : forall i o,
  Z.of_nat (i + length l) < 2 ^ 32 -> keys_below i o ->
  exists rs, py_children (reading (range_children (Z.of_nat i) l o)) = py_children (reading o) ++ rs /\
    py_name (reading (range_children (Z.of_nat i) l o)) = py_name (reading o) /\ Forall2 reads_range l rs.
Proof.
  induction l as [|e l IH]; intros i o Hi Hk; cbn [range_children]; [exists []; by rewrite app_nil_r|]. cbn [length] in Hi.
  unfold range_child. set (cc := SET_ATTR _ "data" _). destruct (addChild_below i cc o) as (Hk' & Ec & En); [lia|done|].
  replace (Z.of_nat i + 1) with (Z.of_nat (S i)) by lia.
  destruct (IH (S i) (XMLObj_addChild (Z.of_nat i) cc o)) as (rs & E & En' & Hrs); [lia|done|].
  exists (reading cc :: rs). rewrite E, En', Ec, En, <- app_assoc. split_and!; [done..|]. constructor; [|done].
  unfold reads_range. subst cc. rewrite !py_attr_set. by split_and!.
Qed.

Lemma add_ranges_read tag i m o :
  Z.of_nat i < 2 ^ 32 -> Z.of_nat (length m) < 2 ^ 32 -> keys_below i o ->
  keys_below (S i) (add_ranges tag (Z.of_nat i) m o) /\
  exists x, table_at tag m x /\
    py_children (reading (add_ranges tag (Z.of_nat i) m o)) = py_children (reading o) ++ option_list x.
Proof.
  intros Hi Hm Hk. unfold add_ranges, isEmpty. case_bool_decide as Em; cbn [negb].
  - split; [destruct o; eapply Forall_impl; [exact Hk|]; cbn; lia|]. exists None. cbn. by rewrite app_nil_r.
  - destruct (range_children_read (getAllRanges m) 0 (XMLObj_new (lit tag))) as (rs & E & En & Hrs).
    { unfold getAllRanges. rewrite length_map. cbn. lia. }
    { apply Forall_nil_2. }
    change (Z.of_nat 0) with 0 in E, En. set (c := range_children 0 _ _) in *.
    destruct (addChild_below i c o Hi Hk) as (Hk' & Ec & _). split; [done|]. exists (Some (reading c)).
    split; [|done]. split; [by rewrite En|]. by rewrite E.
Qed.

Lemma py_attr_ranges key tag id m o : py_attr key (reading (add_ranges tag id m o)) = py_attr key (reading o).
Proof. unfold add_ranges. case_match; [apply py_attr_child|done]. Qed.

Lemma find_tables_ok a b A B :
  table_at "addr2line" A a -> table_at "bci2line" B b ->
  find_tables (option_list a ++ option_list b) None None = Some (a, b).
Proof.
  intros Ha Hb. destruct a as [a|]; destruct b as [b|]; cbn; try destruct Ha as [-> _]; try destruct Hb as [-> _]; done.
Qed.

Section read.
Context {T : Type} `{RBTreeLaws T}.

Lemma load_table_ok tag m x : disjoint_set m -> table_at tag m x ->
  exists tree : T, load_table x = Some tree /\ table_of (getAllRanges m) tree.
Proof.
  assert (He : table_of [] (rb_empty : T)).
  { intros k e d. rewrite items_empty, lookup_empty. split; [done|]. by intros (r & ?%not_elem_of_nil & _). }
  intros Hd Hx. destruct x as [o|]; [|cbn in Hx; subst m; by exists rb_empty].
  destruct Hx as [_ Hr]. apply (add_range_list_ok _ _ Hr [] rb_empty He). by apply ordered_set.
Qed.

(** What is known of a method that was read: its names, and its lines. *)
Definition reads_method (id version : str) (m : Method) (A : list (Z * RangeSet.Range Z)) (p : PyMethod T) : Prop :=
  pm_id p = id /\ pm_version p = version /\ pm_name p = lit (m_name m) /\ pm_file p = lit (m_src_file m) /\
  pm_class p = lit (m_class_name m) /\
  (forall a, py_addr2line (show_int a) p = Some (show_int <$> getData a A)) /\
  (forall i, py_bci2line (show_int i) p = Some (show_int <$> getData i (bci2line_rangeset m))).

Lemma load_one_ok id version size start m A B o :
  (forall key, py_attr key o = py_attr key (reading (method_attrs id version size start m))) ->
  (exists a b, py_children o = option_list a ++ option_list b /\ table_at "addr2line" A a /\ table_at "bci2line" B b) ->
  disjoint_set A -> disjoint_set B -> B = bci2line_rangeset m ->
  exists p, load_one o = Some p /\ reads_method id version m A p.
Proof.
  intros Ho (a & b & Ec & Ha & Hb) HA HB ->. unfold load_one. rewrite !Ho. unfold method_attrs. rewrite !py_attr_set.
  repeat (rewrite decide_False by done). rewrite !decide_True by done. cbn [mbind option_bind].
  rewrite Ec, (find_tables_ok a b A _ Ha Hb). cbn [mbind option_bind].
  destruct (load_table_ok _ A a HA Ha) as (ta & -> & Hta). destruct (load_table_ok _ _ b HB Hb) as (tb & -> & Htb).
  cbn [mbind option_bind]. eexists. split; [done|]. unfold reads_method, py_addr2line, py_bci2line. cbn. split_and!; try done.
  - intros x. rewrite str2int_show. cbn. by apply queryTree_ok.
  - intros x. rewrite str2int_show. cbn. by apply queryTree_ok.
Qed.

Lemma load_one_compiled c : lines_ok (addr2line_rangeset c) -> lines_ok (bci2line_rangeset (cm_method c)) ->
  exists p, load_one (reading (createXMLObj_compiled c)) = Some p /\
    reads_method (show_ptr (m_id (cm_method c))) (show_int (cm_version c)) (cm_method c) (addr2line_rangeset c) p.
Proof.
  intros [HA Hla] [HB Hlb]. unfold createXMLObj_compiled. set (obj := method_attrs _ _ _ _ _).
  destruct (add_ranges_read "addr2line" 1 (addr2line_rangeset c) obj) as (Hk & a & Ha & Ea); [done|done|apply Forall_nil_2|].
  destruct (add_ranges_read "bci2line" 2 (bci2line_rangeset (cm_method c)) _ ltac:(done) Hlb Hk) as (_ & b & Hb & Eb).
  eapply load_one_ok; [intros key; by rewrite !py_attr_ranges| |done..]. exists a, b. split_and!; [|done..].
  change (Z.of_nat 1) with 1 in *. change (Z.of_nat 2) with 2 in *. rewrite Eb, Ea. done.
Qed.

Lemma load_one_interpret m : lines_ok (bci2line_rangeset m) ->
  exists p, load_one (reading (createXMLObj_interpret m)) = Some p /\
    reads_method (show_ptr (m_id m)) (show_int 0) m [] p.
Proof.
  intros [HB Hlb]. unfold createXMLObj_interpret. set (obj := method_attrs _ _ _ _ _).
  destruct (add_ranges_read "bci2line" 2 (bci2line_rangeset m) obj) as (_ & b & Hb & Eb); [done|done|apply Forall_nil_2|].
  eapply load_one_ok; [intros key; by rewrite !py_attr_ranges| |by repeat constructor|done|done]. exists None, b.
  split_and!; [exact Eb|done|done].
Qed.
End read.

(** ** Files of methods *)
Record plain_method (m : Method) : Prop := {
  plain_name : value_ok (lit (m_name m));
  plain_file : value_ok (lit (m_src_file m));
  plain_class : value_ok (lit (m_class_name m));
}.

Create HintDb report.
#[export] Hint Resolve SET_ATTR_ok XMLObj_addChild_ok XMLObj_new_ok show_int_value show_ptr_value : report.
#[export] Hint Extern 1 (name_ok _) => done : report.
#[export] Hint Resolve new_level addAttr_level addChild_level new_none addAttr_none addChild_none : report.
#[export] Hint Extern 1 (_ <> _) => done : report.

Lemma range_children_ok l : forall i o,
  xml_ok o /\ none_named (lit "method") o -> xml_ok (range_children i l o) /\ none_named (lit "method") (range_children i l o).
Proof.
  induction l as [|e l IH]; intros i o [Ho Hn]; cbn [range_children]; [done|]. apply IH. unfold range_child.
  split; [auto 20 with report|]. unfold SET_ATTR. auto 20 with report.
Qed.

Lemma add_ranges_ok tag id m o :
  name_ok (lit tag) -> lit tag <> lit "method" -> node_ok (lit "method") o -> node_ok (lit "method") (add_ranges tag id m o).
Proof.
  intros Ht Hne [Ho Hl]. unfold add_ranges. case_match; [|done].
  destruct (range_children_ok (getAllRanges m) 0 (XMLObj_new (lit tag))) as [Hx Hn]; [auto with report|].
  split; auto with report.
Qed.

Lemma method_attrs_ok id version size start m :
  value_ok id -> value_ok version -> value_ok size -> value_ok start -> plain_method m ->
  node_ok (lit "method") (method_attrs id version size start m).
Proof.
  intros Hi Hv Hs Hst [? ? ?]. unfold method_attrs. split; [auto 20 with report|unfold SET_ATTR; auto 20 with report].
Qed.

Lemma createXMLObj_compiled_ok c : plain_method (cm_method c) -> node_ok (lit "method") (createXMLObj_compiled c).
Proof. intros Hm. unfold createXMLObj_compiled. repeat (apply add_ranges_ok; [done..|]). apply method_attrs_ok; auto with report. Qed.

Lemma createXMLObj_interpret_ok m : plain_method m -> node_ok (lit "method") (createXMLObj_interpret m).
Proof. intros Hm. unfold createXMLObj_interpret. apply add_ranges_ok; [done..|]. apply method_attrs_ok; auto with report. Qed.

(** Keys tell the texts of ids apart. *)
Lemma hex_digit_hash z : hex_digit (z mod 16) <> c_hash.
Proof.
  intros E. pose proof (Z.mod_pos_bound z 16 eq_refl) as Hz.
  assert (Hall : forallb (fun k => negb (bool_decide (hex_digit (Z.of_nat k) = c_hash))) (List.seq 0 16) = true) by reflexivity.
  rewrite forallb_forall in Hall. specialize (Hall (Z.to_nat (z mod 16))). rewrite Z2Nat.id in Hall by lia.
  rewrite E in Hall. discriminate Hall. apply in_seq. lia.
Qed.

Lemma show_hex_hash fuel : forall z acc, Forall (fun c => c <> c_hash) acc -> Forall (fun c => c <> c_hash) (show_hex fuel z acc).
Proof.
  induction fuel as [|fuel IH]; intros z acc Ha; [done|]. cbn. pose proof (hex_digit_hash z).
  case_match; [by constructor|]. apply IH. by constructor.
Qed.

Lemma method_key_ptr p q v w : method_key (show_ptr p) v = method_key (show_ptr q) w -> show_ptr p = show_ptr q.
Proof.
  assert (Hh : forall x, Forall (fun c => c <> c_hash) (show_ptr x)).
  { intros x. unfold show_ptr. case_match; [by repeat constructor|]. apply Forall_app. split; [by repeat constructor|].
    by apply show_hex_hash. }
  unfold method_key. cbn [app]. intros E%(f_equal (until c_hash)). rewrite !until_app in E by done. by injection E.
Qed.

Section file.
Context {T : Type} `{RBTreeLaws T}.
(** Which methods the agent knows by an id. *)
Variable known : Z -> Method -> Prop.

(** The reader's object is one of the method [id] in the version [v]. *)
Definition entry_read (id v : Z) (x : PyObj) : Prop :=
  exists (p : PyMethod T) m A, known id m /\ load_one x = Some p /\
    reads_method (show_ptr id) (show_int v) m A p.

(** What was found is a method with this id's text: its names, and its lines by bytecode index. *)
Definition is_method (id : Z) (p : PyMethod T) : Prop :=
  exists id' m, show_ptr id' = show_ptr id /\ known id' m /\
    pm_name p = lit (m_name m) /\ pm_file p = lit (m_src_file m) /\ pm_class p = lit (m_class_name m) /\
    forall i, py_bci2line (show_int i) p = Some (show_int <$> getData i (bci2line_rangeset m)).

Lemma load_method_ok (xs : list PyObj) : forall d,
  Forall (fun x => exists id v, entry_read id v x) xs ->
  exists d' : gmap str (PyMethod T), load_method xs d = Some d' /\ (forall k, is_Some (d !! k) -> d' !! k = d !! k) /\
    (forall x id v, x ∈ xs -> entry_read id v x -> is_Some (d' !! method_key (show_ptr id) (show_int v))) /\
    (forall k p, d' !! k = Some p -> d !! k = Some p \/ exists x, x ∈ xs /\ load_one x = Some p /\ k = method_key (pm_id p) (pm_version p)).
Proof.
  induction xs as [|x xs IH]; intros d Hxs.
  - exists d. split_and!; [done..|by intros x id v ?%not_elem_of_nil|by left].
  - apply Forall_cons in Hxs as [(id & v & p & m & A & Em & E & Hr) Hxs]. cbn [load_method]. rewrite E. cbn [mbind option_bind].
    set (k := method_key (show_ptr id) (show_int v)). destruct Hr as (Hi & Hv & _).
    destruct (IH (manager_addMethod p d) Hxs) as (d' & E' & Hkeep & Hall & Hfrom). exists d'. split; [done|].
    unfold manager_addMethod in Hkeep, Hfrom. rewrite Hi, Hv in Hkeep, Hfrom. fold k in Hkeep, Hfrom.
    assert (Hk : is_Some (d' !! k)).
    { destruct (d !! k) eqn:Ed; rewrite Hkeep; rewrite ?Ed, ?lookup_insert_eq; by eexists. }
    split_and!.
    + intros j Hj. rewrite Hkeep; (destruct (d !! k) eqn:Ed; [done|]); (rewrite lookup_insert_ne; [done|]);
        intros ->; rewrite Ed in Hj; by destruct Hj.
    + intros y i u [->|Hy]%elem_of_cons Hyr; [|by eapply Hall]. destruct Hyr as (p2 & m2 & A2 & _ & E2 & Hi2 & Hv2 & _).
      assert (p2 = p) as -> by congruence. by rewrite <- Hi2, <- Hv2, Hi, Hv.
    + intros j q [Hq|(y & Hy & Hq)]%Hfrom; [|right; exists y; split; [by right|done]].
      destruct (d !! k) eqn:Ed; [by left|]. apply lookup_insert_Some in Hq as [[<- <-]|[_ Hq]]; [|by left].
      right. exists x. split_and!; [by left|done|]. by rewrite Hi, Hv.
Qed.

(** Any entry of the table under a key of [id] is a method with this id's text. *)
Lemma loaded_method (xs : list PyObj) (d : gmap str (PyMethod T)) (id : Z) (v : str) (p : PyMethod T) :
  Forall (fun x => exists id v, entry_read id v x) xs -> load_method xs ∅ = Some d ->
  d !! method_key (show_ptr id) v = Some p -> is_method id p.
Proof.
  intros Hxs E Hp. destruct (load_method_ok xs ∅ Hxs) as (d' & E' & _ & _ & Hfrom).
  rewrite E in E'. injection E' as <-. apply Hfrom in Hp as [Hp|(x & Hx & Ex & Ek)]; [by rewrite lookup_empty in Hp|].
  rewrite Forall_forall in Hxs. destruct (Hxs x Hx) as (i & u & p' & m & A & Em & Ex' & Hi & Hv & Hn & Hf & Hc & _ & Hb).
  assert (p' = p) as -> by congruence. exists i, m. split_and!; [|done..].
  rewrite Hi in Ek. by apply method_key_ptr in Ek.
Qed.

Lemma copy_method id p : is_method id p -> is_method id (interpreted_copy p).
Proof. done. Qed.
End file.

(** C24: The methods that the agent writes are read back: from a file of compiled methods whose
    texts need no escaping, whose ranges of lines are disjoint, and whose keys differ, the
    offline tools make a table in which every method is found by its id and its version, with
    its names, and with a line for exactly those addresses and bytecode indices for which
    the agent's range sets have one, namely that line. *)
Theorem methods_roundtrip {T : Type} `{RBTreeLaws T} (order : gmap str str -> list (str * str))
    (arrive : list PyObj -> list PyObj) (cs : list CompiledMethod) :
  (forall m, order m ≡ₚ map_to_list m) -> (forall l, arrive l ≡ₚ l) ->
  Forall (fun c => plain_method (cm_method c) /\ lines_ok (addr2line_rangeset c) /\ lines_ok (bci2line_rangeset (cm_method c))) cs ->
  NoDup (map (fun c => method_key (show_ptr (m_id (cm_method c))) (show_int (cm_version c))) cs) ->
  exists ms (d : gmap str (PyMethod T)),
    HomoXMLParser arrive (lit "method") (file_text order (map createXMLObj_compiled cs)) = Some (mkPy (lit "root") ∅ ms) /\
    load_method ms ∅ = Some d /\
    forall c, c ∈ cs -> exists p,
      manager_getMethod (show_ptr (m_id (cm_method c))) (show_int (cm_version c)) d = (Some p, d) /\
      pm_name p = lit (m_name (cm_method c)) /\ pm_file p = lit (m_src_file (cm_method c)) /\
      pm_class p = lit (m_class_name (cm_method c)) /\
      (forall a, py_addr2line (show_int a) p = Some (show_int <$> getData a (addr2line_rangeset c))) /\
      (forall i, py_bci2line (show_int i) p = Some (show_int <$> getData i (bci2line_rangeset (cm_method c)))).
Proof.
  intros Ho Ha Hcs Hnd. rewrite Forall_forall in Hcs.
  set (xs := map reading (map createXMLObj_compiled cs)).
  assert (Hin : forall x, x ∈ arrive xs <-> exists c, c ∈ cs /\ x = reading (createXMLObj_compiled c)).
  { intros x. rewrite Ha. subst xs. rewrite map_map, list_elem_of_fmap. naive_solver. }
  assert (Hread : forall c, c ∈ cs -> entry_read (T := T) (fun _ _ => True) (m_id (cm_method c)) (cm_version c) (reading (createXMLObj_compiled c))).
  { intros c Hc. destruct (Hcs c Hc) as (_ & HA & HB). destruct (load_one_compiled (T := T) c HA HB) as (p & E & Hp).
    by exists p, (cm_method c), (addr2line_rangeset c). }
  destruct (load_method_ok (T := T) (fun _ _ => True) (arrive xs) ∅) as (d & E & _ & Hall & Hfrom).
  { apply Forall_forall. intros x (c & Hc & ->)%Hin. eauto. }
  exists (arrive xs), d. split_and!; [apply HomoXMLParser_file; [done|done|]|done|].
  { apply Forall_map, Forall_forall. intros c Hc. by apply createXMLObj_compiled_ok, Hcs. }
  intros c Hc. destruct (Hall _ _ _ (proj2 (Hin _) (ex_intro _ c (conj Hc eq_refl))) (Hread c Hc)) as [p Hp].
  exists p. unfold manager_getMethod. rewrite Hp. split; [done|].
  apply Hfrom in Hp as [Hp|(x & (c' & Hc' & ->)%Hin & Ex & Ek)]; [by rewrite lookup_empty in Hp|].
  destruct (Hcs c' Hc') as (_ & HA & HB). destruct (load_one_compiled (T := T) c' HA HB) as (p' & Ep & Hi & Hv & Hrest).
  assert (p' = p) as -> by congruence. rewrite Hi, Hv in Ek.
  assert (c' = c) as ->; [|tauto].
  apply list_elem_of_lookup in Hc as [i Hci]. apply list_elem_of_lookup in Hc' as [j Hcj].
  assert (i = j) as ->; [|congruence]. eapply NoDup_lookup; [exact Hnd| |]; rewrite list_lookup_fmap; [by rewrite Hci|]. rewrite Hcj. cbn. by rewrite Ek.
Qed.

Module Demo.
(** Trees as lists without duplicate keys. *)
Definition better (f : Z -> Z -> bool) (a : Z * (Z * str)) (b : option (Z * (Z * str))) : option (Z * (Z * str)) :=
  match b with Some b => Some (if f a.1 b.1 then a else b) | None => Some a end.
#[export] Instance list_tree : RBTree (gmap Z (Z * str)) := {
  rb_empty := ∅;
  is_empty t := bool_decide (t = ∅);
  rb_insert k v t := <[k := v]> t;
  min_item t := foldr (better Z.leb) None (map_to_list t);
  max_item t := foldr (better Z.geb) None (map_to_list t);
  floor_item p t := foldr (better Z.geb) None (filter (fun e => e.1 <= p) (map_to_list t));
  ceiling_item p t := foldr (better Z.leb) None (filter (fun e => p <= e.1) (map_to_list t));
}.

Lemma best_ok (R : Z -> Z -> Prop) f l e :
  (forall a, R a a) -> (forall a b c, R a b -> R b c -> R a c) ->
  (forall a b, f a b = true -> R a b) -> (forall a b, f a b = false -> R b a) -> e ∈ l ->
  exists b, foldr (better f) None l = Some b /\ b ∈ l /\ R b.1 e.1.
Proof.
  intros Hrefl Htrans Ht Hf. revert e. induction l as [|a l IH]; intros e He; [by apply not_elem_of_nil in He|]. cbn.
  destruct l as [|a' l'].
  { apply list_elem_of_singleton in He as ->. exists a. split_and!; [done|by left|apply Hrefl]. }
  destruct (IH a' ltac:(by left)) as (b & Eb & Hb & _). rewrite Eb. cbn. destruct (f a.1 b.1) eqn:E; eexists; (split; [done|]).
  - split; [by left|]. apply elem_of_cons in He as [->|He]; [apply Hrefl|]. destruct (IH e He) as (b' & Eb' & _ & Hr).
    assert (b' = b) as -> by congruence. by eapply Htrans; [apply Ht|].
  - split; [by right|]. apply elem_of_cons in He as [->|He]; [by apply Hf|]. destruct (IH e He) as (b' & Eb' & _ & Hr).
    by assert (b' = b) as -> by congruence.
Qed.

#[export] Instance list_tree_laws : RBTreeLaws (gmap Z (Z * str)).
Proof.
  refine {| rb_items := fun t => t |}; cbn.
  - done.
  - done.
  - done.
  - intros t k [v Hk]. apply elem_of_map_to_list in Hk.
    destruct (best_ok Z.le Z.leb _ _ ltac:(lia) ltac:(lia) ltac:(lia) ltac:(lia) Hk) as ([k' v'] & E & Hin & Hle).
    exists k', v'. by apply elem_of_map_to_list in Hin.
  - intros t k [v Hk]. apply elem_of_map_to_list in Hk.
    destruct (best_ok Z.ge Z.geb _ _ ltac:(lia) ltac:(lia) ltac:(lia) ltac:(lia) Hk) as ([k' v'] & E & Hin & Hle).
    exists k', v'. apply elem_of_map_to_list in Hin. split_and!; [done..|]. cbn in Hle. lia.
  - intros t p k [v Hk] Hp. apply elem_of_map_to_list in Hk.
    assert (Hk' : (k, v) ∈ filter (fun e : Z * (Z * str) => e.1 <= p) (map_to_list t)) by (by apply list_elem_of_filter).
    destruct (best_ok Z.ge Z.geb _ _ ltac:(lia) ltac:(lia) ltac:(lia) ltac:(lia) Hk') as ([k' v'] & E & [Hle' Hin]%list_elem_of_filter & Hle).
    exists k', v'. apply elem_of_map_to_list in Hin. cbn in Hle, Hle'. split_and!; [done|done|lia|lia].
  - intros t p k [v Hk] Hp. apply elem_of_map_to_list in Hk.
    assert (Hk' : (k, v) ∈ filter (fun e : Z * (Z * str) => p <= e.1) (map_to_list t)) by (by apply list_elem_of_filter).
    destruct (best_ok Z.le Z.leb _ _ ltac:(lia) ltac:(lia) ltac:(lia) ltac:(lia) Hk') as ([k' v'] & E & [Hle' Hin]%list_elem_of_filter & Hle).
    exists k', v'. apply elem_of_map_to_list in Hin. cbn in Hle, Hle'. split_and!; [done|done|lia|lia].
Qed.

(** A method of three lines, compiled twice. *)
Definition run : Method := mkMethod 16 "run" "Main.java" "Main" false
  [(0, mkRange 0 3 10); (4, mkRange 4 9 11); (10, mkRange 10 20 12)].
Definition run1 : CompiledMethod := mkCompiled run 1 100 4096 [(4096, mkRange 4096 4119 10); (4120, mkRange 4120 4150 12)].
Definition run2 : CompiledMethod := mkCompiled run 2 50 8192 [(8192, mkRange 8192 8200 11)].

Lemma demo_methods : Forall (fun c => plain_method (cm_method c) /\ lines_ok (addr2line_rangeset c) /\
  lines_ok (bci2line_rangeset (cm_method c))) [run1; run2].
Proof. repeat first [constructor | done]. Qed.

Definition loaded : option (gmap str (PyMethod (gmap Z (Z * str)))) :=
  o ← HomoXMLParser (@rev PyObj) (lit "method") (file_text map_to_list (map createXMLObj_compiled [run1; run2]));
  load_method (py_children o) ∅.

Example demo_lines :
  (d ← loaded; p ← (manager_getMethod (lit "0x10") (lit "1") d).1; py_addr2line (lit "4130") p) = Some (Some (lit "12")) /\
  (d ← loaded; p ← (manager_getMethod (lit "0x10") (lit "1") d).1; py_addr2line (lit "4151") p) = Some None /\
  (d ← loaded; p ← (manager_getMethod (lit "0x10") (lit "2") d).1; py_bci2line (lit "9") p) = Some (Some (lit "11")).
Proof. split_and!; vm_compute; reflexivity. Qed.

Lemma methods_roundtrip_witness :
  length [run1; run2] = 2%nat /\ exists ms,
    HomoXMLParser (@rev PyObj) (lit "method") (file_text map_to_list (map createXMLObj_compiled [run1; run2])) =
      Some (mkPy (lit "root") ∅ ms).
Proof.
  split; [reflexivity|].
  destruct (methods_roundtrip (T := gmap Z (Z * str)) map_to_list (@rev PyObj) [run1; run2]) as (ms & d & E & _).
  - intros m. reflexivity.
  - intros l. symmetry. apply Permutation_rev.
  - exact demo_methods.
  - vm_compute. repeat constructor; set_solver.
  - exists ms. exact E.
Defined.
End Demo.
