(* ===== verification/Offline.v ===== *)
(** * Offline: the calling-context tree that the offline tools make of a thread's file

    [load_context] of offlineprocess/process_raw_data.py gives the contexts of a file, in whatever
    order they come, to the [ContextManager] of pylib/context.py, and the paths down the tree are listed by
    its [getAllPaths]. [tree_of] says what a manager knows, whatever the order;
    [contexts_rebuilt] that what is read back is the written part of the agent's tree.

    A context object is only reached through the manager's dictionary, so that the dictionary
    holds the objects themselves. [None] is an exception. The source positions and the
    timeline that the scripts make of the paths are in Traces.v and Timeline.v. *)
From stdpp Require Import base numbers list strings pretty gmap.
From Stdlib Require Import ZArith Lia Ascii.
From S2P Require Import Prelude Metrics ContextTree CodeCache Config Xml HomoXml Report.
Local Open Scope Z_scope.

(** ** Contexts *)
Record PyCtx := mkCtx {
  pc_id : str;
  pc_obj : PyObj;                    (* the object it was made of, with its other attributes *)
  pc_metrics : gmap str str;
  pc_parent : option str;
  pc_children : gset str;
}.
Definition with_children s (c : PyCtx) : PyCtx := mkCtx (pc_id c) (pc_obj c) (pc_metrics c) (pc_parent c) s.
Definition addChildID (i : str) (c : PyCtx) : PyCtx := with_children ({[i]} ∪ pc_children c) c.

Record manager := mkManager {
  cm_dict : gmap str PyCtx;
  cm_roots : gset str;               (* contexts whose parents have not been seen *)
  cm_waiting : gmap str (list str);  (* the same, by parent *)
}.
Definition manager_new : manager := mkManager ∅ ∅ ∅.

(** [set.remove], which raises for an element that is not there. *)
Fixpoint remove_all (l : list str) (s : gset str) : option (gset str) :=
  match l with
  | [] => Some s
  | r :: l => if bool_decide (r ∈ s) then remove_all l (s ∖ {[r]}) else None
  end.

Definition manager_addContext (ctxt : PyCtx) (m : manager) : option manager :=
  parent ← pc_parent ctxt;
  if bool_decide (parent = []) then None else
  let id := pc_id ctxt in
  if bool_decide (id = lit "0") && bool_decide (is_Some (cm_dict m !! id)) then Some m else
  let dict := <[id := ctxt]> (cm_dict m) in
  m ← match cm_waiting m !! id with
      | Some l =>
          roots ← remove_all l (cm_roots m);
          Some (mkManager (<[id := foldr addChildID ctxt l]> dict) roots (delete id (cm_waiting m)))
      | None => Some (mkManager dict (cm_roots m) (cm_waiting m))
      end;
  match cm_dict m !! parent with
  | Some p => Some (mkManager (<[parent := addChildID id p]> (cm_dict m)) (cm_roots m) (cm_waiting m))
  | None =>
      Some (mkManager (cm_dict m) ({[id]} ∪ cm_roots m)
              (<[parent := default [] (cm_waiting m !! parent) ++ [id]]> (cm_waiting m)))
  end.

(** The loop over the metrics of a context, which stops at the first one without a value. *)
Fixpoint load_metrics (l : list PyObj) (d : gmap str str) : option (gmap str str) :=
  match l with
  | [] => Some d
  | c :: l =>
      match py_attr "value" c with
      | None => Some d
      | Some value =>
          event ← py_attr "event" c; measure ← py_attr "measure" c;
          load_metrics l (<[event ++ lit ":" ++ measure := value]> d)
      end
  end.

Definition is_metrics (o : PyObj) : bool := bool_decide (py_name o = lit "metrics").

(** One turn of the loop of [load_context]. An object without an id, which no file of the agent
    has, is refused here; the code would keep it under [None]. *)
Definition make_context (o : PyObj) : option PyCtx :=
  id ← py_attr "id" o;
  d ← match filter (fun c => is_metrics c = true) (py_children o) with
      | [] => Some ∅
      | [m] => load_metrics (py_children m) ∅
      | _ => None
      end;
  Some (mkCtx id o d (py_attr "parent_id" o) ∅).

Fixpoint add_contexts (l : list PyObj) (m : manager) : option manager :=
  match l with
  | [] => Some m
  | o :: l => c ← make_context o; m ← manager_addContext c m; add_contexts l m
  end.

Definition load_context (contexts : list PyObj) : option manager :=
  m ← add_contexts contexts manager_new;
  if bool_decide (cm_dict m = ∅) then None
  else if bool_decide (size (cm_roots m) = 1%nat) then Some m else None.

(** [getAllPaths(root, "root-leaf")]; [set_order] is the order in which a set is iterated. *)
Fixpoint getAllPaths (set_order : gset str -> list str) (fuel : nat) (d : gmap str PyCtx) (root : str)
  : option (list (list PyCtx)) :=
  match fuel with
  | O => None
  | S fuel =>
      c ← d !! root;
      if bool_decide (pc_children c = ∅) then Some [[c]]
      else ps ← mapM (getAllPaths set_order fuel d) (set_order (pc_children c)); Some (map (cons c) (concat ps))
  end.

(** ** The tree does not depend on the order *)
Definition ids (cs : list PyCtx) : list str := map pc_id cs.
(** The contexts whose parent is [q]. *)
Definition kids (cs : list PyCtx) (q : str) : list str := map pc_id (filter (fun c => pc_parent c = Some q) cs).

(** What a manager knows after it was given [cs]. *)
Record tree_of (cs : list PyCtx) (m : manager) : Prop := {
  tr_dict : forall i x, cm_dict m !! i = Some x <->
    exists c, c ∈ cs /\ pc_id c = i /\ x = with_children (list_to_set (kids cs i)) c;
  tr_roots : forall i, i ∈ cm_roots m <-> exists c q, c ∈ cs /\ pc_id c = i /\ pc_parent c = Some q /\ q ∉ ids cs;
  tr_waiting : forall q, cm_waiting m !! q = if decide (q ∈ ids cs) then None else match kids cs q with [] => None | l => Some l end;
}.

(** A context as it is made: it has a parent, and no children yet. *)
Definition fresh_ctx (c : PyCtx) : Prop := pc_children c = ∅ /\ exists q, pc_parent c = Some q /\ q <> [].

Lemma elem_ids cs i : i ∈ ids cs <-> exists c, c ∈ cs /\ pc_id c = i.
Proof. unfold ids. rewrite list_elem_of_fmap. naive_solver. Qed.
Lemma elem_kids cs q i : i ∈ kids cs q <-> exists c, c ∈ cs /\ pc_id c = i /\ pc_parent c = Some q.
Proof. unfold kids. rewrite list_elem_of_fmap. setoid_rewrite list_elem_of_filter. naive_solver. Qed.

Lemma kids_snoc cs c q : kids (cs ++ [c]) q = kids cs q ++ if decide (pc_parent c = Some q) then [pc_id c] else [].
Proof.
  unfold kids. rewrite filter_app, map_app, filter_cons, filter_nil. by case_decide.
Qed.

Lemma ids_inj cs c c' : NoDup (ids cs) -> c ∈ cs -> c' ∈ cs -> pc_id c = pc_id c' -> c = c'.
Proof.
  intros Hnd [i Hi]%list_elem_of_lookup [j Hj]%list_elem_of_lookup E.
  assert (i = j) as ->; [|congruence]. eapply NoDup_lookup; [exact Hnd| |].
  - unfold ids. rewrite list_lookup_fmap, Hi. done.
  - unfold ids. rewrite list_lookup_fmap, Hj. cbn. by rewrite E.
Qed.

Lemma kids_NoDup cs q : NoDup (ids cs) -> NoDup (kids cs q).
Proof.
  unfold ids, kids. induction cs as [|c cs IH]; [done|]. rewrite filter_cons. cbn [map]. intros [Hc Hnd]%NoDup_cons.
  case_decide; [|by apply IH]. cbn. apply NoDup_cons. split; [|by apply IH].
  intros (c' & E & [_ Hc']%list_elem_of_filter)%list_elem_of_fmap. apply Hc. rewrite E. by apply list_elem_of_fmap_2.
Qed.

Lemma remove_all_ok l : forall s, NoDup l -> (forall x, x ∈ l -> x ∈ s) -> remove_all l s = Some (s ∖ list_to_set l).
Proof.
  induction l as [|x l IH]; intros s Hnd Hin; [cbn; f_equal; set_solver|]. apply NoDup_cons in Hnd as [Hx Hnd]. cbn.
  rewrite bool_decide_true by set_solver. rewrite IH; [f_equal; set_solver|done|]. intros y Hy. set_solver.
Qed.

Lemma foldr_children l c : foldr addChildID c l = with_children (list_to_set l ∪ pc_children c) c.
Proof.
  induction l as [|x l IH]; cbn; [destruct c; unfold with_children; cbn; f_equal; set_solver|].
  rewrite IH. unfold addChildID, with_children. cbn. f_equal. set_solver.
Qed.

(** The new context takes over its children. *)
Definition adopt (cs : list PyCtx) (c : PyCtx) (m m1 : manager) : Prop :=
  (forall i, cm_dict m1 !! i = if decide (i = pc_id c) then Some (with_children (list_to_set (kids cs i)) c) else cm_dict m !! i) /\
  (forall i, i ∈ cm_roots m1 <-> i ∈ cm_roots m /\ i ∉ kids cs (pc_id c)) /\
  (forall q, cm_waiting m1 !! q = if decide (q = pc_id c) then None else cm_waiting m !! q).

Lemma adopt_children_ok cs c m : tree_of cs m -> NoDup (ids cs) -> pc_id c ∉ ids cs -> pc_children c = ∅ ->
  exists m1, adopt cs c m m1 /\
    match cm_waiting m !! pc_id c with
    | Some l => roots ← remove_all l (cm_roots m);
        Some (mkManager (<[pc_id c := foldr addChildID c l]> (<[pc_id c := c]> (cm_dict m))) roots (delete (pc_id c) (cm_waiting m)))
    | None => Some (mkManager (<[pc_id c := c]> (cm_dict m)) (cm_roots m) (cm_waiting m))
    end = Some m1.
Proof.
  intros [Hd Hr Hw] Hnd Hc Hch. pose proof (Hw (pc_id c)) as E. rewrite decide_False in E by done.
  assert (Hin : forall x, x ∈ kids cs (pc_id c) -> x ∈ cm_roots m).
  { intros x (c' & Hc' & Ex & Ep)%elem_kids. apply Hr. by exists c', (pc_id c). }
  assert (Hrm : remove_all (kids cs (pc_id c)) (cm_roots m) = Some (cm_roots m ∖ list_to_set (kids cs (pc_id c))))
    by (apply remove_all_ok; [by apply kids_NoDup|done]).
  destruct (kids cs (pc_id c)) as [|k l] eqn:Ek in E, Hrm; rewrite E.
  - eexists. split; [|done]. split_and!; cbn.
    + intros i. case_decide as Ei; [subst i|by rewrite lookup_insert_ne]. rewrite lookup_insert_eq, Ek. destruct c. cbn in *. by subst.
    + intros i. rewrite Ek. set_solver.
    + intros q. case_decide as Eq; [by subst q|done].
  - rewrite Hrm. cbn [mbind option_bind]. rewrite <- Ek. eexists. split; [|done]. split_and!; cbn.
    + intros i. rewrite insert_insert_eq. case_decide as Ei; [subst i|by rewrite lookup_insert_ne].
      rewrite lookup_insert_eq, foldr_children, Hch. unfold with_children. do 2 f_equal. set_solver.
    + intros i. set_solver.
    + intros q. case_decide as Eq; [subst q; apply lookup_delete_eq|by rewrite lookup_delete_ne].
Qed.

(** The two ways to place a context that has taken over its children. *)
Section place.
Context (cs : list PyCtx) (c : PyCtx) (m m1 : manager) (p : str).
Hypothesis Ht : tree_of cs m.
Hypothesis Hall : NoDup (ids (cs ++ [c])).
Hypothesis Ep : pc_parent c = Some p.
Hypothesis Ha : adopt cs c m m1.

Lemma ids_snoc i : i ∈ ids (cs ++ [c]) <-> i ∈ ids cs \/ i = pc_id c.
Proof. unfold ids. rewrite map_app. cbn. by rewrite elem_of_app, list_elem_of_singleton. Qed.

Lemma ids_before : NoDup (ids cs) /\ pc_id c ∉ ids cs.
Proof.
  clear Ha Ht. unfold ids in Hall. rewrite map_app in Hall. apply NoDup_app in Hall as (Hnd & Hc & _).
  split; [done|]. intros Hin. apply (Hc _ Hin). by left.
Qed.

Lemma adopted_dict i x : cm_dict m1 !! i = Some x <->
  exists c', c' ∈ cs ++ [c] /\ pc_id c' = i /\ x = with_children (list_to_set (kids cs i)) c'.
Proof.
  destruct ids_before as [_ Hnew]. destruct Ht as [Hd _ _]. destruct Ha as (Hd1 & _ & _).
  rewrite Hd1. setoid_rewrite elem_of_app. setoid_rewrite list_elem_of_singleton. case_decide as Ei.
  - split; [intros [= <-]; exists c; auto|]. intros (c' & [Hc'| ->] & Eid & ->); [|done]. exfalso.
    apply Hnew. apply elem_ids. exists c'. split; congruence.
  - rewrite Hd. split; [intros (c' & ? & ? & ?); eauto|]. intros (c' & [?| ->] & Eid & ->); [eauto|congruence].
Qed.

(** The roots that were there before, without the children. *)
Lemma adopted_roots i : i ∈ cm_roots m1 <->
  exists c' q, c' ∈ cs /\ pc_id c' = i /\ pc_parent c' = Some q /\ q ∉ ids (cs ++ [c]).
Proof.
  destruct ids_before as [Hnd _]. destruct Ht as [_ Hr _]. destruct Ha as (_ & Hr1 & _).
  rewrite Hr1, Hr, elem_kids. setoid_rewrite ids_snoc. split.
  - intros [(c2 & q & Hc2 & E2 & Ep2 & Hq) Hk]. exists c2, q. split_and!; [done..|]. intros [?|Eq]; [done|].
    apply Hk. exists c2. split_and!; congruence.
  - intros (c2 & q & Hc2 & E2 & Ep2 & Hq). split; [exists c2, q; split_and!; try done; tauto|]. intros (c3 & Hc3 & E3 & Ep3).
    assert (c3 = c2) as -> by (eapply ids_inj; [exact Hnd|done..|congruence]). apply Hq. right. congruence.
Qed.

Lemma placed_below pc : cm_dict m1 !! p = Some pc ->
  tree_of (cs ++ [c]) (mkManager (<[p := addChildID (pc_id c) pc]> (cm_dict m1)) (cm_roots m1) (cm_waiting m1)).
Proof.
  intros Epd. pose proof Epd as (c' & Hc' & Eid & ->)%adopted_dict.
  assert (Hpin : p ∈ ids (cs ++ [c])) by (apply elem_ids; eauto). split; cbn.
  - intros i x. destruct (decide (i = p)) as [->|Hi].
    + rewrite lookup_insert_eq, kids_snoc, decide_True by done. rewrite list_to_set_app_L. cbn.
      split; [intros [= <-]; exists c'; split_and!; [done..|]; unfold addChildID, with_children; cbn; f_equal; set_solver|].
      intros (c2 & Hc2 & Ei2 & ->). assert (c2 = c') as -> by (eapply (ids_inj (cs ++ [c])); [exact Hall|done|done|congruence]).
      unfold addChildID, with_children. cbn. do 2 f_equal. set_solver.
    + rewrite lookup_insert_ne by done. rewrite kids_snoc, decide_False by congruence. rewrite app_nil_r. apply adopted_dict.
  - intros i. rewrite adopted_roots. setoid_rewrite elem_of_app. setoid_rewrite list_elem_of_singleton. split.
    + intros (c2 & q & Hc2 & Hq). exists c2, q. split; [by left|done].
    + intros (c2 & q & [Hc2| ->] & E2 & Ep2 & Hq); [by exists c2, q|]. exfalso. apply Hq. by assert (q = p) as -> by congruence.
  - intros q. destruct Ht as [_ _ Hw]. destruct Ha as (_ & _ & Hw1). rewrite Hw1, Hw, kids_snoc. destruct (decide (q = pc_id c)) as [->|Hq].
    { by rewrite decide_True by (apply ids_snoc; by right). }
    destruct (decide (q ∈ ids cs)) as [Hin|Hin]; [by rewrite decide_True by (apply ids_snoc; by left)|].
    rewrite decide_False by (rewrite ids_snoc; tauto). rewrite decide_False, app_nil_r; [done|].
    intros Eq. assert (q = p) as -> by congruence. apply ids_snoc in Hpin. tauto.
Qed.

Lemma placed_root : cm_dict m1 !! p = None ->
  tree_of (cs ++ [c]) (mkManager (cm_dict m1) ({[pc_id c]} ∪ cm_roots m1)
    (<[p := default [] (cm_waiting m1 !! p) ++ [pc_id c]]> (cm_waiting m1))).
Proof.
  intros Epd. assert (Hpout : p ∉ ids (cs ++ [c])).
  { intros (c' & Hc' & Eid)%elem_ids.
    assert (cm_dict m1 !! p = Some (with_children (list_to_set (kids cs p)) c')) by (apply adopted_dict; eauto). congruence. }
  split; cbn.
  - intros i x. rewrite adopted_dict. setoid_rewrite kids_snoc. split; intros (c' & Hc' & Eid & ->); exists c'; (split_and!; [done..|]);
      (rewrite decide_False, app_nil_r; [done|]); intros Eq; apply Hpout, elem_ids; exists c'; split; congruence.
  - intros i. rewrite elem_of_union, elem_of_singleton, adopted_roots. setoid_rewrite elem_of_app. setoid_rewrite list_elem_of_singleton. split.
    + intros [->|(c2 & q & Hc2 & Hq)]; [exists c, p; by auto|]. exists c2, q. split; [by left|done].
    + intros (c2 & q & [Hc2| ->] & E2 & Hq); [right; by exists c2, q|by left].
  - intros q. destruct Ht as [_ _ Hw]. destruct Ha as (_ & _ & Hw1). destruct (decide (q = p)) as [->|Hq].
    + rewrite lookup_insert_eq, decide_False by done. rewrite kids_snoc, decide_True by done.
      rewrite Hw1, decide_False by (intros ->; apply Hpout, ids_snoc; by right).
      rewrite Hw, decide_False by (intros Hin; apply Hpout, ids_snoc; by left). by destruct (kids cs p).
    + rewrite lookup_insert_ne by done. rewrite Hw1, Hw, kids_snoc, (decide_False (P := pc_parent c = Some q)) by congruence.
      rewrite app_nil_r. destruct (decide (q = pc_id c)) as [->|Hqc]; [by rewrite decide_True by (apply ids_snoc; by right)|].
      destruct (decide (q ∈ ids cs)) as [Hin|Hin]; [by rewrite decide_True by (apply ids_snoc; by left)|].
      by rewrite decide_False by (rewrite ids_snoc; tauto).
Qed.
End place.

Lemma manager_addContext_ok cs c m :
  tree_of cs m -> NoDup (ids (cs ++ [c])) -> fresh_ctx c ->
  exists m', manager_addContext c m = Some m' /\ tree_of (cs ++ [c]) m'.
Proof.
  intros Ht Hall [Hch (p & Ep & Hp)]. destruct (ids_before cs c Hall) as [Hnd Hnew].
  destruct (adopt_children_ok cs c m Ht Hnd Hnew Hch) as (m1 & Ha & E1).
  unfold manager_addContext. rewrite Ep. cbn [mbind option_bind]. rewrite bool_decide_false by done.
  assert (Hno : cm_dict m !! pc_id c = None).
  { destruct (cm_dict m !! pc_id c) eqn:E; [|done]. apply (tr_dict _ _ Ht) in E as (c' & Hc' & E & _). exfalso. apply Hnew, elem_ids. by exists c'. }
  rewrite (bool_decide_false (is_Some (cm_dict m !! _))) by (rewrite Hno; by intros [? ?]). rewrite andb_false_r.
  unfold mbind in E1 |- *. rewrite E1. cbn [option_bind].
  destruct (cm_dict m1 !! p) as [pc|] eqn:Epd; (eexists; split; [done|]); [by eapply placed_below|by eapply placed_root].
Qed.

Lemma tree_of_new : tree_of [] manager_new.
Proof.
  split; cbn.
  - intros i x. rewrite lookup_empty. split; [done|]. by intros (c & ?%not_elem_of_nil & _).
  - intros i. split; [set_solver|]. by intros (c & q & ?%not_elem_of_nil & _).
  - intros q. by rewrite lookup_empty, decide_False by apply not_elem_of_nil.
Qed.

Lemma add_contexts_ok os xs : forall pre m,
  Forall2 (fun o x => make_context o = Some x /\ fresh_ctx x) os xs -> tree_of pre m -> NoDup (ids (pre ++ xs)) ->
  exists m', add_contexts os m = Some m' /\ tree_of (pre ++ xs) m'.
Proof.
  intros pre m Hos. revert pre m. induction Hos as [|o x os xs [Eo Hx] _ IH]; intros pre m Ht Hnd.
  { exists m. by rewrite app_nil_r. }
  cbn [add_contexts]. rewrite Eo. cbn [mbind option_bind]. rewrite cons_middle, app_assoc in Hnd |- *.
  destruct (manager_addContext_ok pre x m Ht) as (m1 & -> & Ht1); [|done|by apply IH].
  unfold ids in *. rewrite map_app in Hnd. by apply NoDup_app in Hnd as [Hnd _].
Qed.

(** ** The file of a thread *)
Section thread.
Context {D : Type} (show_double : D -> str) (infos : list metric_info_t).
Abbreviation ctree := (ContextTree (M := list (metric_val_t D))).
Context (t : ctree).
Hypothesis Ht : tree_ok t.

(** What [load_context] stores for the metrics of a context. *)
Fixpoint metric_table (i : nat) (vals : list (metric_val_t D)) (d : gmap str str) : gmap str str :=
  match vals, infos !! i with
  | v :: vals, Some info =>
      metric_table (S i) vals
        (<[lit (event_name info) ++ lit ":" ++ lit (event_measure info) := metric_value show_double v]> d)
  | _, _ => d
  end.
Definition metrics_of (n : node (M := list (metric_val_t D))) : gmap str str :=
  match n_metrics n with Some m => metric_table 0 m ∅ | None => ∅ end.

Lemma load_metrics_ok vals : forall i l d,
  reads_values show_double infos i vals l -> load_metrics l d = Some (metric_table i vals d).
Proof.
  induction vals as [|v vals IH]; intros i l d [Hl Hr].
  - destruct l; [|done]. cbn. by destruct (infos !! i).
  - destruct l as [|c l]; [done|]. destruct (Hr 0%nat v c eq_refl eq_refl) as (info & Ei & Ev & Ee & Em).
    rewrite Nat.add_0_r in Ei. cbn [load_metrics metric_table]. rewrite Ev, Ee, Em, Ei. cbn [mbind option_bind].
    apply IH. split; [by injection Hl|]. intros j w c' Hj Hc. replace (S i + j)%nat with (i + S j)%nat by lia. by apply Hr.
Qed.

(** The offline object of a context of the tree. *)
Definition ctx_of (c : nat) (x : PyCtx) : Prop :=
  exists n, heap t !! c = Some n /\ pc_id x = show_int (n_id n) /\ pc_parent x = parent_text t n /\
    pc_children x = ∅ /\ pc_metrics x = metrics_of n /\ reads_as show_double infos t c (pc_obj x).

Lemma show_int_nonempty z : 0 <= z -> show_int z <> [].
Proof. intros Hz. by apply (dec_digits z Hz). Qed.

Lemma parent_text_some c n : heap t !! c = Some n -> exists q, parent_text t n = Some q /\ q <> [].
Proof.
  intros Hc. unfold parent_text. destruct (n_parent n) as [p|] eqn:Ep; [|by eexists].
  destruct (parent_in t Ht c n p Hc Ep) as [pn Hp]. rewrite Hp. eexists. split; [done|].
  apply show_int_nonempty. pose proof (ok_ids t Ht p pn Hp). lia.
Qed.

Lemma make_context_ok c o : reads_as show_double infos t c o ->
  exists x, make_context o = Some x /\ fresh_ctx x /\ ctx_of c x.
Proof.
  intros Hread. pose proof Hread as (n & Hc & Ei & Ep & _ & _ & _ & _ & Hm). unfold make_context. rewrite Ei. cbn [mbind option_bind].
  assert (exists d, match filter (fun c => is_metrics c = true) (py_children o) with
      [] => Some ∅ | [m] => load_metrics (py_children m) ∅ | _ => None end = Some d /\ d = metrics_of n) as (d & -> & ->).
  { unfold metrics_of. destruct (n_metrics n) as [m|]; destruct (py_children o) as [|k [|]]; try done; [|by eexists].
    destruct Hm as [Hname Hvals]. rewrite filter_cons, filter_nil, decide_True by (unfold is_metrics; by rewrite Hname).
    eexists. split; [by apply load_metrics_ok|done]. }
  cbn [mbind option_bind]. eexists. split; [done|]. destruct (parent_text_some c n Hc) as (q & Eq & Hq).
  split; [split; [done|]; exists q; cbn; by rewrite Ep|]. exists n. by split_and!.
Qed.

Lemma id_inj c c' n n' : heap t !! c = Some n -> heap t !! c' = Some n' -> show_int (n_id n) = show_int (n_id n') -> c = c'.
Proof.
  intros Hc Hc' E%show_int_inj. assert (context_map t !! n_id n = Some c) by (apply (ok_map t Ht); eauto).
  assert (context_map t !! n_id n = Some c') by (rewrite E; apply (ok_map t Ht); eauto). congruence.
Qed.

Lemma ctx_ids_NoDup cs xs : NoDup cs -> Forall2 ctx_of cs xs -> NoDup (ids xs).
Proof.
  intros Hnd Hcs. apply NoDup_alt. intros i j q Hi Hj. unfold ids in Hi, Hj. rewrite list_lookup_fmap in Hi, Hj.
  destruct (xs !! i) as [x|] eqn:Ex; [|done]. destruct (xs !! j) as [y|] eqn:Ey; [|done]. cbn in Hi, Hj.
  destruct (Forall2_lookup_r _ _ _ _ _ Hcs Ex) as (c & Hc & n & Hn & Hid & _).
  destruct (Forall2_lookup_r _ _ _ _ _ Hcs Ey) as (c' & Hc' & n' & Hn' & Hid' & _).
  assert (c = c') as <- by (eapply id_inj; [done|done|congruence]). by eapply NoDup_lookup.
Qed.

Lemma parent_text_id c n d dn : heap t !! c = Some n -> heap t !! d = Some dn ->
  parent_text t dn = Some (show_int (n_id n)) <-> n_parent dn = Some c.
Proof.
  intros Hc Hd. unfold parent_text. destruct (n_parent dn) as [p|] eqn:Ep.
  - destruct (parent_in t Ht d dn p Hd Ep) as [pn Hp]. rewrite Hp. cbn. split; [|intros [= ->]; congruence].
    intros [= E]. f_equal. by eapply id_inj.
  - split; [|done]. intros [= E%show_int_inj]. pose proof (ok_ids t Ht c n Hc). lia.
Qed.

Lemma length_filter_lt {A} (P Q : A -> Prop) `{!forall x, Decision (P x), !forall x, Decision (Q x)} (l : list A) a :
  (forall x, P x -> Q x) -> a ∈ l -> Q a -> ~ P a -> (length (filter P l) < length (filter Q l))%nat.
Proof.
  intros HPQ Ha Qa Pa. assert (Hle : forall l', (length (filter P l') <= length (filter Q l'))%nat).
  { induction l' as [|x l' IH]; [done|]. rewrite !filter_cons. repeat case_decide; cbn; try lia. exfalso; auto. }
  induction Ha as [a l|a x l Ha IH]; rewrite !filter_cons.
  - rewrite decide_False, decide_True by done. cbn. specialize (Hle l). lia.
  - specialize (IH Qa Pa). repeat case_decide; cbn; try lia. exfalso; auto.
Qed.

Lemma list_elem_of_exists {A} (l : list A) : l <> [] -> exists x, x ∈ l.
Proof. destruct l as [|x l]; [done|]. intros _. exists x. by left. Qed.

Section rebuilt.
(** The contexts written, what [load_context] made of them, and the manager. *)
Context (cs : list nat) (xs : list PyCtx) (m : manager).
Hypothesis Hcs : Forall2 (ctx_of) cs xs.
Hypothesis Hm : tree_of xs m.

Lemma ctx_at c n : c ∈ cs -> heap t !! c = Some n ->
  exists x, x ∈ xs /\ pc_id x = show_int (n_id n) /\ pc_parent x = parent_text t n /\
    pc_metrics x = metrics_of n /\ reads_as show_double infos t c (pc_obj x).
Proof.
  intros [i Hi]%list_elem_of_lookup Hn. destruct (Forall2_lookup_l _ _ _ _ _ Hcs Hi) as (x & Hx & n' & Hn' & Hid & Hp & _ & Hme & Hra).
  assert (n' = n) as -> by congruence. exists x. split_and!; [by eapply list_elem_of_lookup_2|done..].
Qed.

Lemma ctx_from x : x ∈ xs -> exists c n, c ∈ cs /\ heap t !! c = Some n /\ pc_id x = show_int (n_id n) /\
  pc_parent x = parent_text t n /\ pc_metrics x = metrics_of n /\ reads_as show_double infos t c (pc_obj x).
Proof.
  intros [i Hi]%list_elem_of_lookup. destruct (Forall2_lookup_r _ _ _ _ _ Hcs Hi) as (c & Hc & n & Hn & Hid & Hp & _ & Hme & Hra).
  exists c, n. split_and!; [by eapply list_elem_of_lookup_2|done..].
Qed.

Lemma child_ids c n j : heap t !! c = Some n ->
  j ∈ kids xs (show_int (n_id n)) <-> exists d dn, d ∈ cs /\ heap t !! d = Some dn /\ n_parent dn = Some c /\ j = show_int (n_id dn).
Proof.
  intros Hn. rewrite elem_kids. split.
  - intros (x & Hx & <- & Hp). destruct (ctx_from x Hx) as (d & dn & Hd & Hdn & -> & Hpar & _). exists d, dn. split_and!; try done.
    apply (parent_text_id c n d dn Hn Hdn). congruence.
  - intros (d & dn & Hd & Hdn & Hpar & ->). destruct (ctx_at d dn Hd Hdn) as (x & Hx & Hid & Hp & _). exists x. split_and!; [done..|].
    rewrite Hp. by apply (parent_text_id c n d dn).
Qed.

(** The entry of a written context. *)
Definition entry (c : nat) (x : PyCtx) : Prop :=
  exists n, heap t !! c = Some n /\ cm_dict m !! show_int (n_id n) = Some x /\ pc_id x = show_int (n_id n) /\ pc_metrics x = metrics_of n /\
    reads_as show_double infos t c (pc_obj x) /\
    forall j, j ∈ pc_children x <-> exists d dn, d ∈ cs /\ heap t !! d = Some dn /\ n_parent dn = Some c /\ j = show_int (n_id dn).

Lemma entry_of_written c : c ∈ cs -> is_Some (heap t !! c) -> exists x, entry c x.
Proof.
  intros Hc [n Hn]. destruct (ctx_at c n Hc Hn) as (x & Hx & Hid & _ & Hme & Hra). exists (with_children (list_to_set (kids xs (show_int (n_id n)))) x), n.
  split_and!; [done|apply (tr_dict xs m Hm); by exists x|done|done|done|]. intros j. cbn. rewrite elem_of_list_to_set. by apply child_ids.
Qed.

Lemma written_heap c : c ∈ cs -> is_Some (heap t !! c).
Proof. intros [i Hi]%list_elem_of_lookup. destruct (Forall2_lookup_l _ _ _ _ _ Hcs Hi) as (x & _ & n & Hn & _). by exists n. Qed.

Definition closed : Prop := forall c n p, c ∈ cs -> heap t !! c = Some n -> n_parent n = Some p -> p ∈ cs.

Lemma root_written c : closed -> c ∈ cs -> tree_root t ∈ cs.
Proof.
  intros Hup. induction c as [c IH] using lt_wf_ind. intros Hc. destruct (decide (c = tree_root t)) as [->|Hne]; [done|].
  destruct (written_heap c Hc) as [n Hn]. destruct (ok_parent t Ht c n Hn Hne) as (p & pn & Hp & Hpn & Hch).
  destruct (ok_child t Ht p pn c Hpn Hch) as (n' & _ & _ & Hlt). by apply (IH p Hlt), (Hup c n p).
Qed.

Lemma roots_zero : closed -> cs <> [] -> cm_roots m = {[lit "0"]}.
Proof.
  intros Hup Hne. destruct (ok_root t Ht) as (r & Hr & Hid & Hpar).
  assert (Hroot : tree_root t ∈ cs).
  { destruct (list_elem_of_exists cs Hne) as [c Hc]. by apply (root_written c). }
  apply set_eq. intros i. rewrite elem_of_singleton, (tr_roots xs m Hm). split.
  - intros (x & q & Hx & <- & Hq & Hqn). destruct (ctx_from x Hx) as (c & n & Hc & Hn & -> & Hp & _).
    destruct (decide (c = tree_root t)) as [->|Hc0]; [assert (n = r) as -> by congruence; by rewrite Hid|].
    destruct (ok_parent t Ht c n Hn Hc0) as (p & pn & Hpp & Hpn & _). exfalso. apply Hqn.
    unfold parent_text in Hp. rewrite Hpp, Hpn in Hp. cbn in Hp. assert (q = show_int (n_id pn)) as -> by congruence.
    destruct (ctx_at p pn) as (y & Hy & Hyi & _); [by eapply Hup|done|]. apply elem_ids. by exists y.
  - intros ->. destruct (ctx_at _ r Hroot Hr) as (x & Hx & Hxi & Hxp & _). exists x, (show_int (-1)).
    split_and!; [done|by rewrite Hxi, Hid|by rewrite Hxp; unfold parent_text; rewrite Hpar|].
    intros (y & Hy & E)%elem_ids. destruct (ctx_from y Hy) as (c & n & _ & Hn & Hyi & _). rewrite Hyi in E. apply show_int_inj in E.
    pose proof (ok_ids t Ht c n Hn). lia.
Qed.

(** A path from a context down to a written one without written children. *)
Inductive leaf_path : nat -> list nat -> Prop :=
  | leaf_here c : c ∈ cs -> (forall d dn, d ∈ cs -> heap t !! d = Some dn -> n_parent dn <> Some c) -> leaf_path c [c]
  | leaf_below c d dn l : c ∈ cs -> d ∈ cs -> heap t !! d = Some dn -> n_parent dn = Some c -> leaf_path d l -> leaf_path c (c :: l).

Definition rank (c : nat) : nat := length (filter (fun d => (c <= d)%nat) cs).

Lemma rank_lt c d dn : c ∈ cs -> heap t !! d = Some dn -> n_parent dn = Some c -> (rank d < rank c)%nat.
Proof.
  intros Hc Hd Hp. assert (Hlt : (c < d)%nat).
  { destruct (decide (d = tree_root t)) as [->|Hne].
    { destruct (ok_root t Ht) as (r & Hr & _ & Hn). congruence. }
    destruct (ok_parent t Ht d dn Hd Hne) as (p & pn & Hpp & Hpn & Hch). destruct (ok_child t Ht p pn d Hpn Hch) as (n' & _ & _ & Hl).
    congruence. }
  apply (length_filter_lt _ _ cs c); [intros x; lia|done|lia|lia].
Qed.

Context (set_order : gset str -> list str).
Hypothesis set_order_perm : forall s, set_order s ≡ₚ elements s.

Lemma getAllPaths_ok fuel : forall c n,
  c ∈ cs -> heap t !! c = Some n -> (rank c <= fuel)%nat ->
  exists ps, getAllPaths set_order fuel (cm_dict m) (show_int (n_id n)) = Some ps /\
    forall p, p ∈ ps <-> exists l, leaf_path c l /\ Forall2 entry l p.
Proof.
  induction fuel as [|fuel IH]; intros c n Hc Hn Hr.
  { assert (0 < rank c)%nat; [|lia]. unfold rank. destruct (filter _ cs) as [|y ys] eqn:E; [|cbn; lia].
    assert (c ∈ filter (fun d => (c <= d)%nat) cs) as Hin by (apply list_elem_of_filter; by split). rewrite E in Hin. by apply not_elem_of_nil in Hin. }
  destruct (entry_of_written c Hc (written_heap c Hc)) as (x & n' & Hn' & Hx & Hid & Hme & Hra & Hch).
  assert (n' = n) as -> by congruence. assert (Hex : entry c x) by (exists n; by split_and!).
  assert (Huniq : forall y, entry c y -> y = x) by (intros y (n' & Hn2 & Hy & _); congruence).
  cbn [getAllPaths]. rewrite Hx. cbn [mbind option_bind]. case_bool_decide as Ec.
  - eexists. split; [done|]. intros p. rewrite list_elem_of_singleton.
    assert (Hleaf : forall d dn, d ∈ cs -> heap t !! d = Some dn -> n_parent dn <> Some c).
    { intros d dn Hd Hdn Hp. assert (show_int (n_id dn) ∈ pc_children x) as Hin by (apply Hch; by exists d, dn). set_solver. }
    split.
    + intros ->. exists [c]. split; [by constructor|by constructor].
    + intros (l & Hl & Hp). inversion Hl; subst; [|exfalso; by eapply Hleaf].
      inversion Hp as [|? y ? ? Hy Hnil]; subst. inversion Hnil; subst. by rewrite (Huniq y Hy).
  - assert (Hall : forall j, j ∈ set_order (pc_children x) <-> j ∈ pc_children x) by (intros j; rewrite set_order_perm; apply elem_of_elements).
    destruct (mapM_is_Some_2 (getAllPaths set_order fuel (cm_dict m)) (set_order (pc_children x))) as [pss Epss].
    { apply Forall_forall. intros j (d & dn & Hd & Hdn & Hp & ->)%Hall%Hch.
      destruct (IH d dn Hd Hdn) as (ps & Eps & _); [pose proof (rank_lt c d dn Hc Hdn Hp); lia|]. exists ps. exact Eps. }
    rewrite Epss. cbn [mbind option_bind]. eexists. split; [done|]. apply mapM_Some in Epss.
    intros p. rewrite list_elem_of_fmap. setoid_rewrite list_elem_of_In. setoid_rewrite in_concat. split.
    + intros (p' & -> & ps & [i Hi]%list_elem_of_In%list_elem_of_lookup & Hp').
      destruct (Forall2_lookup_r _ _ _ _ _ Epss Hi) as (j & Hj & Eps). apply list_elem_of_lookup_2 in Hj.
      apply Hall, Hch in Hj as (d & dn & Hd & Hdn & Hp & Ej). subst j.
      destruct (IH d dn Hd Hdn) as (ps' & Eps' & Hps); [pose proof (rank_lt c d dn Hc Hdn Hp); lia|].
      assert (Heq : ps' = ps) by congruence. subst ps'. assert (Hin : p' ∈ ps) by (by apply list_elem_of_In).
      apply (proj1 (Hps p')) in Hin. destruct Hin as (l & Hl & Hlp).
      exists (c :: l). split; [by eapply leaf_below|by constructor].
    + intros (l & Hl & Hp). inversion Hl as [c0 _ Hleaf|c0 d dn l' _ Hd Hdn Hpar Hl']; subst.
      * exfalso. apply Ec. apply set_eq. intros j. split; [|set_solver]. intros (d & dn & Hd & Hdn & Hpp & _)%Hch. by eapply Hleaf in Hpp.
      * inversion Hp as [|? y ? p' Hy Hp']; subst. exists p'. rewrite (Huniq y Hy). split; [done|].
        assert (Hj : show_int (n_id dn) ∈ set_order (pc_children x)) by (apply Hall, Hch; by exists d, dn).
        apply list_elem_of_lookup in Hj as [i Hi]. destruct (Forall2_lookup_l _ _ _ _ _ Epss Hi) as (ps & Hps & Eps).
        destruct (IH d dn Hd Hdn) as (ps' & Eps' & Hin); [pose proof (rank_lt c d dn Hc Hdn Hpar); lia|].
        assert (ps' = ps) as -> by congruence. exists ps. split; [apply list_elem_of_In; by eapply list_elem_of_lookup_2|].
        apply list_elem_of_In, Hin. by exists l'.
Qed.
Lemma dict_entry i x : cm_dict m !! i = Some x -> exists c, c ∈ cs /\ entry c x.
Proof.
  intros Hx. pose proof Hx as (y & Hy & Ei & _)%(tr_dict xs m Hm). destruct (ctx_from y Hy) as (c & n & Hc & Hn & Eid & _).
  exists c. split; [done|]. destruct (entry_of_written c Hc (written_heap c Hc)) as (z & n' & Hn' & Hz & Hrest).
  assert (n' = n) as -> by congruence. assert (z = x) as -> by congruence. exists n. split_and!; [done|done|apply Hrest..].
Qed.
End rebuilt.

Lemma load_written cs os : NoDup cs -> Forall2 (reads_as show_double infos t) cs os ->
  exists xs m, add_contexts os manager_new = Some m /\ Forall2 ctx_of cs xs /\ tree_of xs m.
Proof.
  intros Hnd Hr.
  assert (exists xs, Forall2 (fun o x => make_context o = Some x /\ fresh_ctx x) os xs /\ Forall2 ctx_of cs xs) as (xs & Hos & Hxs).
  { clear Hnd. induction Hr as [|c o cs os Hc _ (xs & IH1 & IH2)]; [exists []; split; constructor|].
    destruct (make_context_ok c o Hc) as (x & E & Hf & Hx). exists (x :: xs). split; constructor; auto. }
  exists xs. destruct (add_contexts_ok os xs [] manager_new Hos tree_of_new (ctx_ids_NoDup cs xs Hnd Hxs)) as (m & E & Hm).
  by exists m.
Qed.

(** Only the members of the list of written contexts matter. *)
Lemma entry_members cs cs' m c x : (forall d, d ∈ cs <-> d ∈ cs') -> entry cs m c x -> entry cs' m c x.
Proof.
  intros Hd (n & Hn & Hx & Hid & Hme & Hra & Hch). exists n. split_and!; try done. intros j. rewrite Hch. by setoid_rewrite Hd.
Qed.

Lemma leaf_path_members cs cs' c l : (forall d, d ∈ cs <-> d ∈ cs') -> leaf_path cs c l -> leaf_path cs' c l.
Proof.
  intros Hd. induction 1 as [c Hc Hleaf|c d dn l Hc Hdin Hdn Hp _ IH].
  - constructor; [by apply Hd|]. intros d dn Hdin. apply Hleaf. by apply Hd.
  - eapply leaf_below; [by apply Hd|by apply Hd|done..].
Qed.

(** What is read back from the objects of [cs]: a tree with the one root ["0"], an entry for each of
    [cs] and nothing else, and all the paths. *)
Record read_back (set_order : gset str -> list str) (cs : list nat) (m : manager) : Prop := {
  rb_root : cm_roots m = {[lit "0"]};
  rb_entries : forall c, c ∈ cs -> exists x, entry cs m c x;
  rb_only : forall i x, cm_dict m !! i = Some x -> pc_id x = i /\ exists c, c ∈ cs /\ entry cs m c x;
  rb_paths : exists ps, getAllPaths set_order (length cs) (cm_dict m) (lit "0") = Some ps /\
    forall p, p ∈ ps <-> exists l, leaf_path cs (tree_root t) l /\ Forall2 (entry cs m) l p;
}.

Lemma load_context_read set_order cs os :
  (forall u, set_order u ≡ₚ elements u) -> cs <> [] -> NoDup cs -> closed cs ->
  Forall2 (reads_as show_double infos t) cs os ->
  exists m, load_context os = Some m /\ read_back set_order cs m.
Proof.
  intros Hso Hne Hnd Hup Hr. destruct (load_written cs os Hnd Hr) as (xs & m & El & Hxs & Hm).
  pose proof (roots_zero cs xs m Hxs Hm Hup Hne) as Hroots.
  destruct (list_elem_of_exists cs Hne) as [c0 Hc0].
  assert (Hroot : tree_root t ∈ cs) by (by apply (root_written cs xs Hxs c0)).
  destruct (ok_root t Ht) as (r & Hr0 & Hid & Hnil).
  destruct (entry_of_written cs xs m Hxs Hm _ Hroot (mk_is_Some _ _ Hr0)) as (x0 & n0 & Hn0 & Hx0 & _).
  exists m. split.
  - unfold load_context. rewrite El. cbn [mbind option_bind]. rewrite bool_decide_false by (intros E0; rewrite E0, lookup_empty in Hx0; done).
    by rewrite bool_decide_true by (rewrite Hroots; apply size_singleton).
  - split; [done| | |].
    + intros c Hc. eapply entry_of_written; [done|done|done|]. by eapply written_heap.
    + intros i x Hx. split; [|by eapply dict_entry]. by apply (tr_dict xs m Hm) in Hx as (y & _ & <- & ->).
    + destruct (getAllPaths_ok cs xs m Hxs Hm set_order Hso (length cs) _ r Hroot Hr0) as (ps & Eps & Hps);
        [apply length_filter|]. exists ps. rewrite Hid in Eps. split; [exact Eps|exact Hps].
Qed.

(** The order of the objects does not matter. *)
Lemma load_context_any set_order cs os os' :
  (forall u, set_order u ≡ₚ elements u) -> cs <> [] -> NoDup cs -> closed cs ->
  Forall2 (reads_as show_double infos t) cs os -> os' ≡ₚ os ->
  exists m, load_context os' = Some m /\ read_back set_order cs m.
Proof.
  intros Hso Hne Hnd Hup Hr Hp. symmetry in Hp.
  destruct (Permutation_Forall2 Hp (proj2 (Forall2_flip _ _ _) Hr)) as (cs' & Hpc & Hr').
  assert (Hmem : forall d, d ∈ cs' <-> d ∈ cs) by (intros d; by rewrite Hpc).
  assert (Hmem' : forall d, d ∈ cs <-> d ∈ cs') by (intros d; by rewrite Hpc).
  destruct (load_context_read set_order cs' os') as (m & E & [Hroot Hent Honly (ps & Eps & Hps)]); [done| | | |by apply Forall2_flip|].
  { intros ->. by apply Permutation_nil_r in Hpc. }
  { by rewrite <- Hpc. }
  { intros c n p Hc Hn Hpar. apply Hmem'. by eapply (Hup c n p); [apply Hmem|..]. }
  exists m. split; [done|]. split; [done| | |].
  - intros c Hc. destruct (Hent c) as [x Hx]; [by apply Hmem'|]. exists x. by eapply entry_members.
  - intros i x Hx. destruct (Honly i x Hx) as (Ei & c & Hc & He). split; [done|]. exists c. split; [by apply Hmem|by eapply entry_members].
  - exists ps. rewrite (Permutation_length Hpc). split; [exact Eps|]. intros p. rewrite Hps.
    split; intros (l & Hl & Hlp); exists l; (split; [by eapply leaf_path_members|]); eapply Forall2_impl; try exact Hlp;
      intros c x; by apply entry_members.
Qed.
End thread.

(** The file of a thread, read back. *)
Lemma contexts_read {D : Type} (show_double : D -> str)
    (order : gmap str str -> list (str * str)) (set_order : gset str -> list str)
    (arrive : list PyObj -> list PyObj) (infos : list metric_info_t)
    (t : ContextTree (M := list (metric_val_t D))) (elems : list nat) (cache : CodeCache) (s : dump_state) :
  (forall d, value_ok (show_double d)) -> (forall m, order m ≡ₚ map_to_list m) ->
  (forall u, set_order u ≡ₚ elements u) -> (forall l, arrive l ≡ₚ l) ->
  Forall (fun i => value_ok (lit (event_measure i)) /\ value_ok (lit (event_name i))) infos ->
  Z.of_nat (length infos) < 2 ^ 31 -> tree_ok t ->
  (forall c n, heap t !! c = Some n ->
    0 <= method_id (n_frame n) /\ forall m, n_metrics n = Some m -> metrics_plain infos m) ->
  elems ≡ₚ (map_to_list (context_map t)).*2 ->
  dump_tree t elems (mkDump ∅ [] cache) = Some s -> written s <> [] ->
  closed t (written s) /\ (forall x, x ∈ written s <-> exists c, measured t c /\ above t c x) /\
  exists texts os m, dump_text show_double order infos t s = Some texts /\
    HomoXMLParser arrive (lit "context") (lit XML_FILE_HEADER ++ [c_newline] ++ concat texts) = Some (mkPy (lit "root") ∅ os) /\
    load_context os = Some m /\ read_back show_double infos t set_order (written s) m.
Proof.
  intros Hd Ho Hso Harr Hi Hn Ht Hp Hel E Hne. destruct (dump_whole t Ht elems cache Hel) as (s' & E' & Hs & Hw & _).
  assert (s' = s) as -> by congruence.
  destruct (contexts_ok show_double Hd order infos Hi Hn t Ht Hp (written s)) as (os & Et & Hos & Hr).
  { apply Forall_forall. apply (inv_heap _ _ _ Hs). }
  assert (Hup : closed t (written s)).
  { intros c n p Hc Hcn Hcp. by destruct (inv_up _ _ _ Hs c n p Hc Hcn Hcp). }
  destruct (load_context_any show_double infos t Ht set_order (written s) (map reading os) (arrive (map reading os)))
    as (m & El & Hm); [done|done|apply (inv_once _ _ _ Hs)|done|done|apply Harr|].
  split; [done|]. split; [done|].
  exists (map (context_text order) os), (arrive (map reading os)), m.
  split_and!; [done|by apply (HomoXMLParser_texts order), context_texts_of|done..].
Qed.

(** C23: The offline tools rebuild the calling-context tree. The text that a thread leaves, of a tree
    with a measured context, is parsed by threads that may end in any order, and loaded without an
    error into a tree with the one root ["0"]; its contexts are the written ones, each with its
    frame, with the table of its metrics and with exactly its written children; and the paths
    listed from the root are exactly those down to the written contexts without written
    children. *)
Theorem contexts_rebuilt {D : Type} `{DoubleOps D} (show_double : D -> str)
    (order : gmap str str -> list (str * str)) (set_order : gset str -> list str)
    (arrive : list PyObj -> list PyObj) (infos : list metric_info_t)
    (t : ContextTree (M := list (metric_val_t D))) (elems : list nat) (cache : CodeCache) (s : dump_state) :
  (forall d, value_ok (show_double d)) -> (forall m, order m ≡ₚ map_to_list m) ->
  (forall u, set_order u ≡ₚ elements u) -> (forall l, arrive l ≡ₚ l) ->
  Forall (fun i => value_ok (lit (event_measure i)) /\ value_ok (lit (event_name i))) infos ->
  Z.of_nat (length infos) < 2 ^ 31 -> tree_ok t ->
  (forall c n, heap t !! c = Some n ->
    0 <= method_id (n_frame n) /\ forall m, n_metrics n = Some m -> metrics_plain infos m) ->
  elems ≡ₚ (map_to_list (context_map t)).*2 ->
  dump_tree t elems (mkDump ∅ [] cache) = Some s -> written s <> [] ->
  exists texts os m, dump_text show_double order infos t s = Some texts /\
    HomoXMLParser arrive (lit "context") (lit XML_FILE_HEADER ++ [c_newline] ++ concat texts) = Some (mkPy (lit "root") ∅ os) /\
    load_context os = Some m /\ cm_roots m = {[lit "0"]} /\
    (forall c, c ∈ written s -> exists x, entry show_double infos t (written s) m c x) /\
    (forall i x, cm_dict m !! i = Some x -> exists c, c ∈ written s /\ entry show_double infos t (written s) m c x) /\
    exists ps, getAllPaths set_order (length (written s)) (cm_dict m) (lit "0") = Some ps /\
      forall p, p ∈ ps <-> exists l, leaf_path t (written s) (tree_root t) l /\
        Forall2 (entry show_double infos t (written s) m) l p.
Proof.
  intros Hd Ho Hso Harr Hi Hn Ht Hp Hel E Hne.
  destruct (contexts_read show_double order set_order arrive infos t elems cache s Hd Ho Hso Harr Hi Hn Ht Hp Hel E Hne)
    as (_ & _ & texts & os & m & E1 & E2 & E3 & [H1 H2 H3 H4]).
  exists texts, os, m. split_and!; [done..|intros i x Hx; by destruct (H3 i x Hx)|done].
Qed.

Module Demo.
Import Report.Demo.
(** The demonstration of the report: a root, a context and a measured context below it. *)
Definition demo_text : list str := default [] (dump_text show_double map_to_list infos tree walked).
Definition loaded : option manager :=
  o ← HomoXMLParser (@rev PyObj) (lit "context") (lit XML_FILE_HEADER ++ [c_newline] ++ concat demo_text); load_context (py_children o).

(** The metric's context is a leaf with its table, and the only path leads to it. *)
Example demo_paths :
  (m ← loaded; ps ← getAllPaths elements 3 (cm_dict m) (lit "0");
   Some (map (map (fun c => (pc_id c, map_to_list (pc_metrics c)))) ps)) =
  Some [[(lit "0", []); (lit "1", []); (lit "2", [(lit "CYCLES:count", lit "5")])]].
Proof. vm_compute. reflexivity. Qed.

Lemma contexts_rebuilt_witness : is_Some (dump_text show_double map_to_list infos tree walked) /\ written walked = [2; 1; 0]%nat.
Proof.
  split; [|exact demo_written].
  destruct (contexts_rebuilt show_double map_to_list elements (@rev PyObj) infos tree elems CodeCache_new walked)
    as (texts & os & m & E & _).
  - intros d. reflexivity.
  - intros m. reflexivity.
  - intros u. reflexivity.
  - intros l. symmetry. apply Permutation_rev.
  - repeat constructor.
  - reflexivity.
  - exact tree_is_ok.
  - exact demo_plain.
  - reflexivity.
  - exact demo_walk.
  - rewrite demo_written. discriminate.
  - exists texts. exact E.
Defined.
End Demo.
