(* ===== verification/Timeline.v ===== *)
(** * Timeline: the trace that the offline tools draw of a thread

    [output_to_pftrace] of offlineprocess/process_raw_data.py makes one track of slices from the
    recorded calls of a thread, and the classes of _tgen.py and _core.py put its slices into
    packets of a trace file. [timeline_innermost] says when the track shows at every moment the
    innermost call that runs.

    The message classes and their serialization are generated code, and a parameter. [None] is an
    exception. *)
From stdpp Require Import base numbers list strings pretty gmap sorting.
From Stdlib Require Import ZArith Lia Ascii SpecFloat.
From S2P Require Import Prelude Xml Metrics ContextTree Report.
Local Open Scope Z_scope.

(** ** Values of the script *)
Inductive pyval :=
  | VStr (s : str) | VBool (b : bool) | VInt (z : Z) | VFloat (x : spec_float)
  | VDict (l : list (str * pyval))        (* in the order of insertion *)
  | VList (l : list pyval)                (* or a tuple *)
  | VOther (type_name : str).             (* anything else, as [str(type(v))] *)

(** [Trace]: a recorded call. *)
Record Trace := mkTrace {
  t_start : Z;
  t_end : Z;
  metrics_dict : list (str * pyval);
  callpath : str;
}.

(** ** Positions in a text

    [s.find(c)], [s.rfind(c, 0, hi)] with Python's negative positions, and slices. *)
Fixpoint find_char (c : ascii) (i : Z) (s : str) : Z :=
  match s with [] => -1 | x :: s => if bool_decide (x = c) then i else find_char c (i + 1) s end.
Fixpoint rfind_char (c : ascii) (i : Z) (found : Z) (s : str) : Z :=
  match s with [] => found | x :: s => rfind_char c (i + 1) (if bool_decide (x = c) then i else found) s end.
Definition py_pos (p : Z) (s : str) : nat :=
  let n := Z.of_nat (length s) in Z.to_nat (if p <? 0 then Z.max 0 (n + p) else Z.min n p).
Definition py_slice (a b : Z) (s : str) : str := drop (py_pos a s) (take (py_pos b s) s).
Definition find (c : ascii) (s : str) : Z := find_char c 0 s.
Definition rfind (c : ascii) (hi : Z) (s : str) : Z := rfind_char c 0 (-1) (take (py_pos hi s) s).

Definition c_dot : ascii := ".".
Definition c_open : ascii := "(".

(** What a slice is called: the last part of the class, and the method. *)
Definition method_part (s : str) : str :=
  py_slice (rfind c_dot (rfind c_dot (find c_open s) s) s + 1) (find c_open s) s.
Definition slice_name (callpath : str) : str :=
  let n := Z.of_nat (length callpath) in
  method_part (py_slice (rfind c_newline n callpath + 2) n callpath).

(** ** The track *)
Inductive track_event :=
  | Open (ts : Z) (name categories : str) (metrics : list (str * pyval))
  | Close (ts : Z).

(** [sorted(trace_list, key = start)], which is stable. *)
Fixpoint insert_row (r : Trace) (rows : list Trace) : list Trace :=
  match rows with
  | [] => [r]
  | x :: rows' => if t_start r <? t_start x then r :: rows else x :: insert_row r rows'
  end.
Definition sort_rows (trace_list : list Trace) : list Trace := foldl (fun l r => insert_row r l) [] trace_list.

Section track.
Variable rows : list Trace.
Let name_list : list str := map (fun c => slice_name (callpath c)) rows.

(** The loop that closes the rows that have ended; the stack has its top first. *)
Fixpoint pop_ended (r : Trace) (my_stack : list nat) (ev : list track_event)
  : option (list nat * list track_event) :=
  match my_stack with
  | temp :: ((below :: _) as rest) =>
      t ← rows !! temp;
      if t_end t <? t_start r then
        name ← name_list !! below;
        pop_ended r rest (ev ++ [Close (t_end t); Open (t_end t) name (drop 1 (callpath r)) (metrics_dict t)])
      else Some (my_stack, ev)
  | _ => Some (my_stack, ev)
  end.

(** One turn of the loop over the rows. *)
Definition add_row (i : nat) (st : list nat * list track_event) : option (list nat * list track_event) :=
  let '(my_stack, ev) := st in
  r ← rows !! i; output_name ← name_list !! i;
  let slice := Open (t_start r) output_name (drop 1 (callpath r)) (metrics_dict r) in
  if (i =? 0)%nat then Some (i :: my_stack, ev ++ [slice]) else
  top ← head my_stack; t ← rows !! top;
  if t_start r <? t_end t then Some (i :: my_stack, ev ++ [Close (t_start r); slice]) else
  '(my_stack, ev) ← pop_ended r my_stack ev;
  top ← head my_stack; t ← rows !! top;
  if t_start r <? t_end t then Some (i :: my_stack, ev ++ [Close (t_start r); slice])
  else Some (i :: tail my_stack, ev ++ [Close (t_end t); slice]).

Fixpoint add_rows (ids : list nat) (st : list nat * list track_event) : option (list nat * list track_event) :=
  match ids with [] => Some st | i :: ids => st ← add_row i st; add_rows ids st end.

(** What is still open at the end; the pop of an empty list raises. *)
Fixpoint close_all (my_stack : list nat) (ev : list track_event) : option (list track_event) :=
  match my_stack with
  | [] => None
  | [last_] => t ← rows !! last_; Some (ev ++ [Close (t_end t)])
  | temp :: ((below :: _) as rest) =>
      t ← rows !! temp; name ← name_list !! below;
      close_all rest (ev ++ [Close (t_end t); Open (t_end t) name (callpath t) (metrics_dict t)])
  end.

Definition track_events : option (list track_event) :=
  '(my_stack, ev) ← add_rows (seq 0 (length rows)) ([], []);
  close_all my_stack ev.
End track.

(** ** The trace file (_tgen.py and _core.py)

    What a message holds that is put into the trace. *)
Inductive ann_value := NoValue | string_value (s : str) | bool_value (b : bool) | int_value (z : Z) | double_value (x : spec_float).
Inductive DebugAnnotation :=
  mkAnn (name : option str) (value : ann_value) (dict_entries array_values : list DebugAnnotation).

Inductive packet :=
  | PacketDefaults
  | PacketProcess (uuid pid : Z) (process_name track_name : str)
  | PacketTrack (uuid : Z) (name : str) (parent_uuid : option Z)
  | PacketBegin (uuid timestamp : Z) (name categories : str) (debug_annotations : list DebugAnnotation)
  | PacketEnd (uuid timestamp : Z).

(** The fields refuse what is out of their range. *)
Definition proto_uint64 (z : Z) : option Z := if (0 <=? z) && (z <? 2 ^ 64) then Some z else None.
Definition proto_int64 (z : Z) : option Z := if (- 2 ^ 63 <=? z) && (z <? 2 ^ 63) then Some z else None.

Definition list_max_size : nat := 64.
Definition more_items (n : nat) : str := lit "(" ++ show_int (Z.of_nat n) ++ lit " more items)".
Definition ann_string (name : option str) (s : str) : DebugAnnotation := mkAnn name (string_value s) [] [].

(** The loop of [_add_debug_annotation_new] over a dictionary of [n] entries, [cnt - 1] of which
    are done. *)
Fixpoint dict_loop (set_single : option str -> pyval -> option DebugAnnotation) (n cnt : nat) (l : list (str * pyval))
  : option (list DebugAnnotation) :=
  match l with
  | [] => Some []
  | (k, v) :: l =>
      if (cnt =? list_max_size)%nat then Some [ann_string (Some (lit "...")) (more_items (n - cnt))]
      else
        e ← set_single (Some k) v;
        es ← dict_loop set_single n (S cnt) l;
        Some (e :: es)
  end.
(** Its loop over a list, [i] of whose [n] elements are done. *)
Fixpoint list_loop (set_element : pyval -> option DebugAnnotation) (n i : nat) (l : list pyval) : option (list DebugAnnotation) :=
  match l with
  | [] => Some []
  | v :: l =>
      if (i =? list_max_size)%nat then Some [ann_string None (lit "... " ++ more_items (n - i))]
      else
        e ← set_element v;
        es ← list_loop set_element n (S i) l;
        Some (e :: es)
  end.

(** A list in a list is wrapped in a dictionary with the key [array]. *)
Fixpoint set_single (name : option str) (v : pyval) : option DebugAnnotation :=
  match v with
  | VStr s => Some (ann_string name s)
  | VBool b => Some (mkAnn name (bool_value b) [] [])
  | VInt z => z ← proto_int64 z; Some (mkAnn name (int_value z) [] [])
  | VFloat x => Some (mkAnn name (double_value x) [] [])
  | VDict [] | VList [] => Some (ann_string name (lit "[empty]"))
  | VDict l => es ← dict_loop set_single (length l) 1 l; Some (mkAnn name NoValue es [])
  | VList l =>
      es ← list_loop (fun vv =>
             match vv with
             | VList _ => e ← set_single (Some (lit "array")) vv; Some (mkAnn None NoValue [e] [])
             | _ => set_single None vv
             end) (length l) 0 l;
      Some (mkAnn name NoValue [] es)
  | VOther t => Some (ann_string name t)
  end.
Definition add_debug_annotation_new (kwargs : list (str * pyval)) : option (list DebugAnnotation) :=
  dict_loop set_single (length kwargs) 1 kwargs.

Record TraceGenerator := mkGen {
  g_uuid : Z;
  g_pid : Z;
  g_packets : list packet;       (* of the trace that is not yet written *)
  g_file : list byte;
}.
Definition TraceGenerator_new : TraceGenerator := mkGen 1234567 1 [PacketDefaults] [].
Definition flush_threshold : nat := 10000.

Section generator.
(** [SerializeToString] of the message of packets. *)
Variable SerializeToString : list packet -> list byte.

Definition flush_trace (g : TraceGenerator) : TraceGenerator :=
  mkGen (g_uuid g) (g_pid g) [] (g_file g ++ SerializeToString (g_packets g)).
Definition flush_if_necessary (g : TraceGenerator) : TraceGenerator :=
  if (flush_threshold <? length (g_packets g))%nat then flush_trace g else g.
Definition add_packet (p : packet) (g : TraceGenerator) : TraceGenerator :=
  flush_if_necessary (mkGen (g_uuid g) (g_pid g) (g_packets g ++ [p]) (g_file g)).
Definition next_uuid (g : TraceGenerator) : TraceGenerator := mkGen (g_uuid g + 1) (g_pid g) (g_packets g) (g_file g).
Definition next_pid (g : TraceGenerator) : TraceGenerator := mkGen (g_uuid g) (g_pid g + 1) (g_packets g) (g_file g).

(** The new group's and the new track's [uuid]. *)
Definition create_group (process_name : str) (g : TraceGenerator) : Z * TraceGenerator :=
  (g_uuid g, add_packet (PacketProcess (g_uuid g) (g_pid g) process_name process_name) (next_uuid (next_pid g))).
Definition create_track (parent_uuid : Z) (track_name : str) (g : TraceGenerator) : Z * TraceGenerator :=
  (g_uuid g, add_packet (PacketTrack (g_uuid g) track_name (if parent_uuid =? 0 then None else Some parent_uuid)) (next_uuid (next_pid g))).

Definition track_open (uuid ts : Z) (annotation : str) (kwargs : list (str * pyval)) (categories : str) (g : TraceGenerator)
  : option TraceGenerator :=
  ts ← proto_uint64 ts; anns ← add_debug_annotation_new kwargs;
  Some (add_packet (PacketBegin uuid ts annotation categories anns) g).
Definition track_close (uuid ts : Z) (g : TraceGenerator) : option TraceGenerator :=
  ts ← proto_uint64 ts; Some (add_packet (PacketEnd uuid ts) g).

Fixpoint put_events (tid : Z) (ev : list track_event) (g : TraceGenerator) : option TraceGenerator :=
  match ev with
  | [] => Some g
  | Open ts name categories metrics :: ev =>
      g ← track_open tid ts name [(lit "metrics", VDict metrics)] categories g; put_events tid ev g
  | Close ts :: ev => g ← track_close tid ts g; put_events tid ev g
  end.

(** The file, which the generator's end flushes once more. *)
Definition output_to_pftrace (trace_list : list Trace) (name : str) : option (list byte) :=
  let '(pid, g) := create_group (lit "Thread ID") TraceGenerator_new in
  let '(tid, g) := create_track pid name g in
  ev ← track_events (sort_rows trace_list);
  g ← put_events tid ev g;
  Some (g_file (flush_trace (flush_trace g))).
End generator.

(** ** What is drawn *)

(** A slice of the track. *)
Record slice := mkSlice { s_from : Z; s_to : Z; s_name : str; s_cat : str; s_metrics : list (str * pyval) }.

(** The events of slices that follow one another. *)
Definition flat (ss : list slice) : list track_event :=
  concat (map (fun s => [Open (s_from s) (s_name s) (s_cat s) (s_metrics s); Close (s_to s)]) ss).
Definition drawn (ss : list slice) (t : Z) : list str := map s_name (filter (fun s => s_from s <= t < s_to s) ss).

(** The call that runs at [t]: among those under way the one that started last. *)
Definition innermost (rows : list Trace) (t : Z) : option Trace := last (filter (fun r => t_start r <= t < t_end r) rows).

(** Calls that are nested or apart. Two may end together when no other starts just then. *)
Definition nested (rows : list Trace) : Prop :=
  Forall (fun r => t_start r <= t_end r) rows /\
  forall i j ri rj, rows !! i = Some ri -> rows !! j = Some rj -> (i < j)%nat ->
    t_end ri <= t_start rj \/ t_end rj < t_end ri \/
    t_end rj = t_end ri /\ forall k rk, (j < k)%nat -> rows !! k = Some rk -> t_start rk <> t_end ri.

(** A slice shows a row from its start, or takes it up again when another one has ended: then it has
    the metrics of that one. *)
Definition slice_of (rows : list Trace) (s : slice) : Prop :=
  s_from s <= s_to s /\ (exists r, r ∈ rows /\ (s_to s = t_start r \/ s_to s = t_end r)) /\ exists r, r ∈ rows /\ s_name s = slice_name (callpath r) /\
    (s_from s = t_start r /\ s_cat s = drop 1 (callpath r) /\ s_metrics s = metrics_dict r \/
     exists e, e ∈ rows /\ s_from s = t_end e /\ s_metrics s = metrics_dict e).

Lemma flat_app a b : flat (a ++ b) = flat a ++ flat b.
Proof. unfold flat. by rewrite map_app, concat_app. Qed.
Lemma drawn_app a b t : drawn (a ++ b) t = drawn a t ++ drawn b t.
Proof. unfold drawn. by rewrite filter_app, map_app. Qed.
Lemma drawn_before ss t c : Forall (fun s => c <= s_from s) ss -> t < c -> drawn ss t = [].
Proof.
  intros Hs Ht. unfold drawn. induction Hs as [|s ss Hs _ IH]; [done|]. rewrite filter_cons, decide_False by lia. exact IH.
Qed.
Lemma drawn_after ss t c : Forall (fun s => s_to s <= c) ss -> c <= t -> drawn ss t = [].
Proof.
  intros Hs Ht. unfold drawn. induction Hs as [|s ss Hs _ IH]; [done|]. rewrite filter_cons, decide_False by lia. exact IH.
Qed.
Lemma drawn_one s t : drawn [s] t = if decide (s_from s <= t < s_to s) then [s_name s] else [].
Proof. unfold drawn. rewrite filter_cons, filter_nil. by case_decide. Qed.

(** *** Sorting *)
Lemma insert_row_perm r rows : insert_row r rows ≡ₚ r :: rows.
Proof. induction rows as [|x rows IH]; [done|]. cbn. destruct (_ <? _); [done|]. rewrite IH. apply Permutation_swap. Qed.
Lemma sort_rows_perm l : sort_rows l ≡ₚ l.
Proof.
  unfold sort_rows. cut (forall acc, foldl (fun l r => insert_row r l) acc l ≡ₚ acc ++ l); [intros H; apply H|].
  induction l as [|r l IH]; intros acc; cbn; [by rewrite app_nil_r|]. rewrite IH, insert_row_perm. by rewrite <- Permutation_middle.
Qed.

Definition sorted_rows : list Trace -> Prop := StronglySorted (fun a b => t_start a <= t_start b).
Lemma insert_row_sorted r rows : sorted_rows rows -> sorted_rows (insert_row r rows).
Proof.
  induction 1 as [|x rows Hs IH Hx]; cbn; [repeat constructor|]. destruct (Z.ltb_spec (t_start r) (t_start x)).
  - constructor; [by constructor|]. constructor; [lia|]. eapply Forall_impl; [exact Hx|]. cbn. lia.
  - constructor; [done|]. rewrite insert_row_perm. by constructor.
Qed.
Lemma sort_rows_sorted l : sorted_rows (sort_rows l).
Proof.
  unfold sort_rows. cut (forall acc, sorted_rows acc -> sorted_rows (foldl (fun l r => insert_row r l) acc l));
    [intros H; apply H; constructor|].
  induction l as [|r l IH]; intros acc Hacc; cbn; [done|]. by apply IH, insert_row_sorted.
Qed.
Lemma sorted_rows_lookup rows i j a b : sorted_rows rows -> rows !! i = Some a -> rows !! j = Some b -> (i <= j)%nat -> t_start a <= t_start b.
Proof.
  intros Hs. revert i j. induction Hs as [|x rows _ IH Hx]; intros i j; [done|]. rewrite Forall_forall in Hx.
  destruct i as [|i], j as [|j]; cbn; intros Ha Hb Hij; try lia.
  - assert (a = b) as -> by congruence. lia.
  - injection Ha as <-. by apply Hx, (list_elem_of_lookup_2 _ j).
  - apply (IH i j); [done|done|lia].
Qed.

(** *** The loop over the rows *)
Section drawing.
Variable rows : list Trace.
Hypothesis Hsorted : sorted_rows rows.
Hypothesis Hnested : nested rows.

Definition no_row : Trace := mkTrace 0 0 [] [].
(** The row at an index of the stack. *)
Definition row (j : nat) : Trace := default no_row (rows !! j).
Definition name_at (j : nat) : str := slice_name (callpath (row j)).

Lemma row_at j : (j < length rows)%nat -> rows !! j = Some (row j).
Proof. intros Hj. unfold row. by destruct (lookup_lt_is_Some_2 rows j Hj) as [r ->]. Qed.
Lemma row_name j : (j < length rows)%nat -> map (fun c => slice_name (callpath c)) rows !! j = Some (name_at j).
Proof. intros Hj. rewrite list_lookup_fmap, row_at by done. done. Qed.
Lemma row_in j : (j < length rows)%nat -> row j ∈ rows.
Proof. intros Hj. eapply list_elem_of_lookup_2, row_at, Hj. Qed.
Lemma row_order j : (j < length rows)%nat -> t_start (row j) <= t_end (row j).
Proof. intros Hj. destruct Hnested as [Hn _]. rewrite Forall_forall in Hn. by apply Hn, row_in. Qed.
Lemma row_sorted i j : (i <= j)%nat -> (j < length rows)%nat -> t_start (row i) <= t_start (row j).
Proof. intros Hi Hj. eapply (sorted_rows_lookup rows i j); [done|apply row_at; lia|by apply row_at|done]. Qed.

(** [a] is on the stack above [b]. *)
Definition above (a b : nat) : Prop :=
  (b < a)%nat /\ t_start (row a) < t_end (row b) /\ t_end (row a) <= t_end (row b).
Definition is_stack (n : nat) (my_stack : list nat) : Prop :=
  StronglySorted above my_stack /\ Forall (fun j => (j < n)%nat) my_stack.

(** What should be drawn at [t], given the stack. *)
Fixpoint shown (my_stack : list nat) (t : Z) : list str :=
  match my_stack with
  | [] => []
  | j :: my_stack => if decide (t < t_end (row j)) then [name_at j] else shown my_stack t
  end.

Lemma shown_none my_stack t : Forall (fun j => t_end (row j) <= t) my_stack -> shown my_stack t = [].
Proof. induction 1 as [|j l Hj _ IH]; [done|]. cbn. by rewrite decide_False by lia. Qed.

Lemma is_stack_tail n j l : is_stack n (j :: l) -> is_stack n l.
Proof. intros [Hs Hn]. apply StronglySorted_inv in Hs as [Hs _]. apply Forall_cons in Hn as [_ Hn]. by split. Qed.
Lemma is_stack_above n j l : is_stack n (j :: l) -> Forall (above j) l.
Proof. intros [Hs _]. by apply StronglySorted_inv in Hs as [_ Hs]. Qed.

(** What the innermost row is, if all rows but those on the stack have ended at [t] or start later. *)
Lemma innermost_shown n my_stack t :
  is_stack n my_stack -> (n <= length rows)%nat ->
  (forall j, j ∈ my_stack -> t_start (row j) <= t) ->
  (forall j, (j < n)%nat -> j ∉ my_stack -> t_end (row j) <= t) ->
  (forall j, (n <= j < length rows)%nat -> t < t_start (row j)) ->
  match innermost rows t with Some r => [slice_name (callpath r)] | None => [] end = shown my_stack t.
Proof.
  intros Hst Hn Hin Hout Hlater.
  assert (Hcov : forall j r, rows !! j = Some r -> t_start r <= t < t_end r -> j ∈ my_stack /\ row j = r).
  { intros j r Hj Hr. assert (row j = r) as E by (unfold row; by rewrite Hj). split; [|done]. subst r.
    apply lookup_lt_Some in Hj. destruct (decide (j ∈ my_stack)) as [?|Hnot]; [done|].
    exfalso. destruct (decide (j < n)%nat) as [Hlt|Hge]; [specialize (Hout j Hlt Hnot)|specialize (Hlater j ltac:(lia))]; lia. }
  clear Hout Hlater. unfold innermost.
  assert (Hlast : forall j, (j < length rows)%nat -> t_start (row j) <= t < t_end (row j) ->
    (forall k r, (j < k)%nat -> rows !! k = Some r -> ~ t_start r <= t < t_end r) ->
    last (filter (fun r => t_start r <= t < t_end r) rows) = Some (row j)).
  { intros j Hj Hc Hno. rewrite <- (take_drop_middle rows j (row j)) at 1 by (by apply row_at).
    rewrite filter_app, filter_cons, decide_True by done.
    assert (filter (fun r => t_start r <= t < t_end r) (drop (S j) rows) = []) as ->.
    { destruct (filter _ _) as [|r l] eqn:E; [done|]. assert (r ∈ filter (fun r => t_start r <= t < t_end r) (drop (S j) rows)) as Hr
        by (rewrite E; by left). apply list_elem_of_filter in Hr as [Hr [k Hk]%list_elem_of_lookup]. rewrite lookup_drop in Hk.
      exfalso. eapply (Hno (S j + k)%nat); [lia|exact Hk|done]. }
    by rewrite last_snoc. }
  assert (Hmax : forall l, is_stack n l -> (forall j, j ∈ l -> j ∈ my_stack) ->
    (forall k r, rows !! k = Some r -> t_start r <= t < t_end r -> k ∈ l) ->
    match last (filter (fun r => t_start r <= t < t_end r) rows) with Some r => [slice_name (callpath r)] | None => [] end = shown l t).
  { clear Hst. induction l as [|j l IH]; intros Hst Hsub Hall; cbn.
    - destruct (last _) as [r|] eqn:E; [|done]. apply last_Some_elem_of, list_elem_of_filter in E as [Hr [k Hk]%list_elem_of_lookup].
      exfalso. by eapply not_elem_of_nil, (Hall k r).
    - pose proof (is_stack_above _ _ _ Hst) as Hab. rewrite Forall_forall in Hab. case_decide as Ej.
      + assert (Hjn : (j < n)%nat) by (destruct Hst as [_ Hf]; by apply Forall_cons in Hf as [? _]).
        rewrite (Hlast j); [done|lia|split; [apply Hin, Hsub; by left|done]|].
        intros k r Hk Hkr Hc. apply (Hall k r Hkr) in Hc as [->|Hkl]%elem_of_cons; [lia|]. apply Hab in Hkl as [? _]. lia.
      + apply IH; [by eapply is_stack_tail|intros x Hx; apply Hsub; by right|]. intros k r Hk Hc.
        pose proof (Hall k r Hk Hc) as [->|Hkl]%elem_of_cons; [|done]. destruct (Hcov _ _ Hk Hc) as [_ <-]. lia. }
  apply Hmax; [done|done|]. intros k r Hk Hc. by apply (Hcov k r).
Qed.

(** The slice open from [c] is one of [row j]. *)
Definition opened (c : Z) (j : nat) (cat : str) (m : list (str * pyval)) : Prop :=
  c = t_start (row j) /\ cat = drop 1 (callpath (row j)) /\ m = metrics_dict (row j) \/
  exists e, e ∈ rows /\ c = t_end e /\ m = metrics_dict e.
(** The track so far: slices, and one that is open. *)
Definition so_far (ss : list slice) (c : Z) (j : nat) (cat : str) (m : list (str * pyval)) : list track_event :=
  flat ss ++ [Open c (name_at j) cat m].

Lemma opened_slice c j cat m b : opened c j cat m -> (j < length rows)%nat -> c <= b ->
  (exists r, r ∈ rows /\ (b = t_start r \/ b = t_end r)) -> slice_of rows (mkSlice c b (name_at j) cat m).
Proof. intros Ho Hj Hb Hr. split; [done|]. split; [exact Hr|]. exists (row j). split_and!; [by apply row_in|done|]. exact Ho. Qed.
Lemma so_far_close ss c j cat m b (ev : list track_event) :
  so_far ss c j cat m ++ Close b :: ev = flat (ss ++ [mkSlice c b (name_at j) cat m]) ++ ev.
Proof. unfold so_far. rewrite flat_app, <- !app_assoc. done. Qed.

Lemma pop_ended_cons r j b l ev : pop_ended rows r (j :: b :: l) ev =
  (t ← rows !! j;
   if t_end t <? t_start r then
     name ← map (fun c => slice_name (callpath c)) rows !! b;
     pop_ended rows r (b :: l) (ev ++ [Close (t_end t); Open (t_end t) name (drop 1 (callpath r)) (metrics_dict t)])
   else Some (j :: b :: l, ev)).
Proof. done. Qed.

Lemma pop_ended_ok n r l : forall j ss c cat m,
  is_stack n (j :: l) -> (n <= length rows)%nat -> opened c j cat m -> c <= t_end (row j) -> c <= t_start r ->
  exists j' l' more c' cat' m',
    pop_ended rows r (j :: l) (so_far ss c j cat m) = Some (j' :: l', so_far (ss ++ more) c' j' cat' m') /\
    is_stack n (j' :: l') /\ opened c' j' cat' m' /\ c <= c' <= t_start r /\ c' <= t_end (row j') /\
    (forall x, x ∈ j' :: l' -> x ∈ j :: l) /\
    (forall x, x ∈ j :: l -> x ∉ j' :: l' -> t_end (row x) < t_start r) /\
    Forall (fun s => c <= s_from s /\ s_to s <= c') more /\ Forall (slice_of rows) more /\
    (forall t, c <= t < c' -> drawn more t = shown (j :: l) t) /\
    (forall t, c' <= t -> shown (j :: l) t = shown (j' :: l') t) /\
    (l' = [] \/ t_start r <= t_end (row j')).
Proof.
  induction l as [|b l IH]; intros j ss c cat m Hst Hn Ho Hc Hcr.
  { exists j, [], [], c, cat, m. rewrite app_nil_r. split_and!; try done; try lia; try by left. }
  pose proof Hst as [_ Hlt]. apply Forall_cons in Hlt as [Hj Hlt]. apply Forall_cons in Hlt as [Hb _].
  pose proof (is_stack_above _ _ _ Hst) as [(_ & _ & Hjb) _]%Forall_cons.
  rewrite pop_ended_cons, (row_at j) by lia. cbn [mbind option_bind]. destruct (Z.ltb_spec (t_end (row j)) (t_start r)) as [Hend|Hend].
  - rewrite row_name by lia. cbn [mbind option_bind]. set (s := mkSlice c (t_end (row j)) (name_at j) cat m).
    rewrite so_far_close. fold s.
    destruct (IH b (ss ++ [s]) (t_end (row j)) (drop 1 (callpath r)) (metrics_dict (row j))) as
      (j' & l' & more & c' & cat' & m' & E & Hst' & Ho' & Hc' & Hce & Hin & Hout & Hmore & Hsl & Hd & Hd' & Hor);
      [by eapply is_stack_tail|done|right; exists (row j); split; [apply row_in; lia|done]|done|lia|].
    exists j', l', (s :: more), c', cat', m'. unfold so_far in E at 1. rewrite E. rewrite <- app_assoc. split_and!; try done; try lia.
    + intros x Hx. right. by apply Hin.
    + intros x [->|Hx]%elem_of_cons Hnot; [done|by apply Hout].
    + constructor; [cbn; lia|]. eapply Forall_impl; [exact Hmore|]. cbn. lia.
    + constructor; [apply opened_slice; [done|lia|done|exists (row j); split; [apply row_in; lia|by right]]|done].
    + intros t Ht. change (s :: more) with ([s] ++ more). rewrite drawn_app, drawn_one. cbn [s_from s_to s shown].
      destruct (decide (t < t_end (row j))) as [Hl|Hl].
      * rewrite decide_True by lia. rewrite (drawn_before more t (t_end (row j))); [done|eapply Forall_impl; [exact Hmore|by intros ? []]|done].
      * rewrite decide_False by lia. apply Hd. lia.
    + intros t Ht. cbn [shown]. rewrite decide_False by lia. by apply Hd'.
  - exists j, (b :: l), [], c, cat, m. rewrite app_nil_r. split_and!; try done; try lia.
Qed.

(** The invariant of the loop when the rows before [n] are drawn, of which the last is on top. *)
Record drawing (n : nat) (j : nat) (l : list nat) (ev : list track_event) (ss : list slice) (c : Z) : Prop := {
  dr_top : n = S j;
  dr_rows : (n <= length rows)%nat;
  dr_stack : is_stack n (j :: l);
  dr_at : c = t_start (row j);
  dr_ev : exists cat m, ev = so_far ss c j cat m /\ opened c j cat m;
  dr_slices : Forall (slice_of rows) ss /\ Forall (fun s => s_to s <= c) ss;
  dr_ended : forall k, (k < n)%nat -> k ∉ j :: l -> t_end (row k) <= c;
  dr_drawn : forall t, t < c -> drawn ss t = match innermost rows t with Some r => [slice_name (callpath r)] | None => [] end;
}.

(** What should be drawn from [c] up to the next row. *)
Lemma drawing_shown n j l ev ss c t : drawing n j l ev ss c -> c <= t -> (forall k, (n <= k < length rows)%nat -> t < t_start (row k)) ->
  match innermost rows t with Some r => [slice_name (callpath r)] | None => [] end = shown (j :: l) t.
Proof.
  intros [-> Hn Hst -> _ _ Hend _] Ht Hlater. eapply innermost_shown; [exact Hst|done| | |done].
  - intros x Hx. destruct Hst as [_ Hf]. rewrite Forall_forall in Hf. specialize (Hf x Hx).
    pose proof (row_sorted x j). lia.
  - intros x Hx Hnot. specialize (Hend x Hx Hnot). lia.
Qed.

(** A new row is put on top of those that go on. *)
Lemma push_stack n j l rest : (n < length rows)%nat -> is_stack n (j :: l) ->
  (rest = j :: l /\ t_start (row n) < t_end (row j) \/
   rest = l /\ t_end (row j) <= t_start (row n) /\ (l = [] \/ t_start (row n) <= t_end (row j))) ->
  is_stack (S n) (n :: rest).
Proof.
  intros Hn Hst Hrest. pose proof Hst as [_ Hlt]. rewrite Forall_forall in Hlt.
  assert (Hbelow : forall x, x ∈ rest -> t_start (row n) < t_end (row x)).
  { pose proof (is_stack_above _ _ _ Hst) as Hab. rewrite Forall_forall in Hab.
    destruct Hrest as [[-> Hj]|(-> & Hj & Hor)]; intros x Hx.
    - apply elem_of_cons in Hx as [->|Hx]; [done|]. apply Hab in Hx as (_ & _ & ?). lia.
    - destruct Hor as [->|Hor]; [by apply not_elem_of_nil in Hx|]. pose proof (Hab x Hx) as (Hxj & Hs & He).
      assert (Hjn : (j < n)%nat) by (apply Hlt; by left).
      destruct Hnested as [_ Hne]. destruct (Hne x j (row x) (row j)) as [?|[?|[He' Hno]]]; [apply row_at; lia|apply row_at; lia|done|lia|lia|].
      exfalso. apply (Hno n (row n)); [done|by apply row_at|lia]. }
  assert (Hin : forall x, x ∈ rest -> x ∈ j :: l) by (destruct Hrest as [[-> _]|[-> _]]; [done|by right]).
  split.
  - constructor; [destruct Hrest as [[-> _]|[-> _]]; [apply Hst|by apply is_stack_tail in Hst as [? _]]|].
    apply Forall_forall. intros x Hx. specialize (Hbelow x Hx). pose proof (Hlt x (Hin x Hx)). split_and!; [done|done|].
    destruct Hnested as [_ Hne]. destruct (Hne x n (row x) (row n)) as [?|[?|[? _]]]; [apply row_at; lia|by apply row_at|done|lia..].
  - constructor; [lia|]. apply Forall_forall. intros x Hx. specialize (Hlt x (Hin x Hx)). lia.
Qed.

Lemma name_of j : (j < length rows)%nat -> slice_name (callpath (row j)) = name_at j.
Proof. done. Qed.

Lemma add_row_next n j l ev ss c : drawing n j l ev ss c -> (n < length rows)%nat ->
  exists l' ev' ss', add_row rows n (j :: l, ev) = Some (n :: l', ev') /\ drawing (S n) n l' ev' ss' (t_start (row n)).
Proof.
  intros Hdr Hn. pose proof Hdr as [Htop _ Hst Hc (cat & m & Eev & Hop) [Hsl Hto] Hend Hdrawn]. set (r := row n).
  assert (Hjn : (j < n)%nat) by lia. assert (Hcr : c <= t_start r) by (subst c r; apply row_sorted; lia).
  assert (Hce : c <= t_end (row j)) by (subst c; apply row_order; lia).
  destruct (pop_ended_ok n r l j ss c cat m Hst) as
    (j' & l' & more & c' & cat' & m' & E & Hst' & Ho' & Hc' & Hce' & Hin & Hout & Hmore & Hslm & Hd & Hd' & Hor); [lia|done..|].
  pose proof Hst' as [_ [Hj' _]%Forall_cons].
  set (b := Z.min (t_start r) (t_end (row j'))). set (s := mkSlice c' b (name_at j') cat' m').
  set (rest := if t_start r <? t_end (row j') then j' :: l' else l').
  assert (Hb : c' <= b <= t_start r) by lia.
  exists rest, (so_far ((ss ++ more) ++ [s]) (t_start r) n (drop 1 (callpath r)) (metrics_dict r)), ((ss ++ more) ++ [s]). split.
  - unfold add_row. rewrite row_at by lia. cbn [mbind option_bind]. rewrite row_name by lia. cbn [mbind option_bind].
    rewrite (proj2 (Nat.eqb_neq n 0)) by lia. cbn [head mbind option_bind]. rewrite row_at by lia. cbn [mbind option_bind]. fold r.
    assert (Efin : forall b', b' = b -> so_far (ss ++ more) c' j' cat' m' ++ [Close b'; Open (t_start r) (name_at n) (drop 1 (callpath r)) (metrics_dict r)] =
      so_far ((ss ++ more) ++ [s]) (t_start r) n (drop 1 (callpath r)) (metrics_dict r)) by (intros b' ->; by rewrite so_far_close).
    subst ev. destruct (Z.ltb_spec (t_start r) (t_end (row j))) as [Hlt|Hge].
    + assert (pop_ended rows r (j :: l) (so_far ss c j cat m) = Some (j :: l, so_far ss c j cat m)) as E'.
      { destruct l; [done|]. rewrite pop_ended_cons, row_at by lia. cbn [mbind option_bind]. by rewrite (proj2 (Z.ltb_ge _ _)) by lia. }
      rewrite E' in E. injection E as <- <- E. subst rest. rewrite (proj2 (Z.ltb_lt _ _)) by done.
      rewrite E. rewrite Efin by (subst b; lia). done.
    + rewrite E. cbn [mbind option_bind head]. rewrite row_at by lia. cbn [mbind option_bind]. subst rest.
      destruct (Z.ltb_spec (t_start r) (t_end (row j'))); cbn [tail]; rewrite Efin by (subst b; lia); done.
  - assert (Hrest : rest = j' :: l' /\ t_start r < t_end (row j') \/ rest = l' /\ t_end (row j') <= t_start r).
    { subst rest. destruct (Z.ltb_spec (t_start r) (t_end (row j'))); auto. }
    split; [done|done| |done| | | |].
    + apply (push_stack n j' l'); [done|done|]. destruct Hrest as [?|[? ?]]; [by left|right; split_and!; [done..|exact Hor]].
    + exists (drop 1 (callpath r)), (metrics_dict r). split; [done|by left].
    + split.
      * repeat apply Forall_app_2; [done|done|]. apply Forall_singleton, opened_slice; [done|lia|lia|]. destruct (Z.min_spec (t_start r) (t_end (row j'))) as [[_ E']|[_ E']];
          [exists r; split; [by apply row_in|by left]|exists (row j'); split; [apply row_in; lia|by right]].
      * repeat apply Forall_app_2; [eapply Forall_impl; [exact Hto|cbn; lia]|eapply Forall_impl; [exact Hmore|cbn; lia]|].
        apply Forall_singleton. cbn. lia.
    + intros k Hk Hnot. fold r. apply not_elem_of_cons in Hnot as [Hkn Hnot].
      destruct (decide (k ∈ j :: l)) as [Hkl|Hkl]; [|assert (t_end (row k) <= c) by (apply Hend; [lia|done]); lia].
      destruct (decide (k ∈ j' :: l')) as [Hkl'|Hkl']; [|specialize (Hout k Hkl Hkl'); lia].
      destruct Hrest as [[-> _]|[-> ?]]; [done|]. apply elem_of_cons in Hkl' as [->|?]; [lia|done].
    + intros t Ht. fold r in Ht. rewrite !drawn_app, drawn_one. cbn [s_from s_to s_name s].
      destruct (decide (t < c)) as [Htc|Htc].
      { rewrite (drawn_before more t c), decide_False, !app_nil_r; [by apply Hdrawn|lia|eapply Forall_impl; [exact Hmore|cbn; lia]|done]. }
      rewrite (drawn_after ss t c) by (done || lia). cbn [app].
      rewrite (drawing_shown n j l ev ss c) by (first [done|lia|intros k Hk; eapply Z.lt_le_trans; [exact Ht|apply row_sorted; lia]]).
      destruct (decide (t < c')) as [Htc'|Htc'].
      { rewrite decide_False, app_nil_r by lia. apply Hd. lia. }
      rewrite (drawn_after more t c') by (first [lia|eapply Forall_impl; [exact Hmore|cbn; lia]]). rewrite Hd' by lia. cbn [app shown].
      subst b. destruct (decide (t < t_end (row j'))); [by rewrite decide_True by lia|]. rewrite decide_False by lia.
      destruct Hor as [->|?]; [done|lia].
Qed.

Lemma first_row : (0 < length rows)%nat ->
  exists ev, add_row rows 0 ([], []) = Some ([0%nat], ev) /\ drawing 1 0 [] ev [] (t_start (row 0)).
Proof.
  intros Hn. exists (so_far [] (t_start (row 0)) 0 (drop 1 (callpath (row 0))) (metrics_dict (row 0))). split.
  - unfold add_row. rewrite row_at by done. cbn [mbind option_bind]. by rewrite row_name by done.
  - split; [done|done| |done| |done| |].
    + split; [repeat constructor|constructor; [lia|done]].
    + do 2 eexists. split; [done|by left].
    + intros k Hk Hnot. assert (k = 0%nat) as -> by lia. exfalso. apply Hnot. by left.
    + intros t Ht. symmetry. apply (innermost_shown 0 []); [split; [constructor|done]|lia|by intros j ?%not_elem_of_nil|lia|].
      intros j Hj. eapply Z.lt_le_trans; [exact Ht|apply row_sorted; lia].
Qed.

Lemma add_rows_ok k : forall n j l ev ss c, drawing n j l ev ss c -> (n + k = length rows)%nat ->
  exists j' l' ev' ss' c', add_rows rows (seq n k) (j :: l, ev) = Some (j' :: l', ev') /\ drawing (length rows) j' l' ev' ss' c'.
Proof.
  induction k as [|k IH]; intros n j l ev ss c Hdr Hk; cbn [seq add_rows].
  { rewrite Nat.add_0_r in Hk. subst n. by exists j, l, ev, ss, c. }
  destruct (add_row_next n j l ev ss c Hdr) as (l' & ev' & ss' & -> & Hdr'); [lia|]. cbn [mbind option_bind].
  apply (IH (S n) n l' ev' ss' (t_start (row n)) Hdr'). lia.
Qed.

Lemma close_all_cons j b l ev : close_all rows (j :: b :: l) ev =
  (t ← rows !! j; name ← map (fun c => slice_name (callpath c)) rows !! b;
   close_all rows (b :: l) (ev ++ [Close (t_end t); Open (t_end t) name (callpath t) (metrics_dict t)])).
Proof. done. Qed.

Lemma close_all_ok n l : forall j ss c cat m,
  is_stack n (j :: l) -> (n <= length rows)%nat -> opened c j cat m -> c <= t_end (row j) ->
  exists more, close_all rows (j :: l) (so_far ss c j cat m) = Some (flat (ss ++ more)) /\
    Forall (slice_of rows) more /\ Forall (fun s => c <= s_from s) more /\ forall t, c <= t -> drawn more t = shown (j :: l) t.
Proof.
  induction l as [|b l IH]; intros j ss c cat m Hst Hn Ho Hc; pose proof Hst as [_ [Hj Hlt]%Forall_cons];
    set (s := mkSlice c (t_end (row j)) (name_at j) cat m).
  - exists [s]. cbn [close_all]. rewrite row_at by lia. cbn [mbind option_bind]. rewrite so_far_close, app_nil_r. split_and!.
    + done.
    + apply Forall_singleton, opened_slice; [done|lia|done|exists (row j); split; [apply row_in; lia|by right]].
    + apply Forall_singleton. cbn. lia.
    + intros t Ht. rewrite drawn_one. cbn. destruct (decide (t < t_end (row j))); [by rewrite decide_True by lia|by rewrite decide_False by lia].
  - apply Forall_cons in Hlt as [Hb _]. pose proof (is_stack_above _ _ _ Hst) as [(_ & _ & Hjb) _]%Forall_cons.
    rewrite close_all_cons, row_at, row_name by lia. cbn [mbind option_bind]. rewrite so_far_close. fold s.
    destruct (IH b (ss ++ [s]) (t_end (row j)) (callpath (row j)) (metrics_dict (row j))) as (more & E & Hsl & Hfrom & Hd);
      [by eapply is_stack_tail|done|right; exists (row j); split; [apply row_in; lia|done]|done|].
    exists (s :: more). unfold so_far in E at 1. rewrite E, <- app_assoc. split_and!; [done| | |].
    + constructor; [apply opened_slice; [done|lia|done|exists (row j); split; [apply row_in; lia|by right]]|done].
    + constructor; [cbn; lia|]. eapply Forall_impl; [exact Hfrom|]. cbn. lia.
    + intros t Ht. change (s :: more) with ([s] ++ more). rewrite drawn_app, drawn_one. cbn [s_from s_to s_name s shown].
      destruct (decide (t < t_end (row j))) as [Hl|Hl].
      * rewrite decide_True by lia. by rewrite (drawn_before more t (t_end (row j))).
      * rewrite decide_False by lia. apply Hd. lia.
Qed.

Lemma track_ok : (0 < length rows)%nat ->
  exists ss, track_events rows = Some (flat ss) /\ Forall (slice_of rows) ss /\
    forall t, drawn ss t = match innermost rows t with Some r => [slice_name (callpath r)] | None => [] end.
Proof.
  intros Hn. destruct (first_row Hn) as (ev0 & E0 & Hdr0). unfold track_events.
  destruct (add_rows_ok (length rows - 1) 1 0 [] ev0 [] _ Hdr0) as (j & l & ev & ss & c & E & Hdr); [lia|].
  replace (seq 0 (length rows)) with (0%nat :: seq 1 (length rows - 1)) by (destruct (length rows); [lia|]; cbn; by rewrite Nat.sub_0_r).
  cbn [add_rows]. rewrite E0. cbn [mbind option_bind]. rewrite E. cbn [mbind option_bind].
  pose proof Hdr as [Htop _ Hst Hc (cat & m & -> & Hop) [Hsl Hto] _ Hdrawn].
  destruct (close_all_ok (length rows) l j ss c cat m Hst) as (more & -> & Hslm & Hfrom & Hd); [done|done|subst c; apply row_order; lia|].
  exists (ss ++ more). split_and!; [done|by apply Forall_app|]. intros t. rewrite drawn_app.
  destruct (decide (t < c)) as [Ht|Ht].
  - rewrite (drawn_before more t c) by done. rewrite app_nil_r. by apply Hdrawn.
  - rewrite (drawn_after ss t c) by (done || lia). rewrite Hd by lia. symmetry.
    eapply (drawing_shown _ _ _ _ _ _ t Hdr); [lia|]. lia.
Qed.
End drawing.

(** *** The file *)
Section written.
Variable SerializeToString : list packet -> list byte.
(** Messages of repeated fields are concatenated by concatenating their texts. *)
Hypothesis serialize_app : forall a b, SerializeToString (a ++ b) = SerializeToString a ++ SerializeToString b.

(** All packets so far. *)
Definition holds (g : TraceGenerator) (ps : list packet) : Prop :=
  g_file g ++ SerializeToString (g_packets g) = SerializeToString ps.

Lemma serialize_nil : SerializeToString [] = [].
Proof. pose proof (serialize_app [] []) as E. cbn in E. destruct (SerializeToString []) as [|x l]; [done|]. by apply (f_equal length) in E; rewrite length_app in E; cbn in E; lia. Qed.
Lemma holds_flush g ps : holds g ps -> holds (flush_trace SerializeToString g) ps.
Proof. unfold holds. cbn. intros ->. by rewrite serialize_nil, app_nil_r. Qed.
Lemma holds_add g ps p : holds g ps -> holds (add_packet SerializeToString p g) (ps ++ [p]).
Proof.
  intros Hg. assert (holds (mkGen (g_uuid g) (g_pid g) (g_packets g ++ [p]) (g_file g)) (ps ++ [p])).
  { unfold holds in *. cbn. by rewrite !serialize_app, app_assoc, Hg. }
  unfold add_packet, flush_if_necessary. destruct (_ <? _)%nat; [by apply holds_flush|done].
Qed.

(** The values of a slice can be put into a packet. *)
Definition ts_ok (ts : Z) : Prop := 0 <= ts < 2 ^ 64.
Definition metrics_ok (m : list (str * pyval)) : Prop := is_Some (add_debug_annotation_new [(lit "metrics", VDict m)]).
Definition annotations (m : list (str * pyval)) : list DebugAnnotation := default [] (add_debug_annotation_new [(lit "metrics", VDict m)]).
Definition slice_packets (uuid : Z) (s : slice) : list packet :=
  [PacketBegin uuid (s_from s) (s_name s) (s_cat s) (annotations (s_metrics s)); PacketEnd uuid (s_to s)].

Lemma proto_uint64_ok z : ts_ok z -> proto_uint64 z = Some z.
Proof. intros [H1 H2]. unfold proto_uint64. by rewrite (proj2 (Z.leb_le _ _)), (proj2 (Z.ltb_lt _ _)). Qed.

Lemma put_events_ok uuid ss : forall g ps,
  Forall (fun s => ts_ok (s_from s) /\ ts_ok (s_to s) /\ metrics_ok (s_metrics s)) ss -> holds g ps ->
  exists g', put_events SerializeToString uuid (flat ss) g = Some g' /\ holds g' (ps ++ concat (map (slice_packets uuid) ss)).
Proof.
  induction ss as [|s ss IH]; intros g ps Hs Hg; [exists g; cbn; by rewrite app_nil_r|].
  apply Forall_cons in Hs as [(Hf & Ht & [anns Ha]) Hs]. cbn [flat map concat app put_events].
  unfold track_open, track_close. rewrite proto_uint64_ok, Ha by done. cbn [mbind option_bind]. rewrite proto_uint64_ok by done. cbn [mbind option_bind].
  destruct (IH _ _ Hs (holds_add _ _ (PacketEnd uuid (s_to s)) (holds_add _ _ (PacketBegin uuid (s_from s) (s_name s) (s_cat s) anns) Hg)))
    as (g' & E & Hg'). exists g'. split; [exact E|]. rewrite <- !app_assoc in Hg'. unfold slice_packets at 1, annotations. rewrite Ha. exact Hg'.
Qed.

Definition track_header (name : str) : list packet :=
  [PacketDefaults; PacketProcess 1234567 1 (lit "Thread ID") (lit "Thread ID"); PacketTrack 1234568 name (Some 1234567)].

Lemma header_ok name g pid :
  (pid, g) = create_group SerializeToString (lit "Thread ID") TraceGenerator_new ->
  exists g', create_track SerializeToString pid name g = (1234568, g') /\ holds g' (track_header name).
Proof.
  intros [= -> ->]. eexists. split; [done|]. apply (holds_add _ [PacketDefaults; PacketProcess 1234567 1 (lit "Thread ID") (lit "Thread ID")]).
  by apply (holds_add _ [PacketDefaults]).
Qed.
End written.

(** C22: The timeline shows the innermost call. When the recorded calls of a thread are nested or apart, none is
    enclosed by a call that starts together with it and was recorded later,
    and no call starts just when two nested ones end together, the file that [output_to_pftrace]
    writes holds the track's header and slices, of which at every moment one is drawn, with the name of the
    call under way that started last, or none when no call is under way. A slice that begins
    with its call has the call's path and metrics; one that is taken up again when another call has ended has the metrics
    of that other call. Without a recorded call there is an [IndexError]. *)
Theorem timeline_innermost (SerializeToString : list packet -> list byte) (trace_list : list Trace) (name : str) :
  (forall a b, SerializeToString (a ++ b) = SerializeToString a ++ SerializeToString b) ->
  nested (sort_rows trace_list) ->
  Forall (fun r => ts_ok (t_start r) /\ ts_ok (t_end r) /\ metrics_ok (metrics_dict r)) trace_list ->
  match trace_list with
  | [] => output_to_pftrace SerializeToString trace_list name = None
  | _ => exists ss,
      output_to_pftrace SerializeToString trace_list name =
        Some (SerializeToString (track_header name ++ concat (map (slice_packets 1234568) ss))) /\
      Forall (slice_of trace_list) ss /\
      forall t, drawn ss t = match innermost (sort_rows trace_list) t with Some r => [slice_name (callpath r)] | None => [] end
  end.
Proof.
  intros Hser Hn Hok. destruct trace_list as [|r0 l0]; [done|]. set (l := r0 :: l0) in *.
  destruct (track_ok (sort_rows l) (sort_rows_sorted l) Hn) as (ss & E & Hsl & Hd); [rewrite sort_rows_perm; cbn; lia|].
  assert (Hsl' : Forall (slice_of l) ss).
  { eapply Forall_impl; [exact Hsl|]. intros s (Ho & Hto & r & Hr & Hrest). rewrite sort_rows_perm in Hr. split; [done|]. split.
    - destruct Hto as (b & Hb & ?). rewrite sort_rows_perm in Hb. by exists b.
    - exists r. split; [done|]. destruct Hrest as (En & [?|(e & He & ?)]); split; [done|by left|done|right].
      rewrite sort_rows_perm in He. by exists e. }
  unfold output_to_pftrace. destruct (create_group _ _ _) as [pid g] eqn:Eg. symmetry in Eg.
  destruct (header_ok SerializeToString Hser name g pid Eg) as (g1 & -> & Hg1). rewrite E. cbn [mbind option_bind].
  destruct (put_events_ok SerializeToString Hser 1234568 ss g1 (track_header name)) as (g2 & -> & Hg2); [|exact Hg1|].
  { rewrite Forall_forall in Hok. eapply Forall_impl; [exact Hsl'|]. intros s (_ & (b & Hb & Hto) & r & Hr & _ & Hfrom).
    destruct (Hok b Hb) as (? & ? & _), (Hok r Hr) as (? & ? & ?). split_and!.
    - destruct Hfrom as [(-> & _)|(e & He & -> & _)]; [done|by destruct (Hok e He) as (? & ? & _)].
    - by destruct Hto as [->| ->].
    - destruct Hfrom as [(_ & _ & ->)|(e & He & _ & ->)]; [done|by destruct (Hok e He) as (? & ? & ?)]. }
  exists ss. split_and!; [|done|done]. cbn [mbind option_bind]. f_equal.
  pose proof (holds_flush SerializeToString Hser _ _ Hg2) as Hf. unfold holds in Hf. cbn in Hf. cbn. by rewrite <- Hf.
Qed.

(** The name of a slice is the last part of its class and its method, when the class is in a package. *)
Lemma find_char_skip c i a s : Forall (fun x => x <> c) a -> find_char c i (a ++ c :: s) = i + Z.of_nat (length a).
Proof.
  intros Ha. revert i. induction Ha as [|x a Hx _ IH]; intros i; cbn; [rewrite bool_decide_true by done; lia|].
  rewrite bool_decide_false by done. rewrite IH. lia.
Qed.
Lemma rfind_char_none c i f s : Forall (fun x => x <> c) s -> rfind_char c i f s = f.
Proof. intros Hs. revert i. induction Hs as [|x s Hx _ IH]; intros i; cbn; [done|]. by rewrite bool_decide_false. Qed.
Lemma rfind_char_last c a s : forall i f, Forall (fun x => x <> c) s -> rfind_char c i f (a ++ c :: s) = i + Z.of_nat (length a).
Proof.
  induction a as [|x a IH]; intros i f Hs; cbn; [rewrite bool_decide_true by done; rewrite rfind_char_none by done; lia|].
  rewrite IH by done. lia.
Qed.
Lemma py_pos_at a s : py_pos (Z.of_nat (length a)) (a ++ s) = length a.
Proof. unfold py_pos. rewrite (proj2 (Z.ltb_ge _ 0)), length_app by lia. lia. Qed.
Lemma py_pos_all s : py_pos (Z.of_nat (length s)) s = length s.
Proof. rewrite <- (app_nil_r s) at 2. apply py_pos_at. Qed.
Lemma py_slice_mid a b c : py_slice (Z.of_nat (length a)) (Z.of_nat (length (a ++ b))) (a ++ b ++ c) = b.
Proof.
  unfold py_slice. rewrite py_pos_at. rewrite app_assoc, py_pos_at, take_app_length, drop_app_length. done.
Qed.

Definition plain_of (cs : list ascii) (s : str) : Prop := Forall (fun x => x ∉ cs) s.
Lemma plain_char c cs s : c ∈ cs -> plain_of cs s -> Forall (fun x => x <> c) s.
Proof. intros Hc Hs. eapply Forall_impl; [exact Hs|]. intros x Hx ->. by apply Hx. Qed.
Lemma plain_sub cs cs' s : cs' ⊆ cs -> plain_of cs s -> plain_of cs' s.
Proof. intros Hc Hs. eapply Forall_impl; [exact Hs|]. intros x Hx Hin. by apply Hx, Hc. Qed.
Ltac plain :=
  repeat first [done | solve [eapply plain_char; [|eassumption]; set_solver] | apply Forall_app_2 | apply Forall_cons; split].

Lemma rfind_last c a s rest : Forall (fun x => x <> c) s ->
  rfind c (Z.of_nat (length (a ++ c :: s))) ((a ++ c :: s) ++ rest) = Z.of_nat (length a).
Proof. intros Hs. unfold rfind. rewrite py_pos_at, take_app_length, rfind_char_last by done. lia. Qed.
Lemma rfind_none c a rest : Forall (fun x => x <> c) a -> rfind c (Z.of_nat (length a)) (a ++ rest) = -1.
Proof. intros Ha. unfold rfind. by rewrite py_pos_at, take_app_length, rfind_char_none. Qed.

Lemma method_part_ok pre cls meth rest :
  plain_of [c_open] pre -> plain_of [c_open; c_dot] cls -> plain_of [c_open; c_dot] meth ->
  method_part (pre ++ c_dot :: cls ++ c_dot :: meth ++ c_open :: rest) = cls ++ c_dot :: meth.
Proof.
  intros Hp Hc Hm. unfold method_part.
  set (b := cls ++ c_dot :: meth). set (s := pre ++ _).
  assert (Es : s = (pre ++ c_dot :: b) ++ c_open :: rest) by (subst s b; by rewrite <- !app_assoc; cbn; rewrite <- !app_assoc).
  assert (find c_open s = Z.of_nat (length (pre ++ c_dot :: b))) as ->.
  { unfold find. rewrite Es, find_char_skip; [lia|]. subst b. plain. }
  assert (rfind c_dot (Z.of_nat (length (pre ++ c_dot :: b))) s = Z.of_nat (length (pre ++ c_dot :: cls))) as ->.
  { rewrite Es. subst b. replace (pre ++ c_dot :: cls ++ c_dot :: meth) with ((pre ++ c_dot :: cls) ++ c_dot :: meth) by (by rewrite <- app_assoc).
    apply rfind_last. plain. }
  assert (rfind c_dot (Z.of_nat (length (pre ++ c_dot :: cls))) s = Z.of_nat (length pre)) as ->.
  { rewrite Es. subst b. replace (pre ++ c_dot :: cls ++ c_dot :: meth) with ((pre ++ c_dot :: cls) ++ c_dot :: meth) by (by rewrite <- app_assoc).
    rewrite <- app_assoc. apply rfind_last. plain. }
  replace (Z.of_nat (length pre) + 1) with (Z.of_nat (length (pre ++ [c_dot]))) by (rewrite length_app; cbn; lia).
  replace (pre ++ c_dot :: b) with ((pre ++ [c_dot]) ++ b) in Es |- * by (by rewrite <- app_assoc).
  rewrite Es, <- (app_assoc _ b). apply py_slice_mid.
Qed.

Lemma method_part_top cls meth rest :
  plain_of [c_open; c_dot] cls -> plain_of [c_open; c_dot] meth ->
  method_part (cls ++ c_dot :: meth ++ c_open :: rest) = cls ++ c_dot :: meth.
Proof.
  intros Hc Hm. unfold method_part. set (b := cls ++ c_dot :: meth).
  replace (cls ++ c_dot :: meth ++ c_open :: rest) with (b ++ c_open :: rest) by (subst b; by rewrite <- app_assoc).
  assert (find c_open (b ++ c_open :: rest) = Z.of_nat (length b)) as ->.
  { unfold find. rewrite find_char_skip; [lia|]. subst b. plain. }
  subst b. rewrite rfind_last by plain. rewrite <- app_assoc, rfind_none by plain. rewrite app_assoc. apply (py_slice_mid []).
Qed.

(** The last line but its first character. *)
Lemma last_line (above line : str) (x : ascii) : Forall (fun x => x <> c_newline) (x :: line) ->
  slice_name (above ++ c_newline :: x :: line) = method_part line.
Proof.
  intros Hl. unfold slice_name, rfind. rewrite py_pos_all, take_ge by done. rewrite rfind_char_last by done.
  replace (0 + Z.of_nat (length above) + 2) with (Z.of_nat (length (above ++ [c_newline; x]))) by (rewrite length_app; cbn; lia).
  replace (above ++ c_newline :: x :: line) with ((above ++ [c_newline; x]) ++ line) by (by rewrite <- app_assoc).
  unfold py_slice. by rewrite py_pos_at, py_pos_all, take_ge, drop_app_length by done.
Qed.

(** The name of a slice: of a class in a package its last part and the method; a class without a
    package loses its first letter. *)
Lemma slice_name_package (above package cls meth rest : str) (x : ascii) :
  plain_of [c_newline; c_open] (x :: package) -> plain_of [c_newline; c_open; c_dot] cls -> plain_of [c_newline; c_open; c_dot] meth ->
  Forall (fun x => x <> c_newline) rest ->
  slice_name (above ++ c_newline :: (x :: package) ++ c_dot :: cls ++ c_dot :: meth ++ c_open :: rest) = cls ++ c_dot :: meth.
Proof.
  intros Hp Hc Hm Hr. cbn [app]. rewrite last_line by (change (Forall (fun x => x <> c_newline) ((x :: package) ++ c_dot :: cls ++ c_dot :: meth ++ c_open :: rest)); plain).
  apply Forall_cons in Hp as [_ Hp]. apply method_part_ok; (eapply plain_sub; [|eassumption]; set_solver).
Qed.
Lemma slice_name_top (above cls meth rest : str) (x : ascii) :
  plain_of [c_newline; c_open; c_dot] (x :: cls) -> plain_of [c_newline; c_open; c_dot] meth -> Forall (fun x => x <> c_newline) rest ->
  slice_name (above ++ c_newline :: (x :: cls) ++ c_dot :: meth ++ c_open :: rest) = cls ++ c_dot :: meth.
Proof.
  intros Hc Hm Hr. cbn [app]. rewrite last_line by (change (Forall (fun x => x <> c_newline) ((x :: cls) ++ c_dot :: meth ++ c_open :: rest)); plain).
  apply Forall_cons in Hc as [_ Hc]. apply method_part_top; (eapply plain_sub; [|eassumption]; set_solver).
Qed.

Module Demo.
Definition call (a b : Z) (line : string) : Trace :=
  mkTrace a b [(lit "METHOD_INSTANCE_COUNT", VStr (lit "1"))] (c_newline :: lit "com.A.main(A.java:1)" ++ c_newline :: lit line).
Definition calls : list Trace :=
  [call 7 9 "com.D.d(D.java:4)"; call 0 10 "com.A.a(A.java:1)"; call 2 5 "com.B.b(B.java:2)"; call 3 5 "com.C.c(C.java:3)"; call 12 12 "com.E.e(E.java:5)"].
Definition encode (p : packet) : list byte :=
  match p with
  | PacketDefaults => [byte_of 0]
  | PacketProcess u p _ _ => [byte_of 1; byte_of u; byte_of p]
  | PacketTrack u _ _ => [byte_of 2; byte_of u]
  | PacketBegin u t n c a => [byte_of 3; byte_of u; byte_of t; byte_of (Z.of_nat (length n)); byte_of (Z.of_nat (length a))]
  | PacketEnd u t => [byte_of 4; byte_of u; byte_of t]
  end.
Definition serialize (ps : list packet) : list byte := concat (map encode ps).

(** A call that ends with the one around it is drawn once, and the outer one is taken up again. *)
Example calls_drawn :
  (ev ← track_events (sort_rows calls); Some (map (fun e => match e with Open t n _ _ => (t, Some n) | Close t => (t, None) end) ev)) =
  Some [(0, Some (lit "A.a")); (2, None); (2, Some (lit "B.b")); (3, None); (3, Some (lit "C.c")); (5, None); (5, Some (lit "B.b")); (5, None);
        (5, Some (lit "A.a")); (7, None); (7, Some (lit "D.d")); (9, None); (9, Some (lit "A.a")); (10, None); (12, Some (lit "E.e")); (12, None)].
Proof. vm_compute. reflexivity. Qed.

(** Two calls that start together are drawn in the order of the file: here a slice ends before it starts. *)
Example tie_goes_back :
  (ev ← track_events (sort_rows [call 0 5 "com.B.inner("; call 0 10 "com.A.outer("]);
   Some (map (fun e => match e with Open t n _ _ => (t, Some n) | Close t => (t, None) end) ev)) =
  Some [(0, Some (lit "B.inner")); (0, None); (0, Some (lit "A.outer")); (10, None); (10, Some (lit "B.inner")); (5, None)].
Proof. vm_compute. reflexivity. Qed.

(** A dictionary of 64 entries loses the last one, and says that none is missing. *)
Example last_entry_lost :
  (as_ ← add_debug_annotation_new (replicate 64 (lit "k", VBool true)); last as_) = Some (ann_string (Some (lit "...")) (lit "(0 more items)")).
Proof. vm_compute. reflexivity. Qed.

Lemma calls_nested : nested (sort_rows calls).
Proof.
  split; [repeat constructor; vm_compute; discriminate|]. intros i j ri rj Hi Hj Hij.
  change (sort_rows calls) with [call 0 10 "com.A.a(A.java:1)"; call 2 5 "com.B.b(B.java:2)"; call 3 5 "com.C.c(C.java:3)"; call 7 9 "com.D.d(D.java:4)"; call 12 12 "com.E.e(E.java:5)"] in *.
  assert (forall k rk, (2 < k)%nat -> [call 0 10 "com.A.a(A.java:1)"; call 2 5 "com.B.b(B.java:2)"; call 3 5 "com.C.c(C.java:3)"; call 7 9 "com.D.d(D.java:4)"; call 12 12 "com.E.e(E.java:5)"] !! k = Some rk -> t_start rk <> 5) as H5.
  { intros k rk Hk Hrk. do 5 (destruct k as [|k]; [first [lia|injection Hrk as <-; done]|]). done. }
  do 5 (destruct j as [|j]; [injection Hj as <-; do 5 (destruct i as [|i]; [first [lia|injection Hi as <-; cbn; auto with lia]|]); try lia; try done|]); done.
Qed.

Lemma timeline_innermost_witness :
  nested (sort_rows calls) /\ exists ss, output_to_pftrace serialize calls (lit "77") =
      Some (serialize (track_header (lit "77") ++ concat (map (slice_packets 1234568) ss))) /\
    drawn ss 4 = [lit "C.c"] /\ drawn ss 6 = [lit "A.a"] /\ drawn ss 11 = [].
Proof.
  split; [exact calls_nested|].
  destruct (timeline_innermost serialize calls (lit "77")) as (ss & E & _ & Hd).
  - intros a b. unfold serialize. by rewrite map_app, concat_app.
  - exact calls_nested.
  - repeat constructor; vm_compute; try discriminate; by eexists.
  - exists ss. split; [exact E|]. rewrite !Hd. split_and!; vm_compute; reflexivity.
Defined.
End Demo.
