(* ===== verification/Watchpoint.v ===== *)
(** * Hardware watchpoints

    Models [src/thirdparty/watchpoint-lib]: the slots of a thread and the
    descriptors behind them ([src/watchpoint.c]), the records of a watchpoint's
    ring buffer ([src/watchpoint_mmap.c]) and the stack of replaced watchpoints
    ([src/watchpoint_stack.h]).

    The kernel is a table of breakpoint descriptors; which ones it accepts, whether
    the owner can be set and the ring mapped are parameters, by descriptor number.
    The library's client is a function on the whole state, so that it can subscribe
    while a trap is handled; the [SampleData] pointer it is given is the number of a
    slot, because the memory behind it is the slot's.

    [EXC] stands for a failed assertion, the [exit] of [CHECK], or an access
    through a null pointer or outside an array. *)
From stdpp Require Import base numbers list gmap.
From Stdlib Require Import ZArith Lia QArith.
From S2P Require Import Prelude RingBuffer PerfEvents Metrics.
Local Open Scope Z_scope.

(** ** Data ([watchpoint.h], [watchpoint_util.h]) *)
Inductive WP_Access_t := WP_READ | WP_WRITE | WP_RW | WP_EXEC | WP_INVALID.
Inductive WP_ReplacementPolicy_t :=
  | WP_REPLACEMENT_AUTO | WP_REPLACEMENT_EMPTY_SLOT | WP_REPLACEMENT_OLDEST | WP_REPLACEMENT_NEWEST.
Inductive WP_TriggerAction_t :=
  | WP_DISABLE | WP_ALREADY_DISABLED | WP_DISABLE_ALL | WP_RETAIN | WP_TRIGGERED.
Inductive WP_Victim_t := WP_VICTIM_EMPTY_SLOT | WP_VICTIM_NON_EMPTY_SLOT | WP_VICTIM_NONE_AVAILABLE.

Record SampleData_t := mkSD {
  va : Z;
  watchLen : Z;
  watchType : WP_Access_t;
  accessLen : Z;
  calleeCtxtFrame : Z;
}.

Record WP_RegisterInfo_t := mkWpi {
  sd : SampleData_t;
  wp_va : Z;
  startTime : Z;
  fileHandle : Z;
  isActive : bool;
  sampleValue : list byte;
  samplePostFull : Z;
  mmapBuffer : option perf_mmap_t;
}.

(** What the client is told of a trap; [t_slot] is the slot [sd] points into. *)
Record WP_TriggerInfo_t := mkTrig { t_slot : nat; t_va : Z; t_pc : Z; t_pcPrecise : Z }.

Record WP_Config_t (C : Type) := mkConfig {
  isLBREnabled : bool;
  isWPModifyEnabled : bool;
  pgsz : Z;
  replacementPolicy : WP_ReplacementPolicy_t;
  userPerfPause : option (C -> exc C);
  userPerfResume : option (C -> exc C);
}.
Arguments isLBREnabled {_}. Arguments isWPModifyEnabled {_}. Arguments pgsz {_}.
Arguments replacementPolicy {_}. Arguments userPerfPause {_}. Arguments userPerfResume {_}.
Arguments mkConfig {_}.

Definition MAX_WP_SLOTS : nat := 1.
Definition SAMPLES_POST_FULL_RESET_VAL : Z := 1.
(** [MAX_STACK] of [watchpoint_stack.h]. *)
Definition WP_MAX_STACK : nat := 128.

Definition ADDRESSES_OVERLAP (addr1 len1 addr2 len2 : Z) : bool :=
  (addr2 <? u64 (addr1 + len1)) && (addr1 <? u64 (addr2 + len2)).

(** Updates of a slot's fields. *)
Definition set_active (b : bool) (w : WP_RegisterInfo_t) : WP_RegisterInfo_t :=
  mkWpi (sd w) (wp_va w) (startTime w) (fileHandle w) b (sampleValue w) (samplePostFull w) (mmapBuffer w).
Definition set_post (n : Z) (w : WP_RegisterInfo_t) : WP_RegisterInfo_t :=
  mkWpi (sd w) (wp_va w) (startTime w) (fileHandle w) (isActive w) (sampleValue w) n (mmapBuffer w).
Definition set_buffer (m : option perf_mmap_t) (w : WP_RegisterInfo_t) : WP_RegisterInfo_t :=
  mkWpi (sd w) (wp_va w) (startTime w) (fileHandle w) (isActive w) (sampleValue w) (samplePostFull w) m.
Definition set_value (v : list byte) (w : WP_RegisterInfo_t) : WP_RegisterInfo_t :=
  mkWpi (sd w) (wp_va w) (startTime w) (fileHandle w) (isActive w) v (samplePostFull w) (mmapBuffer w).
Definition inc_post (w : WP_RegisterInfo_t) : WP_RegisterInfo_t := set_post (u64 (samplePostFull w + 1)) w.

(** ** The kernel's breakpoints *)
Inductive bp_type := HW_BREAKPOINT_R | HW_BREAKPOINT_W | HW_BREAKPOINT_RW | HW_BREAKPOINT_X.

(** The fields of [perf_event_attr] that differ between watchpoints. *)
Record bp_attr := mkBpAttr { bp_addr : Z; bp_len : Z; bp_kind : bp_type; bp_precise_ip : Z }.
Record bp := mkBp { bp_at : bp_attr; bp_on : bool }.

(** The open descriptors, the next one, and how often the clock was read. *)
Record kernel := mkKernel { k_bps : gmap Z bp; k_next : Z; k_time : nat }.

Definition with_bps (h : gmap Z bp) (k : kernel) : kernel := mkKernel h (k_next k) (k_time k).

(** [PERF_EVENT_IOC_ENABLE] and [PERF_EVENT_IOC_DISABLE]. *)
Definition ioctl_bp (fd : Z) (on : bool) (k : kernel) : Z * kernel :=
  match k_bps k !! fd with
  | Some b => (0, with_bps (<[fd := mkBp (bp_at b) on]> (k_bps k)) k)
  | None => (-1, k)
  end.

Definition close_bp (fd : Z) (k : kernel) : Z * kernel :=
  match k_bps k !! fd with
  | Some _ => (0, with_bps (delete fd (k_bps k)) k)
  | None => (-1, k)
  end.

Definition CHECK {A} (r : Z * A) : exc A := if r.1 =? 0 then RET r.2 else EXC.

(** ** The thread's data *)

(** The counters of [profiler.cpp] the trap handler keeps: the number of events,
    their descriptors, the counts and the last reading. *)
Record counters := mkCnt {
  curEventId : nat;
  eventRDCnt : list Z;
  eventTempCnt : Z;
}.

Section watchpoints.
(** The client's state, the state of the random generator and the doubles. *)
Context {C R D : Type} `{DoubleOps D} (d_leb : D -> D -> bool).
Context (lrand48_r : R -> Z * R) (drand48_r : R -> D * R).
(** The kernel's answers, for the descriptor concerned. *)
Context (accepts : Z -> bp_attr -> bool) (owner_ok mmap_ok : Z -> bool).
(** The time stamp counter at its n-th reading, and the memory. *)
Context (tsc : nat -> Z) (mem : Z -> byte).
Context (cfg : WP_Config_t C).

(** [watchPointArray] holds the [maxWP] slots in use; the last element of
    [wpStack] is its top. *)
Record WP_ThreadData_t := mkWP {
  watchPointArray : list WP_RegisterInfo_t;
  wpStack : list SampleData_t;
  randBuffer : R;
  kern : kernel;
  cnt : counters;
  client : C;
}.

Definition with_slots (l : list WP_RegisterInfo_t) (st : WP_ThreadData_t) : WP_ThreadData_t :=
  mkWP l (wpStack st) (randBuffer st) (kern st) (cnt st) (client st).
Definition with_kern (k : kernel) (st : WP_ThreadData_t) : WP_ThreadData_t :=
  mkWP (watchPointArray st) (wpStack st) (randBuffer st) k (cnt st) (client st).
Definition with_client (c : C) (st : WP_ThreadData_t) : WP_ThreadData_t :=
  mkWP (watchPointArray st) (wpStack st) (randBuffer st) (kern st) (cnt st) c.
Definition with_stack (l : list SampleData_t) (st : WP_ThreadData_t) : WP_ThreadData_t :=
  mkWP (watchPointArray st) l (randBuffer st) (kern st) (cnt st) (client st).
Definition with_rand (r : R) (st : WP_ThreadData_t) : WP_ThreadData_t :=
  mkWP (watchPointArray st) (wpStack st) r (kern st) (cnt st) (client st).
Definition with_cnt (c : counters) (st : WP_ThreadData_t) : WP_ThreadData_t :=
  mkWP (watchPointArray st) (wpStack st) (randBuffer st) (kern st) c (client st).
Definition set_slot (i : nat) (w : WP_RegisterInfo_t) (st : WP_ThreadData_t) : WP_ThreadData_t :=
  with_slots (<[i := w]> (watchPointArray st)) st.

Definition slot_at (i : nat) (st : WP_ThreadData_t) : exc WP_RegisterInfo_t :=
  match watchPointArray st !! i with Some w => RET w | None => EXC end.

(** ** Pausing and resuming *)

(** Every active slot's event is switched; the result of [ioctl] is not looked at. *)
Fixpoint switch_active (on : bool) (l : list WP_RegisterInfo_t) (k : kernel) : kernel :=
  match l with
  | [] => k
  | w :: l' => switch_active on l' (if isActive w then (ioctl_bp (fileHandle w) on k).2 else k)
  end.
Definition linux_perf_events_pause (st : WP_ThreadData_t) : WP_ThreadData_t :=
  with_kern (switch_active false (watchPointArray st) (kern st)) st.
Definition linux_perf_events_resume (st : WP_ThreadData_t) : WP_ThreadData_t :=
  with_kern (switch_active true (watchPointArray st) (kern st)) st.

(** ** Setting a watchpoint *)
Definition ValidateWPData (sampleData : SampleData_t) : bool :=
  match watchLen sampleData with
  | 1 | 2 | 4 | 8 => true
  | _ => false
  end.

Definition overlaps (sampleData : SampleData_t) (w : WP_RegisterInfo_t) : bool :=
  isActive w && ADDRESSES_OVERLAP (va (sd w)) (watchLen (sd w)) (va sampleData) (watchLen sampleData).

Definition IsOverlapped (sampleData : SampleData_t) (st : WP_ThreadData_t) : bool :=
  existsb (overlaps sampleData) (watchPointArray st).

(** The bytes stored over the head of the value buffer. *)
Definition CaptureValue (sampleData : SampleData_t) (old : list byte) : list byte :=
  let len := match watchLen sampleData with 2 => 2%nat | 4 => 4%nat | 8 => 8%nat | _ => 1%nat end in
  memcpy_at old 0 ((fun i => mem (va sampleData + Z.of_nat i)) <$> seq 0 len).

Definition EnableWatchpoint (fd : Z) (k : kernel) : exc kernel := CHECK (ioctl_bp fd true k).

Definition DisableWatchpoint (i : nat) (st : WP_ThreadData_t) : exc WP_ThreadData_t :=
  w ← slot_at i st;
  _ ← assert_exc (negb (fileHandle w =? -1));
  k ← CHECK (ioctl_bp (fileHandle w) false (kern st));
  RET (set_slot i (set_active false w) (with_kern k st)).

(** Unmapping is assumed to succeed, as [munmap] of a mapped ring does. *)
Definition DisArm (i : nat) (st : WP_ThreadData_t) : exc WP_ThreadData_t :=
  w ← slot_at i st;
  _ ← assert_exc (negb (fileHandle w =? -1));
  k ← CHECK (close_bp (fileHandle w) (kern st));
  RET (set_slot i (mkWpi (sd w) (wp_va w) (startTime w) (-1) false (sampleValue w) (samplePostFull w) None)
         (with_kern k st)).

Definition DisableWatchpointWrapper (i : nat) (st : WP_ThreadData_t) : exc WP_ThreadData_t :=
  w ← slot_at i st;
  if isWPModifyEnabled cfg && isActive w then DisableWatchpoint i st
  else if negb (isWPModifyEnabled cfg) && negb (fileHandle w =? -1) then DisArm i st
  else RET st.

(** The attributes asked for; [None] for a length that ends the process. *)
Definition bp_attr_of (sampleData : SampleData_t) : option bp_attr :=
  if ValidateWPData sampleData then
    Some (mkBpAttr (va sampleData)
      (match watchType sampleData with WP_EXEC => 8 | _ => watchLen sampleData end)
      (match watchType sampleData with
       | WP_READ => HW_BREAKPOINT_R | WP_WRITE => HW_BREAKPOINT_W | WP_EXEC => HW_BREAKPOINT_X
       | _ => HW_BREAKPOINT_RW end)
      (if isLBREnabled cfg then 2 else 0))
  else None.

Definition WP_MapBuffer (fd : Z) : option perf_mmap_t :=
  if mmap_ok fd then Some (mkMmap 0 0 (replicate (Z.to_nat (pgsz cfg)) Init.Byte.x00)) else None.

(** The slot's new contents, at the end of [CreateWatchPoint]. *)
Definition armed (w : WP_RegisterInfo_t) (fd : Z) (buf : option perf_mmap_t) (sampleData : SampleData_t)
    (now : Z) : WP_RegisterInfo_t :=
  mkWpi sampleData (va sampleData) now fd true (sampleValue w) (samplePostFull w) buf.

Definition rdtsc (k : kernel) : Z * kernel :=
  (i64 (tsc (k_time k)), mkKernel (k_bps k) (k_next k) (Datatypes.S (k_time k))).

Definition CreateWatchPoint (i : nat) (sampleData : SampleData_t) (modify : bool) (st : WP_ThreadData_t)
  : exc WP_ThreadData_t :=
  w ← slot_at i st;
  let k := kern st in
  match bp_attr_of sampleData with
  | None => EXC
  | Some pe =>
      if isWPModifyEnabled cfg && modify then
        _ ← assert_exc (negb (fileHandle w =? -1));
        _ ← assert_exc (bool_decide (is_Some (mmapBuffer w)));
        match k_bps k !! fileHandle w with
        | None => EXC
        | Some _ =>
            if accepts (fileHandle w) pe then
              (* the event is switched on by the modification *)
              let k := with_bps (<[fileHandle w := mkBp pe true]> (k_bps k)) k in
              let '(now, k) := rdtsc k in
              RET (set_slot i (armed w (fileHandle w) (mmapBuffer w) sampleData now) (with_kern k st))
            else EXC
        end
      else
        let perf_fd := k_next k in
        if negb (accepts perf_fd pe) then EXC
        else
          let k := mkKernel (<[perf_fd := mkBp pe true]> (k_bps k)) (perf_fd + 1) (k_time k) in
          if negb (owner_ok perf_fd) then RET (with_kern k st)
          else
            let buf := if isLBREnabled cfg then WP_MapBuffer perf_fd else None in
            let '(now, k) := rdtsc k in
            RET (set_slot i (armed w perf_fd buf sampleData now) (with_kern k st))
  end.

Definition ArmWatchPoint (i : nat) (sampleData : SampleData_t) (st : WP_ThreadData_t)
  : exc (bool * WP_ThreadData_t) :=
  w ← slot_at i st;
  if isWPModifyEnabled cfg && negb (fileHandle w =? -1) then
    st ← CreateWatchPoint i sampleData true st; RET (true, st)
  else
    st ← (if isActive w then DisArm i st else RET st);
    st ← CreateWatchPoint i sampleData false st;
    RET (true, st).

(** ** Choosing a slot *)
Definition inc_if_active (w : WP_RegisterInfo_t) : WP_RegisterInfo_t :=
  if isActive w then inc_post w else w.

(** The shuffle of [WP_REPLACEMENT_AUTO]; [n] is [maxWP]. *)
Fixpoint shuffle (n : nat) (order slots : list nat) (rnd : R) : list nat * R :=
  match order with
  | [] => (slots, rnd)
  | i :: order' =>
      let '(v, rnd) := lrand48_r rnd in
      let j := Z.to_nat (v mod Z.of_nat n) in
      let tmp := nth i slots 0%nat in
      shuffle n order' (<[j := tmp]> (<[i := nth j slots 0%nat]> slots)) rnd
  end.

Fixpoint try_replace (slots : list nat) (l : list WP_RegisterInfo_t) (rnd : R)
  : option nat * list WP_RegisterInfo_t * R :=
  match slots with
  | [] => (None, l, rnd)
  | loc :: slots' =>
      match l !! loc with
      | None => (None, l, rnd)
      | Some w =>
          let probabilityToReplace :=
            d_div (d_of_Z 1) (d_add (d_of_Z 1) (d_of_Z (samplePostFull w))) in
          let '(randValue, rnd) := drand48_r rnd in
          let l := <[loc := inc_post w]> l in
          if d_leb randValue probabilityToReplace
          then (Some loc, foldl (fun l s => alter inc_post s l) l slots', rnd)
          else try_replace slots' l rnd
      end
  end.

(** The loops that look for the newest and the oldest slot; -1 for none. *)
Fixpoint pick_time (better : Z -> Z -> bool) (i : nat) (l : list WP_RegisterInfo_t) (best loc : Z) : Z :=
  match l with
  | [] => loc
  | w :: l' => if better (startTime w) best then pick_time better (Datatypes.S i) l' (startTime w) (Z.of_nat i)
               else pick_time better (Datatypes.S i) l' best loc
  end.

Definition INT64_MAX : Z := 2 ^ 63 - 1.

Definition GetVictim (policy : WP_ReplacementPolicy_t) (st : WP_ThreadData_t)
  : WP_Victim_t * Z * WP_ThreadData_t :=
  let l := watchPointArray st in
  match list_find (fun w => isActive w = false) l with
  | Some (i, _) => (WP_VICTIM_EMPTY_SLOT, Z.of_nat i, with_slots (inc_if_active <$> l) st)
  | None =>
      match policy with
      | WP_REPLACEMENT_AUTO =>
          let n := length l in
          let '(slots, rnd) := shuffle n (seq 0 n) (seq 0 n) (randBuffer st) in
          let '(r, l', rnd) := try_replace slots l rnd in
          match r with
          | Some loc => (WP_VICTIM_NON_EMPTY_SLOT, Z.of_nat loc, with_rand rnd (with_slots l' st))
          | None => (WP_VICTIM_NONE_AVAILABLE, Z.of_nat (nth 0 slots 0%nat), with_rand rnd (with_slots l' st))
          end
      | WP_REPLACEMENT_NEWEST =>
          (WP_VICTIM_NON_EMPTY_SLOT, pick_time (fun t b => b <? t) 0 l 0 (-1), st)
      | WP_REPLACEMENT_OLDEST =>
          (WP_VICTIM_NON_EMPTY_SLOT, pick_time (fun t b => t <? b) 0 l INT64_MAX (-1), st)
      | WP_REPLACEMENT_EMPTY_SLOT => (WP_VICTIM_NONE_AVAILABLE, -1, st)
      end
  end.

(** ** The stack of replaced watchpoints ([watchpoint_stack.h]) *)
Definition isEmptyStack (l : list SampleData_t) : bool := bool_decide (length l = 0%nat).
Definition isFullStack (l : list SampleData_t) : bool := bool_decide (length l = WP_MAX_STACK).
Definition push (s : SampleData_t) (l : list SampleData_t) : exc (list SampleData_t) :=
  if isFullStack l then EXC else RET (l ++ [s]).
Definition pop (l : list SampleData_t) : exc (SampleData_t * list SampleData_t) :=
  match last l with Some s => RET (s, removelast l) | None => EXC end.
Definition peek (l : list SampleData_t) : exc SampleData_t :=
  match last l with Some s => RET s | None => EXC end.

(** ** The interface *)
Definition WP_Subscribe (sampleData : SampleData_t) (isCaptureValue isVarianceClient : bool)
    (st : WP_ThreadData_t) : exc (bool * WP_ThreadData_t) :=
  if negb (ValidateWPData sampleData) then RET (false, st)
  else if IsOverlapped sampleData st then RET (false, st)
  else
    let '(r, victimLocation, st) := GetVictim (replacementPolicy cfg) st in
    match r with
    | WP_VICTIM_NONE_AVAILABLE => RET (false, st)
    | _ =>
        _ ← assert_exc (0 <=? victimLocation);
        let i := Z.to_nat victimLocation in
        w ← slot_at i st;
        let w := if isCaptureValue then set_value (CaptureValue sampleData (sampleValue w)) w else w in
        let st := set_slot i w st in
        stack ← match r with
                | WP_VICTIM_NON_EMPTY_SLOT => if isVarianceClient then push (sd w) (wpStack st) else RET (wpStack st)
                | _ => RET (wpStack st)
                end;
        ArmWatchPoint i sampleData (with_stack stack st)
    end.

(** The addresses and the slots of the active watchpoints. *)
Definition WP_GetActiveAddresses (st : WP_ThreadData_t) : list Z :=
  (fun w => va (sd w)) <$> filter (fun w => isActive w = true) (watchPointArray st).
Definition WP_GetActiveWatchPoints (st : WP_ThreadData_t) : list nat :=
  (fun p => p.1) <$> filter (fun p => isActive p.2 = true) (imap pair (watchPointArray st)).

(** Runs [f] on the slots in turn. *)
Fixpoint for_slots (f : nat -> WP_ThreadData_t -> exc WP_ThreadData_t) (idxs : list nat)
    (st : WP_ThreadData_t) : exc WP_ThreadData_t :=
  match idxs with
  | [] => RET st
  | i :: idxs' => st ← f i st; for_slots f idxs' st
  end.
Definition all_slots (st : WP_ThreadData_t) : list nat := seq 0 (length (watchPointArray st)).

Definition reset_post (i : nat) (st : WP_ThreadData_t) : exc WP_ThreadData_t :=
  w ← slot_at i st; RET (set_slot i (set_post SAMPLES_POST_FULL_RESET_VAL w) st).

Definition WP_DisableAllWatchPoints (st : WP_ThreadData_t) : exc WP_ThreadData_t :=
  for_slots (fun i st =>
    w ← slot_at i st;
    st ← (if isActive w then DisableWatchpointWrapper i st else RET st);
    reset_post i st) (all_slots st) st.

(** ** Traps *)

(** [WP_CollectTriggerInfo] ([watchpoint_mmap.c]); without a ring it reads
    through a null pointer. *)
Definition WP_CollectTriggerInfo (w : WP_RegisterInfo_t) (wpt : WP_TriggerInfo_t)
  : exc (bool * WP_TriggerInfo_t * WP_RegisterInfo_t) :=
  match mmapBuffer w with
  | None => EXC
  | Some m =>
      let '(ret, bs, m) := ReadMmapBuffer m sizeof_header in
      if ret <? 0 then RET (false, wpt, set_buffer (Some m) w)
      else
        let hdr := header_of bs in
        if h_type hdr =? PERF_RECORD_SAMPLE then
          _ ← assert_exc (has_bit (h_type hdr) PERF_SAMPLE_IP);
          let '(ret, bs, m) := ReadMmapBuffer m 8 in
          if ret <? 0 then RET (false, wpt, set_buffer (Some m) w)
          else
            let precise := has_bit (h_misc hdr) PERF_RECORD_MISC_EXACT_IP in
            RET (true, mkTrig (t_slot wpt) (t_va wpt) (le_val bs) (if precise then 1 else 0),
                 set_buffer (Some (ConsumeAllRingBufferData m)) w)
        else RET (false, wpt, set_buffer (Some (ConsumeAllRingBufferData m)) w)
  end.

Section handler.
(** [read] on the descriptor of an event at some time: its result and the value. *)
Context (ev_read : nat -> nat -> Z * Z).
(** The interrupted thread's registers and the client's callback. *)
Context {U : Type} (fptr : WP_TriggerInfo_t -> U -> WP_ThreadData_t -> exc (WP_TriggerAction_t * WP_ThreadData_t)).

Definition tick (k : kernel) : kernel := mkKernel (k_bps k) (k_next k) (Datatypes.S (k_time k)).

(** The indices of the events: [1 .. curEventId - 1]. *)
Definition event_ids (c : counters) : list nat := seq 1 (curEventId c - 1).

(** The first loop of [OnWatchPoint]: [readCounter] of each event. *)
Fixpoint read_events (ids : list nat) (k : kernel) : exc (list Z * kernel) :=
  match ids with
  | [] => RET ([], k)
  | i :: ids' =>
      let '(ret, v) := ev_read i (k_time k) in
      _ ← assert_exc (0 <? ret);
      r ← read_events ids' (tick k);
      let '(vs, k) := r in RET (v :: vs, k)
  end.

(** The second loop: what was counted since the last reading is added, and the
    counter is read again. *)
Fixpoint account_events (ids : list nat) (readCounter : list Z) (c : counters) (k : kernel)
  : exc (counters * kernel) :=
  match ids, readCounter with
  | i :: ids', v :: vs =>
      match eventRDCnt c !! i with
      | None => EXC
      | Some n =>
          let l := <[i := u64 (n + (v - eventTempCnt c))]> (eventRDCnt c) in
          let '(ret, t) := ev_read i (k_time k) in
          _ ← assert_exc (0 <=? ret);
          account_events ids' vs
            (mkCnt (curEventId c) l (if 0 <? ret then t else eventTempCnt c)) (tick k)
      end
  | _, _ => RET (c, k)
  end.

Definition run_hook (h : option (C -> exc C)) (st : WP_ThreadData_t) : exc WP_ThreadData_t :=
  match h with
  | Some f => c ← f (client st); RET (with_client c st)
  | None => RET st
  end.

(** A watchpoint that had been replaced is set again. *)
Definition rearm_from_stack (i : nat) (st : WP_ThreadData_t) : exc WP_ThreadData_t :=
  if isEmptyStack (wpStack st) then RET st
  else
    r ← pop (wpStack st);
    let '(s, l) := r in
    r ← ArmWatchPoint i s (with_stack l st);
    RET r.2.

Definition take_action (i : nat) (retVal : WP_TriggerAction_t) (st : WP_ThreadData_t)
  : exc WP_ThreadData_t :=
  match retVal with
  | WP_TRIGGERED => RET st
  | WP_DISABLE =>
      st ← DisableWatchpointWrapper i st;
      st ← reset_post i st;
      rearm_from_stack i st
  | WP_DISABLE_ALL =>
      for_slots (fun i st => st ← DisableWatchpointWrapper i st; reset_post i st) (all_slots st) st
  | WP_ALREADY_DISABLED =>
      w ← slot_at i st;
      _ ← assert_exc (negb (isActive w));
      st ← reset_post i st;
      rearm_from_stack i st
  | WP_RETAIN =>
      w ← slot_at i st;
      if isActive w then RET st
      else
        k ← EnableWatchpoint (fileHandle w) (kern st);
        RET (set_slot i (set_active true w) (with_kern k st))
  end.

Definition fired (si_fd : Z) (w : WP_RegisterInfo_t) : bool :=
  isActive w && (si_fd =? fileHandle w).

(** The client is called, with the trap's record when there are any. *)
Definition call_client (i : nat) (uCtxt : U) (wpt : WP_TriggerInfo_t) (st : WP_ThreadData_t)
  : exc (WP_TriggerAction_t * WP_ThreadData_t) :=
  if negb (isLBREnabled cfg) then fptr wpt uCtxt st
  else
    w ← slot_at i st;
    r ← WP_CollectTriggerInfo w wpt;
    let '(ok, wpt, w) := r in
    let st := set_slot i w st in
    if (ok : bool) then fptr wpt uCtxt st else RET (WP_DISABLE, st).

(** [tData] says whether the thread has data. *)
Definition OnWatchPoint (si_fd : Z) (uCtxt : U) (tData : bool) (st : WP_ThreadData_t)
  : exc WP_ThreadData_t :=
  r ← read_events (event_ids (cnt st)) (kern st);
  let '(readCounter, k) := r in
  let st := with_kern k st in
  if negb tData then RET st else
  st ← run_hook (userPerfPause cfg) st;
  let st := linux_perf_events_pause st in
  match list_find (fun w => fired si_fd w = true) (watchPointArray st) with
  | None => run_hook (userPerfResume cfg) (linux_perf_events_resume st)
  | Some (location, wpi) =>
      st ← DisableWatchpoint location st;
      r ← account_events (event_ids (cnt st)) readCounter (cnt st) (kern st);
      let '(c, k) := r in
      let st := with_kern k (with_cnt c st) in
      r ← call_client location uCtxt (mkTrig location (wp_va wpi) 0 0) st;
      let '(retVal, st) := r in
      st ← take_action location retVal st;
      run_hook (userPerfResume cfg) (linux_perf_events_resume st)
  end.
End handler.

(** ** The thread's life *)

(** The slots as [WP_ThreadInit] leaves them in the memory it got. *)
Definition fresh_slot (w : WP_RegisterInfo_t) : WP_RegisterInfo_t :=
  mkWpi (sd w) (wp_va w) 0 (-1) false (sampleValue w) SAMPLES_POST_FULL_RESET_VAL (mmapBuffer w).

(** [junk]: the memory [malloc] returned, if any; the other arguments are the outcomes of
    [pthread_setspecific], of the second [malloc] and of [sigaltstack]. *)
Definition WP_ThreadInit (junk : option (list WP_RegisterInfo_t)) (setspecific_ok malloc_ok sigaltstack_ok : bool)
    (rnd : R) (k : kernel) (c : counters) (s : C) : bool * option WP_ThreadData_t :=
  match junk with
  | None => (false, None)
  | Some l =>
      if negb setspecific_ok then (false, None)
      else if negb (malloc_ok && sigaltstack_ok) then (false, Some (mkWP l [] rnd k c s))
      else (true, Some (mkWP (fresh_slot <$> l) [] rnd k c s))
  end.

Definition WP_ThreadTerminate (tData : option WP_ThreadData_t) : exc WP_ThreadData_t :=
  match tData with
  | None => EXC
  | Some st =>
      for_slots (fun i st =>
        w ← slot_at i st;
        if negb (fileHandle w =? -1) then DisArm i st else RET st) (all_slots st) st
  end.

(** ** [WP_Init]

    [fast] says whether the kernel's headers have a request to modify a
    breakpoint, which decides what is compiled; the other arguments are the outcomes
    of [pthread_key_create] and [sigaction] and the addresses of the dummies. *)
Definition probe_attr (addr : Z) : bp_attr := mkBpAttr addr 1 HW_BREAKPOINT_W 0.

Definition open_bp (a : bp_attr) (k : kernel) : Z * kernel :=
  if accepts (k_next k) a then
    (k_next k, mkKernel (<[k_next k := mkBp a true]> (k_bps k)) (k_next k + 1) (k_time k))
  else (-1, k).

(** Opens probes until one is refused. *)
Fixpoint probe_slots (addrs : list Z) (k : kernel) : list Z * kernel :=
  match addrs with
  | [] => ([], k)
  | a :: addrs' =>
      let '(fd, k) := open_bp (probe_attr a) k in
      if fd =? -1 then ([], k)
      else let '(fds, k) := probe_slots addrs' k in (fd :: fds, k)
  end.

Fixpoint close_all (fds : list Z) (k : kernel) : exc kernel :=
  match fds with
  | [] => RET k
  | fd :: fds' => k ← CHECK (close_bp fd k); close_all fds' k
  end.

(** The configuration and [maxWP]; [None] when it returns false. *)
Definition WP_Init (fast key_ok sigaction_ok : bool) (dummyWP : nat -> Z) (page : Z) (k : kernel)
  : exc (option (WP_Config_t C * nat * kernel)) :=
  if negb key_ok then RET None else
  r ← (if fast then
         let '(fd, k) := open_bp (probe_attr (dummyWP 0%nat)) k in
         k ← CHECK (close_bp fd k);
         RET (negb (fd =? -1), k)
       else RET (false, k));
  let '(lbr, k) := r in
  _ ← assert_exc sigaction_ok;
  let '(wpHandles, k) := probe_slots (dummyWP <$> seq 0 MAX_WP_SLOTS) k in
  _ ← assert_exc (negb (bool_decide (length wpHandles = 0%nat)));
  k ← close_all wpHandles k;
  RET (Some (mkConfig lbr fast page WP_REPLACEMENT_OLDEST None None, length wpHandles, k)).

Definition WP_SetPerfPauseAndResumeFunctions (pause_fn resume_fn : option (C -> exc C)) (c : WP_Config_t C)
  : bool * WP_Config_t C :=
  (bool_decide (is_Some pause_fn) && bool_decide (is_Some resume_fn),
   mkConfig (isLBREnabled c) (isWPModifyEnabled c) (pgsz c) (replacementPolicy c) pause_fn resume_fn).

(** ** Invariant

    A slot either has no descriptor or an open one whose breakpoint is the one the
    slot's data ask for. No two slots share a descriptor, and every descriptor
    belongs to a slot. *)
Definition slot_ok (k : kernel) (w : WP_RegisterInfo_t) : Prop :=
  (fileHandle w = -1 /\ isActive w = false) \/
  exists b, k_bps k !! fileHandle w = Some b /\
    (bp_attr_of (sd w) = Some (bp_at b) /\ wp_va w = va (sd w)) /\
    (isLBREnabled cfg = true -> is_Some (mmapBuffer w)).

Record wp_ok (l : list WP_RegisterInfo_t) (k : kernel) : Prop := {
  ok_slot : forall i w, l !! i = Some w -> slot_ok k w;
  ok_inj : forall i j w w', l !! i = Some w -> l !! j = Some w' ->
    fileHandle w = fileHandle w' -> fileHandle w <> -1 -> i = j;
  ok_owned : forall fd, is_Some (k_bps k !! fd) ->
    0 <= fd < k_next k /\ exists i w, l !! i = Some w /\ fileHandle w = fd;
  ok_next : 0 <= k_next k;
}.

(** The switch of every slot's breakpoint stands in relation [P] to the slot's
    flag: equal to it outside the trap handler ([eq]), only off when the
    slot is inactive inside it ([implied]). *)
Definition switch_ok (P : bool -> bool -> Prop) (l : list WP_RegisterInfo_t) (k : kernel) : Prop :=
  forall i w b, l !! i = Some w -> k_bps k !! fileHandle w = Some b -> P (isActive w) (bp_on b).
Definition implied (active on : bool) : Prop := on = true -> active = true.

(** Start times are real readings of the clock. *)
Definition times_ok (l : list WP_RegisterInfo_t) : Prop :=
  forall i w, l !! i = Some w -> startTime w < INT64_MAX.

Record slots_inv (P : bool -> bool -> Prop) (l : list WP_RegisterInfo_t) (k : kernel) : Prop := {
  inv_ok : wp_ok l k;
  inv_switch : switch_ok P l k;
  inv_times : times_ok l;
}.
Definition wp_inv (P : bool -> bool -> Prop) (st : WP_ThreadData_t) : Prop :=
  slots_inv P (watchPointArray st) (kern st).

(** What is watched, slot by slot. *)
Definition watched_slot (w : WP_RegisterInfo_t) : option SampleData_t :=
  if isActive w then Some (sd w) else None.
Definition watched (st : WP_ThreadData_t) : list (option SampleData_t) :=
  watched_slot <$> watchPointArray st.

Definition range_disjoint (a b : SampleData_t) : Prop :=
  va a + watchLen a <= va b \/ va b + watchLen b <= va a.

(** The addresses do not run over the end of the address space. *)
Definition in_space (s : SampleData_t) : Prop :=
  0 <= va s /\ 0 <= watchLen s /\ va s + watchLen s < 2 ^ 64.

Definition disjoint_ok (ws : list (option SampleData_t)) : Prop :=
  (forall i s, ws !! i = Some (Some s) -> in_space s) /\
  forall i j a b, ws !! i = Some (Some a) -> ws !! j = Some (Some b) -> i <> j -> range_disjoint a b.

(** The kernel's switched-on breakpoints are those of what is watched. *)
Definition kernel_agrees (st : WP_ThreadData_t) : Prop := forall a,
  (exists fd, k_bps (kern st) !! fd = Some (mkBp a true)) <->
  exists i s, watched st !! i = Some (Some s) /\ bp_attr_of s = Some a.

(** ** Lemmas on single slots *)
Lemma slot_at_Some i st w : watchPointArray st !! i = Some w -> slot_at i st = RET w.
Proof. unfold slot_at. by intros ->. Qed.

Lemma handle_open l k i w :
  wp_ok l k -> l !! i = Some w -> isActive w = true -> exists b, k_bps k !! fileHandle w = Some b.
Proof. intros Hok Hi Ha. destruct (ok_slot _ _ Hok i w Hi) as [[_ ?]|(b & ? & _)]; [congruence|by exists b]. Qed.

Lemma open_not_minus1 l k fd b : wp_ok l k -> k_bps k !! fd = Some b -> fd <> -1.
Proof. intros Hok Hb ->. destruct (ok_owned _ _ Hok (-1)) as [? _]; [by eexists|lia]. Qed.

(** Changing the switches of breakpoints does not concern the invariant. *)
Lemma wp_ok_kernel l k k' :
  wp_ok l k -> k_next k' = k_next k ->
  (forall fd, bp_at <$> (k_bps k' !! fd) = bp_at <$> (k_bps k !! fd)) -> wp_ok l k'.
Proof.
  intros [Hs Hi Ho Hn] Hn' Hb. split; [|done| |lia].
  - intros i w Hw. destruct (Hs i w Hw) as [?|(b & Eb & Ha & Hm)]; [by left|right].
    specialize (Hb (fileHandle w)). rewrite Eb in Hb. simpl in Hb.
    apply fmap_Some in Hb as (b' & E' & Eq). exists b'. rewrite <- Eq. done.
  - intros fd [b Eb]. rewrite Hn'. apply Ho. specialize (Hb fd). rewrite Eb in Hb. simpl in Hb.
    symmetry in Hb. apply fmap_Some in Hb as (b' & ? & _). by eexists.
Qed.

(** A slot and its own breakpoint change. *)
Lemma wp_ok_update l k i w w' b b' :
  wp_ok l k -> l !! i = Some w -> k_bps k !! fileHandle w = Some b ->
  fileHandle w' = fileHandle w ->
  bp_attr_of (sd w') = Some (bp_at b') /\ wp_va w' = va (sd w') ->
  (isLBREnabled cfg = true -> is_Some (mmapBuffer w')) ->
  wp_ok (<[i := w']> l) (with_bps (<[fileHandle w := b']> (k_bps k)) k).
Proof.
  intros Hok Hw Hb Hf Ha Hm. pose proof (lookup_lt_Some _ _ _ Hw) as Hlt.
  pose proof (open_not_minus1 _ _ _ _ Hok Hb) as Hne. split; simpl.
  - intros j v Hv. destruct (decide (i = j)) as [<-|Hij].
    + rewrite list_lookup_insert_eq in Hv by done. injection Hv as <-. right. exists b'.
      simpl. rewrite Hf, lookup_insert_eq. done.
    + rewrite list_lookup_insert_ne in Hv by done.
      destruct (ok_slot _ _ Hok j v Hv) as [?|(c & Ec & ? & ?)]; [by left|right]. exists c. simpl.
      rewrite lookup_insert_ne; [done|]. intros E. apply Hij. by eapply (ok_inj _ _ Hok).
  - intros j1 j2 v1 v2 H1 H2 E E1.
    assert (forall j v, <[i := w']> l !! j = Some v -> exists v0, l !! j = Some v0 /\ fileHandle v = fileHandle v0) as Hx.
    { intros j v Hv. destruct (decide (i = j)) as [<-|Hij].
      - rewrite list_lookup_insert_eq in Hv by done. injection Hv as <-. by exists w.
      - rewrite list_lookup_insert_ne in Hv by done. by exists v. }
    destruct (Hx _ _ H1) as (u1 & ? & Eu1), (Hx _ _ H2) as (u2 & ? & Eu2).
    eapply (ok_inj _ _ Hok); [done|done|congruence|congruence].
  - intros fd Hfd. destruct (ok_owned _ _ Hok fd) as (? & j & v & Hv & Ev).
    { destruct (decide (fileHandle w = fd)) as [<-|?]; [by eexists|].
      by rewrite lookup_insert_ne in Hfd by done. }
    split; [done|]. destruct (decide (i = j)) as [<-|Hij].
    + exists i, w'. rewrite list_lookup_insert_eq by done. split; [done|]. congruence.
    + exists j, v. by rewrite list_lookup_insert_ne by done.
  - exact (ok_next _ _ Hok).
Qed.

(** A slot changes and its breakpoint does not. *)
Lemma wp_ok_slot l k i w w' :
  wp_ok l k -> l !! i = Some w -> fileHandle w' = fileHandle w ->
  (isActive w' = true -> isActive w = true) -> sd w' = sd w -> wp_va w' = wp_va w ->
  (is_Some (mmapBuffer w) -> is_Some (mmapBuffer w')) ->
  wp_ok (<[i := w']> l) k.
Proof.
  intros Hok Hw Hf Ha Hs Hva Hm. destruct (ok_slot _ _ Hok i w Hw) as [[Hn Hi]|(b & Hb & Hba & Hbm)].
  - assert (isActive w' = false) as Ha' by (destruct (isActive w'); [rewrite Ha in Hi; done|done]).
    pose proof (lookup_lt_Some _ _ _ Hw) as Hlt. split.
    + intros j v Hv. destruct (decide (i = j)) as [<-|Hij].
      * rewrite list_lookup_insert_eq in Hv by done. injection Hv as <-. left. by rewrite Hf.
      * rewrite list_lookup_insert_ne in Hv by done. by apply (ok_slot _ _ Hok j).
    + intros j1 j2 v1 v2 H1 H2 E E1.
      destruct (decide (i = j1)) as [<-|?], (decide (i = j2)) as [<-|?]; [done| | |];
        rewrite ?list_lookup_insert_eq in H1 by done; rewrite ?list_lookup_insert_eq in H2 by done;
        rewrite ?list_lookup_insert_ne in H1 by done; rewrite ?list_lookup_insert_ne in H2 by done;
        simplify_eq; [congruence..|]. by eapply (ok_inj _ _ Hok).
    + intros fd Hfd. destruct (ok_owned _ _ Hok fd Hfd) as (? & j & v & Hv & Ev). split; [done|].
      exists j, v. rewrite list_lookup_insert_ne; [done|]. intros ->. simplify_eq. lia.
    + exact (ok_next _ _ Hok).
  - assert (with_bps (<[fileHandle w := b]> (k_bps k)) k = k) as <-.
    { unfold with_bps. rewrite insert_id by done. by destruct k. }
    eapply wp_ok_update; try done; [congruence|auto].
Qed.

(** The kernel gives a slot without one a new descriptor. *)
Lemma wp_ok_open l k i w w' b :
  wp_ok l k -> l !! i = Some w -> fileHandle w = -1 -> fileHandle w' = k_next k ->
  bp_attr_of (sd w') = Some (bp_at b) /\ wp_va w' = va (sd w') ->
  (isLBREnabled cfg = true -> is_Some (mmapBuffer w')) ->
  forall n, wp_ok (<[i := w']> l) (mkKernel (<[k_next k := b]> (k_bps k)) (k_next k + 1) n).
Proof.
  intros Hok Hw Hf Hf' Ha Hm n. pose proof (lookup_lt_Some _ _ _ Hw) as Hlt.
  pose proof (ok_next _ _ Hok) as Hnext.
  assert (forall j v, l !! j = Some v -> fileHandle v <> k_next k) as Hfresh.
  { intros j v Hv E. destruct (ok_slot _ _ Hok j v Hv) as [[? _]|(c & Ec & _)]; [lia|].
    destruct (ok_owned _ _ Hok (fileHandle v)) as [? _]; [by eexists|lia]. }
  split; simpl.
  - intros j v Hv. destruct (decide (i = j)) as [<-|Hij].
    + rewrite list_lookup_insert_eq in Hv by done. injection Hv as <-. right. exists b.
      simpl. rewrite Hf', lookup_insert_eq. done.
    + rewrite list_lookup_insert_ne in Hv by done.
      destruct (ok_slot _ _ Hok j v Hv) as [?|(c & Ec & ? & ?)]; [by left|right]. exists c. simpl.
      rewrite lookup_insert_ne; [done|]. by apply not_eq_sym, (Hfresh j).
  - intros j1 j2 v1 v2 H1 H2 E E1.
    destruct (decide (i = j1)) as [<-|?], (decide (i = j2)) as [<-|?]; [done| | |];
      rewrite ?list_lookup_insert_eq in H1 by done; rewrite ?list_lookup_insert_eq in H2 by done;
      rewrite ?list_lookup_insert_ne in H1 by done; rewrite ?list_lookup_insert_ne in H2 by done;
      simplify_eq.
    + exfalso. apply (Hfresh _ _ H2). congruence.
    + exfalso. apply (Hfresh _ _ H1). congruence.
    + by eapply (ok_inj _ _ Hok).
  - intros fd Hfd. destruct (decide (k_next k = fd)) as [<-|Hne].
    + split; [lia|]. exists i, w'. by rewrite list_lookup_insert_eq by done.
    + rewrite lookup_insert_ne in Hfd by done.
      destruct (ok_owned _ _ Hok fd Hfd) as (? & j & v & Hv & Ev). split; [lia|].
      exists j, v. rewrite list_lookup_insert_ne; [done|]. intros ->. simplify_eq. lia.
  - lia.
Qed.

(** A slot gives its descriptor back. *)
Lemma wp_ok_close l k i w w' :
  wp_ok l k -> l !! i = Some w -> fileHandle w <> -1 -> fileHandle w' = -1 -> isActive w' = false ->
  wp_ok (<[i := w']> l) (with_bps (delete (fileHandle w) (k_bps k)) k).
Proof.
  intros Hok Hw Hf Hf' Ha. pose proof (lookup_lt_Some _ _ _ Hw) as Hlt. split; simpl.
  - intros j v Hv. destruct (decide (i = j)) as [<-|Hij].
    + rewrite list_lookup_insert_eq in Hv by done. injection Hv as <-. by left.
    + rewrite list_lookup_insert_ne in Hv by done.
      destruct (ok_slot _ _ Hok j v Hv) as [?|(c & Ec & ? & ?)]; [by left|right]. exists c. simpl.
      rewrite lookup_delete_ne; [done|]. intros E. apply Hij. by eapply (ok_inj _ _ Hok).
  - intros j1 j2 v1 v2 H1 H2 E E1.
    destruct (decide (i = j1)) as [<-|?], (decide (i = j2)) as [<-|?]; [done| | |];
      rewrite ?list_lookup_insert_eq in H1 by done; rewrite ?list_lookup_insert_eq in H2 by done;
      rewrite ?list_lookup_insert_ne in H1 by done; rewrite ?list_lookup_insert_ne in H2 by done;
      simplify_eq; [congruence..|]. by eapply (ok_inj _ _ Hok).
  - intros fd Hfd. destruct (decide (fileHandle w = fd)) as [<-|Hne].
    + rewrite lookup_delete_eq in Hfd. by destruct Hfd.
    + rewrite lookup_delete_ne in Hfd by done.
      destruct (ok_owned _ _ Hok fd Hfd) as (? & j & v & Hv & Ev). split; [done|].
      exists j, v. rewrite list_lookup_insert_ne; [done|]. intros ->. simplify_eq.
  - exact (ok_next _ _ Hok).
Qed.

(** *** The invariant under the same four changes *)
Lemma inv_update P l k i w w' b b' :
  slots_inv P l k -> l !! i = Some w -> k_bps k !! fileHandle w = Some b ->
  fileHandle w' = fileHandle w ->
  bp_attr_of (sd w') = Some (bp_at b') /\ wp_va w' = va (sd w') ->
  (isLBREnabled cfg = true -> is_Some (mmapBuffer w')) ->
  P (isActive w') (bp_on b') -> startTime w' < INT64_MAX ->
  forall n, slots_inv P (<[i := w']> l) (mkKernel (<[fileHandle w := b']> (k_bps k)) (k_next k) n).
Proof.
  intros [Hok Hsw Ht] Hw Hb Hf Ha Hm HP Hs n. pose proof (lookup_lt_Some _ _ _ Hw) as Hlt. split.
  - apply (wp_ok_kernel _ (with_bps (<[fileHandle w := b']> (k_bps k)) k)); [|done|done].
    by eapply wp_ok_update.
  - intros j v c Hv Hc. simpl in Hc. destruct (decide (i = j)) as [<-|Hij].
    + rewrite list_lookup_insert_eq in Hv by done. injection Hv as <-.
      rewrite Hf, lookup_insert_eq in Hc. by injection Hc as <-.
    + rewrite list_lookup_insert_ne in Hv by done. rewrite lookup_insert_ne in Hc.
      * by eapply Hsw.
      * intros E. apply Hij. eapply (ok_inj _ _ Hok); [done|done|done|].
        by eapply open_not_minus1.
  - intros j v Hv. destruct (decide (i = j)) as [<-|Hij].
    + rewrite list_lookup_insert_eq in Hv by done. by injection Hv as <-.
    + rewrite list_lookup_insert_ne in Hv by done. by eapply Ht.
Qed.

Lemma inv_slot P l k i w w' :
  slots_inv P l k -> l !! i = Some w -> fileHandle w' = fileHandle w ->
  isActive w' = isActive w -> sd w' = sd w -> wp_va w' = wp_va w -> startTime w' = startTime w ->
  (is_Some (mmapBuffer w) -> is_Some (mmapBuffer w')) -> slots_inv P (<[i := w']> l) k.
Proof.
  intros [Hok Hsw Ht] Hw Hf Ha Es Ev Est Hm. pose proof (lookup_lt_Some _ _ _ Hw) as Hlt. split.
  - eapply wp_ok_slot; try done. congruence.
  - intros j v c Hv Hc. destruct (decide (i = j)) as [<-|Hij].
    + rewrite list_lookup_insert_eq in Hv by done. injection Hv as <-.
      rewrite Ha. rewrite Hf in Hc. by eapply Hsw.
    + rewrite list_lookup_insert_ne in Hv by done. by eapply Hsw.
  - intros j v Hv. destruct (decide (i = j)) as [<-|Hij].
    + rewrite list_lookup_insert_eq in Hv by done. injection Hv as <-. rewrite Est. by eapply Ht.
    + rewrite list_lookup_insert_ne in Hv by done. by eapply Ht.
Qed.

Lemma inv_open P l k i w w' b :
  slots_inv P l k -> l !! i = Some w -> fileHandle w = -1 -> fileHandle w' = k_next k ->
  bp_attr_of (sd w') = Some (bp_at b) /\ wp_va w' = va (sd w') ->
  (isLBREnabled cfg = true -> is_Some (mmapBuffer w')) ->
  P (isActive w') (bp_on b) -> startTime w' < INT64_MAX ->
  forall n, slots_inv P (<[i := w']> l) (mkKernel (<[k_next k := b]> (k_bps k)) (k_next k + 1) n).
Proof.
  intros [Hok Hsw Ht] Hw Hf Hf' Ha Hm HP Hs n. pose proof (lookup_lt_Some _ _ _ Hw) as Hlt. split.
  - by eapply wp_ok_open.
  - intros j v c Hv Hc. simpl in Hc. destruct (decide (i = j)) as [<-|Hij].
    + rewrite list_lookup_insert_eq in Hv by done. injection Hv as <-.
      rewrite Hf', lookup_insert_eq in Hc. by injection Hc as <-.
    + rewrite list_lookup_insert_ne in Hv by done. rewrite lookup_insert_ne in Hc.
      * by eapply Hsw.
      * intros E. destruct (ok_slot _ _ Hok j v Hv) as [[? _]|(c' & Ec & _)].
        { pose proof (ok_next _ _ Hok). lia. }
        destruct (ok_owned _ _ Hok (fileHandle v)) as [? _]; [by eexists|lia].
  - intros j v Hv. destruct (decide (i = j)) as [<-|Hij].
    + rewrite list_lookup_insert_eq in Hv by done. by injection Hv as <-.
    + rewrite list_lookup_insert_ne in Hv by done. by eapply Ht.
Qed.

Lemma inv_close P l k i w w' :
  slots_inv P l k -> l !! i = Some w -> fileHandle w <> -1 -> fileHandle w' = -1 ->
  isActive w' = false -> startTime w' = startTime w ->
  slots_inv P (<[i := w']> l) (with_bps (delete (fileHandle w) (k_bps k)) k).
Proof.
  intros [Hok Hsw Ht] Hw Hf Hf' Ha Hs. pose proof (lookup_lt_Some _ _ _ Hw) as Hlt.
  pose proof (wp_ok_close _ _ _ _ w' Hok Hw Hf Hf' Ha) as Hok'. split; [done| |].
  - intros j v c Hv Hc. destruct (decide (i = j)) as [<-|Hij].
    + rewrite list_lookup_insert_eq in Hv by done. injection Hv as <-.
      rewrite Hf' in Hc. by apply (open_not_minus1 _ _ _ _ Hok') in Hc.
    + rewrite list_lookup_insert_ne in Hv by done. simpl in Hc.
      apply lookup_delete_Some in Hc as [_ Hc]. by eapply Hsw.
  - intros j v Hv. destruct (decide (i = j)) as [<-|Hij].
    + rewrite list_lookup_insert_eq in Hv by done. injection Hv as <-. rewrite Hs. by eapply Ht.
    + rewrite list_lookup_insert_ne in Hv by done. by eapply Ht.
Qed.

(** All slots change in what the invariant does not look at. *)
Lemma inv_fmap P l k (f : WP_RegisterInfo_t -> WP_RegisterInfo_t) :
  (forall w, fileHandle (f w) = fileHandle w /\ isActive (f w) = isActive w /\ sd (f w) = sd w /\
             wp_va (f w) = wp_va w /\ startTime (f w) = startTime w /\ mmapBuffer (f w) = mmapBuffer w) ->
  slots_inv P l k -> slots_inv P (f <$> l) k.
Proof.
  intros Hf [[Hs Hi Ho Hn] Hsw Ht]. split; [split|..].
  - intros i w Hw. apply list_lookup_fmap_Some in Hw as (v & -> & Hv).
    destruct (Hf v) as (E1 & E2 & E3 & E4 & _ & E6). unfold slot_ok. rewrite E1, E2, E3, E4, E6. by apply (Hs i).
  - intros i j w w' Hw Hw'. apply list_lookup_fmap_Some in Hw as (v & -> & Hv).
    apply list_lookup_fmap_Some in Hw' as (v' & -> & Hv').
    rewrite (proj1 (Hf v)), (proj1 (Hf v')). by apply Hi.
  - intros fd Hfd. destruct (Ho fd Hfd) as (? & i & w & Hw & E). split; [done|].
    exists i, (f w). split; [|by rewrite (proj1 (Hf w))].
    apply list_lookup_fmap_Some. by exists w.
  - done.
  - intros i w b Hw. apply list_lookup_fmap_Some in Hw as (v & -> & Hv).
    destruct (Hf v) as (E1 & E2 & _). rewrite E1, E2. by apply (Hsw i).
  - intros i w Hw. apply list_lookup_fmap_Some in Hw as (v & -> & Hv).
    destruct (Hf v) as (_ & _ & _ & _ & -> & _). by apply (Ht i).
Qed.

(** ** The operations on a kernel that cooperates

    It accepts what the library asks for, sets the owner and maps the ring. *)
Section cooperative.
Hypothesis accepts_all : forall fd s a, bp_attr_of s = Some a -> accepts fd a = true.
Hypothesis owner_all : forall fd, owner_ok fd = true.
Hypothesis mmap_all : forall fd, mmap_ok fd = true.
(** The time stamp counter does not reach the largest signed number. *)
Hypothesis tsc_small : forall n, i64 (tsc n) < INT64_MAX.

Lemma valid_attr s : ValidateWPData s = true -> exists a, bp_attr_of s = Some a.
Proof. unfold bp_attr_of. intros ->. by eexists. Qed.

(** What an operation on slot [i] leaves: the invariant, with slot [i] and the
    kernel changed and nothing else. *)
Definition slot_changed (i : nat) (w' : WP_RegisterInfo_t) (st st' : WP_ThreadData_t) : Prop :=
  exists k', st' = set_slot i w' (with_kern k' st).

Lemma DisArm_ok P i st w :
  wp_inv P st -> watchPointArray st !! i = Some w -> fileHandle w <> -1 ->
  exists w' st', DisArm i st = RET st' /\ wp_inv P st' /\ slot_changed i w' st st' /\
    isActive w' = false /\ fileHandle w' = -1.
Proof.
  intros Hinv Hw Hf. unfold DisArm. rewrite (slot_at_Some _ _ _ Hw). simpl.
  rewrite (proj2 (Z.eqb_neq _ _) Hf). simpl.
  destruct (ok_slot _ _ (inv_ok _ _ _ Hinv) i w Hw) as [[? _]|(b & Hb & _)]; [done|].
  unfold close_bp. rewrite Hb. simpl. do 2 eexists. split; [done|].
  split; [|split; [by eexists|done]]. by apply (inv_close P _ _ i w).
Qed.

Lemma DisableWatchpoint_ok (P : bool -> bool -> Prop) i st w :
  P false false -> wp_inv P st -> watchPointArray st !! i = Some w -> fileHandle w <> -1 ->
  exists st', DisableWatchpoint i st = RET st' /\ wp_inv P st' /\ slot_changed i (set_active false w) st st'.
Proof.
  intros HP Hinv Hw Hf. unfold DisableWatchpoint. rewrite (slot_at_Some _ _ _ Hw). simpl.
  rewrite (proj2 (Z.eqb_neq _ _) Hf). simpl.
  destruct (ok_slot _ _ (inv_ok _ _ _ Hinv) i w Hw) as [[? _]|(b & Hb & Hba & Hm)]; [done|].
  unfold ioctl_bp. rewrite Hb. simpl. eexists. split; [done|]. split; [|by eexists].
  eapply inv_update; try done. exact (inv_times _ _ _ Hinv i w Hw).
Qed.

Lemma CreateWatchPoint_modify_ok (P : bool -> bool -> Prop) i s st w :
  P true true -> wp_inv P st -> watchPointArray st !! i = Some w -> fileHandle w <> -1 ->
  isWPModifyEnabled cfg = true -> isLBREnabled cfg = true -> ValidateWPData s = true ->
  exists w' st', CreateWatchPoint i s true st = RET st' /\ wp_inv P st' /\ slot_changed i w' st st' /\
    isActive w' = true /\ sd w' = s.
Proof.
  intros HP Hinv Hw Hf Hmod Hlbr Hs. unfold CreateWatchPoint. rewrite (slot_at_Some _ _ _ Hw). simpl.
  destruct (valid_attr s Hs) as [a Ea]. rewrite Ea, Hmod. simpl.
  rewrite (proj2 (Z.eqb_neq _ _) Hf). simpl.
  destruct (ok_slot _ _ (inv_ok _ _ _ Hinv) i w Hw) as [[? _]|(b & Hb & _ & Hm)]; [done|].
  rewrite (bool_decide_eq_true_2 _ (Hm Hlbr)). simpl. rewrite Hb, (accepts_all _ _ _ Ea).
  do 2 eexists. split; [done|]. split_and!; [|by eexists|done|done].
  eapply inv_update; try done. simpl. apply tsc_small.
Qed.

Lemma CreateWatchPoint_fresh_ok (P : bool -> bool -> Prop) i s st w :
  P true true -> wp_inv P st -> watchPointArray st !! i = Some w -> fileHandle w = -1 ->
  ValidateWPData s = true ->
  exists w' st', CreateWatchPoint i s false st = RET st' /\ wp_inv P st' /\ slot_changed i w' st st' /\
    isActive w' = true /\ sd w' = s.
Proof.
  intros HP Hinv Hw Hf Hs. unfold CreateWatchPoint. rewrite (slot_at_Some _ _ _ Hw). simpl.
  destruct (valid_attr s Hs) as [a Ea]. rewrite Ea, andb_false_r, (accepts_all _ _ _ Ea), owner_all. simpl.
  do 2 eexists. split; [done|]. split_and!; [|by eexists|done|done].
  eapply inv_open; try done.
  - simpl. intros ->. unfold WP_MapBuffer. rewrite mmap_all. done.
  - simpl. apply tsc_small.
Qed.

(** Nothing is lost when the slot's old breakpoint is modified or given back, which
    without modification takes the slot to be active. *)
Definition no_orphan (w : WP_RegisterInfo_t) : Prop :=
  isWPModifyEnabled cfg = false -> fileHandle w <> -1 -> isActive w = true.

Lemma ArmWatchPoint_ok (P : bool -> bool -> Prop) i s st w :
  P true true -> wp_inv P st -> watchPointArray st !! i = Some w -> no_orphan w ->
  (isWPModifyEnabled cfg = true -> isLBREnabled cfg = true) -> ValidateWPData s = true ->
  exists w' st', ArmWatchPoint i s st = RET (true, st') /\ wp_inv P st' /\ slot_changed i w' st st' /\
    isActive w' = true /\ sd w' = s.
Proof.
  intros HP Hinv Hw Hor Hlbr Hs. unfold ArmWatchPoint. rewrite (slot_at_Some _ _ _ Hw). simpl.
  pose proof (lookup_lt_Some _ _ _ Hw) as Hlt.
  destruct (Z.eqb_spec (fileHandle w) (-1)) as [Hf|Hf].
  - rewrite andb_false_r. simpl.
    destruct (ok_slot _ _ (inv_ok _ _ _ Hinv) i w Hw) as [[_ Ha]|(b & Hb & _)].
    + rewrite Ha. simpl.
      destruct (CreateWatchPoint_fresh_ok P i s st w HP Hinv Hw Hf Hs) as (w' & st' & -> & ?).
      simpl. by exists w', st'.
    + by apply (open_not_minus1 _ _ _ _ (inv_ok _ _ _ Hinv)) in Hb.
  - destruct (isWPModifyEnabled cfg) eqn:Hmod; simpl.
    + destruct (CreateWatchPoint_modify_ok P i s st w HP Hinv Hw Hf Hmod (Hlbr eq_refl) Hs)
        as (w' & st' & -> & ?). simpl. by exists w', st'.
    + rewrite (Hor Hmod Hf).
      destruct (DisArm_ok P i st w Hinv Hw Hf) as (w1 & st1 & -> & Hinv1 & [k1 ->] & Ha1 & Hf1). simpl.
      destruct (CreateWatchPoint_fresh_ok P i s (set_slot i w1 (with_kern k1 st)) w1 HP Hinv1)
        as (w' & st' & -> & Hinv' & [k' ->] & ?); [|done|done|].
      { simpl. by apply list_lookup_insert_eq. }
      simpl. exists w'. eexists. split; [done|]. split; [done|]. split; [|done].
      exists k'. unfold set_slot, with_slots, with_kern. simpl. by rewrite list_insert_insert_eq.
Qed.

Lemma inv_agrees st : wp_inv eq st -> kernel_agrees st.
Proof.
  intros [Hok Hsw _] a. unfold watched. split.
  - intros [fd Hfd]. destruct (ok_owned _ _ Hok fd) as (_ & i & w & Hw & <-); [by eexists|].
    destruct (ok_slot _ _ Hok i w Hw) as [[Hf _]|(b & Hb & [Ha _] & _)].
    { by apply (open_not_minus1 _ _ _ _ Hok) in Hfd. }
    assert (b = mkBp a true) as -> by congruence. specialize (Hsw i w _ Hw Hfd). simpl in Hsw, Ha.
    exists i, (sd w). split; [|done]. apply list_lookup_fmap_Some. exists w. split; [|done].
    unfold watched_slot. by rewrite Hsw.
  - intros (i & s & Hs & Ea). apply list_lookup_fmap_Some in Hs as (w & E & Hw).
    unfold watched_slot in E. destruct (isActive w) eqn:Hact; [|done]. injection E as ->.
    destruct (ok_slot _ _ Hok i w Hw) as [[_ ?]|(b & Hb & [Ha _] & _)]; [congruence|].
    exists (fileHandle w). rewrite Hb. specialize (Hsw i w b Hw Hb). destruct b as [at' on]. simpl in *. congruence.
Qed.

Lemma overlap_spec a s :
  in_space a -> in_space s ->
  ADDRESSES_OVERLAP (va a) (watchLen a) (va s) (watchLen s) = false <-> range_disjoint a s.
Proof.
  intros (Ha & Hal & Hah) (Hs & Hsl & Hsh). unfold ADDRESSES_OVERLAP, range_disjoint, u64.
  rewrite !wrap_small by lia. rewrite andb_false_iff, !Z.ltb_ge. lia.
Qed.

Lemma IsOverlapped_spec s st :
  in_space s -> (forall i a, watched st !! i = Some (Some a) -> in_space a) ->
  IsOverlapped s st = false <-> forall i a, watched st !! i = Some (Some a) -> range_disjoint a s.
Proof.
  intros Hs Hsp. unfold IsOverlapped. rewrite <- not_true_iff_false, existsb_exists. split.
  - intros Hno i a Hi. pose proof (Hsp i a Hi) as Ha. apply overlap_spec; [done|done|].
    apply not_true_iff_false. intros E. apply Hno. unfold watched in Hi.
    apply list_lookup_fmap_Some in Hi as (w & Ew & Hw). unfold watched_slot in Ew.
    destruct (isActive w) eqn:Hact; [|done]. injection Ew as ->. exists w. split.
    { apply list_elem_of_In. by eapply list_elem_of_lookup_2. }
    unfold overlaps. by rewrite Hact, E.
  - intros Hall (w & Hw & E). apply list_elem_of_In, list_elem_of_lookup in Hw as [i Hw].
    unfold overlaps in E. apply andb_true_iff in E as [Hact E].
    assert (watched st !! i = Some (Some (sd w))) as Hi.
    { unfold watched. rewrite list_lookup_fmap, Hw. simpl. unfold watched_slot. by rewrite Hact. }
    pose proof (proj2 (overlap_spec _ _ (Hsp _ _ Hi) Hs) (Hall _ _ Hi)). congruence.
Qed.

Lemma disjoint_insert ws i s :
  disjoint_ok ws -> in_space s -> (forall j a, ws !! j = Some (Some a) -> range_disjoint a s) ->
  disjoint_ok (<[i := Some s]> ws).
Proof.
  intros [Hsp Hd] Hs Hnew.
  assert (forall j a, <[i := Some s]> ws !! j = Some (Some a) -> (j = i /\ a = s) \/ (j <> i /\ ws !! j = Some (Some a)))
    as Hcase.
  { intros j a Hj. destruct (decide (i = j)) as [<-|Hij].
    - left. pose proof (lookup_lt_Some _ _ _ Hj) as Hlt. rewrite length_insert in Hlt.
      rewrite list_lookup_insert_eq in Hj by done. by injection Hj as <-.
    - right. by rewrite list_lookup_insert_ne in Hj by done. }
  split.
  - intros j a Hj. destruct (Hcase j a Hj) as [[-> ->]|[_ Hj']]; [done|by eapply Hsp].
  - intros j1 j2 a b H1 H2 Hne.
    destruct (Hcase _ _ H1) as [[-> ->]|[? H1']], (Hcase _ _ H2) as [[-> ->]|[? H2']]; [done| | |by eapply Hd].
    + specialize (Hnew _ _ H2'). unfold range_disjoint in *. lia.
    + by eapply Hnew.
Qed.

(** *** Choosing a slot and subscribing *)
Lemma pick_oldest l i best loc :
  (pick_time (fun t b => t <? b) i l best loc = loc /\ forall j w, l !! j = Some w -> best <= startTime w) \/
  exists j w, pick_time (fun t b => t <? b) i l best loc = Z.of_nat (i + j) /\ l !! j = Some w /\
    startTime w < best /\ forall j' w', l !! j' = Some w' -> startTime w <= startTime w'.
Proof.
  revert i best loc; induction l as [|w l IH]; intros i best loc; cbn [pick_time].
  { left. split; [done|]. intros j w Hw. by rewrite lookup_nil in Hw. }
  destruct (Z.ltb_spec (startTime w) best) as [Hlt|Hge].
  - right. destruct (IH (Datatypes.S i) (startTime w) (Z.of_nat i)) as [[-> Hall]|(j & v & -> & Hv & Hlt' & Hall)].
    + exists 0%nat, w. rewrite Nat.add_0_r. split_and!; try done.
      intros [|j] v Hv; simpl in Hv; [injection Hv as <-; lia|by apply (Hall j)].
    + exists (Datatypes.S j), v. replace (i + Datatypes.S j)%nat with (Datatypes.S i + j)%nat by lia.
      split_and!; [done|done|lia|].
      intros [|j'] v' Hv'; simpl in Hv'; [injection Hv' as <-; lia|by apply (Hall j')].
  - destruct (IH (Datatypes.S i) best loc) as [[-> Hall]|(j & v & -> & Hv & Hlt' & Hall)].
    + left. split; [done|]. intros [|j] v Hv; simpl in Hv; [injection Hv as <-; lia|by apply (Hall j)].
    + right. exists (Datatypes.S j), v. replace (i + Datatypes.S j)%nat with (Datatypes.S i + j)%nat by lia.
      split_and!; [done|done|done|].
      intros [|j'] v' Hv'; simpl in Hv'; [injection Hv' as <-; lia|by apply (Hall j')].
Qed.

(** The oldest of the active slots [l]. *)
Definition oldest (l : list WP_RegisterInfo_t) (i : nat) : Prop :=
  exists w, l !! i = Some w /\ forall j w', l !! j = Some w' -> startTime w <= startTime w'.

Lemma GetVictim_ok st :
  watchPointArray st <> [] -> times_ok (watchPointArray st) ->
  exists r i f, GetVictim WP_REPLACEMENT_OLDEST st = (r, Z.of_nat i, with_slots (f <$> watchPointArray st) st) /\
    (f = id \/ f = inc_if_active) /\ (i < length (watchPointArray st))%nat /\
    (r = WP_VICTIM_EMPTY_SLOT /\ watched st !! i = Some None \/
     r = WP_VICTIM_NON_EMPTY_SLOT /\ (forall j, watched st !! j <> Some None) /\
     oldest (watchPointArray st) i).
Proof.
  intros Hne Ht. unfold GetVictim, watched.
  destruct (list_find _ _) as [[i w]|] eqn:Ef.
  - apply list_find_Some in Ef as (Hw & Ha & _).
    exists WP_VICTIM_EMPTY_SLOT, i, inc_if_active. split_and!; [done|by right|by eapply lookup_lt_Some|].
    left. split; [done|]. apply list_lookup_fmap_Some. exists w. split; [|done].
    unfold watched_slot. by rewrite Ha.
  - apply list_find_None in Ef. rewrite Forall_lookup in Ef.
    destruct (pick_oldest (watchPointArray st) 0 INT64_MAX (-1)) as [[_ Hall]|(j & w & -> & Hw & _ & Hall)].
    { destruct (watchPointArray st) as [|w l]; [done|]. pose proof (Ht 0%nat w eq_refl).
      pose proof (Hall 0%nat w eq_refl). lia. }
    exists WP_VICTIM_NON_EMPTY_SLOT, j, id. split_and!.
    + rewrite list_fmap_id. by destruct st.
    + by left.
    + by eapply lookup_lt_Some.
    + right. split_and!; [done| |by exists w].
      intros i E. apply list_lookup_fmap_Some in E as (v & E & Hv). apply (Ef i v Hv).
      unfold watched_slot in E. by destruct (isActive v).
Qed.

Lemma inc_if_active_same w :
  fileHandle (inc_if_active w) = fileHandle w /\ isActive (inc_if_active w) = isActive w /\
  sd (inc_if_active w) = sd w /\ wp_va (inc_if_active w) = wp_va w /\
  startTime (inc_if_active w) = startTime w /\ mmapBuffer (inc_if_active w) = mmapBuffer w.
Proof. unfold inc_if_active. by destruct (isActive w) eqn:E. Qed.

Lemma watched_set_slot i w' k st :
  watched (set_slot i w' (with_kern k st)) = <[i := watched_slot w']> (watched st).
Proof. unfold watched, set_slot, with_slots. simpl. by rewrite list_fmap_insert. Qed.

Lemma watched_set_same i w w' st :
  watchPointArray st !! i = Some w -> watched_slot w' = watched_slot w -> watched (set_slot i w' st) = watched st.
Proof.
  intros Hw E. unfold watched, set_slot. simpl. rewrite list_fmap_insert, E.
  apply list_insert_id. by rewrite list_lookup_fmap, Hw.
Qed.

(** Descriptors stay with their slots. *)
Definition handles_kept (l l' : list WP_RegisterInfo_t) : Prop :=
  length l' = length l /\
  forall i w w', l !! i = Some w -> l' !! i = Some w' -> fileHandle w <> -1 -> fileHandle w' <> -1.

Lemma handles_kept_trans l1 l2 l3 : handles_kept l1 l2 -> handles_kept l2 l3 -> handles_kept l1 l3.
Proof.
  intros [E1 H1] [E2 H2]. split; [congruence|]. intros i w w' Hw Hw' Hf.
  destruct (lookup_lt_is_Some_2 l2 i) as [v Hv]; [apply lookup_lt_Some in Hw; lia|].
  eapply H2; [done..|]. by eapply H1.
Qed.

Lemma handles_kept_insert l i w w' :
  l !! i = Some w -> (fileHandle w <> -1 -> fileHandle w' <> -1) -> handles_kept l (<[i := w']> l).
Proof.
  intros Hw Hf. pose proof (lookup_lt_Some _ _ _ Hw) as Hlt. split; [apply length_insert|].
  intros j v v' Hv Hv'. destruct (decide (i = j)) as [<-|?].
  - rewrite list_lookup_insert_eq in Hv' by done. simplify_eq. done.
  - rewrite list_lookup_insert_ne in Hv' by done. congruence.
Qed.

Lemma handles_kept_fmap l f : (forall w, fileHandle (f w) = fileHandle w) -> handles_kept l (f <$> l).
Proof.
  intros Hf. split; [apply length_fmap|]. intros i w w' Hw Hw'.
  apply list_lookup_fmap_Some in Hw' as (v & -> & Hv). rewrite Hf. congruence.
Qed.

(** A client of the library may rely on this. *)
Lemma WP_Subscribe_ok (P : bool -> bool -> Prop) s st :
  P true true -> replacementPolicy cfg = WP_REPLACEMENT_OLDEST ->
  (isWPModifyEnabled cfg = true -> isLBREnabled cfg = true) ->
  wp_inv P st -> watchPointArray st <> [] ->
  (forall i w, watchPointArray st !! i = Some w -> no_orphan w) ->
  ValidateWPData s = true -> IsOverlapped s st = false ->
  exists st' i, WP_Subscribe s false false st = RET (true, st') /\ wp_inv P st' /\
    (forall i w, watchPointArray st' !! i = Some w -> no_orphan w) /\
    watched st' = <[i := Some s]> (watched st) /\ (i < length (watched st))%nat /\
    (watched st !! i = Some None \/
     (forall j, watched st !! j <> Some None) /\ oldest (watchPointArray st) i) /\
    wpStack st' = wpStack st /\ client st' = client st /\ cnt st' = cnt st /\
    handles_kept (watchPointArray st) (watchPointArray st').
Proof.
  intros HP Hpol Hlbr Hinv Hne Hor Hs Hov. unfold WP_Subscribe. rewrite Hs, Hov, Hpol. simpl.
  destruct (GetVictim_ok st Hne (inv_times _ _ _ Hinv)) as (r & i & f & -> & Hf & Hi & Hr).
  assert (forall w, fileHandle (f w) = fileHandle w /\ isActive (f w) = isActive w /\ sd (f w) = sd w /\
             wp_va (f w) = wp_va w /\ startTime (f w) = startTime w /\ mmapBuffer (f w) = mmapBuffer w) as Hsame
    by (destruct Hf as [->| ->]; [done|apply inc_if_active_same]).
  set (st1 := with_slots (f <$> watchPointArray st) st).
  assert (wp_inv P st1) as Hinv1 by (by apply inv_fmap).
  assert (watched st1 = watched st) as Ew1.
  { unfold watched, st1. simpl. rewrite <- list_fmap_compose. apply list_fmap_ext. intros j w _. simpl.
    unfold watched_slot. destruct (Hsame w) as (_ & -> & -> & _). done. }
  destruct (lookup_lt_is_Some_2 _ _ Hi) as [w0 Hw0].
  assert (watchPointArray st1 !! i = Some (f w0)) as Hw by (unfold st1; simpl; by rewrite list_lookup_fmap, Hw0).
  assert (forall j w, watchPointArray st1 !! j = Some w -> no_orphan w) as Hor1.
  { intros j w Hj. unfold st1 in Hj. simpl in Hj. apply list_lookup_fmap_Some in Hj as (v & -> & Hv).
    unfold no_orphan. destruct (Hsame v) as (-> & -> & _). by eapply Hor. }
  destruct (ArmWatchPoint_ok P i s st1 (f w0) HP Hinv1 Hw (Hor1 _ _ Hw) Hlbr Hs)
    as (w' & st' & Earm & Hinv' & [k' ->] & Ha' & Es').
  exists (set_slot i w' (with_kern k' st1)), i.
  assert ((i < length (watchPointArray st1))%nat) as Hi1 by (by eapply lookup_lt_Some).
  split_and!; try done.
  - destruct Hr as [[-> _]|(-> & _)]; simpl; rewrite (proj2 (Z.leb_le 0 _)) by lia; simpl;
      rewrite Nat2Z.id, (slot_at_Some _ _ _ Hw); simpl;
      replace (with_stack (wpStack st) (set_slot i (f w0) st1)) with st1; try exact Earm;
      unfold set_slot, with_slots, with_stack; simpl; rewrite list_insert_id by done; by destruct st.
  - intros j w Hj. simpl in Hj. destruct (decide (i = j)) as [<-|Hij].
    + rewrite list_lookup_insert_eq in Hj by done. injection Hj as <-. by intros _ _.
    + rewrite list_lookup_insert_ne in Hj by done. by eapply Hor1.
  - rewrite watched_set_slot, Ew1. unfold watched_slot. by rewrite Ha', Es'.
  - unfold watched. by rewrite length_fmap.
  - destruct Hr as [[_ ?]|(_ & ? & ?)]; [by left|by right].
  - eapply handles_kept_trans; [apply (handles_kept_fmap _ f); apply Hsame|].
    apply handles_kept_insert with (f w0); [done|]. intros _.
    destruct (ok_slot _ _ (inv_ok _ _ _ Hinv') i w') as [[_ ?]|(b & Hb & _)].
    + simpl. by apply list_lookup_insert_eq.
    + congruence.
    + by eapply open_not_minus1; [apply Hinv'|].
Qed.

Lemma terminate_ok P n st :
  wp_inv P st -> (n <= length (watchPointArray st))%nat ->
  (forall i w, watchPointArray st !! i = Some w -> (i < length (watchPointArray st) - n)%nat -> fileHandle w = -1) ->
  exists st', for_slots (fun i st => w ← slot_at i st;
      if negb (fileHandle w =? -1) then DisArm i st else RET st)
      (seq (length (watchPointArray st) - n) n) st = RET st' /\ wp_inv P st' /\
    forall i w, watchPointArray st' !! i = Some w -> fileHandle w = -1.
Proof.
  remember (length (watchPointArray st)) as m eqn:Em.
  revert st Em; induction n as [|n IH]; intros st Em Hinv Hn Hdone.
  - exists st. split_and!; [done|done|]. intros i w Hw. eapply Hdone; [done|]. apply lookup_lt_Some in Hw. lia.
  - cbn [seq for_slots].
    destruct (lookup_lt_is_Some_2 (watchPointArray st) (m - Datatypes.S n)) as [w Hw]; [lia|].
    rewrite (slot_at_Some _ _ _ Hw). cbn [mbind exc_bind].
    assert (exists st1, (if negb (fileHandle w =? -1) then DisArm (m - Datatypes.S n) st else RET st) = RET st1 /\
      wp_inv P st1 /\ length (watchPointArray st1) = m /\
      forall i v, watchPointArray st1 !! i = Some v -> (i < m - n)%nat -> fileHandle v = -1)
      as (st1 & -> & Hinv1 & El1 & Hdone1).
    { destruct (Z.eqb_spec (fileHandle w) (-1)) as [Hf|Hf]; simpl.
      - exists st. split_and!; [done|done|done|]. intros i v Hv Hi.
        destruct (decide (i = m - Datatypes.S n)%nat) as [->|]; [congruence|]. eapply Hdone; [done|lia].
      - destruct (DisArm_ok P _ st w Hinv Hw Hf) as (w' & st1 & -> & Hinv1 & [k ->] & _ & Hf').
        eexists. split_and!; [done|done|simpl; by rewrite length_insert|]. simpl. intros i v Hv Hi.
        destruct (decide ((m - Datatypes.S n) = i)%nat) as [<-|].
        + rewrite list_lookup_insert_eq in Hv by (by eapply lookup_lt_Some). congruence.
        + rewrite list_lookup_insert_ne in Hv by done. eapply Hdone; [done|lia]. }
    cbn [mbind exc_bind]. replace (Datatypes.S (m - Datatypes.S n)) with (m - n)%nat by lia.
    apply IH; [done|done|lia|done].
Qed.

Lemma WP_ThreadTerminate_ok P st :
  wp_inv P st -> exists st', WP_ThreadTerminate (Some st) = RET st' /\ k_bps (kern st') = ∅ /\
    forall i w, watchPointArray st' !! i = Some w -> fileHandle w = -1.
Proof.
  intros Hinv. unfold WP_ThreadTerminate, all_slots.
  destruct (terminate_ok P (length (watchPointArray st)) st Hinv) as (st' & E & Hinv' & Hall); [done| |].
  { intros. lia. }
  rewrite Nat.sub_diag in E. rewrite E. exists st'. split_and!; [done| |done].
  apply map_empty. intros fd. destruct (k_bps (kern st') !! fd) as [b|] eqn:Eb; [|done].
  destruct (ok_owned _ _ (inv_ok _ _ _ Hinv') fd) as (? & i & w & Hw & <-); [by eexists|].
  rewrite (Hall i w Hw) in *. lia.
Qed.

(** *** The library's clients

    A client changes its own state and the counters, and sets watchpoints through
    [WP_Subscribe]. *)
Inductive client_run : WP_ThreadData_t -> WP_ThreadData_t -> Prop :=
  | run_done st : client_run st st
  | run_subscribe s b st st1 st2 :
      WP_Subscribe s false false st = RET (b, st1) -> client_run st1 st2 -> client_run st st2
  | run_own st st1 st2 :
      watchPointArray st1 = watchPointArray st -> wpStack st1 = wpStack st ->
      k_bps (kern st1) = k_bps (kern st) -> k_next (kern st1) = k_next (kern st) ->
      client_run st1 st2 -> client_run st st2.

(** The interface: what a callback may do, and when it may say that the watchpoint
    is disabled already. *)
Class WP_Client {U} (fptr : WP_TriggerInfo_t -> U -> WP_ThreadData_t -> exc (WP_TriggerAction_t * WP_ThreadData_t)) :=
  client_returns : forall wpt u st a st', fptr wpt u st = RET (a, st') ->
    client_run st st' /\ (a = WP_ALREADY_DISABLED -> watched st' !! t_slot wpt = Some None).

Section configured.
(** As [WP_Init] leaves the configuration on a kernel that can modify breakpoints. *)
Hypothesis cfg_modify : isWPModifyEnabled cfg = true.
Hypothesis cfg_lbr : isLBREnabled cfg = true.
Hypothesis cfg_policy : replacementPolicy cfg = WP_REPLACEMENT_OLDEST.

Lemma no_orphan_modify w : no_orphan w.
Proof. unfold no_orphan. congruence. Qed.

(** What is kept while the trap handler runs. *)
Definition trap_inv (st : WP_ThreadData_t) : Prop := wp_inv implied st /\ wpStack st = [].

Lemma client_run_inv (P : bool -> bool -> Prop) st st' :
  P true true -> client_run st st' -> wp_inv P st /\ wpStack st = [] -> watchPointArray st <> [] ->
  (wp_inv P st' /\ wpStack st' = []) /\ handles_kept (watchPointArray st) (watchPointArray st').
Proof.
  intros HP. induction 1 as [st|s b st st1 st2 Hsub _ IH|st st1 st2 El Es Eb En _ IH]; intros [Hinv Hst] Hne.
  - split; [done|]. split; [done|]. congruence.
  - assert ((b = false /\ st1 = st) \/ (ValidateWPData s = true /\ IsOverlapped s st = false)) as [[-> ->]|[Hv Ho]].
    { unfold WP_Subscribe in Hsub. destruct (ValidateWPData s); simpl in Hsub; [|left; split; congruence].
      destruct (IsOverlapped s st); [left; split; congruence|by right]. }
    { by apply IH. }
    destruct (WP_Subscribe_ok P s st) as (st1' & i & E & Hinv1 & _ & _ & _ & _ & Es & _ & _ & Hk);
      try done; [by intros; apply no_orphan_modify|].
    assert (st1' = st1) as -> by congruence.
    destruct IH as [? ?]; [split; [done|congruence]| |].
    { destruct Hk as [El _]. destruct (watchPointArray st1); [|done]. by destruct (watchPointArray st). }
    split; [done|]. by eapply handles_kept_trans.
  - rewrite <- El. rewrite <- El in Hne. apply IH; [|done]. split; [|congruence]. unfold wp_inv. rewrite El.
    destruct Hinv as [Hok Hsw Ht]. split; [|by intros i w b Hi; rewrite Eb; apply (Hsw i)|done].
    apply (wp_ok_kernel _ (kern st)); [done|done|]. by rewrite Eb.
Qed.

Lemma client_run_ok st st' :
  client_run st st' -> trap_inv st -> watchPointArray st <> [] ->
  trap_inv st' /\ handles_kept (watchPointArray st) (watchPointArray st').
Proof. by apply client_run_inv. Qed.

(** *** Pausing and resuming *)
Lemma switch_active_lookup on l k fd :
  k_bps (switch_active on l k) !! fd =
    (fun b => if existsb (fun w => isActive w && (fileHandle w =? fd)) l then mkBp (bp_at b) on else b)
      <$> k_bps k !! fd.
Proof.
  revert k; induction l as [|w l IH]; intros k; simpl.
  { by destruct (k_bps k !! fd). }
  rewrite IH. destruct (isActive w); simpl; [|done]. unfold ioctl_bp.
  destruct (Z.eqb_spec (fileHandle w) fd) as [E|E]; simpl.
  - rewrite E. destruct (k_bps k !! fd) as [b|] eqn:Eb; simpl.
    + rewrite lookup_insert_eq. simpl. by destruct (existsb _ l).
    + by rewrite Eb.
  - destruct (k_bps k !! fileHandle w); simpl; [by rewrite lookup_insert_ne by done|done].
Qed.

Lemma switch_active_next on l k : k_next (switch_active on l k) = k_next k.
Proof.
  revert k; induction l as [|w l IH]; intros k; simpl; [done|]. rewrite IH.
  destruct (isActive w); [|done]. unfold ioctl_bp. by destruct (_ !! _).
Qed.

(** The breakpoint of a slot after the switch. *)
Lemma switch_active_slot on l k i w b :
  wp_ok l k -> l !! i = Some w -> k_bps (switch_active on l k) !! fileHandle w = Some b ->
  exists b0, k_bps k !! fileHandle w = Some b0 /\ bp_on b = if isActive w then on else bp_on b0.
Proof.
  intros Hok Hw Hb. rewrite switch_active_lookup in Hb. apply fmap_Some in Hb as (b0 & Hb0 & ->).
  exists b0. split; [done|]. destruct (isActive w) eqn:Ha.
  - assert (existsb (fun v => isActive v && (fileHandle v =? fileHandle w)) l = true) as ->; [|done].
    apply existsb_exists. exists w. split; [|by rewrite Ha, Z.eqb_refl].
    apply list_elem_of_In. by eapply list_elem_of_lookup_2.
  - destruct (existsb _ l) eqn:Ex; [|done]. exfalso.
    apply existsb_exists in Ex as (v & Hv & E). apply andb_true_iff in E as [Ev E].
    apply list_elem_of_In, list_elem_of_lookup in Hv as [j Hv]. apply Z.eqb_eq in E.
    assert (j = i) as ->; [|congruence]. eapply (ok_inj _ _ Hok); [done|done|done|].
    rewrite E. by eapply open_not_minus1.
Qed.

Lemma switch_wp_ok on l k : wp_ok l k -> wp_ok l (switch_active on l k).
Proof.
  intros Hok. apply (wp_ok_kernel _ k); [done|apply switch_active_next|]. intros fd.
  rewrite switch_active_lookup, <- option_fmap_compose. apply option_fmap_ext. intros b. simpl.
  by destruct (existsb _ l).
Qed.

Definition all_off (k : kernel) : Prop := forall fd b, k_bps k !! fd = Some b -> bp_on b = false.

Lemma pause_ok l k :
  slots_inv eq l k -> slots_inv implied l (switch_active false l k) /\ all_off (switch_active false l k).
Proof.
  intros [Hok Hsw Ht]. pose proof (switch_wp_ok false l k Hok) as Hok'.
  assert (forall i w b, l !! i = Some w -> k_bps (switch_active false l k) !! fileHandle w = Some b ->
    bp_on b = false) as Hoff.
  { intros i w b Hw Hb. destruct (switch_active_slot false l k i w b Hok Hw Hb) as (b0 & Hb0 & ->).
    destruct (isActive w) eqn:Ha; [done|]. by rewrite <- (Hsw i w b0 Hw Hb0). }
  split; [split; [done| |done]|].
  - intros i w b Hw Hb E. by rewrite (Hoff i w b) in E.
  - intros fd b Hb. destruct (ok_owned _ _ Hok' fd) as (_ & i & w & Hw & <-); [by eexists|]. by eapply Hoff.
Qed.

Lemma resume_ok l k : slots_inv implied l k -> slots_inv eq l (switch_active true l k).
Proof.
  intros [Hok Hsw Ht]. split; [by apply switch_wp_ok| |done].
  intros i w b Hw Hb. destruct (switch_active_slot true l k i w b Hok Hw Hb) as (b0 & Hb0 & ->).
  destruct (isActive w) eqn:Ha; [done|]. specialize (Hsw i w b0 Hw Hb0). unfold implied in Hsw.
  rewrite Ha in Hsw. destruct (bp_on b0); [by apply Hsw|done].
Qed.

(** *** The action asked for *)
Definition action_watched (i : nat) (a : WP_TriggerAction_t) (st : WP_ThreadData_t) : list (option SampleData_t) :=
  match a with
  | WP_TRIGGERED | WP_ALREADY_DISABLED => watched st
  | WP_DISABLE => <[i := None]> (watched st)
  | WP_DISABLE_ALL => (fun _ => None) <$> watched st
  | WP_RETAIN => <[i := sd <$> watchPointArray st !! i]> (watched st)
  end.

Lemma length_action i a st : length (action_watched i a st) = length (watched st).
Proof. destruct a; simpl; rewrite ?length_insert, ?length_fmap; done. Qed.

(** Disabling a slot and resetting its probability. *)
Lemma disable_and_reset (P : bool -> bool -> Prop) i st w :
  P false false -> wp_inv P st -> watchPointArray st !! i = Some w ->
  exists st', (st ← DisableWatchpointWrapper i st; reset_post i st) = RET st' /\ wp_inv P st' /\
    wpStack st' = wpStack st /\
    watched st' = <[i := None]> (watched st) /\ length (watchPointArray st') = length (watchPointArray st).
Proof.
  intros HP Hinv Hw. pose proof (lookup_lt_Some _ _ _ Hw) as Hlt.
  assert (exists st1 w1, DisableWatchpointWrapper i st = RET st1 /\ wp_inv P st1 /\ wpStack st1 = wpStack st /\
    watchPointArray st1 !! i = Some w1 /\ isActive w1 = false /\
    watched st1 = <[i := None]> (watched st) /\ length (watchPointArray st1) = length (watchPointArray st))
    as (st1 & w1 & E1 & Hinv1 & Hst1 & Hw1 & Ha1 & Ew1 & El1).
  { unfold DisableWatchpointWrapper. rewrite (slot_at_Some _ _ _ Hw), cfg_modify. simpl.
    destruct (isActive w) eqn:Ha.
    - destruct (ok_slot _ _ (inv_ok _ _ _ Hinv) i w Hw) as [[_ ?]|(b & Hb & _)]; [congruence|].
      pose proof (open_not_minus1 _ _ _ _ (inv_ok _ _ _ Hinv) Hb) as Hf.
      destruct (DisableWatchpoint_ok P i st w HP Hinv Hw Hf) as (st1 & -> & Hinv1 & [k ->]).
      do 2 eexists. split; [done|]. split_and!; [done|done|by apply list_lookup_insert_eq|done| |apply length_insert].
      rewrite watched_set_slot. done.
    - exists st, w. split_and!; [done|done|done|done|done| |done].
      symmetry. apply list_insert_id. unfold watched. rewrite list_lookup_fmap, Hw. simpl.
      unfold watched_slot. by rewrite Ha. }
  rewrite E1. simpl. unfold reset_post. rewrite (slot_at_Some _ _ _ Hw1). simpl.
  eexists. split; [done|]. split_and!.
  - by eapply inv_slot.
  - done.
  - rewrite <- Ew1. unfold watched. simpl. rewrite list_fmap_insert. apply list_insert_id.
    rewrite list_lookup_fmap, Hw1. simpl. done.
  - simpl. by rewrite length_insert.
Qed.

Lemma disable_all (P : bool -> bool -> Prop) n st :
  P false false -> wp_inv P st -> (n <= length (watchPointArray st))%nat ->
  exists st', for_slots (fun i st => st ← DisableWatchpointWrapper i st; reset_post i st)
      (seq (length (watchPointArray st) - n) n) st = RET st' /\ wp_inv P st' /\ wpStack st' = wpStack st /\
    watched st' = take (length (watchPointArray st) - n) (watched st) ++ replicate n None.
Proof.
  remember (length (watchPointArray st)) as m eqn:Em.
  intros HP. revert st Em; induction n as [|n IH]; intros st Em Hinv Hn.
  - exists st. split_and!; [done|done|done|]. rewrite Nat.sub_0_r, app_nil_r, take_ge; [done|].
    unfold watched. rewrite length_fmap. lia.
  - cbn [seq for_slots].
    destruct (lookup_lt_is_Some_2 (watchPointArray st) (m - Datatypes.S n)) as [w Hw]; [lia|].
    destruct (disable_and_reset P _ st w HP Hinv Hw) as (st1 & -> & Hinv1 & Es1 & Ew1 & El1). cbn [mbind exc_bind].
    replace (Datatypes.S (m - Datatypes.S n)) with (m - n)%nat by lia.
    destruct (IH st1) as (st' & E & Hinv' & Es' & Ew'); [lia|done|lia|].
    exists st'. split_and!; [done|done|congruence|]. rewrite Ew', Ew1.
    assert ((m - Datatypes.S n < length (watched st))%nat) as Hlt by (unfold watched; rewrite length_fmap; lia).
    replace (m - n)%nat with (Datatypes.S (m - Datatypes.S n)) by lia.
    rewrite (take_S_r _ _ None) by (by apply list_lookup_insert_eq).
    rewrite take_insert_ge by lia. by rewrite <- app_assoc.
Qed.

Lemma take_action_ok i w a st :
  trap_inv st -> watchPointArray st !! i = Some w -> fileHandle w <> -1 ->
  (a = WP_ALREADY_DISABLED -> watched st !! i = Some None) ->
  exists st', take_action i a st = RET st' /\ trap_inv st' /\ watched st' = action_watched i a st.
Proof.
  intros [Hinv Hst] Hw Hf Ha. pose proof (lookup_lt_Some _ _ _ Hw) as Hlt. destruct a; simpl.
  - destruct (disable_and_reset implied i st w ltac:(done) Hinv Hw) as (st' & E & Hinv' & Hst' & Ew & _).
    rewrite Hst in Hst'.
    apply exc_bind_ret in E as (st1 & -> & E). simpl. rewrite E. simpl.
    unfold rearm_from_stack. rewrite Hst'. simpl. by exists st'.
  - rewrite (slot_at_Some _ _ _ Hw). simpl. specialize (Ha eq_refl). unfold watched in Ha.
    rewrite list_lookup_fmap, Hw in Ha. simpl in Ha. unfold watched_slot in Ha.
    destruct (isActive w) eqn:Ha'; [done|]. simpl. unfold reset_post.
    rewrite (slot_at_Some _ _ _ Hw). simpl. unfold rearm_from_stack. simpl. rewrite Hst. simpl.
    eexists. split; [done|]. split; [split; [by eapply inv_slot|done]|].
    unfold watched. simpl. rewrite list_fmap_insert. apply list_insert_id.
    rewrite list_lookup_fmap, Hw. done.
  - destruct (disable_all implied (length (watchPointArray st)) st ltac:(done) Hinv) as (st' & E & Hinv' & Es & Ew); [done|].
    rewrite Nat.sub_diag in E, Ew. exists st'. split_and!; [done|by split; [|congruence]|]. rewrite Ew. simpl.
    unfold watched. rewrite <- list_fmap_compose. symmetry. apply list_eq_same_length with (length (watchPointArray st)); rewrite ?length_fmap, ?length_replicate; try done.
    intros j x y Hj Hx Hy. apply lookup_replicate in Hy as [-> _]. apply list_lookup_fmap_Some in Hx as (v & -> & _). done.
  - rewrite (slot_at_Some _ _ _ Hw). simpl. rewrite Hw. simpl. destruct (isActive w) eqn:Ha'.
    + exists st. split_and!; [done|done|]. symmetry. apply list_insert_id. unfold watched.
      rewrite list_lookup_fmap, Hw. simpl. unfold watched_slot. by rewrite Ha'.
    + destruct (ok_slot _ _ (inv_ok _ _ _ Hinv) i w Hw) as [[? _]|(b & Hb & Hba & Hm)]; [done|].
      unfold EnableWatchpoint, ioctl_bp. rewrite Hb. simpl. eexists. split; [done|]. split; [split; [|done]|].
      * eapply inv_update; try done. exact (inv_times _ _ _ Hinv i w Hw).
      * by rewrite watched_set_slot.
  - by exists st.
Qed.

Lemma DisableWatchpoint_off i st st' :
  all_off (kern st) -> DisableWatchpoint i st = RET st' -> all_off (kern st').
Proof.
  intros Hoff E. unfold DisableWatchpoint in E. apply exc_bind_ret in E as (w & _ & E).
  apply exc_bind_ret in E as (_ & _ & E). apply exc_bind_ret in E as (k & Ek & [= <-]).
  unfold ioctl_bp in Ek. destruct (k_bps (kern st) !! fileHandle w) as [b|]; [|done].
  injection Ek as <-. intros fd b' Hb'. simpl in Hb'.
  destruct (decide (fileHandle w = fd)) as [<-|?].
  - rewrite lookup_insert_eq in Hb'. by injection Hb' as <-.
  - rewrite lookup_insert_ne in Hb' by done. by eapply Hoff.
Qed.

(** *** What an operation leaves alone

    Every slot watched afterwards with [t] was so before, or has been set to [s]. *)
Definition watched_sub (s : option SampleData_t) (ws' ws : list (option SampleData_t)) : Prop :=
  length ws' = length ws /\
  forall j t, ws' !! j = Some (Some t) -> ws !! j = Some (Some t) \/ s = Some t.

Lemma watched_sub_refl s ws : watched_sub s ws ws.
Proof. split; auto. Qed.

Lemma watched_sub_insert s i o ws ws' :
  (o = None \/ o = s) -> watched_sub s ws' ws -> watched_sub s (<[i := o]> ws') ws.
Proof.
  intros Ho [El Hs]. split; [by rewrite length_insert|]. intros j t Hj.
  apply list_lookup_insert_Some in Hj as [(<- & -> & _)|[_ Hj]]; [|by apply Hs].
  destruct Ho as [Ho|<-]; [done|by right].
Qed.

(** Disabling a slot, in either way. *)
Definition disabled (i : nat) (st st' : WP_ThreadData_t) : Prop :=
  client st' = client st /\ wpStack st' = wpStack st /\
  sd <$> watchPointArray st' = sd <$> watchPointArray st /\
  (watched st' = <[i := None]> (watched st) \/ watched st' = watched st).

Lemma disabled_slot i w w' k st :
  watchPointArray st !! i = Some w -> sd w' = sd w -> isActive w' = false ->
  disabled i st (set_slot i w' (with_kern k st)) /\
  watched (set_slot i w' (with_kern k st)) = <[i := None]> (watched st).
Proof.
  intros Hw Es Ha. assert (watched (set_slot i w' (with_kern k st)) = <[i := None]> (watched st)) as E.
  { rewrite watched_set_slot. unfold watched_slot. by rewrite Ha. }
  split; [|done]. split_and!; [done|done| |by left]. simpl. rewrite list_fmap_insert, Es.
  apply list_insert_id. by rewrite list_lookup_fmap, Hw.
Qed.

Lemma slot_at_RET i st w : slot_at i st = RET w -> watchPointArray st !! i = Some w.
Proof. unfold slot_at. destruct (_ !! i); [|done]. by intros [= ->]. Qed.

Lemma DisableWatchpoint_frame i st st' :
  DisableWatchpoint i st = RET st' -> disabled i st st' /\ watched st' = <[i := None]> (watched st).
Proof.
  intros E. unfold DisableWatchpoint in E. apply exc_bind_ret in E as (w & Hw%slot_at_RET & E).
  apply exc_bind_ret in E as (_ & _ & E). apply exc_bind_ret in E as (k & _ & [= <-]).
  by apply (disabled_slot i w).
Qed.

Lemma DisArm_frame i st st' :
  DisArm i st = RET st' -> disabled i st st' /\ watched st' = <[i := None]> (watched st).
Proof.
  intros E. unfold DisArm in E. apply exc_bind_ret in E as (w & Hw%slot_at_RET & E).
  apply exc_bind_ret in E as (_ & _ & E). apply exc_bind_ret in E as (k & _ & [= <-]).
  by apply (disabled_slot i w).
Qed.

Lemma DisableWatchpointWrapper_frame i st st' : DisableWatchpointWrapper i st = RET st' -> disabled i st st'.
Proof.
  intros E. unfold DisableWatchpointWrapper in E. apply exc_bind_ret in E as (w & _ & E).
  destruct (_ && _); [by apply DisableWatchpoint_frame|].
  destruct (_ && _); [by apply DisArm_frame|]. injection E as <-. split_and!; auto.
Qed.

Lemma CreateWatchPoint_frame i s modify st st' :
  CreateWatchPoint i s modify st = RET st' ->
  client st' = client st /\ wpStack st' = wpStack st /\ watched_sub (Some s) (watched st') (watched st).
Proof.
  intros E. unfold CreateWatchPoint in E. apply exc_bind_ret in E as (w & _ & E).
  assert (forall w' k, isActive w' = true -> sd w' = s ->
    watched_sub (Some s) (watched (set_slot i w' (with_kern k st))) (watched st)) as Hset.
  { intros w' k Ha <-. rewrite watched_set_slot. unfold watched_slot. rewrite Ha.
    apply watched_sub_insert; [by right|apply watched_sub_refl]. }
  destruct (bp_attr_of s); [|done]. destruct (_ && _).
  - apply exc_bind_ret in E as (_ & _ & E). apply exc_bind_ret in E as (_ & _ & E).
    destruct (k_bps _ !! _); [|done]. destruct (accepts _ _); [|done]. injection E as <-.
    split_and!; [done|done|by apply Hset].
  - destruct (negb (accepts _ _)); [done|]. destruct (negb (owner_ok _)); injection E as <-;
      (split_and!; [done|done|]); [apply watched_sub_refl|by apply Hset].
Qed.

Lemma ArmWatchPoint_frame i s st b st' :
  ArmWatchPoint i s st = RET (b, st') ->
  client st' = client st /\ wpStack st' = wpStack st /\ watched_sub (Some s) (watched st') (watched st).
Proof.
  intros E. unfold ArmWatchPoint in E. apply exc_bind_ret in E as (w & _ & E). destruct (_ && _).
  - apply exc_bind_ret in E as (st1 & E & [= <- <-]). by eapply CreateWatchPoint_frame.
  - apply exc_bind_ret in E as (st1 & E1 & E). apply exc_bind_ret in E as (st2 & E2 & [= <- <-]).
    destruct (CreateWatchPoint_frame _ _ _ _ _ E2) as (-> & -> & Hs). destruct (isActive w).
    + destruct (DisArm_frame _ _ _ E1) as [(-> & -> & _) Ew]. split_and!; [done|done|].
      destruct Hs as [El Hs]. rewrite Ew in El, Hs. split; [by rewrite El, length_insert|].
      intros j t Hj. destruct (Hs j t Hj) as [Hj'|]; [|by right]. left.
      by apply list_lookup_insert_Some in Hj' as [(_ & ? & _)|[_ ?]].
    + by injection E1 as ->.
Qed.

Lemma WP_Subscribe_frame s b st st' :
  replacementPolicy cfg = WP_REPLACEMENT_OLDEST ->
  WP_Subscribe s false false st = RET (b, st') ->
  client st' = client st /\ wpStack st' = wpStack st /\ watched_sub (Some s) (watched st') (watched st).
Proof.
  intros Hpol E. unfold WP_Subscribe in E. rewrite Hpol in E.
  destruct (negb (ValidateWPData s)); [injection E as _ <-; split_and!; auto using watched_sub_refl|].
  destruct (IsOverlapped s st); [injection E as _ <-; split_and!; auto using watched_sub_refl|].
  assert (exists r v f, GetVictim WP_REPLACEMENT_OLDEST st = (r, v, with_slots (f <$> watchPointArray st) st) /\
    r <> WP_VICTIM_NONE_AVAILABLE /\ forall w, watched_slot (f w) = watched_slot w) as (r & v & f & Ev & Hr & Hf).
  { unfold GetVictim. destruct (list_find _ _) as [[i ?]|].
    - do 3 eexists. split_and!; [done|done|]. intros x. unfold watched_slot.
      by destruct (inc_if_active_same x) as (_ & -> & -> & _).
    - do 2 eexists. exists id. split; [rewrite list_fmap_id; by destruct st|done]. }
  rewrite Ev in E. set (st1 := with_slots (f <$> watchPointArray st) st) in E.
  assert (watched st1 = watched st) as <-.
  { unfold watched, st1. simpl. rewrite <- list_fmap_compose. apply list_fmap_ext. intros j w _. apply Hf. }
  change (client st) with (client st1). change (wpStack st) with (wpStack st1).
  assert (exists i w, watchPointArray st1 !! i = Some w /\
    ArmWatchPoint i s (with_stack (wpStack st1) (set_slot i w st1)) = RET (b, st')) as (i & w & Hw & Earm).
  { destruct r; [| |done]; (apply exc_bind_ret in E as (_ & _ & E); apply exc_bind_ret in E as (w & Hw & E);
      apply slot_at_RET in Hw; cbn [mbind exc_bind] in E; by do 2 eexists). }
  assert (with_stack (wpStack st1) (set_slot i w st1) = st1) as Eid.
  { unfold set_slot, with_slots, with_stack. simpl. rewrite list_insert_id by done. done. }
  rewrite Eid in Earm. by eapply ArmWatchPoint_frame.
Qed.

(** The two actions the tracer asks for. *)
Lemma take_action_frame i a st st' :
  a = WP_DISABLE \/ a = WP_TRIGGERED -> wpStack st = [] -> take_action i a st = RET st' ->
  client st' = client st /\ wpStack st' = [] /\ watched_sub None (watched st') (watched st).
Proof.
  intros [-> | ->] Hst E; simpl in E; [|injection E as <-; auto using watched_sub_refl].
  apply exc_bind_ret in E as (st1 & E1%DisableWatchpointWrapper_frame & E).
  destruct E1 as (Ec & Es & _ & Ew). apply exc_bind_ret in E as (st2 & E2 & E).
  unfold reset_post in E2. apply exc_bind_ret in E2 as (w & Hw%slot_at_RET & [= <-]).
  unfold rearm_from_stack in E. simpl in E. rewrite Es, Hst in E. simpl in E. injection E as <-.
  split; [exact Ec|]. split; [by rewrite <- Hst, <- Es|].
  rewrite (watched_set_same _ _ _ _ Hw) by done.
  destruct Ew as [-> | ->]; [apply watched_sub_insert; [by left|]|]; apply watched_sub_refl.
Qed.

(** *** The handler *)
Section trap.
Context (ev_read : nat -> nat -> Z * Z) {U : Type}.
Context (fptr : WP_TriggerInfo_t -> U -> WP_ThreadData_t -> exc (WP_TriggerAction_t * WP_ThreadData_t)).
Context `{!WP_Client fptr}.
Hypothesis reads_ok : forall i t, 0 < (ev_read i t).1.
Hypothesis hooks_ok : forall h f c, h = userPerfPause cfg \/ h = userPerfResume cfg ->
  h = Some f -> exists c', f c = RET c'.

Definition same_bps (k k' : kernel) : Prop := k_bps k' = k_bps k /\ k_next k' = k_next k.

Lemma inv_same_bps P l k k' : same_bps k k' -> slots_inv P l k -> slots_inv P l k'.
Proof.
  intros [Eb En] [Hok Hsw Ht]. split; [|by intros i w b; rewrite Eb; apply Hsw|done].
  apply (wp_ok_kernel _ k); [done|done|]. by rewrite Eb.
Qed.

Lemma read_events_ok ids k :
  exists vs k', read_events ev_read ids k = RET (vs, k') /\ same_bps k k' /\ length vs = length ids.
Proof.
  revert k; induction ids as [|i ids IH]; intros k; simpl; [by exists [], k|].
  pose proof (reads_ok i (k_time k)) as Hr. destruct (ev_read i (k_time k)) as [ret v]. simpl in Hr.
  rewrite (proj2 (Z.ltb_lt _ _) Hr). simpl. destruct (IH (tick k)) as (vs & k' & -> & [] & El). simpl.
  exists (v :: vs), k'. split_and!; try done. simpl. congruence.
Qed.

Lemma account_ok ids vs c k :
  Forall (fun i => (i < length (eventRDCnt c))%nat) ids ->
  exists c' k', account_events ev_read ids vs c k = RET (c', k') /\ same_bps k k'.
Proof.
  revert vs c k; induction ids as [|i ids IH]; intros vs c k Hids; simpl; [by exists c, k|].
  apply Forall_cons in Hids as [Hi Hids]. destruct vs as [|v vs]; [by exists c, k|].
  destruct (lookup_lt_is_Some_2 _ _ Hi) as [n ->].
  pose proof (reads_ok i (k_time k)) as Hr. destruct (ev_read i (k_time k)) as [ret t]. simpl in Hr.
  rewrite (proj2 (Z.leb_le 0 ret)) by lia. simpl.
  edestruct IH as (c' & k' & -> & []); [|by exists c', k'].
  eapply Forall_impl; [done|]. intros j Hj. simpl. by rewrite length_insert.
Qed.

Lemma account_same_bps ids vs c k c' k' :
  account_events ev_read ids vs c k = RET (c', k') -> same_bps k k'.
Proof.
  revert vs c k; induction ids as [|i ids IH]; intros vs c k E; simpl in E; [by injection E as _ <-|].
  destruct vs as [|v vs]; [by injection E as _ <-|].
  destruct (eventRDCnt c !! i) as [n|]; [|done]. destruct (ev_read i (k_time k)) as [ret t].
  apply exc_bind_ret in E as (_ & _ & E). by apply IH in E.
Qed.

Lemma run_hook_ok h st :
  (forall f c, h = Some f -> exists c', f c = RET c') ->
  exists c', run_hook h st = RET (with_client c' st).
Proof.
  intros Hh. unfold run_hook. destruct h as [f|].
  - destruct (Hh f (client st) eq_refl) as [c' ->]. by exists c'.
  - exists (client st). by destruct st.
Qed.

Lemma call_client_ok i w u wpt st :
  trap_inv st -> watchPointArray st !! i = Some w -> fileHandle w <> -1 -> t_slot wpt = i ->
  match call_client fptr i u wpt st with
  | EXC => exists wpt' st0, watched st0 = watched st /\ kern st0 = kern st /\ fptr wpt' u st0 = EXC
  | RET (a, st1) =>
      trap_inv st1 /\ length (watched st1) = length (watched st) /\
      (a = WP_ALREADY_DISABLED -> watched st1 !! i = Some None) /\
      (exists w1, watchPointArray st1 !! i = Some w1 /\ fileHandle w1 <> -1) /\
      exists ok wpt' w' st0, WP_CollectTriggerInfo w wpt = RET (ok, wpt', w') /\
        st0 = set_slot i w' st /\ watched st0 = watched st /\
        if (ok : bool) then fptr wpt' u st0 = RET (a, st1) else a = WP_DISABLE /\ st1 = st0
  end.
Proof.
  intros [Hinv Hst] Hw Hf Hi. unfold call_client. rewrite cfg_lbr, (slot_at_Some _ _ _ Hw). simpl.
  pose proof (lookup_lt_Some _ _ _ Hw) as Hlt.
  destruct (ok_slot _ _ (inv_ok _ _ _ Hinv) i w Hw) as [[? _]|(b & Hb & Hba & Hm)]; [done|].
  destruct (Hm cfg_lbr) as [m Em].
  assert (exists ok wpt' m', WP_CollectTriggerInfo w wpt = RET (ok, wpt', set_buffer (Some m') w) /\
    t_slot wpt' = i) as (ok & wpt' & m' & -> & Hs).
  { unfold WP_CollectTriggerInfo. rewrite Em. destruct (ReadMmapBuffer m sizeof_header) as [[r bs] m1].
    destruct (r <? 0); [by do 3 eexists|]. destruct (Z.eqb_spec (h_type (header_of bs)) PERF_RECORD_SAMPLE) as [->|];
      [|by do 3 eexists].
    simpl. destruct (ReadMmapBuffer m1 8) as [[r2 bs2] m2]. destruct (r2 <? 0); by do 3 eexists. }
  simpl. set (w' := set_buffer (Some m') w). set (st0 := set_slot i w' st).
  assert (watched st0 = watched st) as Ew0.
  { unfold watched, st0. simpl. rewrite list_fmap_insert. apply list_insert_id. by rewrite list_lookup_fmap, Hw. }
  assert (trap_inv st0) as Hinv0 by (split; [by eapply inv_slot|done]).
  assert (watchPointArray st0 !! i = Some w') as Hw0 by (by apply list_lookup_insert_eq).
  destruct ok.
  - destruct (fptr wpt' u st0) as [[a st1]|] eqn:E; [|by exists wpt', st0].
    destruct (client_returns _ _ _ _ _ E) as [Hrun Had].
    destruct (client_run_ok _ _ Hrun Hinv0) as [Hinv1 [El Hk]]; [by intros E0; rewrite E0 in Hw0|].
    split_and!; [done|by rewrite <- Ew0; unfold watched; rewrite !length_fmap|by rewrite <- Hs|
      |by exists true, wpt', w', st0].
    destruct (lookup_lt_is_Some_2 (watchPointArray st1) i) as [w1 Hw1].
    { rewrite El. by eapply lookup_lt_Some. }
    exists w1. split; [done|]. by eapply Hk.
  - split_and!; [done|by rewrite Ew0|done|by exists w'|]. by exists false, wpt', w', st0.
Qed.

Lemma OnWatchPoint_core (si_fd : Z) (u : U) (st : WP_ThreadData_t) :
  wp_inv eq st -> wpStack st = [] -> watchPointArray st <> [] ->
  match OnWatchPoint ev_read fptr si_fd u true st with
  | EXC => (curEventId (cnt st) <= length (eventRDCnt (cnt st)))%nat ->
      exists wpt st0, fptr wpt u st0 = EXC /\ all_off (kern st0)
  | RET st' =>
      wp_inv eq st' /\ wpStack st' = [] /\ length (watched st') = length (watched st) /\
      match list_find (fun w => fired si_fd w = true) (watchPointArray st) with
      | None => watched st' = watched st
      | Some (i, w) => exists ok wpt w' st0 a st1,
          WP_CollectTriggerInfo (set_active false w) (mkTrig i (va (sd w)) 0 0) = RET (ok, wpt, w') /\
          watched st0 = <[i := None]> (watched st) /\ all_off (kern st0) /\
          (if (ok : bool) then fptr wpt u st0 = RET (a, st1) else a = WP_DISABLE /\ st1 = st0) /\
          watched st' = action_watched i a st1
      end
  end.
Proof.
  intros Hinv Hst Hne. unfold OnWatchPoint.
  destruct (read_events_ok (event_ids (cnt st)) (kern st)) as (vs & k1 & -> & Hk1 & _). simpl.
  destruct (run_hook_ok (userPerfPause cfg) (with_kern k1 st)) as [c1 ->];
    [intros f c; apply (hooks_ok _ f c); by left|]. simpl.
  apply (inv_same_bps _ _ _ k1) in Hinv; [|done].
  destruct (pause_ok _ _ Hinv) as [Hinv2 Hoff2].
  set (st2 := linux_perf_events_pause (with_client c1 (with_kern k1 st))).
  assert (wp_inv implied st2) as Hi2 by done. assert (watched st2 = watched st) as Ew2 by done.
  destruct (list_find _ _) as [[i w]|] eqn:Ef.
  - apply list_find_Some in Ef as (Hw & Hfire & _). unfold fired in Hfire.
    apply andb_true_iff in Hfire as [Hact _].
    destruct (ok_slot _ _ (inv_ok _ _ _ Hi2) i w Hw) as [[_ ?]|(b & Hb & [_ Eva] & _)]; [congruence|].
    pose proof (open_not_minus1 _ _ _ _ (inv_ok _ _ _ Hi2) Hb) as Hf.
    destruct (DisableWatchpoint_ok implied i st2 w ltac:(done) Hi2 Hw Hf) as (st3 & E3 & Hi3 & [k3 ->]).
    rewrite E3. simpl.
    destruct (account_events ev_read (event_ids (cnt st)) vs (cnt st) k3) as [[c' k4]|] eqn:Eacc; simpl; cycle 1.
    { intros Hcnt. destruct (account_ok (event_ids (cnt st)) vs (cnt st) k3) as (c' & k4 & E & _); [|congruence].
      apply Forall_forall. intros j Hj. apply elem_of_seq in Hj. lia. }
    pose proof (account_same_bps _ _ _ _ _ _ Eacc) as Hk4. set (st4 := with_kern k4 (with_cnt c' (set_slot i (set_active false w) (with_kern k3 st2)))).
    assert (trap_inv st4) as Hi4 by (split; [by apply (inv_same_bps _ _ k3)|done]).
    assert (watched st4 = <[i := None]> (watched st)) as Ew4 
      by (unfold watched, st4; simpl; by rewrite list_fmap_insert).
    assert (all_off (kern st4)) as Hoff4.
    { intros fd b4. unfold st4. simpl. rewrite (proj1 Hk4). by apply (DisableWatchpoint_off i st2 _ Hoff2 E3). }
    assert (watchPointArray st4 !! i = Some (set_active false w)) as Hw4
      by (apply list_lookup_insert_eq; by eapply lookup_lt_Some).
    assert (wp_va w = va (sd w)) as <- by done.
    pose proof (call_client_ok i _ u (mkTrig i (wp_va w) 0 0) st4 Hi4 Hw4 Hf eq_refl) as Hcall.
    destruct (call_client fptr i u _ st4) as [[a st5]|]; simpl.
    + destruct Hcall as (Hi5 & Hlen5 & Had & (w5 & Hw5 & Hf5) & ok & wpt' & w' & st0 & Ecol & Est0 & Ew0 & Hok).
      destruct (take_action_ok i w5 a st5 Hi5 Hw5 Hf5 Had) as (st6 & -> & [Hi6 Hst6] & Ew6). simpl.
      destruct (run_hook_ok (userPerfResume cfg) (linux_perf_events_resume st6)) as [c2 ->];
        [intros f c; apply (hooks_ok _ f c); by right|].
      split_and!; [by apply resume_ok|done| |].
      { change (length (watched st6) = length (watched st)). rewrite Ew6, length_action, Hlen5, Ew4. by rewrite length_insert. }
      exists ok, wpt', w', st0, a, st5.
      split_and!; [done|by rewrite Ew0|by rewrite Est0|done|done].
    + intros _. destruct Hcall as (wpt' & st0 & _ & Ek & E). exists wpt', st0. by rewrite Ek.
  - destruct (run_hook_ok (userPerfResume cfg) (linux_perf_events_resume st2)) as [c2 ->];
      [intros f c; apply (hooks_ok _ f c); by right|].
    split_and!; [by apply resume_ok|done|done|done].
Qed.
(** The hooks of the configuration do not touch the client's state. *)
Definition hooks_quiet : Prop := forall h f c c',
  h = userPerfPause cfg \/ h = userPerfResume cfg -> h = Some f -> f c = RET c' -> c' = c.

Lemma run_hook_quiet h st st' :
  hooks_quiet -> h = userPerfPause cfg \/ h = userPerfResume cfg -> run_hook h st = RET st' -> st' = st.
Proof.
  intros Hq Hh E. destruct h as [f|]; simpl in E; [|by injection E as <-].
  apply exc_bind_ret in E as (c & Ec & [= <-]). rewrite (Hq _ _ _ _ Hh eq_refl Ec). by destruct st.
Qed.

Lemma CollectTriggerInfo_slot w wpt ok wpt' w' :
  WP_CollectTriggerInfo w wpt = RET (ok, wpt', w') ->
  t_slot wpt' = t_slot wpt /\ sd w' = sd w /\ isActive w' = isActive w.
Proof.
  unfold WP_CollectTriggerInfo. destruct (mmapBuffer w) as [m|]; [|done].
  destruct (ReadMmapBuffer m sizeof_header) as [[r bs] m1]. destruct (r <? 0); [by intros [= _ <- <-]|].
  destruct (_ =? PERF_RECORD_SAMPLE); [|by intros [= _ <- <-]]. intros E.
  apply exc_bind_ret in E as (_ & _ & E). destruct (ReadMmapBuffer m1 8) as [[r2 bs2] m2].
  destruct (r2 <? 0); by injection E as _ <- <-.
Qed.

(** The client is called at most once, in a state that differs from the one before
    the trap in that the watchpoint is off; nothing else changes its state. *)
Lemma OnWatchPoint_frame si_fd u st st' :
  hooks_quiet -> wpStack st = [] -> OnWatchPoint ev_read fptr si_fd u true st = RET st' ->
  (client st' = client st /\ wpStack st' = [] /\ watched_sub None (watched st') (watched st)) \/
  exists i s wpt st0 a st1,
    watched st !! i = Some (Some s) /\ watched st0 = <[i := None]> (watched st) /\
    client st0 = client st /\ wpStack st0 = [] /\ sd <$> watchPointArray st0 !! i = Some s /\
    t_slot wpt = i /\ fptr wpt u st0 = RET (a, st1) /\
    (a = WP_DISABLE \/ a = WP_TRIGGERED -> wpStack st1 = [] ->
     client st' = client st1 /\ wpStack st' = [] /\ watched_sub None (watched st') (watched st1)).
Proof.
  intros Hq Hst E. unfold OnWatchPoint in E. apply exc_bind_ret in E as ([vs k1] & _ & E). simpl in E.
  apply exc_bind_ret in E as (stp & Ep & E). apply run_hook_quiet in Ep as ->; [|done|by left].
  destruct (list_find _ _) as [[i w]|] eqn:Ef; cycle 1.
  { apply run_hook_quiet in E as ->; [|done|by right]. left. split_and!; [done|done|apply watched_sub_refl]. }
  apply list_find_Some in Ef as (Hw & Hfire & _). simpl in Hw. unfold fired in Hfire.
  apply andb_true_iff in Hfire as [Hact _].
  apply exc_bind_ret in E as (st3 & [(Ec3 & Es3 & Esd3 & _) Ew3]%DisableWatchpoint_frame & E).
  apply exc_bind_ret in E as ([c4 k4] & _ & E). apply exc_bind_ret in E as ([a st5] & Ecall & E).
  apply exc_bind_ret in E as (st6 & Eact & E). apply run_hook_quiet in E as ->; [|done|by right].
  set (st4 := with_kern k4 (with_cnt c4 st3)) in Ecall.
  assert (watched st !! i = Some (Some (sd w))) as Hi.
  { unfold watched. rewrite list_lookup_fmap, Hw. simpl. unfold watched_slot. by rewrite Hact. }
  assert (sd <$> watchPointArray st4 !! i = Some (sd w)) as Hsd.
  { rewrite <- list_lookup_fmap. change (watchPointArray st4) with (watchPointArray st3).
    rewrite Esd3. simpl. by rewrite list_lookup_fmap, Hw. }
  assert (forall st0 wpt, t_slot wpt = i -> watched st0 = watched st4 -> client st0 = client st4 ->
    wpStack st0 = wpStack st4 -> sd <$> watchPointArray st0 !! i = Some (sd w) ->
    fptr wpt u st0 = RET (a, st5) -> exists i s wpt st0 a st1,
    watched st !! i = Some (Some s) /\ watched st0 = <[i := None]> (watched st) /\
    client st0 = client st /\ wpStack st0 = [] /\ sd <$> watchPointArray st0 !! i = Some s /\
    t_slot wpt = i /\ fptr wpt u st0 = RET (a, st1) /\
    (a = WP_DISABLE \/ a = WP_TRIGGERED -> wpStack st1 = [] ->
     client st6 = client st1 /\ wpStack st6 = [] /\ watched_sub None (watched st6) (watched st1))) as Hcalled.
  { intros st0 wpt Hs Ew Ec Es Hsd0 Ef. exists i, (sd w), wpt, st0, a, st5. rewrite Ew, Ec, Es.
    split_and!; [done|exact Ew3|exact Ec3|by rewrite <- Hst; exact Es3|done|done|done|].
    intros Ha Hst5. by apply (take_action_frame i a). }
  unfold call_client in Ecall. destruct (negb (isLBREnabled cfg)).
  { right. by apply (Hcalled st4 (mkTrig i (wp_va w) 0 0)). }
  apply exc_bind_ret in Ecall as (w4 & Hw4%slot_at_RET & Ecall).
  apply exc_bind_ret in Ecall as ([[ok wpt] w'] & Ecol & Ecall).
  apply CollectTriggerInfo_slot in Ecol as (Hs & Esd & Ea).
  assert (watched (set_slot i w' st4) = watched st4) as Ew.
  { apply (watched_set_same _ _ _ _ Hw4). unfold watched_slot. by rewrite Esd, Ea. }
  destruct ok.
  - right. apply (Hcalled (set_slot i w' st4) wpt); try done. simpl.
    rewrite list_lookup_insert_eq by (by eapply lookup_lt_Some). simpl. rewrite Esd.
    assert (sd <$> Some w4 = Some (sd w)) as E4 by (rewrite <- Hw4; exact Hsd). exact E4.
  - injection Ecall as <- <-. left.
    apply take_action_frame in Eact as (Ec6 & Es6 & Ew6); [|by left|by rewrite <- Hst; exact Es3].
    change (client st6 = client st /\ wpStack st6 = [] /\ watched_sub None (watched st6) (watched st)).
    split; [rewrite Ec6; exact Ec3|]. split; [done|]. destruct Ew6 as [El Hs6]. rewrite Ew in El, Hs6.
    change (watched st4) with (watched st3) in El, Hs6. rewrite Ew3 in El, Hs6.
    split; [by rewrite El, length_insert|]. intros j t Hj. destruct (Hs6 j t Hj) as [Hj'|]; [|done].
    apply list_lookup_insert_Some in Hj' as [(_ & ? & _)|[_ ?]]; [done|by left].
Qed.

Lemma init_inv junk k :
  k_bps k = ∅ -> 0 <= k_next k -> slots_inv eq (fresh_slot <$> junk) k.
Proof.
  intros Hk Hn. split; [split|..].
  - intros i w Hw. apply list_lookup_fmap_Some in Hw as (v & -> & _). by left.
  - intros i j w w' Hw _ _ Hf. apply list_lookup_fmap_Some in Hw as (v & -> & _). done.
  - intros fd [b Hb]. by rewrite Hk in Hb.
  - done.
  - intros i w b _ Hb. by rewrite Hk in Hb.
  - intros i w Hw. apply list_lookup_fmap_Some in Hw as (v & -> & _). done.
Qed.

Lemma for_slots_ext f g l st :
  (forall i st, f i st = g i st) -> for_slots f l st = for_slots g l st.
Proof.
  intros Hfg. revert st; induction l as [|i l IH]; intros st; simpl; [done|]. rewrite Hfg.
  by destruct (g i st); simpl.
Qed.

Lemma disable_all_inv st :
  wp_inv eq st -> exists st', WP_DisableAllWatchPoints st = RET st' /\ wp_inv eq st' /\
    wpStack st' = wpStack st /\ watched st' = (fun _ => None) <$> watched st.
Proof.
  intros Hinv. unfold WP_DisableAllWatchPoints, all_slots.
  destruct (disable_all eq (length (watchPointArray st)) st eq_refl Hinv) as (st' & E & Hinv' & Es & Ew); [done|].
  rewrite Nat.sub_diag in E, Ew. exists st'. split_and!; [|done|done|].
  - rewrite <- E. apply for_slots_ext. intros i st1. unfold DisableWatchpointWrapper.
    destruct (slot_at i st1) as [w|]; [|done]. simpl. rewrite cfg_modify. by destruct (isActive w).
  - rewrite Ew. simpl. unfold watched. rewrite <- list_fmap_compose.
    apply list_eq_same_length with (length (watchPointArray st)); rewrite ?length_fmap, ?length_replicate; try done.
    intros j x y Hj Hx Hy. apply lookup_replicate in Hx as [-> _].
    by apply list_lookup_fmap_Some in Hy as (v & -> & _).
Qed.

(** *** A thread's life

    Watchpoints are set, the kernel writes records, traps are handled and all are
    disabled, in any order. *)
Inductive wp_session : WP_ThreadData_t -> WP_ThreadData_t -> Prop :=
  | ses_done st : wp_session st st
  | ses_subscribe s b st st1 st2 :
      WP_Subscribe s false false st = RET (b, st1) -> wp_session st1 st2 -> wp_session st st2
  | ses_trap si_fd u st st1 st2 :
      OnWatchPoint ev_read fptr si_fd u true st = RET st1 -> wp_session st1 st2 -> wp_session st st2
  | ses_record i w m m' st st2 :
      watchPointArray st !! i = Some w -> mmapBuffer w = Some m ->
      wp_session (set_slot i (set_buffer (Some m') w) st) st2 -> wp_session st st2
  | ses_disable st st1 st2 :
      WP_DisableAllWatchPoints st = RET st1 -> wp_session st1 st2 -> wp_session st st2.

Lemma record_inv P i w m m' st :
  wp_inv P st -> watchPointArray st !! i = Some w -> mmapBuffer w = Some m ->
  wp_inv P (set_slot i (set_buffer (Some m') w) st).
Proof. intros Hinv Hw Hm. by eapply inv_slot. Qed.

Lemma session_inv st st' :
  wp_session st st' -> wp_inv eq st -> wpStack st = [] -> watchPointArray st <> [] -> wp_inv eq st'.
Proof.
  assert (forall a b, length (watched b) = length (watched a) -> watchPointArray a <> [] ->
    watchPointArray b <> []) as Hlen.
  { intros a b E Ha Hb. unfold watched in E. rewrite Hb in E. by destruct (watchPointArray a). }
  induction 1 as [st|s b st st1 st2 Hsub _ IH|si_fd u st st1 st2 Htrap _ IH|i w m m' st st2 Hw Hm _ IH|st st1 st2 Hdis _ IH];
    intros Hinv Hst Hne; [done|..].
  - assert ((b = false /\ st1 = st) \/ (ValidateWPData s = true /\ IsOverlapped s st = false)) as [[-> ->]|[Hv Ho]].
    { unfold WP_Subscribe in Hsub. destruct (ValidateWPData s); simpl in Hsub; [|left; split; congruence].
      destruct (IsOverlapped s st); [left; split; congruence|by right]. }
    { by apply IH. }
    destruct (WP_Subscribe_ok eq s st) as (st1' & i & E & Hinv1 & _ & Ew & _ & _ & Es & _);
      try done; [by intros; apply no_orphan_modify|].
    assert (st1' = st1) as -> by congruence.
    apply IH; [done|congruence|]. apply (Hlen st); [by rewrite Ew, length_insert|done].
  - pose proof (OnWatchPoint_core si_fd u st Hinv Hst Hne) as H0. rewrite Htrap in H0.
    destruct H0 as (Hinv1 & Hst1 & El & _). apply IH; [done|done|by apply (Hlen st)].
  - apply IH; [by eapply record_inv|done|].
    apply (Hlen st); [unfold watched; simpl; by rewrite !length_fmap, length_insert|done].
  - destruct (disable_all_inv st Hinv) as (st1' & E & Hinv1 & Es & Ew).
    assert (st1' = st1) as -> by congruence.
    apply IH; [done|congruence|]. apply (Hlen st); [by rewrite Ew, length_fmap|done].
Qed.

(** ** Properties *)

(** C10: Over a thread's life nothing leaks on a kernel that accepts the attributes and lets a descriptor be owned and mapped: from [WP_ThreadInit] on, whatever
    subscriptions, records, traps and calls of [WP_DisableAllWatchPoints] follow in whatever
    order, the kernel watches exactly what the slots say, and
    [WP_ThreadTerminate] then succeeds and leaves no breakpoint descriptor open. *)
Theorem WP_thread_lifetime (junk : list WP_RegisterInfo_t) (rnd : R) (k : kernel) (c : counters) (s : C) :
  junk <> [] -> k_bps k = ∅ -> 0 <= k_next k ->
  exists st0, WP_ThreadInit (Some junk) true true true rnd k c s = (true, Some st0) /\
    forall st, wp_session st0 st ->
      kernel_agrees st /\
      exists st', WP_ThreadTerminate (Some st) = RET st' /\ k_bps (kern st') = ∅ /\
        forall i w, watchPointArray st' !! i = Some w -> fileHandle w = -1.
Proof.
  intros Hj Hk Hn. eexists. split; [done|]. intros st Hses.
  assert (wp_inv eq st) as Hinv.
  { eapply session_inv; [done|by apply init_inv|done|]. simpl. by destruct junk. }
  split; [by apply inv_agrees|by eapply WP_ThreadTerminate_ok].
Qed.

(** C2: A trap is handled and the watchpoints are in order again: whatever descriptor
    the signal names, the handler comes back unless the client stops the process
    (it never fails an assertion or a system call of its own); a signal that no
    active watchpoint explains changes nothing; otherwise the client is
    called once, with the record of the trap, every breakpoint switched off and
    the one that fired no longer watched, and what is watched afterwards is what the
    client left, changed by the action it asked for; when the record cannot be collected the
    client is not called and the watchpoint disabled. On return the kernel's
    switched-on breakpoints are exactly those of the active slots. All this on a kernel that
    cooperates: it accepts the attributes, and a descriptor can be owned and mapped. *)
Theorem OnWatchPoint_contract (si_fd : Z) (u : U) (st : WP_ThreadData_t) :
  wp_inv eq st -> wpStack st = [] -> watchPointArray st <> [] ->
  (curEventId (cnt st) <= length (eventRDCnt (cnt st)))%nat ->
  match OnWatchPoint ev_read fptr si_fd u true st with
  | EXC => exists wpt st0, fptr wpt u st0 = EXC /\ all_off (kern st0)
  | RET st' =>
      wp_inv eq st' /\ wpStack st' = [] /\
      match list_find (fun w => fired si_fd w = true) (watchPointArray st) with
      | None => watched st' = watched st
      | Some (i, w) => exists ok wpt w' st0 a st1,
          WP_CollectTriggerInfo (set_active false w) (mkTrig i (va (sd w)) 0 0) = RET (ok, wpt, w') /\
          watched st0 = <[i := None]> (watched st) /\ all_off (kern st0) /\
          (if (ok : bool) then fptr wpt u st0 = RET (a, st1) else a = WP_DISABLE /\ st1 = st0) /\
          watched st' = action_watched i a st1
      end
  end.
Proof.
  intros Hinv Hst Hne Hcnt. pose proof (OnWatchPoint_core si_fd u st Hinv Hst Hne) as H0.
  destruct (OnWatchPoint ev_read fptr si_fd u true st); [|by apply H0].
  destruct H0 as (? & ? & _ & ?). done.
Qed.
End trap.
End configured.

(** C9: Setting a watchpoint: the call succeeds exactly for lengths 1, 2, 4 and 8 and
    ranges that meet no range already watched, on a kernel that accepts every attribute (a refusal ends
    the process) and with the policy that replaces the oldest; then it takes a free slot, or the
    slot set longest ago when there is none, and changes nothing else that is watched; when it
    fails it changes nothing. Ranges stay apart, and the kernel's switched-on
    breakpoints are afterwards again those of the slots. *)
Theorem WP_Subscribe_correct (s : SampleData_t) (st : WP_ThreadData_t) :
  replacementPolicy cfg = WP_REPLACEMENT_OLDEST ->
  (isWPModifyEnabled cfg = true -> isLBREnabled cfg = true) ->
  wp_inv eq st -> watchPointArray st <> [] ->
  (forall i w, watchPointArray st !! i = Some w -> no_orphan w) ->
  disjoint_ok (watched st) -> in_space s ->
  exists b st', WP_Subscribe s false false st = RET (b, st') /\
    wp_inv eq st' /\ kernel_agrees st' /\ disjoint_ok (watched st') /\
    (b = true <-> watchLen s ∈ [1; 2; 4; 8] /\
                  forall i a, watched st !! i = Some (Some a) -> range_disjoint a s) /\
    (b = false -> st' = st) /\
    (b = true -> exists i, (i < length (watched st))%nat /\ watched st' = <[i := Some s]> (watched st) /\
       (watched st !! i = Some None \/
        (forall j, watched st !! j <> Some None) /\ oldest (watchPointArray st) i)).
Proof.
  intros Hpol Hlbr Hinv Hne Hor [Hsp Hd] Hs.
  assert (ValidateWPData s = true <-> watchLen s ∈ [1; 2; 4; 8]) as Hval.
  { unfold ValidateWPData. rewrite !elem_of_cons, elem_of_nil.
    destruct (watchLen s) as [|p|p]; [split; [done|lia]| |split; [done|lia]].
    do 4 (try destruct p as [p|p|]; try (split; [done|lia]); try (split; [lia|done])). }
  pose proof (IsOverlapped_spec s st Hs Hsp) as Hov.
  destruct (ValidateWPData s) eqn:Ev; [destruct (IsOverlapped s st) eqn:Eo|].
  - exists false, st. split; [unfold WP_Subscribe; by rewrite Ev, Eo|].
    split_and!; [done|by apply inv_agrees|done| |done|done].
    split; [done|]. intros [_ H0]. by apply Hov in H0.
  - destruct (WP_Subscribe_ok eq s st eq_refl Hpol Hlbr Hinv Hne Hor Ev Eo)
      as (st' & i & -> & Hinv' & _ & Ew & Hi & Hwhich & _).
    exists true, st'. split_and!; [done|done|by apply inv_agrees| | |done|by exists i].
    + rewrite Ew. apply disjoint_insert; [done|done|]. by apply Hov.
    + split; [|done]. intros _. split; [by apply Hval|by apply Hov].
  - exists false, st. split; [unfold WP_Subscribe; by rewrite Ev|].
    split_and!; [done|by apply inv_agrees|done| |done|done].
    split; [done|]. intros [H0 _]. by apply Hval in H0.
Qed.

(** Without breakpoint modification a subscription made while a trap is handled
    leaks: the fired slot is inactive but still has its descriptor, so the
    new breakpoint is opened over it, and the old descriptor stays open with no slot to close it. *)
Theorem WP_Subscribe_orphans (s : SampleData_t) (st : WP_ThreadData_t) (w : WP_RegisterInfo_t) :
  isWPModifyEnabled cfg = false -> wp_inv implied st ->
  watchPointArray st = [w] -> isActive w = false -> fileHandle w <> -1 -> ValidateWPData s = true ->
  exists st', WP_Subscribe s false false st = RET (true, st') /\
    is_Some (k_bps (kern st') !! fileHandle w) /\
    forall i w', watchPointArray st' !! i = Some w' -> fileHandle w' <> fileHandle w.
Proof.
  intros Hmod Hinv El Ha Hf Hs.
  destruct (ok_slot _ _ (inv_ok _ _ _ Hinv) 0%nat w) as [[? _]|(b & Hb & _)]; [by rewrite El|done|].
  destruct (ok_owned _ _ (inv_ok _ _ _ Hinv) (fileHandle w)) as [Hlt _]; [by eexists|].
  unfold WP_Subscribe, IsOverlapped, overlaps, GetVictim. rewrite Hs, El. simpl. rewrite Ha. simpl.
  unfold slot_at. simpl. unfold inc_if_active. rewrite Ha.
  unfold ArmWatchPoint, slot_at. simpl. rewrite Hmod. simpl. rewrite Ha. simpl.
  unfold CreateWatchPoint, slot_at. simpl. destruct (valid_attr s Hs) as [a Ea].
  rewrite Ea, andb_false_r, (accepts_all _ _ _ Ea), owner_all. simpl.
  eexists. split; [done|]. simpl. split.
  - rewrite lookup_insert_ne by lia. by eexists.
  - intros [|i] w' Hw'; simpl in Hw'; [|by rewrite lookup_nil in Hw'].
    injection Hw' as <-. simpl. lia.
Qed.
End cooperative.

Section accounting.
Context (ev_read : nat -> nat -> Z * Z).
Hypothesis reads_ok : forall i t, 0 < (ev_read i t).1.

(** What the reading of the [i]-th event of the loop is subtracted from: the handler's last
    reading when it starts, afterwards the second reading of the event before. *)
Definition base (j0 : nat) (temp : Z) (t0 i : nat) : Z :=
  match i with
  | O => temp
  | Datatypes.S j => (ev_read (j0 + j) (t0 + j)).2
  end.

Lemma account_from j0 n vs c k :
  length vs = n -> (n <> 0 -> j0 + n <= length (eventRDCnt c))%nat ->
  exists c' k', account_events ev_read (seq j0 n) vs c k = RET (c', k') /\
    eventTempCnt c' = base j0 (eventTempCnt c) (k_time k) n /\
    length (eventRDCnt c') = length (eventRDCnt c) /\
    (forall j, (j < j0)%nat -> eventRDCnt c' !! j = eventRDCnt c !! j) /\
    forall i v old, vs !! i = Some v -> eventRDCnt c !! (j0 + i)%nat = Some old ->
      eventRDCnt c' !! (j0 + i)%nat =
        Some (u64 (old + (v - base j0 (eventTempCnt c) (k_time k) i))).
Proof.
  revert j0 n c k; induction vs as [|v vs IH]; intros j0 [|n] c k Hl Hlen; try done.
  { exists c, k. by split_and!. }
  simpl in Hl. cbn [seq account_events].
  destruct (lookup_lt_is_Some_2 (eventRDCnt c) j0) as [old0 Hold]; [lia|]. rewrite Hold.
  pose proof (reads_ok j0 (k_time k)) as Hr. destruct (ev_read j0 (k_time k)) as [ret t] eqn:Er. simpl in Hr.
  rewrite (proj2 (Z.leb_le 0 ret)), (proj2 (Z.ltb_lt 0 ret)) by lia. cbn [assert_exc mbind exc_bind].
  destruct (IH (Datatypes.S j0) n
      (mkCnt (curEventId c) (<[j0 := u64 (old0 + (v - eventTempCnt c))]> (eventRDCnt c)) t) (tick k))
    as (c' & k' & -> & Et & El & Hlow & Hall); [lia| |].
  { simpl. rewrite length_insert. lia. }
  assert (forall i, base (Datatypes.S j0) t (k_time (tick k)) i = base j0 (eventTempCnt c) (k_time k) (Datatypes.S i))
    as Hbase.
  { intros [|i]; cbn [base tick k_time].
    - by rewrite !Nat.add_0_r, Er.
    - by replace (j0 + Datatypes.S i)%nat with (Datatypes.S j0 + i)%nat by lia;
        replace (k_time k + Datatypes.S i)%nat with (Datatypes.S (k_time k) + i)%nat by lia. }
  cbn [eventTempCnt eventRDCnt] in *. exists c', k'. split_and!; [done| | | |].
  - by rewrite Et, Hbase.
  - by rewrite El, length_insert.
  - intros j Hj. rewrite Hlow by lia. rewrite list_lookup_insert_ne; [done|lia].
  - intros [|i] w old Hw Ho.
    + rewrite Nat.add_0_r in *. simpl in Hw. rewrite Hlow by lia.
      rewrite list_lookup_insert_eq by lia. simpl. congruence.
    + replace (j0 + Datatypes.S i)%nat with (Datatypes.S j0 + i)%nat in * by lia.
      rewrite (Hall i w old); [by rewrite Hbase|done|].
      rewrite list_lookup_insert_ne; [done|lia].
Qed.

(** What a trap adds to an event's count: the event's reading on entry less a base,
    modulo [2^64]. For the first event the base is the handler's last
    reading when it starts, for every other event it is the reading just taken of the
    event before it; the reading kept for the next trap is that of the last event.
    So a count is right when there is one event, and mixes two counters otherwise. *)
Theorem account_events_bases (c : counters) (k : kernel) (vs : list Z) :
  length vs = length (event_ids c) -> (curEventId c <= length (eventRDCnt c))%nat ->
  exists c' k', account_events ev_read (event_ids c) vs c k = RET (c', k') /\
    (forall i v old, vs !! i = Some v -> eventRDCnt c !! (1 + i)%nat = Some old ->
       eventRDCnt c' !! (1 + i)%nat = Some (u64 (old + (v -
         match i with
         | O => eventTempCnt c
         | Datatypes.S j => (ev_read i (k_time k + j)).2
         end)))) /\
    eventTempCnt c' =
      match length vs with
      | O => eventTempCnt c
      | Datatypes.S j => (ev_read (length vs) (k_time k + j)).2
      end.
Proof.
  intros Hl Hlen. unfold event_ids in *. rewrite length_seq in Hl.
  destruct (account_from 1 (curEventId c - 1) vs c k Hl) as (c' & k' & E & Et & _ & _ & Hall).
  { lia. }
  exists c', k'. split_and!; [done| |rewrite Et, <- Hl; by destruct (length vs)].
  intros i v old Hv Ho. rewrite (Hall i v old Hv Ho). by destruct i.
Qed.
End accounting.
End watchpoints.

(** ** The hypotheses can hold

    One slot, a kernel that accepts everything, and a client that sets a new
    watchpoint at every trap. *)
Module Demo.

Definition demo_cfg (modify : bool) : WP_Config_t unit :=
  mkConfig modify modify 32 WP_REPLACEMENT_OLDEST None None.

(** [WP_Subscribe] on that kernel. *)
Definition demo_subscribe (modify : bool) :=
  WP_Subscribe (C := unit) (R := unit) (D := Q) Qle_bool (fun r => (0, r)) (fun r => (0%Q, r))
    (fun _ _ => true) (fun _ => true) (fun _ => true) (fun _ => 1000) (fun _ => Init.Byte.x00) (demo_cfg modify).

Definition demo_data (a : Z) : SampleData_t := mkSD a 8 WP_RW 8 0.

Definition demo_client (wpt : WP_TriggerInfo_t) (u : unit) (st : WP_ThreadData_t)
  : exc (WP_TriggerAction_t * WP_ThreadData_t) :=
  r ← demo_subscribe true (demo_data 4096) false false st; RET (WP_TRIGGERED, r.2).

Definition demo_trap :=
  OnWatchPoint (C := unit) (R := unit) (fun _ _ => true) (fun _ => true) (fun _ => true) (fun _ => 1000)
    (demo_cfg true) (fun i t => (8, Z.of_nat t)) demo_client.

#[local] Instance demo_client_ok :
  WP_Client (C := unit) (R := unit) (D := Q) Qle_bool (fun r => (0, r)) (fun r => (0%Q, r))
    (fun _ _ => true) (fun _ => true) (fun _ => true) (fun _ => 1000) (fun _ => Init.Byte.x00) (demo_cfg true)
    demo_client.
Proof.
  intros wpt u st a st' E. unfold demo_client in E. apply exc_bind_ret in E as ([b st1] & E & [= <- <-]).
  split; [|done]. by eapply run_subscribe; [exact E|apply run_done].
Qed.

Definition demo_slot : WP_RegisterInfo_t := mkWpi (demo_data 0) 0 0 0 true [] 0 None.
Definition demo_st0 : WP_ThreadData_t (C := unit) (R := unit) :=
  mkWP [fresh_slot demo_slot] [] tt (mkKernel ∅ 3 0) (mkCnt 2 [0; 0; 0; 0; 0] 0) tt.
Definition demo_st1 : WP_ThreadData_t :=
  match demo_subscribe true (demo_data 8192) false false demo_st0 with RET (_, st) => st | EXC => demo_st0 end.

(** The record of a trap at the address 0x1234. *)
Definition demo_record : perf_mmap_t :=
  mkMmap 16 0 (le_bytes 4 9 ++ le_bytes 2 0x4000 ++ le_bytes 2 16 ++ le_bytes 8 0x1234 ++ replicate 16 Init.Byte.x00).
Definition demo_slot1 : WP_RegisterInfo_t := default demo_slot (watchPointArray demo_st1 !! 0%nat).
Definition demo_st2 : WP_ThreadData_t := set_slot 0 (set_buffer (Some demo_record) demo_slot1) demo_st1.

Lemma demo_tsc : forall n : nat, i64 1000 < INT64_MAX.
Proof. intros _. vm_compute. reflexivity. Qed.

Lemma demo_inv0 : wp_inv (demo_cfg true) eq demo_st0.
Proof. apply (init_inv _ [demo_slot]); [done|]. simpl. lia. Qed.

Lemma demo_session : wp_session (C := unit) (R := unit) (D := Q) Qle_bool (fun r => (0, r)) (fun r => (0%Q, r))
    (fun _ _ => true) (fun _ => true) (fun _ => true) (fun _ => 1000) (fun _ => Init.Byte.x00) (demo_cfg true)
    (fun i t => (8, Z.of_nat t)) demo_client demo_st0 demo_st2.
Proof.
  apply (ses_subscribe _ _ _ _ _ _ _ _ _ _ _ (demo_data 8192) true demo_st0 demo_st1); [vm_compute; reflexivity|].
  apply (ses_record _ _ _ _ _ _ _ _ _ _ _ 0 demo_slot1 (mkMmap 0 0 (replicate 32 Init.Byte.x00)) demo_record);
    [vm_compute; reflexivity..|apply ses_done].
Qed.

Lemma demo_inv2 : wp_inv (demo_cfg true) eq demo_st2.
Proof.
  eapply session_inv; try exact demo_session;
    first [exact demo_client_ok | exact demo_tsc | exact demo_inv0 | done | intros h f c [-> | ->]; done].
Qed.

Lemma OnWatchPoint_contract_witness :
  exists st' w, demo_trap 3 tt true demo_st2 = RET st' /\ wp_inv (demo_cfg true) eq st' /\
    list_find (fun w => fired 3 w = true) (watchPointArray demo_st2) = Some (0%nat, w) /\
    watched st' = [Some (demo_data 4096)].
Proof.
  assert (exists st', demo_trap 3 tt true demo_st2 = RET st' /\ watched st' = [Some (demo_data 4096)]) as (st' & E & Ew)
    by (eexists; split; vm_compute; reflexivity).
  pose proof (OnWatchPoint_contract (C := unit) (R := unit) (D := Q) Qle_bool (fun r => (0, r)) (fun r => (0%Q, r))
    (fun _ _ => true) (fun _ => true) (fun _ => true) (fun _ => 1000) (fun _ => Init.Byte.x00) (demo_cfg true)
    ltac:(done) ltac:(done) ltac:(done) demo_tsc eq_refl eq_refl eq_refl (fun i t => (8, Z.of_nat t)) demo_client
    ltac:(done) ltac:(intros h f c [-> | ->]; done) 3 tt demo_st2 demo_inv2 eq_refl ltac:(done)
    ltac:(vm_compute; lia)) as H.
  fold demo_trap in H. rewrite E in H. destruct H as (H & _ & _).
  exists st'. eexists. split; [exact E|]. split; [exact H|]. split; [vm_compute; reflexivity|exact Ew].
Defined.

Lemma WP_thread_lifetime_witness :
  exists st', WP_ThreadTerminate (Some demo_st2) = RET st' /\ k_bps (kern st') = ∅.
Proof.
  destruct (WP_thread_lifetime (C := unit) (R := unit) (D := Q) Qle_bool (fun r => (0, r)) (fun r => (0%Q, r))
    (fun _ _ => true) (fun _ => true) (fun _ => true) (fun _ => 1000) (fun _ => Init.Byte.x00) (demo_cfg true)
    ltac:(done) ltac:(done) ltac:(done) demo_tsc eq_refl eq_refl eq_refl (fun i t => (8, Z.of_nat t)) demo_client
    ltac:(done) ltac:(intros h f c [-> | ->]; done) [demo_slot] tt (mkKernel ∅ 3 0) (mkCnt 2 [0; 0; 0; 0; 0] 0) tt
    ltac:(done) eq_refl ltac:(simpl; lia)) as (st0 & E & Hlife).
  assert (st0 = demo_st0) as -> by (injection E as <-; reflexivity).
  destruct (Hlife demo_st2 demo_session) as (_ & st' & Et & Ek & _). exists st'. split; [exact Et|exact Ek].
Defined.

Lemma WP_Subscribe_correct_witness :
  exists st', demo_subscribe true (demo_data 4096) false false demo_st2 = RET (true, st') /\
    watched st' = [Some (demo_data 4096)] /\ kernel_agrees (demo_cfg true) st'.
Proof.
  destruct (WP_Subscribe_correct (C := unit) (R := unit) (D := Q) Qle_bool (fun r => (0, r)) (fun r => (0%Q, r))
    (fun _ _ => true) (fun _ => true) (fun _ => true) (fun _ => 1000) (fun _ => Init.Byte.x00) (demo_cfg true)
    ltac:(done) ltac:(done) ltac:(done) demo_tsc (demo_data 4096) demo_st2 eq_refl ltac:(done) demo_inv2 ltac:(done))
    as (b & st' & E & _ & Hk & _ & _ & _ & Ht).
  - intros i w _ Hm. discriminate Hm.
  - split.
    + intros [|i] s Hs; vm_compute in Hs; [injection Hs as <-; vm_compute; repeat split; congruence|discriminate Hs].
    + intros [|i] [|j] a b' Hi Hj Hne; vm_compute in Hi, Hj; [congruence|discriminate..].
  - vm_compute. repeat split; congruence.
  - assert (b = true) as -> by (vm_compute in E; congruence).
    exists st'. split; [exact E|]. split; [|exact Hk].
    destruct (Ht eq_refl) as ([|i] & Hi & -> & _); [vm_compute; reflexivity|vm_compute in Hi; lia].
Defined.

(** The one slot as a trap leaves it when breakpoints cannot be modified. *)
Definition demo_off : WP_RegisterInfo_t := mkWpi (demo_data 8192) 8192 0 3 false [] 1 None.
Definition demo_st_off : WP_ThreadData_t (C := unit) (R := unit) :=
  mkWP [demo_off] [] tt (mkKernel {[3 := mkBp (mkBpAttr 8192 8 HW_BREAKPOINT_RW 0) false]} 4 0)
    (mkCnt 2 [0; 0; 0; 0; 0] 0) tt.

Lemma demo_inv_off : wp_inv (demo_cfg false) implied demo_st_off.
Proof.
  split; [split|..].
  - intros [|i] w Hw; simpl in Hw; [|by rewrite lookup_nil in Hw]. injection Hw as <-. right.
    eexists. split; [by apply lookup_singleton_eq|]. done.
  - intros [|i] [|j] w w' Hw Hw'; simpl in Hw, Hw'; done.
  - intros fd Hfd. simpl in Hfd. destruct (decide (fd = 3)) as [->|Hne].
    + split; [simpl; lia|]. by exists 0%nat, demo_off.
    + rewrite lookup_singleton_ne in Hfd by done. by destruct Hfd.
  - simpl. lia.
  - intros [|i] w b Hw Hb; simpl in Hw; [|by rewrite lookup_nil in Hw]. injection Hw as <-.
    simpl in Hb. rewrite lookup_singleton_eq in Hb. by injection Hb as <-.
  - intros [|i] w Hw; simpl in Hw; [|by rewrite lookup_nil in Hw]. by injection Hw as <-.
Qed.

Lemma WP_Subscribe_orphans_witness :
  exists st', demo_subscribe false (demo_data 4096) false false demo_st_off = RET (true, st') /\
    is_Some (k_bps (kern st') !! 3).
Proof.
  destruct (WP_Subscribe_orphans (C := unit) (R := unit) (D := Q) Qle_bool (fun r => (0, r)) (fun r => (0%Q, r))
    (fun _ _ => true) (fun _ => true) (fun _ => true) (fun _ => 1000) (fun _ => Init.Byte.x00) (demo_cfg false)
    ltac:(done) ltac:(done) (demo_data 4096) demo_st_off demo_off eq_refl demo_inv_off eq_refl eq_refl
    ltac:(done) eq_refl) as (st' & E & Hs & _).
  exists st'. split; [exact E|exact Hs].
Defined.

(** Two events: the second one's count takes the first one's reading away. *)
Lemma account_events_bases_witness :
  exists c' k', account_events (fun i t => (8, Z.of_nat (100 * i))) [1; 2]%nat [150; 250]
      (mkCnt 3 [0; 0; 0] 140) (mkKernel ∅ 3 0) = RET (c', k') /\
    eventRDCnt c' !! 1%nat = Some 10 /\ eventRDCnt c' !! 2%nat = Some 150.
Proof.
  destruct (account_events_bases (fun i t => (8, Z.of_nat (100 * i))) ltac:(done)
    (mkCnt 3 [0; 0; 0] 140) (mkKernel ∅ 3 0) [150; 250] eq_refl ltac:(simpl; lia)) as (c' & k' & E & Hall & _).
  exists c', k'. split; [exact E|]. split.
  - etrans; [exact (Hall 0%nat 150 0 eq_refl eq_refl)|vm_compute; reflexivity].
  - etrans; [exact (Hall 1%nat 250 0 eq_refl eq_refl)|vm_compute; reflexivity].
Defined.
End Demo.
