(* ===== verification/Tracer.v ===== *)
(** * The tracer

    Models the per-thread core of [src/src/profiler/profiler.cpp]: [OnSample], which
    starts following a method, [decoder], which looks for the next control transfer
    and sets a watchpoint on it, [OnBranchWatchPoint] and [OnRetWatchPoint], which
    handle the watchpoints' traps, and the shadow call stacks they keep.

    The client of [Watchpoint] is this code: its state is the [client] of the
    watchpoint library's state, and the [sd] pointer of a trap is read from the slot
    at the time the code reads it. The instruction decoder (XED), the Java stack walk and the
    code cache are parameters. Memory obtained with [new ContextFrame] is a map, so that a
    frame used after its deletion is an error.

    A computation ends with a result, with the end of the process or an access outside an
    object ([EXC]), or has not ended within the fuel ([None]). *)
From stdpp Require Import base numbers list gmap strings pretty.
From Stdlib Require Import ZArith Lia QArith.
From S2P Require Import Prelude RingBuffer PerfEvents Metrics ContextTree CallTree BranchDecode Watchpoint.
Local Open Scope Z_scope.

(** ** State *)
Definition MAX_STACK : nat := 64.

(** [EventValueStack]: the top and [value[MAX_STACK][MAX_EVENTS]]. *)
Record EventValueStack := mkEVS { top : Z; value : list (list Z) }.

Definition set_top (t : Z) (s : EventValueStack) : EventValueStack := mkEVS t (value s).

(** [value[t][i]], and its assignment. *)
Definition value_at (s : EventValueStack) (t : Z) (i : nat) : exc Z :=
  if t <? 0 then EXC else
  match value s !! Z.to_nat t ≫= (fun row => row !! i) with Some v => RET v | None => EXC end.

Definition set_value_at (t : Z) (i : nat) (v : Z) (s : EventValueStack) : exc EventValueStack :=
  _ ← value_at s t i;
  RET (mkEVS (top s) (alter (fun row => <[i := v]> row) (Z.to_nat t) (value s))).

Record basic_block_t := mkBB { Entry_xedd : xed_decoded_inst; WP_xedd : xed_decoded_inst; WP_IP : Z }.

(** [(void * )-1]. *)
Definition NO_IP : Z := u64 (-1).

#[export] Instance WP_Access_t_eq_decision : EqDecision WP_Access_t.
Proof. solve_decision. Defined.

Section tracer.
Context {D R : Type} `{DoubleOps D}.

(** The thread-local variables of [profiler.cpp]; the first element of a list is the
    top of the stack. *)
Record tracer := mkTracer {
  CPUEventStack : EventValueStack;
  CPUEventCntStack : EventValueStack;
  WP_Stack : list SampleData_t;
  retCtxtStack : list nat;
  decodeInsCounter : Z;
  basic_block_map : gmap Z basic_block_t;
  prevIP : Z;
  RuntimeCallTime : list Z;
  RuntimeCallCount : list Z;
  frame_heap : gmap Z ContextFrame;
  next_frame : Z;
  context_state : ContextTree (M := ContextMetrics D);
  td_inside_agent : bool;
}.

Definition with_stacks (a b : EventValueStack) (t : tracer) : tracer :=
  mkTracer a b (WP_Stack t) (retCtxtStack t) (decodeInsCounter t) (basic_block_map t) (prevIP t)
    (RuntimeCallTime t) (RuntimeCallCount t) (frame_heap t) (next_frame t) (context_state t) (td_inside_agent t).
Definition with_wps (l : list SampleData_t) (t : tracer) : tracer :=
  mkTracer (CPUEventStack t) (CPUEventCntStack t) l (retCtxtStack t) (decodeInsCounter t) (basic_block_map t)
    (prevIP t) (RuntimeCallTime t) (RuntimeCallCount t) (frame_heap t) (next_frame t) (context_state t)
    (td_inside_agent t).
Definition with_rets (l : list nat) (t : tracer) : tracer :=
  mkTracer (CPUEventStack t) (CPUEventCntStack t) (WP_Stack t) l (decodeInsCounter t) (basic_block_map t)
    (prevIP t) (RuntimeCallTime t) (RuntimeCallCount t) (frame_heap t) (next_frame t) (context_state t)
    (td_inside_agent t).
Definition with_counter (n : Z) (t : tracer) : tracer :=
  mkTracer (CPUEventStack t) (CPUEventCntStack t) (WP_Stack t) (retCtxtStack t) n (basic_block_map t)
    (prevIP t) (RuntimeCallTime t) (RuntimeCallCount t) (frame_heap t) (next_frame t) (context_state t)
    (td_inside_agent t).
Definition with_blocks (m : gmap Z basic_block_t) (t : tracer) : tracer :=
  mkTracer (CPUEventStack t) (CPUEventCntStack t) (WP_Stack t) (retCtxtStack t) (decodeInsCounter t) m
    (prevIP t) (RuntimeCallTime t) (RuntimeCallCount t) (frame_heap t) (next_frame t) (context_state t)
    (td_inside_agent t).
Definition with_prevIP (ip : Z) (t : tracer) : tracer :=
  mkTracer (CPUEventStack t) (CPUEventCntStack t) (WP_Stack t) (retCtxtStack t) (decodeInsCounter t)
    (basic_block_map t) ip (RuntimeCallTime t) (RuntimeCallCount t) (frame_heap t) (next_frame t)
    (context_state t) (td_inside_agent t).
Definition with_runtime (times counts : list Z) (t : tracer) : tracer :=
  mkTracer (CPUEventStack t) (CPUEventCntStack t) (WP_Stack t) (retCtxtStack t) (decodeInsCounter t)
    (basic_block_map t) (prevIP t) times counts (frame_heap t) (next_frame t) (context_state t)
    (td_inside_agent t).
Definition with_frames (h : gmap Z ContextFrame) (n : Z) (t : tracer) : tracer :=
  mkTracer (CPUEventStack t) (CPUEventCntStack t) (WP_Stack t) (retCtxtStack t) (decodeInsCounter t)
    (basic_block_map t) (prevIP t) (RuntimeCallTime t) (RuntimeCallCount t) h n (context_state t)
    (td_inside_agent t).
Definition with_tree (c : ContextTree (M := ContextMetrics D)) (t : tracer) : tracer :=
  mkTracer (CPUEventStack t) (CPUEventCntStack t) (WP_Stack t) (retCtxtStack t) (decodeInsCounter t)
    (basic_block_map t) (prevIP t) (RuntimeCallTime t) (RuntimeCallCount t) (frame_heap t) (next_frame t) c
    (td_inside_agent t).
Definition with_inside (b : bool) (t : tracer) : tracer :=
  mkTracer (CPUEventStack t) (CPUEventCntStack t) (WP_Stack t) (retCtxtStack t) (decodeInsCounter t)
    (basic_block_map t) (prevIP t) (RuntimeCallTime t) (RuntimeCallCount t) (frame_heap t) (next_frame t)
    (context_state t) b.

(** ** Computations on the thread's state *)
Abbreviation St := (WP_ThreadData_t (C := tracer) (R := R)).

Definition TM (A : Type) : Type := St -> option (exc (A * St)).

#[global] Instance TM_ret : MRet TM := fun A a st => Some (RET (a, st)).
#[global] Instance TM_bind : MBind TM := fun A B f m st =>
  match m st with
  | Some (RET (a, st')) => f a st'
  | Some EXC => Some EXC
  | None => None
  end.

Definition fail {A} : TM A := fun st => Some EXC.
Definition out_of_fuel {A} : TM A := fun st => None.
Definition gets {A} (f : tracer -> A) : TM A := fun st => Some (RET (f (client st), st)).
Definition modify (f : tracer -> tracer) : TM unit :=
  fun st => Some (RET (tt, with_client (f (client st)) st)).
Definition get_counters : TM counters := fun st => Some (RET (cnt st, st)).
Definition put_counters (c : counters) : TM unit := fun st => Some (RET (tt, with_cnt c st)).
(** An operation that may end the process. *)
Definition from_exc {A} (x : exc A) : TM A :=
  fun st => Some (match x with RET a => RET (a, st) | EXC => EXC end).
Definition on_library {A} (f : St -> exc (A * St)) : TM A := fun st => Some (f st).
Definition tassert (b : bool) : TM unit := from_exc (assert_exc b).

(** ** The surroundings *)

(** What the code asks of a compiled method. *)
Record CompiledMethod := mkMethod {
  mt_id : Z; mt_version : Z; mt_name : string; mt_start : Z; mt_end : Z }.

Section code.
Context (d_leb : D -> D -> bool) (d_sqrt : D -> D).
Context (lrand48_r : R -> Z * R) (drand48_r : R -> D * R).
Context (accepts : Z -> bp_attr -> bool) (owner_ok mmap_ok : Z -> bool) (tsc : nat -> Z) (bytes : Z -> byte).
Context (cfg : WP_Config_t tracer) (ev_read : nat -> nat -> Z * Z).
(** The metrics set up for the events, and how many are registered. *)
Context (wm : watermarks) (numMetrics : Z).
(** The options. *)
Context (decodeThreshold : Z) (selectedMethod : string).
(** The code: what is decoded at an address, XED's address generation, memory words,
    the stack walk and the code cache. *)
Context (get_decode_xedd : Z -> option xed_decoded_inst) (xed_agen : xed_decoded_inst -> ucontext -> Z).
Context (mem : Z -> Z) (asgct : ucontext -> list ASGCT_CallFrame) (getMethod : Z -> option CompiledMethod).

Fixpoint for_ids (f : nat -> TM unit) (ids : list nat) : TM unit :=
  match ids with
  | [] => mret tt
  | i :: ids' => f i ≫= fun _ => for_ids f ids'
  end.

(** [1 .. curEventId - 1] and [1 .. curWatermarkId - 1]. *)
Definition events_of (c : counters) : list nat := seq 1 (curEventId c - 1).
Definition watermark_ids : list nat := seq 1 (Z.to_nat (curWatermarkId wm) - 1).

(** [eventRDCnt[i]] and its assignment. *)
Definition get_rdcnt (i : nat) : TM Z :=
  c ← get_counters; from_exc (match eventRDCnt c !! i with Some v => RET v | None => EXC end).
Definition set_rdcnt (i : nat) (v : Z) : TM unit :=
  _ ← get_rdcnt i;
  c ← get_counters;
  put_counters (mkCnt (curEventId c) (<[i := v]> (eventRDCnt c)) (eventTempCnt c)).

(** [read(eventFd[i], ...)]. *)
Definition read_event (i : nat) : TM (Z * Z) := fun st =>
  Some (RET (ev_read i (k_time (kern st)), with_kern (tick (kern st)) st)).

Definition subscribe (s : SampleData_t) : TM bool :=
  on_library (WP_Subscribe d_leb lrand48_r drand48_r accepts owner_ok mmap_ok tsc bytes cfg s false false).

(** ** [new ContextFrame], its use and its deletion *)
Definition new_frame (f : ContextFrame) : TM Z :=
  p ← gets next_frame;
  _ ← modify (fun t => with_frames (<[p := f]> (frame_heap t)) (p + 1) t);
  mret p.
Definition frame_at (p : Z) : TM ContextFrame :=
  h ← gets frame_heap; from_exc (match h !! p with Some f => RET f | None => EXC end).
Definition delete_frame (p : Z) : TM unit :=
  _ ← frame_at p; modify (fun t => with_frames (delete p (frame_heap t)) (next_frame t) t).

Definition construct (uCtxt : ucontext) (ip mid mversion callee : Z) : TM nat :=
  f ← frame_at callee;
  t ← gets context_state;
  r ← from_exc (constructContext (asgct uCtxt) ip mid mversion f t);
  _ ← modify (with_tree r.2);
  mret r.1.

(** [WP_Stack.top()] and [pop()]. *)
Definition wp_top : TM SampleData_t :=
  l ← gets WP_Stack; from_exc (match l with s :: _ => RET s | [] => EXC end).
Definition wp_pop : TM unit :=
  l ← gets WP_Stack; match l with _ :: l' => modify (with_wps l') | [] => fail end.
Definition wp_push (s : SampleData_t) : TM unit := modify (fun t => with_wps (s :: WP_Stack t) t).
Definition ret_pop : TM unit :=
  l ← gets retCtxtStack; match l with _ :: l' => modify (with_rets l') | [] => fail end.
Definition ret_push (c : nat) : TM unit := modify (fun t => with_rets (c :: retCtxtStack t) t).

(** ** [decoder] *)
Definition exec_watch (ip p : Z) : SampleData_t := mkSD ip 8 WP_EXEC 8 p.

(** The first terminator found from a block's entry is remembered. *)
Definition remember (found : bool) (sampleIP : Z) (xedd : xed_decoded_inst) (TempIp : Z) : TM unit :=
  if found then
    modify (fun t => with_blocks (alter (fun b =>
      if WP_IP b =? NO_IP then mkBB (Entry_xedd b) xedd TempIp else b) sampleIP (basic_block_map t)) t)
  else mret tt.

(** The instruction at hand and its address: the remembered one, or decoded anew. *)
Definition fetch (found : bool) (sampleIP TempIp : Z) : TM (xed_decoded_inst * Z) :=
  m ← gets basic_block_map;
  let fresh :=
    match get_decode_xedd TempIp with
    | None => fail
    | Some xedd =>
        _ ← (if TempIp =? sampleIP then
               modify (fun t => with_blocks
                 (match basic_block_map t !! sampleIP with
                  | Some _ => basic_block_map t
                  | None => <[sampleIP := mkBB xedd xedd NO_IP]> (basic_block_map t)
                  end) t)
             else mret tt);
        mret (xedd, TempIp)
    end in
  match m !! sampleIP with
  | Some b => if found && negb (WP_IP b =? NO_IP) then mret (WP_xedd b, WP_IP b) else fresh
  | None => fresh
  end.

(** The watchpoint set on a branch or call at [TempIp]: its frame is marked with
    [method_id]. *)
Definition watch_branch (sampleIP TempIp mid : Z) : TM unit :=
  p ← new_frame (mkFrame sampleIP mid "" 0 "" (-1) 0);
  _ ← subscribe (exec_watch TempIp p);
  mret tt.

Definition JUMP_METHOD : Z := u64 (-2).

Fixpoint decoder_loop (fuel : nat) (found : bool) (sampleIP TempIp : Z) (uCtxt : ucontext) : TM unit :=
  match fuel with
  | O => out_of_fuel
  | Datatypes.S fuel' =>
      n ← gets decodeInsCounter;
      if decodeThreshold <=? n then
        s ← wp_top; _ ← subscribe s; wp_pop
      else
        r ← fetch found sampleIP TempIp;
        let '(xedd, TempIp) := r in
        match iclass xedd with
        | RET_NEAR | RET_FAR =>
            _ ← remember found sampleIP xedd TempIp;
            l ← gets WP_Stack;
            if (length l =? 1)%nat then
              s ← wp_top; _ ← wp_pop; _ ← ret_pop; _ ← subscribe s; mret tt
            else
              s ← wp_top; _ ← wp_pop; _ ← subscribe (exec_watch TempIp (calleeCtxtFrame s)); mret tt
        | JCC _ | LOOP | LOOPE | LOOPNE =>
            _ ← remember found sampleIP xedd TempIp;
            watch_branch sampleIP TempIp JUMP_METHOD
        | JMP | JMP_FAR =>
            match op0 xedd with
            | RELBR =>
                next ← (if has_displacement xedd
                        then from_exc (get_branch_target mem xed_agen TempIp xedd uCtxt)
                        else mret TempIp);
                decoder_loop fuel' found sampleIP next uCtxt
            | _ =>
                _ ← remember found sampleIP xedd TempIp;
                watch_branch sampleIP TempIp JUMP_METHOD
            end
        | CALL_FAR | CALL_NEAR =>
            _ ← modify (with_counter (u64 (n + 1)));
            _ ← remember found sampleIP xedd TempIp;
            watch_branch sampleIP TempIp 0
        | ICLASS_OTHER => decoder_loop fuel' found sampleIP (u64 (TempIp + inst_length xedd)) uCtxt
        end
  end.

Definition decoder (fuel : nat) (sampleIP : Z) (uCtxt : ucontext) : TM unit :=
  m ← gets basic_block_map;
  decoder_loop fuel (bool_decide (is_Some (m !! sampleIP))) sampleIP sampleIP uCtxt.

(** ** [Profiler::OnSample] *)
Definition clear_rdcnts (ids : list nat) : TM unit := for_ids (fun i => set_rdcnt i 0) ids.

(** The last reading stays in [eventTempCnt]. *)
Definition read_into_temp (i : nat) : TM unit :=
  r ← read_event i;
  _ ← tassert (0 <? r.1);
  c ← get_counters;
  put_counters (mkCnt (curEventId c) (eventRDCnt c) r.2).

Definition set_cnt_value (t : Z) (i : nat) (v : Z) : TM unit :=
  s ← gets CPUEventCntStack;
  s ← from_exc (set_value_at t i v s);
  modify (fun tr => with_stacks (CPUEventStack tr) s tr).
Definition cnt_value (t : Z) (i : nat) : TM Z := s ← gets CPUEventCntStack; from_exc (value_at s t i).
Definition set_start_value (t : Z) (i : nat) (v : Z) : TM unit :=
  s ← gets CPUEventStack;
  s ← from_exc (set_value_at t i v s);
  modify (fun tr => with_stacks s (CPUEventCntStack tr) tr).
Definition start_value (t : Z) (i : nat) : TM Z := s ← gets CPUEventStack; from_exc (value_at s t i).

(** Both tops move together; the result is the first one's value. *)
Definition move_tops (d : Z) : TM Z :=
  t ← gets (fun tr => top (CPUEventStack tr));
  _ ← modify (fun tr => with_stacks (set_top (t + d) (CPUEventStack tr))
                          (set_top (top (CPUEventCntStack tr) + d) (CPUEventCntStack tr)) tr);
  mret t.
Definition set_tops (t : Z) : TM unit :=
  modify (fun tr => with_stacks (set_top t (CPUEventStack tr)) (set_top t (CPUEventCntStack tr)) tr).

Definition OnSample (fuel : nat) (ip : Z) (uCtxt : ucontext) : TM unit :=
  match getMethod ip with
  | None => mret tt
  | Some method =>
      if negb (bool_decide (selectedMethod = "")) && negb (bool_decide (mt_name method = selectedMethod))
      then mret tt
      else
        c ← get_counters;
        _ ← modify (with_counter 0);
        _ ← clear_rdcnts (events_of c);
        _ ← modify (with_rets []);
        _ ← modify (with_wps []);
        _ ← for_ids read_into_temp (events_of c);
        t ← move_tops 1;
        _ ← tassert (1 <=? curEventId c)%nat;
        _ ← (if negb (t + 1 =? 0) then set_tops 0 else mret tt);
        _ ← for_ids (fun i => set_cnt_value 0 i 0) (events_of c);
        p ← new_frame (mkFrame ip (mt_id method) "" (mt_version method) "" (-1) 0);
        _ ← wp_push (mkSD (getContextSP uCtxt) 8 WP_RW 8 p);
        watchCtxt ← construct uCtxt ip (mt_id method) (mt_version method) p;
        _ ← ret_push watchCtxt;
        decoder fuel ip uCtxt
  end.

(** ** What a return records *)

(** The metrics of a context; a null pointer is followed for an unregistered metric. *)
Definition metric_of (id : Z) (m : ContextMetrics D) : exc (metric_val_t D * ContextMetrics D) :=
  match getMetricVal numMetrics id m with
  | (Some p, m') => match m' !! p with Some v => RET (v, m') | None => EXC end
  | (None, _) => EXC
  end.
Definition set_metric (id : Z) (v : metric_val_t D) (m : ContextMetrics D) : exc (ContextMetrics D) :=
  assert_do (setMetricVal numMetrics id v m).

Definition id_of (l : gmap Z Z) (i : nat) : Z := default (-1) (l !! Z.of_nat i).
Definition real_val (r : D) : metric_val_t D := mkVal 0 r "".
Definition str_val (s : string) : metric_val_t D := mkVal 0 (d_of_Z 0) s.

(** [std::to_string] of a [uint64_t]. *)
Definition to_string (z : Z) : string := pretty (Z.to_N (u64 z)).

Definition record_event (sample_cnt : Z) (i : nat) (start new_value : Z) (m : ContextMetrics D)
  : exc (ContextMetrics D) :=
  let stop := u64 (start + new_value) in
  r ← metric_of (id_of (mean_metric_id wm) i) m; let '(vmean, m) := r in
  r ← metric_of (id_of (variance_metric_id wm) i) m; let '(vvar, m) := r in
  r ← metric_of (id_of (m2_metric_id wm) i) m; let '(vm2, m) := r in
  let w := UpdateVarianceAndMean sample_cnt new_value (mkW (m_r vmean) (m_r vvar) (m_r vm2)) in
  let cv := d_div (d_sqrt (w_variance w)) (w_mean w) in
  r ← metric_of (id_of (start_metric_id wm) i) m; let '(vstart, m) := r in
  r ← metric_of (id_of (end_metric_id wm) i) m; let '(vend, m) := r in
  m ← set_metric (id_of (start_metric_id wm) i)
        (str_val (m_str vstart +:+ to_string start +:+ " ")) m;
  m ← set_metric (id_of (end_metric_id wm) i) (str_val (m_str vend +:+ to_string stop +:+ " ")) m;
  m ← set_metric (id_of (mean_metric_id wm) i) (real_val (w_mean w)) m;
  m ← set_metric (id_of (variance_metric_id wm) i) (real_val (w_variance w)) m;
  m ← set_metric (id_of (m2_metric_id wm) i) (real_val (w_M2 w)) m;
  set_metric (id_of (cv_metric_id wm) i) (real_val cv) m.

(** The metrics of node [ctxt], made if there are none. *)
Definition metrics_of (ctxt : nat) : TM (ContextMetrics D) :=
  t ← gets context_state;
  match getMetrics ctxt t with
  | None => fail
  | Some None => _ ← modify (fun tr => with_tree (setMetrics ctxt [] (context_state tr)) tr); mret []
  | Some (Some m) => mret m
  end.
Definition put_metrics (ctxt : nat) (m : ContextMetrics D) : TM unit :=
  modify (fun tr => with_tree (setMetrics ctxt m (context_state tr)) tr).

(** One more sample of the context; the result is the number of samples. *)
Definition count_sample (ctxt : nat) : TM Z :=
  m ← metrics_of ctxt;
  m ← from_exc (assert_do (increment numMetrics (sample_cnt_metric_id wm) (mkVal 1 (d_of_Z 0) "") m));
  r ← from_exc (metric_of (sample_cnt_metric_id wm) m);
  _ ← put_metrics ctxt r.2;
  mret (u64 (m_i r.1)).

(** The loop bodies: the counts since the last event of the shadow stack go to
    the returning frame and to its caller. *)
Definition return_counts (t : Z) (i : nat) : TM (Z * Z) :=
  v ← cnt_value t i; rd ← get_rdcnt i;
  _ ← set_cnt_value t i (u64 (v + rd));
  _ ← (if negb (t =? 0) then v ← cnt_value (t - 1) i; set_cnt_value (t - 1) i (u64 (v + rd)) else mret tt);
  _ ← set_rdcnt i 0;
  new_value ← cnt_value t i;
  start ← start_value t i;
  _ ← (if t =? 0 then set_start_value t i (u64 (start + new_value)) else mret tt);
  mret (start, new_value).

(** In the last part of [OnRetWatchPoint]: only the outermost frame may return. *)
Definition final_counts (t : Z) (i : nat) : TM (Z * Z) :=
  v ← cnt_value t i; rd ← get_rdcnt i;
  _ ← set_cnt_value t i (u64 (v + rd));
  _ ← tassert (t =? 0);
  new_value ← cnt_value t i;
  start ← start_value t i;
  _ ← set_start_value t i (u64 (start + new_value));
  mret (start, new_value).

Definition record_return (counts : nat -> TM (Z * Z)) (ctxt : nat) : TM unit :=
  sample_cnt ← count_sample ctxt;
  c ← get_counters;
  _ ← tassert (Z.of_nat (curEventId c) =? curWatermarkId wm);
  for_ids (fun i =>
    r ← counts i;
    m ← metrics_of ctxt;
    m ← from_exc (record_event sample_cnt i r.1 r.2 m);
    put_metrics ctxt m) watermark_ids.

(** ** [Profiler::OnBranchWatchPoint]

    [wpt->sd] is the slot's memory, read at the time. *)
Definition slot_sd (wpt : WP_TriggerInfo_t) : TM SampleData_t := fun st =>
  Some (match watchPointArray st !! t_slot wpt with Some w => RET (sd w, st) | None => EXC end).

Definition RUNTIME_IP : Z := u64 (-3).

(** The method id and version of an address, 0 when it is not compiled code. *)
Definition method_ids (m : option CompiledMethod) : Z * Z :=
  match m with Some m => (mt_id m, mt_version m) | None => (0, 0) end.

(** The registers and the trap's address are arguments; a call of code the cache does not
    know is stepped over. *)
Definition branch_return (fuel : nat) (wpt : WP_TriggerInfo_t) (pc : Z) (uCtxt : ucontext) : TM unit :=
  t ← move_tops (-1);
  let pc := if pc =? 0 then getContextPC uCtxt else pc in
  let '(mid, mver) := method_ids (getMethod pc) in
  _ ← modify (with_prevIP pc);
  s ← slot_sd wpt;
  trapCtxt ← construct uCtxt pc mid mver (calleeCtxtFrame s);
  _ ← delete_frame (calleeCtxtFrame s);
  _ ← record_return (return_counts t) trapCtxt;
  _ ← ret_pop;
  l ← gets WP_Stack;
  match l with
  | [] => mret tt
  | _ :: _ => decoder fuel (mem (getContextSP uCtxt)) uCtxt
  end.

(** A call: the callee's frame is pushed, starting where the caller's counts are. *)
Definition branch_call (fuel : nat) (TempIp : Z) (xedd : xed_decoded_inst) (uCtxt : ucontext) : TM unit :=
  CalleeIP ← from_exc (get_branch_target mem xed_agen TempIp xedd uCtxt);
  c ← get_counters;
  match getMethod CalleeIP with
  | None =>
      _ ← tassert (1 <=? curEventId c)%nat;
      _ ← for_ids (fun i =>
            _ ← set_rdcnt i 0;
            modify (fun tr => with_runtime (RuntimeCallTime tr) (<[i := 0]> (RuntimeCallCount tr)) tr))
          (events_of c);
      p ← new_frame (mkFrame RUNTIME_IP (u64 (-3)) "" (u32 (-3)) "" (-1) 0);
      _ ← subscribe (exec_watch (u64 (TempIp + inst_length xedd)) p);
      mret tt
  | Some method =>
      t ← move_tops 1;
      let t := t + 1 in
      _ ← tassert (1 <=? curEventId c)%nat;
      _ ← for_ids (fun i =>
            v ← cnt_value (t - 1) i; rd ← get_rdcnt i;
            _ ← set_cnt_value (t - 1) i (u64 (v + rd));
            set_rdcnt i 0) (events_of c);
      _ ← for_ids (fun i =>
            a ← start_value (t - 1) i; b ← cnt_value (t - 1) i;
            _ ← set_start_value t i (u64 (a + b));
            set_cnt_value t i 0) (events_of c);
      p ← new_frame (mkFrame CalleeIP (mt_id method) "" (mt_version method) "" (-1) 0);
      trapCtxt ← construct uCtxt CalleeIP (mt_id method) (mt_version method) p;
      _ ← wp_push (mkSD (u64 (getContextSP uCtxt - 8)) 8 WP_RW 8 p);
      _ ← ret_push trapCtxt;
      decoder fuel CalleeIP uCtxt
  end.

Definition OnBranchWatchPoint (fuel : nat) (wpt : WP_TriggerInfo_t) (pc : Z) (uCtxt : ucontext) : TM bool :=
  s ← slot_sd wpt;
  let TempIp := va s in
  match get_decode_xedd TempIp with
  | None => mret true
  | Some xedd =>
      _ ← match iclass xedd with
          | RET_FAR | RET_NEAR => branch_return fuel wpt pc uCtxt
          | CALL_FAR | CALL_NEAR => branch_call fuel TempIp xedd uCtxt
          | _ =>
              match branch_next mem xed_agen TempIp xedd uCtxt with
              | Some next => ip ← from_exc next; decoder fuel ip uCtxt
              | None => mret tt
              end
          end;
      mret true
  end.

(** ** Finding the instruction before an address ([x86-misc.cpp], [profiler_support.cpp]) *)
Fixpoint previous_loop (fuel : nat) (pins method_end_addr ins : Z) : option Z :=
  match fuel with
  | O => None
  | Datatypes.S fuel' =>
      if pins <=? method_end_addr then
        match get_decode_xedd pins with
        | None => previous_loop fuel' (pins + 1) method_end_addr ins
        | Some xedd =>
            if pins + inst_length xedd =? ins then Some pins
            else previous_loop fuel' (pins + inst_length xedd) method_end_addr ins
        end
      else Some 0
  end.

Definition get_previous_instruction (fuel : nat) (method_start_addr method_end_addr ins : Z) (excludeList : list Z)
  : option Z :=
  if (ins <? method_start_addr) || (method_end_addr <? ins) then Some 0
  else if existsb (fun e => (method_start_addr <=? e) && (e <? ins)) excludeList then Some 0
  else previous_loop fuel method_start_addr method_end_addr ins.

Definition GetPatchedIP (fuel : nat) (method_start_addr method_end_addr ip : Z) : TM Z := fun st =>
  match get_previous_instruction fuel method_start_addr method_end_addr ip (WP_GetActiveAddresses st) with
  | Some p => Some (RET (p, st))
  | None => None
  end.

Definition IsPCSane (ip patchedIP : Z) : bool :=
  negb ((patchedIP =? 0) || (ip <? patchedIP) || (patchedIP + 15 <? ip)).

(** ** [Profiler::OnRetWatchPoint] *)

(** An imprecise address is moved back to the instruction before it; [None] when
    none is found near enough. *)
Definition fix_pc (fuel : nat) (method : CompiledMethod) (pcPrecise pc : Z) : TM (option Z) :=
  if negb (pcPrecise =? 0) then mret (Some pc)
  else
    prev ← gets prevIP;
    patchedIP ← GetPatchedIP fuel
      (if (mt_start method <? prev) && (prev <? pc) then prev else mt_start method) (mt_end method) pc;
    if negb (IsPCSane pc patchedIP) then mret None
    else _ ← modify (with_prevIP patchedIP); mret (Some patchedIP).

Definition safe_enter : TM bool :=
  b ← gets td_inside_agent; _ ← modify (with_inside true); mret (negb b).
Definition safe_exit : TM unit := modify (with_inside false).
Definition exit_with (a : WP_TriggerAction_t) : TM WP_TriggerAction_t := _ ← safe_exit; mret a.

(** After a call of code that is not compiled. *)
Definition runtime_return (fuel : nat) (wpt : WP_TriggerInfo_t) (uCtxt : ucontext) : TM WP_TriggerAction_t :=
  _ ← for_ids (fun i =>
        rd ← get_rdcnt i;
        times ← gets RuntimeCallTime; counts ← gets RuntimeCallCount;
        match times !! i, counts !! i with
        | Some t, Some n =>
            _ ← modify (with_runtime (<[i := u64 (t + (rd - n))]> times) counts);
            set_rdcnt i n
        | _, _ => fail
        end) watermark_ids;
  _ ← decoder fuel (t_va wpt) uCtxt;
  exit_with WP_TRIGGERED.

(** Once [decodeThreshold] calls have been decoded: the next enclosing method's return is
    watched, and the present one's recorded. *)
Definition over_threshold (fuel : nat) (wpt : WP_TriggerInfo_t) (pc : Z) (method : CompiledMethod)
    (uCtxt : ucontext) : TM WP_TriggerAction_t :=
  rets ← gets retCtxtStack;
  _ ← tassert (negb (bool_decide (rets = [])));
  l ← gets WP_Stack;
  _ ← match l with
      | [] => mret tt
      | s :: _ => ok ← subscribe s; if (ok : bool) then wp_pop else mret tt
      end;
  t ← move_tops (-1);
  let pc := if pc =? 0 then getContextPC uCtxt else pc in
  fixed ← fix_pc fuel method (t_pcPrecise wpt) pc;
  match fixed with
  | None => exit_with WP_DISABLE
  | Some pc =>
      s ← slot_sd wpt;
      trapCtxt ← construct uCtxt pc (mt_id method) (mt_version method) (calleeCtxtFrame s);
      _ ← record_return (return_counts t) trapCtxt;
      _ ← ret_pop;
      exit_with WP_TRIGGERED
  end.

(** The sampled method's own return. *)
Definition final_return (fuel : nat) (wpt : WP_TriggerInfo_t) (pc : Z) (method : CompiledMethod)
    (uCtxt : ucontext) : TM WP_TriggerAction_t :=
  t ← move_tops (-1);
  fixed ← fix_pc fuel method (t_pcPrecise wpt) pc;
  match fixed with
  | None => exit_with WP_DISABLE
  | Some pc =>
      s ← slot_sd wpt;
      trapCtxt ← construct uCtxt pc (mt_id method) (mt_version method) (calleeCtxtFrame s);
      _ ← delete_frame (calleeCtxtFrame s);
      _ ← record_return (final_counts t) trapCtxt;
      exit_with WP_DISABLE
  end.

Definition OnRetWatchPoint (fuel : nat) (wpt : WP_TriggerInfo_t) (uCtxt : ucontext) : TM WP_TriggerAction_t :=
  ok ← safe_enter;
  if negb ok then mret WP_DISABLE else
  let pc := if t_pc wpt =? 0 then getContextPC uCtxt else t_pc wpt in
  if pc =? 0 then _ ← set_tops (-1); exit_with WP_DISABLE else
  match getMethod pc with
  | None => _ ← move_tops (-1); exit_with WP_DISABLE
  | Some method =>
      _ ← for_ids (fun i => r ← read_event i; tassert (0 <? r.1)) watermark_ids;
      s ← slot_sd wpt;
      f ← frame_at (calleeCtxtFrame s);
      if binary_addr f =? RUNTIME_IP then runtime_return fuel wpt uCtxt else
      n ← gets decodeInsCounter;
      if decodeThreshold <=? n then over_threshold fuel wpt pc method uCtxt else
      handled ← (if decide (watchType s = WP_EXEC) then OnBranchWatchPoint fuel wpt pc uCtxt else mret false);
      if (handled : bool) then exit_with WP_TRIGGERED
      else final_return fuel wpt pc method uCtxt
  end.

(** The callback [WP_ThreadInit] is given; a computation that does not end does
    not return. *)
Definition callback (fuel : nat) (wpt : WP_TriggerInfo_t) (uCtxt : ucontext) (st : St)
  : exc (WP_TriggerAction_t * St) :=
  default EXC (OnRetWatchPoint fuel wpt uCtxt st).

(** ** Relations every computation keeps

    [keeps Q m]: the state before and the state after [m] are related by [Q]. *)
Definition keeps (Q : St -> St -> Prop) {A} (m : TM A) : Prop :=
  forall st a st', m st = Some (RET (a, st')) -> Q st st'.

Lemma bind_Some {A B} (m : TM A) (f : A -> TM B) st b st' :
  (m ≫= f) st = Some (RET (b, st')) ->
  exists a st1, m st = Some (RET (a, st1)) /\ f a st1 = Some (RET (b, st')).
Proof.
  unfold mbind, TM_bind. destruct (m st) as [[[a st1]|]|] eqn:E; [|done|done]. by exists a, st1.
Qed.

Section keeps.
Context (Q : St -> St -> Prop) `{!PreOrder Q}.

Lemma keeps_bind {A B} (m : TM A) (f : A -> TM B) : keeps Q m -> (forall a, keeps Q (f a)) -> keeps Q (m ≫= f).
Proof.
  intros Hm Hf st b st' E. apply bind_Some in E as (a & st1 & E1 & E2).
  etrans; [by eapply Hm|by eapply Hf].
Qed.
Lemma keeps_ret {A} (a : A) : keeps Q (mret a).
Proof. by intros st b st' [= <- <-]. Qed.
Lemma keeps_fail {A} : keeps Q (fail (A := A)).
Proof. by intros st b st'. Qed.
Lemma keeps_fuel {A} : keeps Q (out_of_fuel (A := A)).
Proof. by intros st b st'. Qed.
Lemma keeps_gets {A} (f : tracer -> A) : keeps Q (gets f).
Proof. by intros st b st' [= <- <-]. Qed.
Lemma keeps_get_counters : keeps Q get_counters.
Proof. by intros st b st' [= <- <-]. Qed.
Lemma keeps_from_exc {A} (x : exc A) : keeps Q (from_exc x).
Proof. intros st b st'. unfold from_exc. destruct x; [|done]. by intros [= <- <-]. Qed.
Lemma keeps_slot_sd wpt : keeps Q (slot_sd wpt).
Proof. intros st b st'. unfold slot_sd. destruct (_ !! _); [|done]. by intros [= <- <-]. Qed.
Lemma keeps_patched fuel a b ip : keeps Q (GetPatchedIP fuel a b ip).
Proof.
  intros st p st'. unfold GetPatchedIP. destruct (get_previous_instruction _ _ _ _ _); [|done].
  by intros [= <- <-].
Qed.
Lemma keeps_for_ids f ids : (forall i, keeps Q (f i)) -> keeps Q (for_ids f ids).
Proof. intros Hf. induction ids; simpl; [apply keeps_ret|by apply keeps_bind]. Qed.
End keeps.

(** Goes through the text of a definition; [leaf] solves the operations that change
    the state. *)
Ltac go_keeps leaf :=
  repeat first
    [ assumption | solve [leaf] | apply keeps_fail | apply keeps_fuel
    | match goal with
      | |- keeps _ (_ ≫= _) => apply keeps_bind; [exact _| |intros ?]
      | |- keeps _ (for_ids _ _) => apply keeps_for_ids; [exact _|intros ?]
      | |- keeps _ (match ?x with _ => _ end) => destruct x
      | |- keeps _ (let '_ := ?x in _) => destruct x
      end
    | solve [first [apply keeps_ret | apply keeps_gets | apply keeps_get_counters | apply keeps_from_exc
                   | apply keeps_slot_sd | apply keeps_patched]; exact _]
    | progress cbv beta zeta
    | progress unfold get_rdcnt ].

(** ** The tracer as a client of the watchpoint library

    It changes watchpoints through [WP_Subscribe] only. *)
Abbreviation run := (client_run d_leb lrand48_r drand48_r accepts owner_ok mmap_ok tsc bytes cfg).

#[local] Instance run_preorder : PreOrder run.
Proof.
  split; [constructor|]. intros st1 st2 st3.
  induction 1; intros; [done|by eapply run_subscribe; eauto|by eapply run_own; eauto].
Qed.

Lemma run_step (st st' : St) :
  watchPointArray st' = watchPointArray st -> wpStack st' = wpStack st ->
  k_bps (kern st') = k_bps (kern st) -> k_next (kern st') = k_next (kern st) -> run st st'.
Proof. intros. eapply run_own; [done..|constructor]. Qed.

Lemma run_modify f : keeps run (modify f).
Proof. intros st a st' [= <- <-]. by apply run_step. Qed.
Lemma run_put_counters c : keeps run (put_counters c).
Proof. intros st a st' [= <- <-]. by apply run_step. Qed.
Lemma run_read_event i : keeps run (read_event i).
Proof. intros st a st' [= <- <-]. by apply run_step. Qed.
Lemma run_subscribe s : keeps run (subscribe s).
Proof. intros st b st' [= E]. by eapply run_subscribe; [done|constructor]. Qed.

Ltac run_leaf :=
  first [apply run_modify | apply run_put_counters | apply run_read_event | apply run_subscribe].
Ltac go_run := go_keeps run_leaf.

Lemma run_decoder_loop fuel b a t u : keeps run (decoder_loop fuel b a t u).
Proof.
  revert t; induction fuel as [|fuel IH]; intros t; cbn [decoder_loop]; [apply keeps_fuel|].
  unfold wp_top, wp_pop, ret_pop, fetch, remember, watch_branch, new_frame.
  repeat first [apply IH | progress go_run].
Qed.
Lemma run_decoder fuel a u : keeps run (decoder fuel a u).
Proof. unfold decoder. go_keeps ltac:(apply run_decoder_loop). Qed.

Ltac run_unfold :=
  unfold construct, new_frame, delete_frame, record_return, count_sample, return_counts, final_counts,
    fix_pc, set_rdcnt, get_rdcnt, frame_at, wp_top, wp_pop, wp_push, ret_pop, ret_push, move_tops, set_tops,
    set_cnt_value, cnt_value, set_start_value, start_value, metrics_of, put_metrics, safe_enter, exit_with,
    safe_exit, tassert.
Ltac go_trap := run_unfold; repeat first [apply run_decoder | progress go_run].

Lemma run_branch fuel wpt pc u : keeps run (OnBranchWatchPoint fuel wpt pc u).
Proof. unfold OnBranchWatchPoint, branch_return, branch_call. go_trap. Qed.
Lemma run_runtime fuel wpt u : keeps run (runtime_return fuel wpt u).
Proof. unfold runtime_return. go_trap. Qed.
Lemma run_over fuel wpt pc m u : keeps run (over_threshold fuel wpt pc m u).
Proof. unfold over_threshold. go_trap. Qed.
Lemma run_final fuel wpt pc m u : keeps run (final_return fuel wpt pc m u).
Proof. unfold final_return. go_trap. Qed.
Lemma run_OnRetWatchPoint fuel wpt u : keeps run (OnRetWatchPoint fuel wpt u).
Proof.
  unfold OnRetWatchPoint.
  go_keeps ltac:(first [apply run_branch | apply run_runtime | apply run_over | apply run_final | run_leaf]).
  all: go_trap.
Qed.

(** The actions a computation can ask for. *)
Definition yields {A} (P : A -> Prop) (m : TM A) : Prop :=
  forall st a st', m st = Some (RET (a, st')) -> P a.

Lemma yields_bind {A B} (P : B -> Prop) (m : TM A) (f : A -> TM B) :
  (forall a, yields P (f a)) -> yields P (m ≫= f).
Proof. intros Hf st b st' E. apply bind_Some in E as (a & st1 & _ & E). by eapply Hf. Qed.
Lemma yields_ret {A} (P : A -> Prop) a : P a -> yields P (mret a).
Proof. by intros Ha st b st' [= <- <-]. Qed.
Lemma yields_exit (P : WP_TriggerAction_t -> Prop) a : P a -> yields P (exit_with a).
Proof. intros Ha. apply yields_bind. intros _. by apply yields_ret. Qed.

Ltac go_yields :=
  repeat first
    [ progress cbv beta zeta | apply yields_exit; done | apply yields_ret; done
    | match goal with
      | |- yields _ (_ ≫= _) => apply yields_bind; intros ?
      | |- yields _ (match ?x with _ => _ end) => destruct x
      end ].

Lemma OnRetWatchPoint_action fuel wpt u :
  yields (fun a => a = WP_DISABLE \/ a = WP_TRIGGERED) (OnRetWatchPoint fuel wpt u).
Proof.
  unfold OnRetWatchPoint, runtime_return, over_threshold, final_return. go_yields; auto.
  all: try (apply yields_exit; auto). all: try (apply yields_ret; auto).
Qed.

(** The callback is a client in the sense of the library's interface. *)
#[export] Instance callback_client fuel :
  WP_Client d_leb lrand48_r drand48_r accepts owner_ok mmap_ok tsc bytes cfg (callback fuel).
Proof.
  intros wpt u st a st' E. unfold callback in E.
  destruct (OnRetWatchPoint fuel wpt u st) as [[[a1 st1]|]|] eqn:E1; simpl in E; [|done|done].
  injection E as <- <-. split; [by eapply run_OnRetWatchPoint|].
  apply OnRetWatchPoint_action in E1. intros ->. by destruct E1.
Qed.

(** ** The depth of the shadow stacks

    What the operations make of the tops, the count of decoded calls, the stack of
    watchpoints, the remembered blocks and the watchpoints set. *)
Record view := mkView {
  v_top : Z; v_ctop : Z; v_calls : Z; v_wps : list SampleData_t; v_blocks : gmap Z basic_block_t;
  v_watched : list (option SampleData_t); v_sds : list SampleData_t }.

Definition tracer_view (t : tracer) (ws : list (option SampleData_t)) (l : list SampleData_t) : view :=
  mkView (top (CPUEventStack t)) (top (CPUEventCntStack t)) (decodeInsCounter t) (WP_Stack t) (basic_block_map t) ws l.
Definition view_of (st : St) : view := tracer_view (client st) (watched st) (sd <$> watchPointArray st).

Definition triple (P : view -> Prop) {A} (m : TM A) (Q : A -> view -> Prop) : Prop :=
  forall st a st', P (view_of st) -> m st = Some (RET (a, st')) -> Q a (view_of st').

Definition quiet (st st' : St) : Prop := view_of st' = view_of st.
#[local] Instance quiet_preorder : PreOrder quiet.
Proof. split; [done|]. intros a b c E1 E2. unfold quiet in *. congruence. Qed.

Lemma triple_quiet {A} P (m : TM A) : keeps quiet m -> triple P m (fun _ => P).
Proof. intros Hm st a st' HP E. by rewrite (Hm _ _ _ E). Qed.
Lemma triple_post {A} P (Q Q' : A -> view -> Prop) (m : TM A) :
  triple P m Q -> (forall a v, Q a v -> Q' a v) -> triple P m Q'.
Proof. intros Hm HQ st a st' Hst E. eapply HQ. by eapply Hm. Qed.

Lemma quiet_modify f : (forall t ws l, tracer_view (f t) ws l = tracer_view t ws l) -> keeps quiet (modify f).
Proof. intros Hf st a st' [= <- <-]. apply Hf. Qed.
Lemma quiet_put_counters c : keeps quiet (put_counters c).
Proof. by intros st a st' [= <- <-]. Qed.
Lemma quiet_read_event i : keeps quiet (read_event i).
Proof. by intros st a st' [= <- <-]. Qed.

Lemma set_value_at_top t i v s s' : set_value_at t i v s = RET s' -> top s' = top s.
Proof. intros E. apply exc_bind_ret in E as (_ & _ & [= <-]). done. Qed.

Lemma from_exc_Some {A} (x : exc A) st a st' : from_exc x st = Some (RET (a, st')) -> x = RET a /\ st' = st.
Proof. unfold from_exc. destruct x; [|done]. by intros [= -> ->]. Qed.

Lemma quiet_set_cnt_value t i v : keeps quiet (set_cnt_value t i v).
Proof.
  intros st a st' E. apply bind_Some in E as (s & st1 & [= <- <-] & E).
  apply bind_Some in E as (s & st2 & [Es ->]%from_exc_Some & [= <- <-]).
  apply set_value_at_top in Es. unfold quiet, view_of, tracer_view. simpl. by rewrite Es.
Qed.
Lemma quiet_set_start_value t i v : keeps quiet (set_start_value t i v).
Proof.
  intros st a st' E. apply bind_Some in E as (s & st1 & [= <- <-] & E).
  apply bind_Some in E as (s & st2 & [Es ->]%from_exc_Some & [= <- <-]).
  apply set_value_at_top in Es. unfold quiet, view_of, tracer_view. simpl. by rewrite Es.
Qed.

Ltac quiet_leaf :=
  first [apply quiet_set_cnt_value | apply quiet_set_start_value | apply quiet_put_counters
        | apply quiet_read_event | apply quiet_modify; done].
Ltac go_quiet :=
  unfold construct, new_frame, delete_frame, clear_rdcnts, read_into_temp, record_return, count_sample, return_counts,
    final_counts, fix_pc, set_rdcnt, get_rdcnt, frame_at, ret_pop, ret_push, cnt_value, start_value, metrics_of,
    put_metrics, safe_enter, exit_with, safe_exit, tassert;
  go_keeps quiet_leaf.

Lemma quiet_construct u ip a b p : keeps quiet (construct u ip a b p).
Proof. go_quiet. Qed.
Lemma quiet_fix_pc fuel m a b : keeps quiet (fix_pc fuel m a b).
Proof. go_quiet. Qed.

Section depth.
Hypothesis cfg_policy : replacementPolicy cfg = WP_REPLACEMENT_OLDEST.
Hypothesis threshold_64 : decodeThreshold < 2 ^ 64.






Lemma quiet_inv_post {A} P (m : TM A) Q : keeps quiet m -> (forall v, P v -> Q v) -> triple P m (fun _ => Q).
Proof. intros Hm HPQ. eapply triple_post; [by apply triple_quiet|]. intros a v Hv. by apply HPQ. Qed.































Lemma run_OnSample fuel ip u : keeps run (OnSample fuel ip u).
Proof. unfold OnSample, clear_rdcnts, read_into_temp. go_trap. Qed.

Lemma run_wpStack st st' : run st st' -> wpStack st' = wpStack st.
Proof.
  induction 1 as [|s b st st1 st2 E _ IH|st st1 st2 _ E _ _ _ IH]; [done| |congruence].
  apply WP_Subscribe_frame in E as (_ & Es & _); [congruence|done].
Qed.

(** What happens on a thread: samples, traps, and records the kernel writes. *)
Inductive thread_run : St -> St -> Prop :=
  | thread_done st : thread_run st st
  | thread_sample fuel ip u st st1 st2 :
      OnSample fuel ip u st = Some (RET (tt, st1)) -> thread_run st1 st2 -> thread_run st st2
  | thread_trap fuel si_fd u st st1 st2 :
      OnWatchPoint accepts owner_ok mmap_ok tsc cfg ev_read (callback fuel) si_fd u true st = RET st1 ->
      thread_run st1 st2 -> thread_run st st2
  | thread_record i w m0 m st st2 :
      watchPointArray st !! i = Some w -> mmapBuffer w = Some m0 ->
      thread_run (set_slot i (set_buffer (Some m) w) st) st2 -> thread_run st st2.





(** C7: The tracer and the watchpoint library together leak nothing, on a kernel that accepts their attributes: the tracer is a
    client in the sense of the library's interface, so that after any samples and traps of a
    thread the kernel watches exactly the addresses of the active slots, and
    [WP_ThreadTerminate] then succeeds and leaves no breakpoint descriptor open. *)
Theorem thread_watchpoints (st0 st : St) :
  isWPModifyEnabled cfg = true -> isLBREnabled cfg = true ->
  (forall fd s a, bp_attr_of cfg s = Some a -> accepts fd a = true) ->
  (forall fd, owner_ok fd = true) -> (forall fd, mmap_ok fd = true) ->
  (forall n, i64 (tsc n) < INT64_MAX) -> (forall i t, 0 < (ev_read i t).1) ->
  (forall h f c, h = userPerfPause cfg \/ h = userPerfResume cfg -> h = Some f -> exists c', f c = RET c') ->
  wp_inv cfg eq st0 -> wpStack st0 = [] -> watchPointArray st0 <> [] ->
  thread_run st0 st ->
  kernel_agrees cfg st /\
  exists st', WP_ThreadTerminate (Some st) = RET st' /\ k_bps (kern st') = ∅ /\
    forall i w, watchPointArray st' !! i = Some w -> fileHandle w = -1.
Proof.
  intros Hmod Hlbr Hacc Hown Hmmap Htsc Hread Hhook Hinv Hst Hne Hrun.
  cut (wp_inv cfg eq st).
  { intros Hinv'. split; [by apply inv_agrees|by eapply WP_ThreadTerminate_ok]. }
  assert (forall (a b : St), length (watched b) = length (watched a) -> watchPointArray a <> [] ->
    watchPointArray b <> []) as Hlen.
  { intros a b E Ha Hb. unfold watched in E. rewrite Hb in E. by destruct (watchPointArray a). }
  induction Hrun as [|fuel ip u st st1 st2 E _ IH|fuel fd u st st1 st2 E _ IH|i w m0 m st st2 Hw Hm _ IH]; [done|..].
  - apply run_OnSample in E. apply client_run_inv with (P := eq) in E as [[Hinv1 Hst1] [El _]]; try done.
    apply IH; [done|done|]. intros E0. rewrite E0 in El. by destruct (watchPointArray st).
  - pose proof (OnWatchPoint_core d_leb lrand48_r drand48_r accepts owner_ok mmap_ok tsc bytes cfg Hacc Hown Hmmap
      Htsc Hmod Hlbr cfg_policy ev_read (callback fuel) Hread Hhook fd u st Hinv Hst Hne) as Hcore.
    rewrite E in Hcore. destruct Hcore as (Hinv1 & Hst1 & El & _). apply IH; [done|done|by apply (Hlen st)].
  - apply IH; [by eapply record_inv|done|].
    apply (Hlen st); [unfold watched; simpl; by rewrite !length_fmap, length_insert|done].
Qed.
End depth.

(** ** Past the budget *)

(** What decides the fate of a trap once the budget is used up. *)
Definition rets (st : St) : list nat * Z := (retCtxtStack (client st), decodeInsCounter (client st)).
Definition same_rets (st st' : St) : Prop := rets st' = rets st.
#[local] Instance same_rets_preorder : PreOrder same_rets.
Proof. split; [done|]. intros a b c E1 E2. unfold same_rets in *. congruence. Qed.

Lemma rets_modify f :
  (forall t, retCtxtStack (f t) = retCtxtStack t /\ decodeInsCounter (f t) = decodeInsCounter t) ->
  keeps same_rets (modify f).
Proof.
  intros Hf st a st' [= <- <-]. unfold same_rets, rets. simpl. by destruct (Hf (client st)) as [-> ->].
Qed.
Lemma rets_subscribe s :
  replacementPolicy cfg = WP_REPLACEMENT_OLDEST -> keeps same_rets (subscribe s).
Proof.
  intros Hpol st b st' [= E]. apply WP_Subscribe_frame in E as (E & _); [|done].
  unfold same_rets, rets. by rewrite E.
Qed.
Lemma rets_read_event i : keeps same_rets (read_event i).
Proof. by intros st a st' [= <- <-]. Qed.
Lemma rets_put_counters c : keeps same_rets (put_counters c).
Proof. by intros st a st' [= <- <-]. Qed.

Ltac go_rets :=
  unfold construct, new_frame, delete_frame, record_return, count_sample, return_counts, final_counts,
    fix_pc, set_rdcnt, get_rdcnt, frame_at, wp_pop, move_tops, set_tops, set_cnt_value, cnt_value,
    set_start_value, start_value, metrics_of, put_metrics, safe_enter, exit_with, safe_exit, tassert;
  go_keeps ltac:(first [apply rets_put_counters | apply rets_read_event | apply rets_modify; done
                       | by apply rets_subscribe]).

Lemma rets_step {A B} r (m : TM A) (f : A -> TM B) st b st' :
  rets st = r -> (m ≫= f) st = Some (RET (b, st')) -> keeps same_rets m ->
  exists a st1, rets st1 = r /\ f a st1 = Some (RET (b, st')).
Proof.
  intros <- E Hm. apply bind_Some in E as (a & st1 & E1 & E). exists a, st1. split; [|done]. by eapply Hm.
Qed.
Ltac rets_step Hr E :=
  let H := fresh in
  rename Hr into H; eapply rets_step in E; [|exact H|go_rets]; clear H; destruct E as (? & ? & Hr & E).

(** A trap of compiled code that is not the end of a call of the runtime. *)
Definition code_trap (wpt : WP_TriggerInfo_t) (u : ucontext) (st : St) : Prop :=
  let pc := if t_pc wpt =? 0 then getContextPC u else t_pc wpt in
  pc <> 0 /\ getMethod pc <> None /\ td_inside_agent (client st) = false /\
  exists w f, watchPointArray st !! t_slot wpt = Some w /\
    frame_heap (client st) !! calleeCtxtFrame (sd w) = Some f /\ binary_addr f <> RUNTIME_IP.

(** Such a trap is past the budget whatever the watchpoint was for. *)
Lemma past_budget fuel wpt u st a st' :
  code_trap wpt u st -> decodeThreshold <= decodeInsCounter (client st) ->
  OnRetWatchPoint fuel wpt u st = Some (RET (a, st')) ->
  exists pc m st1, over_threshold fuel wpt pc m u st1 = Some (RET (a, st')) /\ same_rets st st1.
Proof.
  intros (Hpc & Hm & Hin & w & f & Hw & Hf & Hrt) Hn E. unfold OnRetWatchPoint in E.
  apply bind_Some in E as (ok & st1 & E1 & E). apply bind_Some in E1 as (b & st2 & [= <- <-] & E1).
  apply bind_Some in E1 as ([] & st2 & [= <-] & [= <- <-]). rewrite Hin in E. simpl in E.
  rewrite (proj2 (Z.eqb_neq _ _) Hpc) in E. destruct (getMethod _) as [m|]; [|done].
  apply bind_Some in E as ([] & st3 & E3 & E). set (st1 := with_client _ st) in E3.
  assert (forall st st', watchPointArray st' = watchPointArray st /\ client st' = client st /\ True -> same_rets st st') as Hsr.
  { intros ? ? (_ & Ec & _). unfold same_rets, rets. by rewrite Ec. }
  assert (watchPointArray st3 = watchPointArray st1 /\ client st3 = client st1) as [Ew Ec].
  { revert E3. generalize st1 as s1, watermark_ids as ids. intros s1 ids; revert s1.
    induction ids as [|i ids IH]; intros s1 E3; simpl in E3; [by injection E3 as <-|].
    apply bind_Some in E3 as ([] & s2 & E2 & E3). apply IH in E3 as [-> ->].
    apply bind_Some in E2 as (r & s3 & [= _ <-] & [_ ->]%from_exc_Some). done. }
  apply bind_Some in E as (s & st4 & E4 & E). unfold slot_sd in E4. rewrite Ew in E4. simpl in E4. rewrite Hw in E4.
  injection E4 as <- <-. apply bind_Some in E as (f' & st4 & E4 & E).
  apply bind_Some in E4 as (h & st5 & [= <- <-] & [E4 ->]%from_exc_Some). rewrite Ec in E4. simpl in E4.
  rewrite Hf in E4. injection E4 as <-. rewrite (proj2 (Z.eqb_neq _ _) Hrt) in E.
  apply bind_Some in E as (n & st5 & [= <- <-] & E). rewrite Ec in E. simpl in E.
  rewrite (proj2 (Z.leb_le _ _) Hn) in E. do 3 eexists. split; [exact E|].
  unfold same_rets, rets. by rewrite Ec.
Qed.

Lemma over_threshold_pops fuel wpt pc m u st a st' :
  replacementPolicy cfg = WP_REPLACEMENT_OLDEST ->
  over_threshold fuel wpt pc m u st = Some (RET (a, st')) ->
  retCtxtStack (client st) <> [] /\
  (a = WP_TRIGGERED -> rets st' = (tail (retCtxtStack (client st)), decodeInsCounter (client st))).
Proof.
  intros Hpol E. unfold over_threshold in E.
  apply bind_Some in E as (l & st1 & [= <- <-] & E).
  apply bind_Some in E as ([] & st1 & [E1 ->]%from_exc_Some & E). split.
  { intros E0. by rewrite E0 in E1. }
  intros ->. assert (rets st = (retCtxtStack (client st), decodeInsCounter (client st))) as Hr by done.
  revert Hr. generalize (retCtxtStack (client st)) as rs, (decodeInsCounter (client st)) as n. intros rs n Hr.
  do 3 rets_step Hr E. cbv zeta in E.
  eapply rets_step in E as ([pc'|] & st2 & Hr2 & E); [| |exact Hr|go_rets]; cycle 1.
  { exfalso. by apply yields_exit with (P := fun a => a = WP_DISABLE) in E. }
  clear Hr. rename Hr2 into Hr. do 2 rets_step Hr E.
  eapply rets_step in E as (_ & st5 & Hr2 & E); [|exact Hr|go_rets].
  apply bind_Some in E as ([] & st3 & E3 & E). apply bind_Some in E3 as (l & st4 & [= <- <-] & E3).
  injection Hr2 as <- <-. destruct (retCtxtStack (client st5)) as [|c l]; [done|]. revert E3. intros [= <-].
  apply bind_Some in E as ([] & st4 & [= <-] & [= <-]). done.
Qed.

(** C8: A call that uses up the budget ends the process later: once [decodeThreshold] calls
    have been decoded a trap of compiled code is taken for a return whatever its
    watchpoint is, so that the trap of that very call drops the sampled method's entry from
    [retCtxtStack]; the next trap, the method's own return, then fails [assert(0)]. *)
Theorem budget_abort (fuel fuel' : nat) (wpt wpt' : WP_TriggerInfo_t) (u u' : ucontext) (st st1 st2 : St) (c : nat) :
  replacementPolicy cfg = WP_REPLACEMENT_OLDEST ->
  decodeThreshold <= decodeInsCounter (client st) -> retCtxtStack (client st) = [c] ->
  code_trap wpt u st -> OnRetWatchPoint fuel wpt u st = Some (RET (WP_TRIGGERED, st1)) ->
  client st2 = client st1 -> code_trap wpt' u' st2 ->
  retCtxtStack (client st1) = [] /\ forall a st3, OnRetWatchPoint fuel' wpt' u' st2 <> Some (RET (a, st3)).
Proof.
  intros Hpol Hn Hc Htrap E Ec Htrap'. apply past_budget in E as (pc & m & st0 & E & Hr); [|done|done].
  apply over_threshold_pops in E as [_ Hr1]; [|done]. specialize (Hr1 eq_refl).
  injection Hr as Er En. rewrite Er, En, Hc in Hr1. injection Hr1 as Er1 En1. split; [done|].
  intros a st3 E'. rewrite <- Ec in Er1, En1. apply past_budget in E' as (pc' & m' & st4 & E' & Hr'); [|done|by rewrite En1].
  apply over_threshold_pops in E' as [Hne _]; [|done]. injection Hr' as Er' _. by rewrite Er', Er1 in Hne.
Qed.

(** ** What [decoder] is for

    The first instruction on the straight path from an address that is a
    conditional jump, a loop, a call, a return or an indirect jump; direct jumps are
    followed. [EXC]: the path runs into bytes that are no instruction. *)
Definition is_terminator (xedd : xed_decoded_inst) : bool :=
  match iclass xedd with
  | RET_NEAR | RET_FAR | JCC _ | LOOP | LOOPE | LOOPNE | CALL_NEAR | CALL_FAR => true
  | JMP | JMP_FAR => match op0 xedd with RELBR => false | _ => true end
  | ICLASS_OTHER => false
  end.

Definition next_on_path (ip : Z) (xedd : xed_decoded_inst) : Z :=
  match iclass xedd with
  | JMP | JMP_FAR => if has_displacement xedd then u64 (ip + inst_length xedd + displacement xedd) else ip
  | _ => u64 (ip + inst_length xedd)
  end.

Fixpoint terminator (n : nat) (ip : Z) : option (exc (xed_decoded_inst * Z)) :=
  match n with
  | O => None
  | Datatypes.S n' =>
      match get_decode_xedd ip with
      | None => Some EXC
      | Some xedd => if is_terminator xedd then Some (RET (xedd, ip)) else terminator n' (next_on_path ip xedd)
      end
  end.

(** What is done with it. *)
Definition at_terminator (sampleIP : Z) (xedd : xed_decoded_inst) (ip : Z) : TM unit :=
  match iclass xedd with
  | RET_NEAR | RET_FAR =>
      l ← gets WP_Stack;
      if (length l =? 1)%nat then
        s ← wp_top; _ ← wp_pop; _ ← ret_pop; _ ← subscribe s; mret tt
      else
        s ← wp_top; _ ← wp_pop; _ ← subscribe (exec_watch ip (calleeCtxtFrame s)); mret tt
  | CALL_FAR | CALL_NEAR =>
      n ← gets decodeInsCounter;
      _ ← modify (with_counter (u64 (n + 1)));
      watch_branch sampleIP ip 0
  | _ => watch_branch sampleIP ip JUMP_METHOD
  end.

(** The remembered terminators are the right ones. *)
Definition blocks_ok (m : gmap Z basic_block_t) : Prop :=
  forall k b, m !! k = Some b -> WP_IP b <> NO_IP -> exists n, terminator n k = Some (RET (WP_xedd b, WP_IP b)).

Definition with_map (m : gmap Z basic_block_t) (st : St) : St := with_client (with_blocks m (client st)) st.

Lemma terminator_mono n n' ip r : terminator n ip = Some r -> (n <= n')%nat -> terminator n' ip = Some r.
Proof.
  revert n' ip; induction n as [|n IH]; intros n' ip E Hn; [done|].
  destruct n' as [|n']; [lia|]. simpl in *. destruct (get_decode_xedd ip); [|done].
  destruct (is_terminator _); [done|]. apply IH; [done|lia].
Qed.

Lemma terminator_det n n' ip r r' : terminator n ip = Some r -> terminator n' ip = Some r' -> r = r'.
Proof.
  intros E E'. destruct (Nat.le_ge_cases n n') as [Hn|Hn].
  - apply (terminator_mono _ _ _ _ E) in Hn. congruence.
  - apply (terminator_mono _ _ _ _ E') in Hn. congruence.
Qed.

Lemma terminator_is n ip x t : terminator n ip = Some (RET (x, t)) -> is_terminator x = true.
Proof.
  revert ip; induction n as [|n IH]; intros ip E; [done|]. simpl in E.
  destruct (get_decode_xedd ip) as [y|]; [|done]. destruct (is_terminator y) eqn:Ey; [|by eapply IH].
  by injection E as <- <-.
Qed.

Lemma bind_ret {A B} (m : TM A) (f : A -> TM B) st a st' :
  m st = Some (RET (a, st')) -> (m ≫= f) st = f a st'.
Proof. intros E. unfold mbind, TM_bind. by rewrite E. Qed.

Lemma bind_ext {A B} (m : TM A) (f g : A -> TM B) st :
  (forall a st', f a st' = g a st') -> (m ≫= f) st = (m ≫= g) st.
Proof. intros E. unfold mbind, TM_bind. destruct (m st) as [[[a st']|]|]; [apply E|done|done]. Qed.

(** One turn of the loop, once the instruction is at hand. *)
Definition turn (fuel' : nat) (found : bool) (sampleIP : Z) (uCtxt : ucontext) (n : Z)
    (xedd : xed_decoded_inst) (TempIp : Z) : TM unit :=
  match iclass xedd with
  | RET_NEAR | RET_FAR =>
      _ ← remember found sampleIP xedd TempIp; at_terminator sampleIP xedd TempIp
  | JCC _ | LOOP | LOOPE | LOOPNE =>
      _ ← remember found sampleIP xedd TempIp; watch_branch sampleIP TempIp JUMP_METHOD
  | JMP | JMP_FAR =>
      match op0 xedd with
      | RELBR =>
          next ← (if has_displacement xedd
                  then from_exc (get_branch_target mem xed_agen TempIp xedd uCtxt)
                  else mret TempIp);
          decoder_loop fuel' found sampleIP next uCtxt
      | _ => _ ← remember found sampleIP xedd TempIp; watch_branch sampleIP TempIp JUMP_METHOD
      end
  | CALL_FAR | CALL_NEAR =>
      _ ← modify (with_counter (u64 (n + 1)));
      _ ← remember found sampleIP xedd TempIp;
      watch_branch sampleIP TempIp 0
  | ICLASS_OTHER => decoder_loop fuel' found sampleIP (u64 (TempIp + inst_length xedd)) uCtxt
  end.

Lemma decoder_loop_S fuel' found a t u st :
  decodeInsCounter (client st) < decodeThreshold ->
  decoder_loop (Datatypes.S fuel') found a t u st =
    (r ← fetch found a t; turn fuel' found a u (decodeInsCounter (client st)) r.1 r.2) st.
Proof.
  intros Hn. cbn [decoder_loop]. rewrite (bind_ret _ _ _ (decodeInsCounter (client st)) st) by done.
  cbv beta. rewrite (proj2 (Z.leb_gt _ _)) by done. apply bind_ext. intros [x ip] st1.
  unfold turn, at_terminator. cbn [fst snd].
  destruct (iclass x); try done. all: destruct (op0 x); done.
Qed.

(** The turn at a terminator. *)
Lemma turn_terminator fuel' found a u x ip st :
  is_terminator x = true ->
  exists m', turn fuel' found a u (decodeInsCounter (client st)) x ip st = at_terminator a x ip (with_map m' st) /\
    m' = (if found then alter (fun b => if WP_IP b =? NO_IP then mkBB (Entry_xedd b) x ip else b) a
            (basic_block_map (client st)) else basic_block_map (client st)).
Proof.
  intros Hx. eexists. split; [|done]. unfold turn, at_terminator, is_terminator, remember in *.
  assert (with_map (basic_block_map (client st)) st = st) as Eid.
  { destruct st as [? ? ? ? ? []]. done. }
  destruct (iclass x); try discriminate Hx.
  all: try (destruct found; [done|by rewrite Eid]).
  all: destruct (op0 x); try discriminate Hx; (destruct found; [done|by rewrite Eid]).
Qed.

(** The turn on the way there. *)
Lemma turn_on_path fuel' found a u n x ip :
  is_terminator x = false ->
  forall st, turn fuel' found a u n x ip st = decoder_loop fuel' found a (next_on_path ip x) u st.
Proof.
  intros Hx st. unfold turn, is_terminator, next_on_path in *.
  destruct (iclass x); try discriminate Hx; try done.
  all: destruct (op0 x) eqn:Eo; try discriminate Hx.
  all: destruct (has_displacement x); [|done].
  all: unfold get_branch_target; rewrite Eo; done.
Qed.

(** What [fetch] does when nothing is remembered for the block. *)
Lemma fetch_fresh found a t st :
  (found = true -> exists b, basic_block_map (client st) !! a = Some b /\ WP_IP b = NO_IP) ->
  fetch found a t st =
    match get_decode_xedd t with
    | None => Some EXC
    | Some x => Some (RET ((x, t), with_map
        (if t =? a then match basic_block_map (client st) !! a with
                        | Some _ => basic_block_map (client st)
                        | None => <[a := mkBB x x NO_IP]> (basic_block_map (client st))
                        end
         else basic_block_map (client st)) st))
    end.
Proof.
  intros Hf. unfold fetch. rewrite (bind_ret _ _ _ (basic_block_map (client st)) st) by done.
  assert (with_map (basic_block_map (client st)) st = st) as Eid.
  { destruct st as [? ? ? ? ? []]. done. }
  destruct (basic_block_map (client st) !! a) as [b|] eqn:Eb.
  - assert (found && negb (WP_IP b =? NO_IP) = false) as ->.
    { destruct found; [|done]. destruct Hf as (b' & Eb' & Hb'); [done|].
      assert (b' = b) as -> by congruence. by rewrite Hb', Z.eqb_refl. }
    destruct (get_decode_xedd t) as [x|]; [|done]. destruct (t =? a).
    + unfold mbind, TM_bind, modify. simpl. by rewrite Eb.
    + by rewrite Eid.
  - destruct (get_decode_xedd t) as [x|]; [|done]. destruct (t =? a).
    + unfold mbind, TM_bind, modify. simpl. by rewrite Eb.
    + by rewrite Eid.
Qed.

(** The loop from [t] on, on the path from [a]. *)
Lemma decoder_loop_path n fuel found a t u st r :
  (n <= fuel)%nat -> decodeInsCounter (client st) < decodeThreshold ->
  terminator n t = Some r -> (exists n0, terminator n0 a = Some r) ->
  blocks_ok (basic_block_map (client st)) ->
  (found = true -> exists b, basic_block_map (client st) !! a = Some b /\ WP_IP b = NO_IP) ->
  match r with
  | EXC => decoder_loop fuel found a t u st = Some EXC
  | RET (x, ip) => exists m', decoder_loop fuel found a t u st = at_terminator a x ip (with_map m' st) /\
      blocks_ok m' /\ forall k, k <> a -> m' !! k = basic_block_map (client st) !! k
  end.
Proof.
  revert fuel t st; induction n as [|n IH]; intros fuel t st Hn Hc Ht Ha Hm Hf; [done|].
  destruct fuel as [|fuel]; [lia|]. rewrite decoder_loop_S by done.
  simpl in Ht. pose proof (fetch_fresh found a t st Hf) as Efetch.
  destruct (get_decode_xedd t) as [y|] eqn:Ey.
  2: { injection Ht as <-. unfold mbind, TM_bind. by rewrite Efetch. }
  set (m1 := if t =? a then match basic_block_map (client st) !! a with
                        | Some _ => basic_block_map (client st)
                        | None => <[a := mkBB y y NO_IP]> (basic_block_map (client st))
                        end
         else basic_block_map (client st)) in *.
  assert (blocks_ok m1 /\ (forall k, k <> a -> m1 !! k = basic_block_map (client st) !! k) /\
    (found = true -> exists b, m1 !! a = Some b /\ WP_IP b = NO_IP)) as (Hm1 & Hk1 & Hf1).
  { unfold m1. destruct (t =? a); [|done]. destruct (basic_block_map (client st) !! a) as [b0|] eqn:Eb0.
    - split_and!; [done|done|]. by rewrite Eb0.
    - split_and!.
      + intros k b Hk Hb. destruct (decide (a = k)) as [<-|?].
        * rewrite lookup_insert_eq in Hk. by injection Hk as <-.
        * rewrite lookup_insert_ne in Hk by done. by apply Hm.
      + intros k Hk. by rewrite lookup_insert_ne.
      + intros Hfd. destruct (Hf Hfd) as (b & E & _). congruence. }
  rewrite (bind_ret _ _ _ _ _ Efetch). cbn [fst snd].
  destruct (is_terminator y) eqn:Ht'.
  - injection Ht as <-.
    destruct (turn_terminator fuel found a u y t (with_map m1 st) Ht') as (m' & E & Em').
    exists m'. change (decodeInsCounter (client (with_map m1 st))) with (decodeInsCounter (client st)) in E.
    split; [exact E|]. change (basic_block_map (client (with_map m1 st))) with m1 in Em'.
    rewrite Em'. destruct found; [|done]. split.
    + intros k b Hk Hb. destruct (decide (k = a)) as [->|?].
      * rewrite lookup_alter_eq in Hk. destruct (Hf1 eq_refl) as (b1 & E1 & Eip). rewrite E1 in Hk.
        simpl in Hk. rewrite Eip, Z.eqb_refl in Hk. injection Hk as <-. done.
      * rewrite lookup_alter_ne in Hk by done. by apply Hm1.
    + intros k Hk. rewrite lookup_alter_ne by done. by apply Hk1.
  - rewrite turn_on_path by done.
    specialize (IH fuel (next_on_path t y) (with_map m1 st) ltac:(lia) Hc Ht Ha Hm1 Hf1).
    destruct r as [[x ip]|]; [|done]. destruct IH as (m' & E & Hm' & Hk'). exists m'.
    split_and!; [exact E|done|]. intros k Hk. rewrite Hk' by done. by apply Hk1.
Qed.

Lemma decoder_cached fuel a u st b n :
  blocks_ok (basic_block_map (client st)) -> decodeInsCounter (client st) < decodeThreshold ->
  basic_block_map (client st) !! a = Some b -> WP_IP b <> NO_IP ->
  terminator n a = Some (RET (WP_xedd b, WP_IP b)) ->
  decoder (Datatypes.S fuel) a u st = at_terminator a (WP_xedd b) (WP_IP b) st.
Proof.
  intros Hm Hc Hb Hip Ht. unfold decoder.
  rewrite (bind_ret _ _ _ (basic_block_map (client st)) st) by done.
  rewrite Hb, (bool_decide_eq_true_2 (is_Some (Some b))) by (by eexists). rewrite decoder_loop_S by done.
  assert (fetch true a a st = Some (RET ((WP_xedd b, WP_IP b), st))) as Ef.
  { unfold fetch. rewrite (bind_ret _ _ _ (basic_block_map (client st)) st) by done.
    rewrite Hb. simpl. by rewrite (proj2 (Z.eqb_neq _ _) Hip). }
  rewrite (bind_ret _ _ _ _ _ Ef). cbn [fst snd].
  destruct (turn_terminator fuel true a u (WP_xedd b) (WP_IP b) st) as (m' & -> & Em'); [by eapply terminator_is|].
  f_equal. replace m' with (basic_block_map (client st)); [by destruct st as [? ? ? ? ? []]|].
  rewrite Em'. symmetry. apply map_eq. intros k. destruct (decide (k = a)) as [->|?].
  - rewrite lookup_alter_eq, Hb. simpl. by rewrite (proj2 (Z.eqb_neq _ _) Hip).
  - by rewrite lookup_alter_ne.
Qed.

(** C3: [decoder] finds the next control transfer: while calls may still be decoded it
    ends as soon as the straight path from the address does, with the watchpoint for
    the first control transfer on it (or with the end of the process, on a path into
    bytes that are no instruction), whatever has been remembered of earlier walks; what it
    remembers itself is right, and concerns this address only. *)
Theorem decoder_correct (n fuel : nat) (sampleIP : Z) (uCtxt : ucontext) (st : St)
    (r : exc (xed_decoded_inst * Z)) :
  blocks_ok (basic_block_map (client st)) -> decodeInsCounter (client st) < decodeThreshold ->
  terminator n sampleIP = Some r -> (n <= fuel)%nat ->
  match r with
  | EXC => decoder fuel sampleIP uCtxt st = Some EXC
  | RET (xedd, ip) => exists m',
      decoder fuel sampleIP uCtxt st = at_terminator sampleIP xedd ip (with_map m' st) /\
      blocks_ok m' /\ forall k, k <> sampleIP -> m' !! k = basic_block_map (client st) !! k
  end.
Proof.
  intros Hm Hc Ht Hn. destruct n as [|n]; [done|]. destruct fuel as [|fuel]; [lia|].
  destruct (basic_block_map (client st) !! sampleIP) as [b|] eqn:Eb; [destruct (decide (WP_IP b = NO_IP)) as [Hip|Hip]|].
  - unfold decoder. rewrite (bind_ret _ _ _ (basic_block_map (client st)) st) by done.
    eapply decoder_loop_path; eauto.
  - destruct (Hm _ _ Eb Hip) as [n0 Ht0]. pose proof (terminator_det _ _ _ _ _ Ht Ht0) as ->.
    exists (basic_block_map (client st)). split_and!; [|done|done].
    rewrite (decoder_cached fuel sampleIP uCtxt st b n0) by done. by destruct st as [? ? ? ? ? []].
  - unfold decoder. rewrite (bind_ret _ _ _ (basic_block_map (client st)) st) by done.
    eapply decoder_loop_path; eauto. rewrite Eb.
    rewrite (bool_decide_eq_false_2 (is_Some None)) by (by intros [? ?]). done.
Qed.

(** ** The metrics and the tree of a thread

    What the thread has recorded of a context: for each event after the first the interval of
    every call, as two texts. *)
Section recording.
(** Up to five events are set up. *)
Context (nev : nat) (setup : setup_inv nev wm) (nev_pos : (1 <= nev <= 5)%nat) (registered : numMetrics = 6 * Z.of_nat nev - 5).

Fixpoint interval_text (xs : list Z) : string :=
  match xs with [] => "" | x :: xs => (to_string x +:+ " ") +:+ interval_text xs end.

Lemma interval_text_snoc xs x : interval_text (xs ++ [x]) = interval_text xs +:+ to_string x +:+ " ".
Proof.
  induction xs as [|y xs IH]; cbn [app interval_text].
  - by rewrite string_nil_r.
  - rewrite IH. by rewrite !string_assoc.
Qed.

(** The running statistics of the durations of calls [(start, duration)]. *)
Definition stats (ivs : list (Z * Z)) : welford D :=
  welford_run 1 (map snd ivs) (mkW (d_of_Z 0) (d_of_Z 0) (d_of_Z 0)).
Definition cv_of (w : welford D) : D := d_div (d_sqrt (w_variance w)) (w_mean w).
Definition iv_stop (iv : Z * Z) : Z := u64 (iv.1 + iv.2).

(** The metrics of event [i] after the calls [ivs]. *)
Record event_recorded (i : nat) (ivs : list (Z * Z)) (m : ContextMetrics D) : Prop := {
  er_start : val_at m (6 * Z.of_nat i - 5) = str_val (interval_text (map fst ivs));
  er_end : val_at m (6 * Z.of_nat i - 4) = str_val (interval_text (map iv_stop ivs));
  er_stats : exists w, (Z.of_nat (length ivs) < 2 ^ 63 -> w = stats ivs) /\
    val_at m (6 * Z.of_nat i - 3) = real_val (w_mean w) /\ val_at m (6 * Z.of_nat i - 2) = real_val (w_variance w) /\
    val_at m (6 * Z.of_nat i - 1) = real_val (w_M2 w) /\
    (ivs <> [] -> val_at m (6 * Z.of_nat i) = real_val (cv_of w));
  er_length : ivs <> [] -> (6 * i < length m)%nat;
}.

(** The metrics of a context after [calls] calls, of which event [i] has seen [done i]. *)
Record recorded (calls : nat) (done : nat -> nat) (m : ContextMetrics D) : Prop := {
  rec_count : m_i (val_at m 0) = i64 (Z.of_nat calls) /\ m_str (val_at m 0) = "";
  rec_event : forall i, i ∈ watermark_ids -> exists ivs, length ivs = done i /\ event_recorded i ivs m;
  rec_length : Z.of_nat (length m) <= numMetrics;
}.
Definition fully_recorded (m : ContextMetrics D) : Prop :=
  exists calls, (0 < calls)%nat /\ recorded calls (fun _ => calls) m.

Lemma welford_run_snoc xs : forall k x (w : welford D),
  welford_run k (xs ++ [x]) w = UpdateVarianceAndMean (k + Z.of_nat (length xs)) x (welford_run k xs w).
Proof.
  induction xs as [|y xs IH]; intros k x w; cbn [app welford_run length].
  - by rewrite Z.add_0_r.
  - rewrite IH. f_equal. lia.
Qed.

Lemma in_watermark_ids i : i ∈ watermark_ids <-> (1 <= i < nev)%nat.
Proof.
  unfold watermark_ids. destruct setup as [-> _]. rewrite Nat2Z.id, list_elem_of_In, in_seq. lia.
Qed.

Lemma event_ids i : (1 <= i < nev)%nat ->
  id_of (start_metric_id wm) i = 6 * Z.of_nat i - 5 /\ id_of (end_metric_id wm) i = 6 * Z.of_nat i - 4 /\
  id_of (mean_metric_id wm) i = 6 * Z.of_nat i - 3 /\ id_of (variance_metric_id wm) i = 6 * Z.of_nat i - 2 /\
  id_of (m2_metric_id wm) i = 6 * Z.of_nat i - 1 /\ id_of (cv_metric_id wm) i = 6 * Z.of_nat i.
Proof.
  intros Hi. unfold id_of. destruct setup as (_ & _ & Hk). destruct (Hk (Z.of_nat i)) as (-> & -> & -> & -> & -> & ->); [lia|]. done.
Qed.

Lemma getMetricVal_length n j (l l' : ContextMetrics D) p :
  getMetricVal n j l = (Some p, l') -> Z.of_nat (length l) <= n -> (length l <= length l')%nat /\ Z.of_nat (length l') <= n /\ j < Z.of_nat (length l').
Proof.
  unfold getMetricVal. destruct (_ || _) eqn:Ej; [done|]. apply orb_false_iff in Ej as [H0 H1]. apply Z.ltb_ge in H0. apply Z.leb_gt in H1.
  destruct (Z.leb_spec (Z.of_nat (length l)) j) as [Hle|Hlt]; intros [= _ <-] Hn; [|lia].
  unfold resize. rewrite length_app, length_take, length_replicate. lia.
Qed.

Lemma metric_of_at j (m m' : ContextMetrics D) v : metric_of j m = RET (v, m') ->
  v = val_at m j /\ (forall k, val_at m' k = val_at m k) /\
  (Z.of_nat (length m) <= numMetrics -> (length m <= length m')%nat /\ Z.of_nat (length m') <= numMetrics).
Proof.
  unfold metric_of. destruct (getMetricVal numMetrics j m) as [[p|] l'] eqn:E; [|done].
  assert (0 <= j < numMetrics) as Hj.
  { unfold getMetricVal in E. destruct (_ || _) eqn:Ej; [done|]. apply orb_false_iff in Ej as [H0 H1]. apply Z.ltb_ge in H0. apply Z.leb_gt in H1. lia. }
  destruct (getMetricVal_spec numMetrics j m Hj) as (l2 & E2 & Hlt & Hl2). rewrite E in E2. injection E2 as -> ->.
  destruct (l2 !! Z.to_nat j) as [w|] eqn:Ew; [|done]. intros [= <- <-]. split; [|split; [done|]].
  - rewrite <- Hl2. unfold val_at. by rewrite Ew.
  - intros Hn. destruct (getMetricVal_length _ _ _ _ _ E Hn) as (? & ? & _). done.
Qed.

Lemma set_metric_at j v (m m' : ContextMetrics D) : set_metric j v m = RET m' ->
  (forall k, 0 <= k -> val_at m' k = if k =? j then v else val_at m k) /\
  (Z.of_nat (length m) <= numMetrics -> (length m <= length m')%nat /\ Z.of_nat (length m') <= numMetrics /\ j < Z.of_nat (length m')).
Proof.
  unfold set_metric. intros E. assert (0 <= j < numMetrics) as Hj.
  { unfold setMetricVal, getMetricVal in E. destruct (_ || _) eqn:Ej; [done|]. apply orb_false_iff in Ej as [H0 H1].
    apply Z.ltb_ge in H0. apply Z.leb_gt in H1. lia. }
  destruct (setMetricVal_at numMetrics j v m Hj) as (l' & E' & Hl'). rewrite E' in E. injection E as <-. split; [done|].
  intros Hn. unfold setMetricVal in E'. destruct (getMetricVal numMetrics j m) as [[p|] l1] eqn:E1; [|done]. injection E' as <-.
  rewrite length_insert. by apply (getMetricVal_length _ _ _ _ _ E1).
Qed.

(** What is recorded of an event is in six metrics. *)
Lemma event_recorded_ext i ivs (m m' : ContextMetrics D) :
  (forall k, 6 * Z.of_nat i - 5 <= k <= 6 * Z.of_nat i -> val_at m' k = val_at m k) ->
  (length m <= length m')%nat -> event_recorded i ivs m -> event_recorded i ivs m'.
Proof.
  intros Hk Hl [Hs He (w & Hw & Hst) Hlen]. split; try (rewrite Hk; [done|lia]).
  - exists w. split; [done|]. rewrite !Hk; [done|lia..].
  - intros Hne. specialize (Hlen Hne). lia.
Qed.

Lemma interval_start s v : u64 (s + v) = iv_stop (s, v).
Proof. done. Qed.

(** Evaluates the tests of a metric id. *)
Ltac at_id :=
  repeat match goal with
  | |- context [?a =? ?b] => first [rewrite (proj2 (Z.eqb_neq a b)) by lia | rewrite (proj2 (Z.eqb_eq a b)) by lia]
  end; try reflexivity.

Lemma record_event_recorded n i s v (m m' : ContextMetrics D) ivs :
  record_event n i s v m = RET m' -> i ∈ watermark_ids -> event_recorded i ivs m ->
  n = u64 (i64 (Z.of_nat (S (length ivs)))) -> Z.of_nat (length m) <= numMetrics ->
  event_recorded i (ivs ++ [(s, v)]) m' /\
  (forall k, 0 <= k -> (k < 6 * Z.of_nat i - 5 \/ 6 * Z.of_nat i < k) -> val_at m' k = val_at m k) /\
  (length m <= length m')%nat /\ Z.of_nat (length m') <= numMetrics.
Proof.
  intros E Hi%in_watermark_ids [Hs He (w & Hw & Em & Ev & E2 & _) Hlen] -> Hn.
  destruct (event_ids i Hi) as (Is & Ie & Im & Iv & I2 & Ic). unfold record_event in E. cbv zeta in E.
  rewrite Is, Ie, Im, Iv, I2, Ic in E.
  apply exc_bind_ret in E as ([v1 m1] & (-> & A1 & L1)%metric_of_at & E).
  apply exc_bind_ret in E as ([v2 m2] & (-> & A2 & L2)%metric_of_at & E).
  apply exc_bind_ret in E as ([v3 m3] & (-> & A3 & L3)%metric_of_at & E).
  apply exc_bind_ret in E as ([v4 m4] & (-> & A4 & L4)%metric_of_at & E).
  apply exc_bind_ret in E as ([v5 m5] & (-> & A5 & L5)%metric_of_at & E).
  rewrite !A4, !A3, !A2, !A1, Hs, He, Em, Ev, E2 in E. cbn [m_r real_val m_str str_val] in E.
  rewrite interval_start in E.
  set (w' := UpdateVarianceAndMean _ _ _) in E.
  apply exc_bind_ret in E as (m6 & [A6 L6]%set_metric_at & E).
  apply exc_bind_ret in E as (m7 & [A7 L7]%set_metric_at & E).
  apply exc_bind_ret in E as (m8 & [A8 L8]%set_metric_at & E).
  apply exc_bind_ret in E as (m9 & [A9 L9]%set_metric_at & E).
  apply exc_bind_ret in E as (m10 & [A10 L10]%set_metric_at & E). apply set_metric_at in E as [A11 L11].
  assert (HA : forall k, 0 <= k -> val_at m' k =
    if k =? 6 * Z.of_nat i then real_val (d_div (d_sqrt (w_variance w')) (w_mean w'))
    else if k =? 6 * Z.of_nat i - 1 then real_val (w_M2 w')
    else if k =? 6 * Z.of_nat i - 2 then real_val (w_variance w')
    else if k =? 6 * Z.of_nat i - 3 then real_val (w_mean w')
    else if k =? 6 * Z.of_nat i - 4 then str_val (interval_text (map iv_stop ivs) +:+ to_string (iv_stop (s, v)) +:+ " ")
    else if k =? 6 * Z.of_nat i - 5 then str_val (interval_text (map fst ivs) +:+ to_string s +:+ " ")
    else val_at m k).
  { intros k Hk. rewrite A11, A10, A9, A8, A7, A6, A5, A4, A3, A2, A1 by lia. done. }
  clear A1 A2 A3 A4 A5 A6 A7 A8 A9 A10 A11.
  assert (HL : (length m <= length m')%nat /\ Z.of_nat (length m') <= numMetrics /\ 6 * Z.of_nat i < Z.of_nat (length m')) by lia.
  split; [|split_and!; [|lia..]].
  - split; rewrite ?HA by lia; rewrite ?map_app; cbn [map fst]; rewrite ?interval_text_snoc.
    + at_id.
    + at_id.
    + exists w'. split_and!; [|try intros _; at_id..].
      intros Hlt. rewrite length_app in Hlt. cbn [length] in Hlt. unfold stats. rewrite map_app. cbn [map snd].
      rewrite welford_run_snoc, length_map. fold (stats ivs). rewrite <- Hw by lia. unfold w', i64, u64.
      rewrite swrap_small, wrap_small by lia. f_equal; [lia|]. by destruct w.
    + intros _. lia.
  - intros k Hk Ho. rewrite HA by lia. at_id.
Qed.

(** *** One return *)
Abbreviation tree_of st := (context_state (client st)).
Definition same_tree (st st' : St) : Prop := tree_of st' = tree_of st.
#[local] Instance same_tree_preorder : PreOrder same_tree.
Proof. split; [done|]. intros a b c E1 E2. unfold same_tree in *. congruence. Qed.

Lemma same_tree_modify f : (forall t, context_state (f t) = context_state t) -> keeps same_tree (modify f).
Proof. intros Hf st a st' [= <- <-]. apply Hf. Qed.
Lemma same_tree_put_counters c : keeps same_tree (put_counters c).
Proof. by intros st a st' [= <- <-]. Qed.
Lemma same_tree_read_event i : keeps same_tree (read_event i).
Proof. by intros st a st' [= <- <-]. Qed.
Ltac same_tree_leaf :=
  first [apply same_tree_modify; done | apply same_tree_put_counters | apply same_tree_read_event].
Ltac go_same_tree :=
  unfold new_frame, delete_frame, clear_rdcnts, read_into_temp, return_counts, final_counts,
    fix_pc, set_rdcnt, get_rdcnt, frame_at, wp_top, wp_pop, wp_push, ret_pop, ret_push, set_cnt_value, set_start_value,
    cnt_value, start_value, move_tops, set_tops, safe_enter, exit_with, safe_exit, tassert;
  go_keeps same_tree_leaf.

Lemma same_tree_counts t i : keeps same_tree (return_counts t i) /\ keeps same_tree (final_counts t i).
Proof. split; go_same_tree. Qed.

Definition callee_at (c : nat) (t : ContextTree (M := ContextMetrics D)) : Prop := exists ks, has_path t c ks /\ callee_path ks.
(** Context [c] has metrics [V], every other one those of whole calls. *)
Definition but (c : nat) (V : ContextMetrics D -> Prop) (d : nat) (m : ContextMetrics D) : Prop :=
  if decide (d = c) then V m else fully_recorded m.
Definition call_tree_but c V t : Prop := call_tree (but c V) t /\ callee_at c t.

Lemma but_set c V V' t m : call_tree_but c V t -> V' m -> call_tree_but c V' (setMetrics c m t).
Proof.
  intros [Ht Hc] Hm. split.
  - eapply setMetrics_call; [done..| |].
    + unfold but. by rewrite decide_True.
    + intros d m' Hd. unfold but. by rewrite !decide_False.
  - destruct Hc as (ks & Hks & Hcal). exists ks. by rewrite setMetrics_path.
Qed.

Lemma callee_node c V t : call_tree_but c V t -> exists n, heap t !! c = Some n.
Proof. intros [Ht (ks & Hks & _)]. eapply path_heap; [by eapply ct_ok|done]. Qed.

Lemma set_get c V t m : call_tree_but c V t -> getMetrics c (setMetrics c m t) = Some (Some m).
Proof. intros [n Hn]%callee_node. unfold getMetrics, setMetrics. cbn. by rewrite lookup_alter_eq, Hn. Qed.

Lemma call_tree_mono (Q Q' : nat -> ContextMetrics D -> Prop) t : (forall d m, Q d m -> Q' d m) -> call_tree Q t -> call_tree Q' t.
Proof.
  intros HQ [Hok Hcnt Hsh Hm]. split; [done..|]. intros d n m Hd Hdm. destruct (Hm d n m Hd Hdm). eauto.
Qed.
Lemma call_tree_but_mono c (V V' : ContextMetrics D -> Prop) t :
  (forall m, V m -> V' m) -> call_tree_but c V t -> call_tree_but c V' t.
Proof.
  intros HV [Ht Hc]. split; [|done]. eapply call_tree_mono; [|exact Ht]. intros d m. unfold but. case_decide; [apply HV|done].
Qed.

(** Reading the metrics of the context. *)
Lemma metrics_of_but c V st m st' :
  metrics_of c st = Some (RET (m, st')) -> call_tree_but c V (tree_of st) ->
  (V m /\ getMetrics c (tree_of st) = Some (Some m) \/ m = [] /\ getMetrics c (tree_of st) = Some None) /\
  call_tree_but c (fun m' => m' = m) (tree_of st') /\ next_addr (tree_of st') = next_addr (tree_of st).
Proof.
  intros E Ht. unfold metrics_of in E. apply bind_Some in E as (t & st1 & [= <- <-] & E).
  destruct (callee_node _ _ _ Ht) as [n Hn]. unfold getMetrics in *. rewrite Hn in *. cbn [fmap option_fmap option_map] in *.
  destruct (n_metrics n) as [m1|] eqn:Em.
  - injection E as <- <-. split; [left; split; [|done]|split; [|done]].
    + destruct Ht as [Ht _]. destruct (ct_metrics _ _ Ht c n m1 Hn Em) as [_ HQ]. unfold but in HQ. by rewrite decide_True in HQ.
    + destruct Ht as [[Hok Hcnt Hsh Hm] Hc]. split; [split; [done..|]|done]. intros d nd md Hd Hmd.
      destruct (Hm d nd md Hd Hmd) as [Hp HQ]. split; [done|]. revert HQ. unfold but. case_decide as Hdc; [|done]. intros _. subst d. congruence.
  - apply bind_Some in E as ([] & st2 & [= <-] & [= <- <-]). split; [by right|]. split; [by apply but_set with V|done].
Qed.

Lemma put_metrics_but c V V' m st u st' :
  put_metrics c m st = Some (RET (u, st')) -> call_tree_but c V (tree_of st) -> V' m ->
  call_tree_but c V' (tree_of st') /\ getMetrics c (tree_of st') = Some (Some m) /\ next_addr (tree_of st') = next_addr (tree_of st).
Proof.
  intros [= _ <-] Ht Hm. cbn. split_and!; [by eapply but_set|by eapply set_get|done].
Qed.

Definition with_metrics c (t : ContextTree (M := ContextMetrics D)) : Prop := exists m, getMetrics c t = Some (Some m).

Lemma nothing_recorded : recorded 0 (fun _ => 0%nat) [].
Proof.
  split; [done| |cbn; lia]. intros i _. exists []. split; [done|]. split; [done..| |done].
  exists (stats []). done.
Qed.

Lemma counted k (m m' : ContextMetrics D) :
  increment numMetrics 0 (mkVal 1 (d_of_Z 0) "") m = (true, m') -> recorded k (fun _ => k) m ->
  recorded (Datatypes.S k) (fun _ => k) m'.
Proof.
  intros E [Hc He Hl]. destruct (increment_at numMetrics 0 (mkVal 1 (d_of_Z 0) "") m) as (m2 & E2 & Hm2); [lia|].
  rewrite E in E2. injection E2 as <-.
  assert (Hlen : (length m <= length m')%nat /\ Z.of_nat (length m') <= numMetrics).
  { unfold increment in E. destruct (getMetricVal numMetrics 0 m) as [[p|] l1] eqn:E1; [|done]. injection E as <-.
    rewrite length_alter. by destruct (getMetricVal_length _ _ _ _ _ E1 Hl) as (? & ? & _). }
  split.
  - rewrite Hm2 by done. cbn [Z.eqb add_to m_i m_str]. destruct Hc as [-> ->]. split; [|done]. unfold i64.
    rewrite (swrap_add_l 64) by lia. f_equal. lia.
  - intros i Hi. destruct (He i Hi) as (ivs & Hivs & Her). exists ivs. split; [done|].
    apply in_watermark_ids in Hi. eapply event_recorded_ext; [|by apply Hlen|done].
    intros j Hj. rewrite Hm2 by lia. by rewrite (proj2 (Z.eqb_neq j 0)) by lia.
  - apply Hlen.
Qed.

Lemma count_sample_but c st n st' :
  count_sample c st = Some (RET (n, st')) -> call_tree_but c fully_recorded (tree_of st) ->
  next_addr (tree_of st') = next_addr (tree_of st) /\ with_metrics c (tree_of st') /\
  exists k, n = u64 (i64 (Z.of_nat (Datatypes.S k))) /\ call_tree_but c (recorded (Datatypes.S k) (fun _ => k)) (tree_of st').
Proof.
  intros E Ht. assert (Hid : sample_cnt_metric_id wm = 0) by (destruct setup as (_ & H0 & _); apply H0; lia).
  unfold count_sample in E. rewrite Hid in E. apply bind_Some in E as (m & st1 & Em & E).
  destruct (metrics_of_but _ _ _ _ _ Em Ht) as (Hm & Ht1 & Hn1).
  assert (exists k, recorded k (fun _ => k) m) as [k Hk].
  { destruct Hm as [[(k & _ & Hk) _]|[-> _]]; [by exists k|exists 0%nat; apply nothing_recorded]. }
  apply bind_Some in E as (m1 & st2 & [Ei ->]%from_exc_Some & E). unfold assert_do in Ei.
  destruct (increment _ _ _ m) as [[] m1'] eqn:Einc; [|done]. injection Ei as ->.
  apply counted with (1 := Einc) in Hk.
  apply bind_Some in E as ([v m2] & st3 & [Ev ->]%from_exc_Some & E). apply metric_of_at in Ev as (-> & Hm2 & Hl2).
  apply bind_Some in E as (u & st4 & Ep & [= <- <-]).
  destruct (put_metrics_but c _ (recorded (Datatypes.S k) (fun _ => k)) _ _ _ _ Ep Ht1) as (Ht4 & Hg & Hn4).
  { destruct Hk as [Hc He Hl]. destruct (Hl2 Hl) as [? ?]. split; [by rewrite Hm2| |done].
    intros i Hi. destruct (He i Hi) as (ivs & ? & ?). exists ivs. split; [done|]. by eapply event_recorded_ext; [intros j _; apply Hm2|..]. }
  split_and!; [congruence|by eexists|]. exists k. split; [|done]. cbn [fst]. by destruct (rec_count _ _ _ Hk) as [-> _].
Qed.

(** The loop over the events [ids] adds one call to each. *)
Lemma record_loop counts c n k ids : NoDup ids ->
  (forall i, keeps same_tree (counts i)) -> n = u64 (i64 (Z.of_nat (Datatypes.S k))) ->
  forall done st u st',
  (forall i, i ∈ ids -> i ∈ watermark_ids /\ done i = k) ->
  for_ids (fun i =>
    r ← counts i; m ← metrics_of c; m ← from_exc (record_event n i r.1 r.2 m); put_metrics c m) ids st = Some (RET (u, st')) ->
  call_tree_but c (recorded (Datatypes.S k) done) (tree_of st) -> with_metrics c (tree_of st) ->
  next_addr (tree_of st') = next_addr (tree_of st) /\ with_metrics c (tree_of st') /\
  call_tree_but c (recorded (Datatypes.S k) (fun i => if decide (i ∈ ids) then Datatypes.S k else done i)) (tree_of st').
Proof.
  intros Hnd Hcounts Hn. induction ids as [|i ids IH]; intros dn st u st' Hids E Ht [m0 Hm0]; cbn [for_ids] in E.
  { injection E as <- <-. split_and!; [done|by exists m0|]. destruct Ht as [Ht Hc]. done. }
  apply NoDup_cons in Hnd as [Hi Hnd]. destruct (Hids i) as [Hiw Hdi]; [by left|].
  apply bind_Some in E as ([] & st1 & E1 & E2).
  apply bind_Some in E1 as ([s v] & sa & Ea & E1). apply Hcounts in Ea. unfold same_tree in Ea.
  rewrite <- Ea in Ht, Hm0. apply bind_Some in E1 as (m & sb & Eb & E1).
  destruct (metrics_of_but _ _ _ _ _ Eb Ht) as (Hm & Htb & Hnb). rewrite Hm0 in Hm.
  destruct Hm as [[[Hc He Hl] _]|[_ ?]]; [|done].
  apply bind_Some in E1 as (m1 & sc & [Er ->]%from_exc_Some & E1). cbn [fst snd] in Er.
  destruct (He i Hiw) as (ivs & Hivs & Her). rewrite Hdi in Hivs.
  destruct (record_event_recorded _ _ _ _ _ _ ivs Er Hiw Her) as (Her' & Hsame & Hlm & Hl'); [by rewrite Hivs|done|].
  pose proof (proj1 (in_watermark_ids i) Hiw) as Hir.
  destruct (put_metrics_but c _ (recorded (Datatypes.S k) (fun j => if decide (j = i) then Datatypes.S k else dn j)) _ _ _ _ E1 Htb) as (Ht1 & Hg & Hn1).
  { split; [rewrite Hsame by lia; done| |done]. intros j Hj. destruct (decide (j = i)) as [->|Hji].
    - exists (ivs ++ [(s, v)]). rewrite length_app, Hivs, Nat.add_1_r. done.
    - destruct (He j Hj) as (ivj & ? & ?). exists ivj. split; [done|]. apply in_watermark_ids in Hj.
      eapply event_recorded_ext; [|done|done]. intros q Hq. apply Hsame; lia. }
  eapply IH in E2 as (Hn2 & Hm2 & Ht2); [|done| |done|by eexists].
  - split_and!; [congruence|done|]. eapply call_tree_but_mono; [|exact Ht2].
    intros m' [Hc' He' Hl2]. split; [done| |done]. intros j Hj. destruct (He' j Hj) as (ivj & Hlen & ?).
    exists ivj. split; [|done]. rewrite Hlen. clear -Hi. repeat case_decide; set_solver.
  - intros j Hj. destruct (Hids j) as [? Hdj]; [by right|]. split; [done|]. by destruct (decide (j = i)) as [->|].
Qed.

(** A return completes what is recorded of its context. *)
Lemma record_return_recorded counts c st u st' :
  (forall i, keeps same_tree (counts i)) ->
  record_return counts c st = Some (RET (u, st')) -> callee_at c (tree_of st) ->
  call_tree (fun _ => fully_recorded) (tree_of st) ->
  call_tree (fun _ => fully_recorded) (tree_of st') /\ next_addr (tree_of st') = next_addr (tree_of st).
Proof.
  intros Hcounts E Hc Ht. unfold record_return in E. apply bind_Some in E as (n & st1 & E1 & E).
  destruct (count_sample_but _ _ _ _ E1) as (Hn1 & Hm1 & k & Hk & Ht1).
  { split; [|done]. eapply call_tree_mono; [|exact Ht]. intros d m Hm. unfold but. by case_decide. }
  apply bind_Some in E as (cs & st2 & [= <- <-] & E). apply bind_Some in E as ([] & st3 & [_ ->]%from_exc_Some & E).
  eapply (record_loop counts c n k) in E as (Hn2 & _ & Ht2 & _); [|apply NoDup_seq|done..| |exact Ht1|exact Hm1].
  - split; [|congruence]. eapply call_tree_mono; [|exact Ht2]. intros d m. unfold but. case_decide; [|done].
    intros [Hcn He Hl]. exists (Datatypes.S k). split; [lia|]. split; [done| |done]. intros i Hi.
    destruct (He i Hi) as (ivs & Hlen & ?). exists ivs. by rewrite decide_True in Hlen.
  - intros i Hi. split; [done|reflexivity].
Qed.

Lemma same_next_metrics c : keeps (fun st st' => next_addr (tree_of st') = next_addr (tree_of st)) (metrics_of c).
Proof.
  intros st m st' E. unfold metrics_of in E. apply bind_Some in E as (t & st1 & [= <- <-] & E).
  destruct (getMetrics c _) as [[m1|]|]; [by injection E as <- <-| |done].
  by apply bind_Some in E as ([] & st2 & [= <-] & [= <- <-]).
Qed.
Lemma record_next counts c st u st' : (forall i, keeps same_tree (counts i)) ->
  record_return counts c st = Some (RET (u, st')) -> next_addr (tree_of st') = next_addr (tree_of st).
Proof.
  intros Hc. assert (PreOrder (fun st st' : St => next_addr (tree_of st') = next_addr (tree_of st))) as Hpre.
  { split; [done|]. intros a b d -> ->. done. }
  revert st u st'. change (keeps (fun st st' => next_addr (tree_of st') = next_addr (tree_of st)) (record_return counts c)).
  unfold record_return, count_sample, put_metrics, tassert.
  go_keeps ltac:(first [apply same_next_metrics | intros ???; intros [= <- <-]; reflexivity | intros ??? Est%Hc; unfold same_tree in Est; by rewrite Est]).
Qed.

(** *** A thread *)
Definition tree_fine (st : St) : Prop := small (tree_of st) -> call_tree (fun _ => fully_recorded) (tree_of st).
Definition grows (st st' : St) : Prop :=
  (next_addr (tree_of st) <= next_addr (tree_of st'))%nat /\ (tree_fine st -> tree_fine st').
#[local] Instance grows_preorder : PreOrder grows.
Proof. split; [by intros a; split|]. intros a b c [? ?] [? ?]. split; [lia|auto]. Qed.

Lemma grows_same {A} (m : TM A) : keeps same_tree m -> keeps grows m.
Proof. intros Hm st a st' E. unfold grows, tree_fine. rewrite (Hm _ _ _ E). done. Qed.

(** With a context for a call at hand. *)
Definition grows_at (c : nat) {A} (m : TM A) : Prop := forall st a st', m st = Some (RET (a, st')) ->
  (next_addr (tree_of st) <= next_addr (tree_of st'))%nat /\
  (call_tree (fun _ => fully_recorded) (tree_of st) -> callee_at c (tree_of st) -> tree_fine st').

Lemma grows_at_skip c {A B} (m : TM A) (f : A -> TM B) :
  keeps same_tree m -> (forall a, grows_at c (f a)) -> grows_at c (m ≫= f).
Proof.
  intros Hm Hf st b st' E. apply bind_Some in E as (a & st1 & E1%Hm & E2%Hf). unfold same_tree in E1. by rewrite <- E1.
Qed.
Lemma grows_at_record c counts {A} (f : unit -> TM A) :
  (forall i, keeps same_tree (counts i)) -> (forall a, keeps grows (f a)) -> grows_at c (record_return counts c ≫= f).
Proof.
  intros Hc Hf st b st' E. apply bind_Some in E as (a & st1 & E1 & [Hn2 Ht2]%Hf).
  pose proof (record_next _ _ _ _ _ Hc E1) as Hn1. split; [lia|]. intros Ht Hca. apply Ht2. intros _.
  by eapply record_return_recorded.
Qed.
Lemma grows_at_keeps c {A} (m : TM A) : keeps grows m -> grows_at c m.
Proof. intros Hm st a st' [Hn Ht]%Hm. split; [done|]. intros Hct _. apply Ht. by intros _. Qed.

Lemma grows_construct u ip mid mver p {A} (f : nat -> TM A) :
  ip <> 0 -> (forall c, grows_at c (f c)) -> keeps grows (construct u ip mid mver p ≫= f).
Proof.
  intros Hip Hf st b st' E. apply bind_Some in E as (c & st1 & E1 & [Hn2 Ht2]%Hf).
  unfold construct in E1. apply bind_Some in E1 as (fr & sa & Ea & E1).
  assert (keeps same_tree (frame_at p)) as Hfr by go_same_tree. apply Hfr in Ea. unfold same_tree in Ea.
  apply bind_Some in E1 as (t & sb & [= <- <-] & E1). apply bind_Some in E1 as ([d t'] & sc & [Ec ->]%from_exc_Some & E1).
  apply bind_Some in E1 as ([] & sd' & [= <-] & [= <- <-]). cbn in *. rewrite Ea in Ec.
  pose proof (constructContext_grows _ _ _ _ _ _ _ _ Ec) as Hn1. split; [lia|]. intros Ht Hsm.
  unfold small in Hsm. assert (small (tree_of st)) as Hsm0 by (unfold small; lia).
  destruct (constructContext_shape (fun _ => fully_recorded) _ _ _ _ _ _ _ _ Ec Hip) as [Ht1 Hc]; [unfold small; lia|by apply Ht|]. by apply Ht2.
Qed.

Hypothesis cfg_policy : replacementPolicy cfg = WP_REPLACEMENT_OLDEST.
(** No method is at address 0. *)
Hypothesis no_method_0 : getMethod 0 = None.

Lemma same_tree_subscribe s : keeps same_tree (subscribe s).
Proof.
  intros st b st' [= E]. apply WP_Subscribe_frame in E as (E & _); [|done]. unfold same_tree. by rewrite E.
Qed.
Lemma same_tree_decoder fuel a u : keeps same_tree (decoder fuel a u).
Proof.
  assert (forall found t, keeps same_tree (decoder_loop fuel found a t u)) as Hl.
  { intros found. induction fuel as [|n IH]; intros t; cbn [decoder_loop]; [apply keeps_fuel|].
    unfold fetch, remember, watch_branch. go_same_tree.
    all: repeat first [apply IH | apply same_tree_subscribe | progress go_same_tree]. }
  unfold decoder. go_keeps ltac:(apply Hl).
Qed.

Ltac grows_leaf :=
  apply grows_same; first [apply same_tree_decoder | apply same_tree_subscribe | solve [go_same_tree]].
Ltac go_grows := go_keeps grows_leaf.

Lemma grows_branch_return fuel wpt pc u : pc <> 0 -> keeps grows (branch_return fuel wpt pc u).
Proof.
  intros Hpc. unfold branch_return. rewrite (proj2 (Z.eqb_neq pc 0)) by done. apply keeps_bind; [exact _|grows_leaf|intros t].
  destruct (method_ids _) as [mid mver]. do 2 (apply keeps_bind; [exact _|grows_leaf|intros ?]).
  apply grows_construct; [done|]. intros c. apply grows_at_skip; [go_same_tree|]. intros _.
  apply grows_at_record; [intros i; apply same_tree_counts|]. intros _. go_grows.
Qed.

Lemma grows_branch_call fuel ip x u : keeps grows (branch_call fuel ip x u).
Proof.
  unfold branch_call. apply keeps_bind; [exact _|grows_leaf|intros callee].
  apply keeps_bind; [exact _|grows_leaf|intros c]. destruct (getMethod callee) as [m|] eqn:Em; [|go_grows].
  do 5 (apply keeps_bind; [exact _|grows_leaf|intros ?]).
  apply grows_construct; [by intros ->; rewrite no_method_0 in Em|]. intros d. apply grows_at_keeps. go_grows.
Qed.

Lemma grows_branch fuel wpt pc u : pc <> 0 -> keeps grows (OnBranchWatchPoint fuel wpt pc u).
Proof.
  intros Hpc. unfold OnBranchWatchPoint.
  go_keeps ltac:(first [by apply grows_branch_return | apply grows_branch_call | grows_leaf]).
Qed.

(** The address a return is recorded at is not 0. *)
Lemma fix_pc_nonzero fuel m precise pc st q st' : pc <> 0 ->
  fix_pc fuel m precise pc st = Some (RET (Some q, st')) -> q <> 0.
Proof.
  intros Hpc E. unfold fix_pc in E. destruct (negb _); [by injection E as <- <-|].
  apply bind_Some in E as (prev & s1 & _ & E). apply bind_Some in E as (p & s2 & _ & E).
  destruct (negb (IsPCSane pc p)) eqn:Es; [by injection E|]. apply bind_Some in E as ([] & s3 & _ & [= <- _]).
  apply negb_false_iff in Es. unfold IsPCSane in Es. apply negb_true_iff in Es. rewrite !orb_false_iff, Z.eqb_neq in Es. tauto.
Qed.

Lemma grows_fixed fuel m precise pc (f : option Z -> TM WP_TriggerAction_t) : pc <> 0 ->
  keeps grows (f None) -> (forall q, q <> 0 -> keeps grows (f (Some q))) -> keeps grows (fix_pc fuel m precise pc ≫= f).
Proof.
  intros Hpc Hn Hs st b st' E. apply bind_Some in E as ([q|] & st1 & E1 & E2).
  - etrans; [|eapply Hs; [by eapply fix_pc_nonzero|done]]. assert (keeps grows (fix_pc fuel m precise pc)) as Hk by grows_leaf. by eapply Hk.
  - etrans; [|by eapply Hn]. assert (keeps grows (fix_pc fuel m precise pc)) as Hk by grows_leaf. by eapply Hk.
Qed.

Lemma grows_over fuel wpt pc m u : pc <> 0 -> keeps grows (over_threshold fuel wpt pc m u).
Proof.
  intros Hpc. unfold over_threshold. rewrite (proj2 (Z.eqb_neq pc 0)) by done.
  do 3 (apply keeps_bind; [exact _|grows_leaf|intros ?]). apply keeps_bind; [exact _| |intros _].
  { destruct a1; go_grows. }
  apply keeps_bind; [exact _|grows_leaf|intros t]. cbv zeta. apply grows_fixed; [done|go_grows; grows_leaf|]. intros q Hq.
  apply keeps_bind; [exact _|grows_leaf|intros s]. apply grows_construct; [done|]. intros c.
  apply grows_at_record; [intros i; apply same_tree_counts|]. intros _. go_grows; grows_leaf.
Qed.

Lemma grows_final fuel wpt pc m u : pc <> 0 -> keeps grows (final_return fuel wpt pc m u).
Proof.
  intros Hpc. unfold final_return. apply keeps_bind; [exact _|grows_leaf|intros t].
  apply grows_fixed; [done|go_grows; grows_leaf|]. intros q Hq. apply keeps_bind; [exact _|grows_leaf|intros s].
  apply grows_construct; [done|]. intros c. apply grows_at_skip; [go_same_tree|]. intros _.
  apply grows_at_record; [intros i; apply same_tree_counts|]. intros _. go_grows; grows_leaf.
Qed.

Lemma grows_runtime fuel wpt u : keeps grows (runtime_return fuel wpt u).
Proof. unfold runtime_return. go_grows; grows_leaf. Qed.

Lemma grows_OnRetWatchPoint fuel wpt u : keeps grows (OnRetWatchPoint fuel wpt u).
Proof.
  unfold OnRetWatchPoint. apply keeps_bind; [exact _|grows_leaf|intros ok]. destruct (negb ok); [go_grows|].
  set (pc := if t_pc wpt =? 0 then _ else _). cbv zeta. destruct (Z.eqb_spec pc 0) as [_|Hpc]; [grows_leaf|].
  go_keeps ltac:(first [by apply grows_over | by apply grows_final | by apply grows_branch | apply grows_runtime | grows_leaf]).
Qed.

Lemma grows_OnSample fuel ip u : keeps grows (OnSample fuel ip u).
Proof.
  unfold OnSample. destruct (getMethod ip) as [m|] eqn:Em; [|grows_leaf]. destruct (_ && _); [grows_leaf|].
  do 12 (apply keeps_bind; [exact _|grows_leaf|intros ?]).
  apply grows_construct; [by intros ->; rewrite no_method_0 in Em|]. intros d. apply grows_at_keeps. go_grows.
Qed.

Lemma run_grows st st' : hooks_quiet cfg -> thread_run st st' -> wpStack st = [] -> grows st st'.
Proof.
  intros Hq. induction 1 as [|fuel ip u st st1 st2 E _ IH|fuel fd u st st1 st2 E _ IH|i w m0 m st st2 Hw _ _ IH]; intros Hst.
  - done.
  - etrans; [by eapply grows_OnSample|]. apply IH. by rewrite (run_wpStack cfg_policy _ _ (run_OnSample _ _ _ _ _ _ E)).
  - apply OnWatchPoint_frame in E as [(Ec & Es & _)|(i & s & wpt & st0 & a & st3 & _ & _ & Ec0 & Es0 & _ & _ & Ecb & Hend)]; [| |done|done].
    { etrans; [|by apply IH]. unfold grows, tree_fine. by rewrite Ec. }
    unfold callback in Ecb. destruct (OnRetWatchPoint fuel wpt u st0) as [[[a1 st4]|]|] eqn:E1; simpl in Ecb; [|done|done].
    injection Ecb as -> ->. assert (wpStack st3 = []) as Es1 by (by rewrite (run_wpStack cfg_policy _ _ (run_OnRetWatchPoint _ _ _ _ _ _ E1))).
    destruct (Hend (OnRetWatchPoint_action _ _ _ _ _ _ E1) Es1) as (Ec & Es & _).
    etrans; [|by apply IH]. apply grows_OnRetWatchPoint in E1. unfold grows, tree_fine in *. by rewrite Ec, <- Ec0.
  - by apply IH.
Qed.

(** C5: What a thread has recorded fits together: after any samples and traps on a thread that
    starts with an empty tree, the thread's calling-context tree is well formed; the paths in it are
    frames, then the address of a call, then its callee, and only callees have metrics, so that no measured context
    has children; and the metrics of a measured context describe one list of calls: the counter is their
    number, and for each event the texts Start and End list where each of them started and ended, and the mean,
    the variance, M2 and the variation coefficient are the running statistics of the same
    durations. *)
Theorem tree_recorded (st0 st : St) :
  hooks_quiet cfg -> wpStack st0 = [] -> tree_of st0 = ContextTree_new ->
  thread_run st0 st -> small (tree_of st) -> call_tree (fun _ => fully_recorded) (tree_of st).
Proof.
  intros Hq Hst Hnew Hrun. apply (run_grows _ _ Hq Hrun Hst). intros _. rewrite Hnew. apply new_call_tree.
Qed.
End recording.

(** ** The instruction before an address *)

(** The addresses at which the sweep from [s] decodes. *)
Inductive swept (s : Z) : Z -> Prop :=
  | swept_start : swept s s
  | swept_bad p : swept s p -> get_decode_xedd p = None -> swept s (p + 1)
  | swept_next p xedd : swept s p -> get_decode_xedd p = Some xedd -> swept s (p + inst_length xedd).

(** The instruction at [p] is one of the sweep and ends at [ins]. *)
Definition ends_at (s p ins : Z) : Prop :=
  swept s p /\ exists xedd, get_decode_xedd p = Some xedd /\ p + inst_length xedd = ins.

Section sweep.
Hypothesis lengths : forall p xedd, get_decode_xedd p = Some xedd -> 1 <= inst_length xedd <= 15.

Lemma swept_above s p : swept s p -> s <= p.
Proof. induction 1 as [|p _ IH _|p xedd _ IH Hd]; [lia..|]. apply lengths in Hd. lia. Qed.

Lemma swept_trans s p q : swept s p -> swept p q -> swept s q.
Proof. induction 2; [done|by apply swept_bad|by apply swept_next]. Qed.

(** Where the sweep goes on from an address it decodes at. *)
Lemma swept_inv p q : swept p q -> p < q ->
  match get_decode_xedd p with None => swept (p + 1) q | Some xedd => swept (p + inst_length xedd) q end.
Proof.
  induction 1 as [|q Hq IH Hd|q xedd Hq IH Hd]; intros Hlt; [lia|..];
  (apply swept_above in Hq as Hle; destruct (decide (p = q)) as [->|];
   [rewrite Hd; constructor|specialize (IH ltac:(lia)); destruct (get_decode_xedd p); econstructor; eassumption]).
Qed.

Lemma ends_at_step p q ins : ends_at p q ins -> p <> q ->
  match get_decode_xedd p with None => ends_at (p + 1) q ins | Some xedd => ends_at (p + inst_length xedd) q ins end.
Proof.
  intros [Hs He] Hne. apply swept_above in Hs as Hle. apply swept_inv in Hs; [|lia].
  destruct (get_decode_xedd p); by split.
Qed.

Lemma ends_at_far s p q ins : swept s p -> ends_at p q ins -> ends_at s q ins.
Proof. intros Hs [Hq He]. split; [by eapply swept_trans|done]. Qed.

(** An address has one instruction that ends there. *)
Lemma ends_at_here p q ins xedd :
  get_decode_xedd p = Some xedd -> p + inst_length xedd = ins -> ends_at p q ins -> q = p.
Proof.
  intros Hd He Hq. destruct (decide (p = q)); [done|]. pose proof (ends_at_step p q ins Hq) as Hs.
  rewrite Hd in Hs. destruct (Hs ltac:(done)) as [Hge (x & Hx & Hxe)].
  apply swept_above in Hge. apply lengths in Hx. lia.
Qed.

Lemma previous_loop_correct fuel p e ins :
  0 < p -> 0 < Z.of_nat fuel -> e - p + 2 <= Z.of_nat fuel ->
  exists r, previous_loop fuel p e ins = Some r /\
    (r <> 0 -> ends_at p r ins /\ r <= e) /\ (forall q, ends_at p q ins -> q <= e -> r = q).
Proof.
  revert p; induction fuel as [|fuel IH]; intros p Hp Hf0 Hf; cbn [previous_loop]; [lia|].
  destruct (Z.leb_spec p e) as [Hle|Hgt].
  2: { exists 0. split_and!; [done..|]. intros q [Hq _] ?. apply swept_above in Hq. lia. }
  assert (forall p', 0 < p' -> p < p' -> swept p p' ->
    (forall q, ends_at p q ins -> ends_at p' q ins) ->
    exists r, previous_loop fuel p' e ins = Some r /\
      (r <> 0 -> ends_at p r ins /\ r <= e) /\ (forall q, ends_at p q ins -> q <= e -> r = q)) as Hgo.
  { intros p' Hp' Hlt Hs Hq. destruct (IH p') as (r & -> & Hr & Hu); [lia..|].
    exists r. split_and!; [done| |by auto]. intros Hr0. destruct (Hr Hr0). eauto using ends_at_far. }
  destruct (get_decode_xedd p) as [xedd|] eqn:Hd.
  + pose proof (lengths p xedd Hd). destruct (Z.eqb_spec (p + inst_length xedd) ins) as [He|He].
    * exists p. split_and!; [done| |].
      -- intros _. split; [|done]. split; [constructor|by exists xedd].
      -- intros q Hq _. symmetry. by eapply ends_at_here.
    * apply Hgo; [lia..|by econstructor; [constructor|]|].
      intros q Hq. pose proof (ends_at_step p q ins Hq) as Hs. rewrite Hd in Hs. apply Hs.
      intros <-. destruct Hq as [_ (x & Hx & Hxe)]. congruence.
  + apply Hgo; [lia..|by constructor; [constructor|]|].
    intros q Hq. pose proof (ends_at_step p q ins Hq) as Hs. rewrite Hd in Hs. apply Hs.
    intros <-. destruct Hq as [_ (x & Hx & _)]. congruence.
Qed.

(** C6: The search for the instruction before an address. With fuel of one step per
    byte of the method it ends. In a method without a watched address in front of [ins] it gives
    the instruction of the sweep from the start that ends just at [ins], so that there is at most one;
    otherwise, or when there is none, it gives 0. As instructions have at most 15 bytes,
    [IsPCSane] accepts every result but 0. *)
Theorem get_previous_instruction_correct fuel s e ins excludeList :
  0 < s -> e - s + 2 <= Z.of_nat fuel ->
  let allowed := s <= ins <= e /\ forall a, a ∈ excludeList -> a < s \/ ins <= a in
  exists r, get_previous_instruction fuel s e ins excludeList = Some r /\
    (allowed -> forall p, ends_at s p ins -> r = p) /\
    (r <> 0 -> allowed /\ ends_at s r ins) /\
    IsPCSane ins r = negb (r =? 0).
Proof.
  intros Hs Hf allowed. unfold get_previous_instruction.
  assert (~ allowed -> exists r, Some 0 = Some r /\ (allowed -> forall p, ends_at s p ins -> r = p) /\
    (r <> 0 -> allowed /\ ends_at s r ins) /\ IsPCSane ins r = negb (r =? 0)) as Hno.
  { intros Hn. exists 0. split_and!; [done..]. }
  destruct (_ || _) eqn:E; [apply Hno; intros [? _]; lia|reflect_Z].
  destruct (existsb _ _) eqn:Ex.
  { apply Hno. intros [_ Ha]. apply existsb_exists in Ex as (a & Hin%list_elem_of_In & Hb).
    specialize (Ha a Hin). lia. }
  destruct (previous_loop_correct fuel s e ins) as (r & -> & Hr & Hu); [lia..|].
  assert (r <> 0 -> s <= r /\ r + 1 <= ins <= r + 15) as Hpos.
  { intros Hr0. destruct (Hr Hr0) as [[Hsr%swept_above (x & Hx%lengths & He)] _]. lia. }
  exists r. split_and!; [done| | |].
  - intros _ p Hp. apply Hu; [done|]. destruct Hp as [_ (x & Hx%lengths & He)]. lia.
  - intros Hr0. split; [|by apply Hr]. split; [lia|]. intros a Ha.
    apply not_true_iff_false in Ex. destruct (decide (a < s \/ ins <= a)); [done|].
    destruct Ex. apply existsb_exists. exists a. split; [by apply list_elem_of_In|lia].
  - unfold IsPCSane. destruct (Z.eqb_spec r 0) as [->|Hr0]; [done|]. specialize (Hpos Hr0). lia.
Qed.
End sweep.
End code.
End tracer.

(** ** A program to run

    A method at 1000 that calls one at 2000:
<<
    1000: add     1004: call 2000    1009: ret
    2000: ret
>> *)
Module Demo.

Definition demo_decode (ip : Z) : option xed_decoded_inst :=
  match ip with
  | 1000 => Some (mkInst ICLASS_OTHER 4 OPERAND_OTHER 0 false REG_OTHER 0)
  | 1004 => Some (mkInst CALL_NEAR 5 RELBR 991 true REG_OTHER 0)
  | 1009 | 2000 => Some (mkInst RET_NEAR 1 OPERAND_OTHER 0 false REG_OTHER 0)
  | _ => None
  end.

Definition demo_method (ip : Z) : option CompiledMethod :=
  if (1000 <=? ip) && (ip <? 1010) then Some (mkMethod 7 1 "caller" 1000 1010)
  else if (2000 <=? ip) && (ip <? 2001) then Some (mkMethod 8 1 "callee" 2000 2001)
  else None.

(** The registers at an instruction, with a stack at 5000. *)
Definition demo_regs (pc : Z) : ucontext := mkCtx (fun _ => 5000) pc 0.

Definition demo_cfg : WP_Config_t (tracer (D := Q)) := mkConfig true true 64 WP_REPLACEMENT_OLDEST None None.

Definition demo_wm : watermarks :=
  match setup_all "T" [("cycles", 1000); ("cycles", 1000)] (no_watermarks, []) with
  | RET (w, _) => w | EXC => no_watermarks end.

Definition demo_tracer : tracer (D := Q) :=
  let s := mkEVS (-1) (replicate MAX_STACK (replicate 5 0)) in
  mkTracer s s [] [] 0 ∅ 0 [0; 0; 0; 0; 0] [0; 0; 0; 0; 0] ∅ 1 ContextTree_new false.

Definition demo_slot : WP_RegisterInfo_t := mkWpi (mkSD 0 0 WP_RW 0 0) 0 0 0 true [] 0 None.
Abbreviation DemoSt := (WP_ThreadData_t (C := tracer (D := Q)) (R := unit)).
Definition demo_st0 : DemoSt := mkWP [fresh_slot demo_slot] [] tt (mkKernel ∅ 3 0) (mkCnt 2 [0; 0; 0; 0; 0] 0) demo_tracer.

Definition demo_sample (threshold : Z) (pc : Z) : TM unit :=
  OnSample (D := Q) (R := unit) Qle_bool (fun r => (0, r)) (fun r => (0%Q, r))
    (fun _ _ => true) (fun _ => true) (fun _ => true) (fun _ => 1000) (fun _ => Init.Byte.x00)
    demo_cfg (fun i t => (8, Z.of_nat t)) threshold "" demo_decode (fun _ _ => 0) (fun _ => 1009)
    (fun _ => [mkASGCT 1 7]) demo_method 10 pc (demo_regs pc).

Definition demo_callback (threshold : Z) :=
  OnRetWatchPoint (D := Q) (R := unit) Qle_bool (fun q => q) (fun r => (0, r)) (fun r => (0%Q, r))
    (fun _ _ => true) (fun _ => true) (fun _ => true) (fun _ => 1000) (fun _ => Init.Byte.x00)
    demo_cfg (fun i t => (8, Z.of_nat t)) demo_wm 7 threshold demo_decode (fun _ _ => 0) (fun _ => 1009)
    (fun _ => [mkASGCT 1 7]) demo_method 10.

Definition run_or {A} (r : option (exc (A * DemoSt))) : DemoSt :=
  match r with Some (RET (_, st)) => st | _ => demo_st0 end.

(** A sample in the caller, the trap on its call, the one on its return. *)
Definition demo_sampled (threshold : Z) : DemoSt := run_or (demo_sample threshold 1000 demo_st0).
Definition demo_trap (slot : nat) (pc : Z) : WP_TriggerInfo_t := mkTrig slot 0 pc 1.
Definition demo_called (threshold : Z) : DemoSt :=
  run_or (demo_callback threshold (demo_trap 0 1004) (demo_regs 1004) (demo_sampled threshold)).

(** The same trap as a signal, with the record the kernel writes for it. *)
Definition demo_record : perf_mmap_t :=
  mkMmap 16 0 (le_bytes 4 9 ++ le_bytes 2 0x4000 ++ le_bytes 2 16 ++ le_bytes 8 1004 ++ replicate 48 Init.Byte.x00).
Definition demo_armed : WP_RegisterInfo_t := default demo_slot (watchPointArray (demo_sampled 3) !! 0%nat).
Definition demo_recorded : DemoSt := set_slot 0 (set_buffer (Some demo_record) demo_armed) (demo_sampled 3).

Definition demo_signal (st : DemoSt) : exc DemoSt :=
  OnWatchPoint (fun _ _ => true) (fun _ => true) (fun _ => true) (fun _ => 1000) demo_cfg (fun i t => (8, Z.of_nat t))
    (callback (D := Q) (R := unit) Qle_bool (fun q => q) (fun r => (0, r)) (fun r => (0%Q, r))
      (fun _ _ => true) (fun _ => true) (fun _ => true) (fun _ => 1000) (fun _ => Init.Byte.x00)
      demo_cfg (fun i t => (8, Z.of_nat t)) demo_wm 7 3 demo_decode (fun _ _ => 0) (fun _ => 1009)
      (fun _ => [mkASGCT 1 7]) demo_method 10) 3 (demo_regs 1004) true st.
Definition demo_nested : DemoSt := match demo_signal demo_recorded with RET st => st | EXC => demo_st0 end.

Definition demo_run :=
  thread_run (D := Q) (R := unit) Qle_bool (fun q => q) (fun r => (0, r)) (fun r => (0%Q, r))
    (fun _ _ => true) (fun _ => true) (fun _ => true) (fun _ => 1000) (fun _ => Init.Byte.x00)
    demo_cfg (fun i t => (8, Z.of_nat t)) demo_wm 7 3 "" demo_decode (fun _ _ => 0) (fun _ => 1009)
    (fun _ => [mkASGCT 1 7]) demo_method.

(** The callee returns: the trap on its [ret]. *)
Definition demo_record_ret : perf_mmap_t :=
  mkMmap 16 0 (le_bytes 4 9 ++ le_bytes 2 0x4000 ++ le_bytes 2 16 ++ le_bytes 8 2000 ++ replicate 48 Init.Byte.x00).
Definition demo_armed_ret : WP_RegisterInfo_t := default demo_slot (watchPointArray demo_nested !! 0%nat).
Definition demo_signal_ret (st : DemoSt) : exc DemoSt :=
  OnWatchPoint (fun _ _ => true) (fun _ => true) (fun _ => true) (fun _ => 1000) demo_cfg (fun i t => (8, Z.of_nat t))
    (callback (D := Q) (R := unit) Qle_bool (fun q => q) (fun r => (0, r)) (fun r => (0%Q, r))
      (fun _ _ => true) (fun _ => true) (fun _ => true) (fun _ => 1000) (fun _ => Init.Byte.x00)
      demo_cfg (fun i t => (8, Z.of_nat t)) demo_wm 7 3 demo_decode (fun _ _ => 0) (fun _ => 1009)
      (fun _ => [mkASGCT 1 7]) demo_method 10) 3 (demo_regs 2000) true st.
Definition demo_returned : DemoSt :=
  match demo_signal_ret (set_slot 0 (set_buffer (Some demo_record_ret) demo_armed_ret) demo_nested) with RET st => st | EXC => demo_st0 end.
Lemma demo_run_nested_to st : demo_run demo_nested st -> demo_run demo_st0 st.
Proof.
  intros Hrest.
  eapply thread_sample with (fuel := 10%nat) (ip := 1000) (u := demo_regs 1000) (st1 := demo_sampled 3);
    [vm_compute; reflexivity|].
  eapply thread_record with (i := 0%nat) (w := demo_armed) (m := demo_record); [vm_compute; reflexivity..|].
  eapply thread_trap with (fuel := 10%nat) (si_fd := 3) (u := demo_regs 1004) (st1 := demo_nested);
    [vm_compute; reflexivity|exact Hrest].
Qed.
Lemma demo_run_nested : demo_run demo_st0 demo_nested.
Proof. apply demo_run_nested_to, thread_done. Qed.
Lemma demo_run_returned : demo_run demo_st0 demo_returned.
Proof.
  apply demo_run_nested_to. eapply thread_record with (i := 0%nat) (w := demo_armed_ret) (m := demo_record_ret); [vm_compute; reflexivity..|].
  eapply thread_trap with (fuel := 10%nat) (si_fd := 3) (u := demo_regs 2000) (st1 := demo_returned);
    [vm_compute; reflexivity|apply thread_done].
Qed.


Lemma thread_watchpoints_witness :
  exists st', WP_ThreadTerminate (Some demo_nested) = RET st' /\ k_bps (kern st') = ∅.
Proof.
  destruct (thread_watchpoints (D := Q) (R := unit) Qle_bool (fun q => q) (fun r => (0, r)) (fun r => (0%Q, r))
    (fun _ _ => true) (fun _ => true) (fun _ => true) (fun _ => 1000) (fun _ => Init.Byte.x00)
    demo_cfg (fun i t => (8, Z.of_nat t)) demo_wm 7 3 "" demo_decode (fun _ _ => 0) (fun _ => 1009)
    (fun _ => [mkASGCT 1 7]) demo_method eq_refl demo_st0 demo_nested eq_refl eq_refl
    ltac:(done) ltac:(done) ltac:(done) ltac:(intros n; vm_compute; reflexivity) ltac:(intros i t; vm_compute; reflexivity)
    ltac:(intros h f c [-> | ->]; done) ltac:(apply (init_inv demo_cfg [demo_slot]); [done|simpl; lia]) eq_refl ltac:(done)
    demo_run_nested) as (_ & st' & E & Ek & _).
  exists st'. split; [exact E|exact Ek].
Defined.

Lemma decoder_correct_witness :
  exists m', decoder (D := Q) (R := unit) Qle_bool (fun r => (0, r)) (fun r => (0%Q, r))
      (fun _ _ => true) (fun _ => true) (fun _ => true) (fun _ => 1000) (fun _ => Init.Byte.x00)
      demo_cfg 3 demo_decode (fun _ _ => 0) (fun _ => 1009) 2 1000 (demo_regs 1000) demo_st0 =
    at_terminator (D := Q) (R := unit) Qle_bool (fun r => (0, r)) (fun r => (0%Q, r))
      (fun _ _ => true) (fun _ => true) (fun _ => true) (fun _ => 1000) (fun _ => Init.Byte.x00)
      demo_cfg 1000 (mkInst CALL_NEAR 5 RELBR 991 true REG_OTHER 0) 1004 (with_map m' demo_st0).
Proof.
  destruct (decoder_correct (D := Q) (R := unit) Qle_bool (fun r => (0, r)) (fun r => (0%Q, r))
      (fun _ _ => true) (fun _ => true) (fun _ => true) (fun _ => 1000) (fun _ => Init.Byte.x00)
      demo_cfg 3 demo_decode (fun _ _ => 0) (fun _ => 1009) 2 2 1000 (demo_regs 1000) demo_st0
      (RET (mkInst CALL_NEAR 5 RELBR 991 true REG_OTHER 0, 1004))) as (m' & E & _).
  - intros k b Hk. vm_compute in Hk. destruct k; discriminate Hk.
  - vm_compute. reflexivity.
  - vm_compute. reflexivity.
  - lia.
  - exists m'. exact E.
Defined.

Lemma budget_abort_witness :
  exists st1, demo_callback 1 (demo_trap 0 1004) (demo_regs 1004) (demo_sampled 1) = Some (RET (WP_TRIGGERED, st1)) /\
    retCtxtStack (client st1) = [] /\
    forall a st3, demo_callback 1 (demo_trap 0 1009) (demo_regs 1009) st1 <> Some (RET (a, st3)).
Proof.
  exists (demo_called 1).
  assert (demo_callback 1 (demo_trap 0 1004) (demo_regs 1004) (demo_sampled 1) =
    Some (RET (WP_TRIGGERED, demo_called 1))) as E by (vm_compute; reflexivity).
  split; [exact E|].
  assert (1 <= decodeInsCounter (client (demo_sampled 1))) as Hn by (vm_compute; discriminate).
  assert (retCtxtStack (client (demo_sampled 1)) = [2%nat]) as Hc by (vm_compute; reflexivity).
  assert (code_trap (R := unit) demo_method (demo_trap 0 1004) (demo_regs 1004) (demo_sampled 1)) as Ht.
  { split; [discriminate|]. split; [vm_compute; discriminate|]. split; [vm_compute; reflexivity|].
    do 2 eexists. split; [vm_compute; reflexivity|]. split; [vm_compute; reflexivity|vm_compute; discriminate]. }
  assert (code_trap (R := unit) demo_method (demo_trap 0 1009) (demo_regs 1009) (demo_called 1)) as Ht'.
  { split; [discriminate|]. split; [vm_compute; discriminate|]. split; [vm_compute; reflexivity|].
    do 2 eexists. split; [vm_compute; reflexivity|]. split; [vm_compute; reflexivity|vm_compute; discriminate]. }
  revert E Hn Hc Ht Ht'. unfold demo_callback. generalize (demo_called 1) as st1, (demo_sampled 1) as st.
  intros st1 st E Hn Hc Ht Ht'. eapply budget_abort; [reflexivity|exact Hn|exact Hc|exact Ht|exact E|reflexivity|exact Ht'].
Defined.

Lemma demo_setup : setup_inv 2 demo_wm.
Proof.
  destruct (setup_all_spec "T" [("cycles", 1000); ("cycles", 1000)]) as (w & E & Hw); [cbn; lia|].
  unfold demo_wm. rewrite E. exact Hw.
Qed.

(** The callee's context has the one call recorded, from count 2 to count 5. *)
Definition demo_metrics : ContextMetrics Q :=
  [mkVal 1 0%Q ""; mkVal 0 0%Q "2 "; mkVal 0 0%Q "5 "; mkVal 0 3%Q ""; mkVal 0 0%Q ""; mkVal 0 0%Q ""; mkVal 0 (0 # 3) ""].
Lemma demo_callee : (heap (context_state (client demo_returned)) !! 4%nat) ≫= n_metrics = Some demo_metrics.
Proof. vm_compute. reflexivity. Qed.
Lemma demo_small : small (context_state (client demo_returned)).
Proof. vm_compute. reflexivity. Qed.

Lemma demo_call_tree : call_tree (fun _ => fully_recorded (fun q => q) demo_wm 7) (context_state (client demo_returned)).
Proof.
  apply (run_grows (D := Q) (R := unit) Qle_bool (fun q => q) (fun r => (0, r)) (fun r => (0%Q, r))
    (fun _ _ => true) (fun _ => true) (fun _ => true) (fun _ => 1000) (fun _ => Init.Byte.x00)
    demo_cfg (fun i t => (8, Z.of_nat t)) demo_wm 7 3 "" demo_decode (fun _ _ => 0) (fun _ => 1009)
    (fun _ => [mkASGCT 1 7]) demo_method 2 demo_setup ltac:(lia) eq_refl
    eq_refl eq_refl demo_st0 demo_returned ltac:(intros h f c c' [-> | ->]; done) demo_run_returned eq_refl);
    [intros _; apply new_call_tree|exact demo_small].
Qed.

Lemma tree_recorded_witness : fully_recorded (fun q => q) demo_wm 7 demo_metrics.
Proof.
  destruct (heap (context_state (client demo_returned)) !! 4%nat) as [n|] eqn:En; [|pose proof demo_callee as E; rewrite En in E; discriminate E].
  pose proof demo_callee as E. rewrite En in E.
  exact (proj2 (ct_metrics _ _ (tree_recorded (D := Q) (R := unit) Qle_bool (fun q => q) (fun r => (0, r)) (fun r => (0%Q, r))
    (fun _ _ => true) (fun _ => true) (fun _ => true) (fun _ => 1000) (fun _ => Init.Byte.x00)
    demo_cfg (fun i t => (8, Z.of_nat t)) demo_wm 7 3 "" demo_decode (fun _ _ => 0) (fun _ => 1009)
    (fun _ => [mkASGCT 1 7]) demo_method 2 demo_setup ltac:(lia) eq_refl
    eq_refl eq_refl demo_st0 demo_returned
    ltac:(intros h f c c' [-> | ->]; done) eq_refl eq_refl demo_run_returned demo_small) 4%nat n demo_metrics En E)).
Defined.

Lemma get_previous_instruction_correct_witness :
  get_previous_instruction demo_decode 12 1000 1010 1009 [2000] = Some 1004 /\ IsPCSane 1009 1004 = true.
Proof.
  destruct (get_previous_instruction_correct demo_decode) with (fuel := 12%nat) (s := 1000) (e := 1010) (ins := 1009)
    (excludeList := [2000]) as (r & Hr & Hf & _ & Hsane).
  - intros p x. unfold demo_decode. intros Hx. repeat case_match; simplify_eq/=; lia.
  - lia.
  - lia.
  - assert (r = 1004) as ->; [|split; [exact Hr|exact Hsane]].
    apply Hf.
    + split; [lia|]. intros a Ha. apply list_elem_of_singleton in Ha as ->. right. lia.
    + split; [|by eexists]. exact (swept_next demo_decode 1000 1000 _ (swept_start demo_decode 1000) eq_refl).
Defined.
End Demo.
