(* ===== verification/Traces.v ===== *)
(** * Traces: from a thread's contexts to the rows of its timeline

    [Interpreter.getSrcPosition] of offlineprocess/pylib/interpreter.py and
    [output_to_file] of process_raw_data.py: of each context with metrics one row of the text output, and
    of each of its calls one [Trace] for the timeline (the file Timeline), with the source positions
    of the frames on its path. The theorem goes from the trees of the file Tracer to these
    rows: every recorded call becomes one of them.

    [None] is an exception of the script. What the script makes of a text as a float is a class. *)
From stdpp Require Import base numbers list strings pretty gmap.
From Stdlib Require Import ZArith Lia Ascii QArith Qround.
From S2P Require Import Prelude Xml HomoXml Support Metrics ContextTree CallTree Config RangeSet CodeCache Report Methods Offline Timeline Watchpoint Tracer.
Local Open Scope Z_scope.

(** ** Floats

    [float(s)], [round(x)], and [format(round(x,2),'.2f')]. *)
Class PyFloat (F : Type) := {
  py_float : str -> option F;
  py_round : F -> option Z;
  py_fixed2 : F -> str;
}.

(** [s.split()]. *)
Definition spaces : str := map ascii_of_nat [9; 10; 11; 12; 13; 28; 29; 30; 31; 32]%nat.
Definition py_split (s : str) : list str := tokens_of spaces s.
(** [sep.join(l)]. *)
Fixpoint join (sep : str) (l : list str) : str :=
  match l with [] => [] | [x] => x | x :: l => x ++ sep ++ join sep l end.

(** ** [Interpreter.getSrcPosition] *)
Definition or_unknown (s : option str) : str := match s with Some (c :: s) => c :: s | _ => lit "??" end.

Definition src_text (class_name method_name source_file source_lineno : option str) : str :=
  if bool_decide (or_unknown class_name = lit "Root") then []
  else or_unknown class_name ++ lit "." ++ or_unknown method_name ++ lit "(" ++ or_unknown source_file ++ lit ":" ++
       or_unknown source_lineno ++ lit ")".

Section output.
Context {T : Type} `{RBTree T} {F : Type} `{PyFloat F}.
Abbreviation methods := (gmap str (PyMethod T)).

Definition getSrcPosition (context_manager : manager) (context : PyCtx) (d : methods) : option (str * methods) :=
  if bool_decide (pc_id context ∈ cm_roots context_manager) then Some (src_text (Some (lit "Root")) None None None, d)
  else
    let ip := py_attr "binary_addr" (pc_obj context) in
    method_id ← py_attr "method_id" (pc_obj context);
    version ← py_attr "method_version" (pc_obj context);
    let '(method, d) := manager_getMethod method_id version d in
    if negb (bool_decide (ip = Some (lit "0"))) then
      match method with
      | Some m =>
          ip ← ip; source_lineno ← py_addr2line ip m;
          _ ← py_int ip;
          Some (src_text (Some (pm_class m)) (Some (pm_name m)) (Some (pm_file m)) source_lineno, d)
      | None =>
          _ ← match ip with Some ip => py_int ip | None => Some 0 end;
          Some (src_text None None None None, d)
      end
    else
      match method with
      | Some m =>
          bci ← py_attr "bci" (pc_obj context); source_lineno ← py_bci2line bci m;
          Some (src_text (Some (pm_class m)) (Some (pm_name m)) (Some (pm_file m)) source_lineno, d)
      | None => Some (src_text None None None None, d)
      end.

(** [intpr.getSrcPosition(c) for c in ...] *)
Fixpoint src_positions (context_manager : manager) (l : list PyCtx) (d : methods) : option (list str * methods) :=
  match l with
  | [] => Some ([], d)
  | c :: l =>
      '(s, d) ← getSrcPosition context_manager c d;
      '(ss, d) ← src_positions context_manager l d;
      Some (s :: ss, d)
  end.

(** ** [output_to_file] *)
Definition COUNT : str := lit "BR_INST_RETIRED.NEAR_CALL:COUNT".
Definition metric (measure : string) : str := lit "PERF_COUNT_HW_INSTRUCTIONS:" ++ lit measure.

(** What a context with metrics gives for call [j]. *)
Definition one_trace (metrics : gmap str str) (key : str) (start_list end_list : list str) (j : nat) : option Trace :=
  s ← start_list !! j; s ← py_int s; e ← end_list !! j; e ← py_int e;
  count ← metrics !! COUNT; n ← py_int count;
  mean ← metrics !! metric "MEAN"; mean ← py_float mean; mean ← py_round mean;
  cv ← metrics !! metric "CV"; cv ← py_float cv;
  Some (mkTrace s e [(lit "INSTRUCTIONS_COUNT:TOTAL", VInt (n * mean)); (lit "METHOD_INSTANCE_COUNT", VStr count);
                     (lit "INSTRUCTIONS_COUNT:MEAN", VInt mean); (lit "INSTRUCTIONS_COUNT:DISPERSION", VStr (py_fixed2 cv))] key).

(** The variables [counter], [dump_data] and [trace_list], and the methods, whose table grows. *)
Record out_state := mkOut {
  counter : Z;
  dump_data : list (str * gmap str str);
  trace_list : list Trace;
  out_methods : methods;
}.

(** One turn of the inner loop; [upto] is the path up to and including the context. *)
Definition output_context (context_manager : manager) (upto : list PyCtx) (c : PyCtx) (s : out_state) : option out_state :=
  let metrics := pc_metrics c in
  if bool_decide (metrics = ∅) then Some s else
  count ← metrics !! COUNT; n ← py_int count;
  '(positions, d) ← src_positions context_manager upto (out_methods s);
  let key := join [c_newline] positions in
  start_list ← metrics !! metric "Start"; let start_list := py_split start_list in
  end_list ← metrics !! metric "End"; let end_list := py_split end_list in
  traces ← mapM (one_trace metrics key start_list end_list) (seq 0 (length start_list));
  Some (mkOut (counter s + n) (dump_data s ++ [(key, metrics)]) (trace_list s ++ traces) d).

Fixpoint output_path (context_manager : manager) (before rest : list PyCtx) (s : out_state) : option out_state :=
  match rest with
  | [] => Some s
  | c :: rest => s ← output_context context_manager (before ++ [c]) c s; output_path context_manager (before ++ [c]) rest s
  end.
Fixpoint output_paths (context_manager : manager) (ps : list (list PyCtx)) (s : out_state) : option out_state :=
  match ps with
  | [] => Some s
  | p :: ps => s ← output_path context_manager [] p s; output_paths context_manager ps s
  end.

Definition output_to_file (set_order : gset str -> list str) (fuel : nat) (method_manager : methods) (context_manager : manager)
  : option out_state :=
  ps ← getAllPaths set_order fuel (cm_dict context_manager) (lit "0");
  output_paths context_manager ps (mkOut 0 [] [] method_manager).
End output.

(** ** Paths are listed once *)
Section once.
Context (set_order : gset str -> list str) (d : gmap str PyCtx).
Hypothesis set_order_perm : forall s, set_order s ≡ₚ elements s.
Hypothesis d_ids : forall i x, d !! i = Some x -> pc_id x = i.

Lemma getAllPaths_head fuel i ps p : getAllPaths set_order fuel d i = Some ps -> p ∈ ps ->
  exists x p', p = x :: p' /\ d !! i = Some x.
Proof.
  destruct fuel as [|fuel]; [done|]. cbn [getAllPaths]. destruct (d !! i) as [x|] eqn:Ex; [|done]. cbn [mbind option_bind].
  case_bool_decide; [intros [= <-] ->%list_elem_of_singleton; by exists x, []|].
  destruct (mapM _ _) as [pss|]; [|done]. intros [= <-] (p' & -> & _)%list_elem_of_fmap. by exists x, p'.
Qed.

(** Lists for different elements, told apart by [g]. *)
Lemma NoDup_concat {A B} (f : A -> option (list B)) (g : B -> A) l : forall ls,
  NoDup l -> mapM f l = Some ls -> (forall a bs, a ∈ l -> f a = Some bs -> NoDup bs /\ forall b, b ∈ bs -> g b = a) ->
  NoDup (concat ls) /\ forall b, b ∈ concat ls -> g b ∈ l.
Proof.
  induction l as [|a l IH]; intros ls Hnd E Hf; cbn in E.
  { injection E as <-. split; [constructor|]. by intros b ?%not_elem_of_nil. }
  apply NoDup_cons in Hnd as [Ha Hnd]. destruct (f a) as [bs|] eqn:Ea; [|done]. cbn in E.
  destruct (mapM f l) as [ls'|] eqn:El; [|done]. injection E as <-. cbn [concat].
  destruct (IH ls' Hnd eq_refl) as [Hnd' Hg]; [intros; apply Hf; [by right|done]|].
  destruct (Hf a bs) as [Hbs Hga]; [by left|done|]. split.
  - apply NoDup_app. split_and!; [done| |done]. intros b Hb Hb'. apply Ha. rewrite <- (Hga b Hb). by apply Hg.
  - intros b [Hb|Hb]%elem_of_app; [rewrite (Hga b Hb); by left|right; by apply Hg].
Qed.

Lemma getAllPaths_NoDup fuel : forall i ps, getAllPaths set_order fuel d i = Some ps -> NoDup ps.
Proof.
  induction fuel as [|fuel IH]; intros i ps; [done|]. cbn [getAllPaths]. destruct (d !! i) as [x|] eqn:Ex; [|done]. cbn [mbind option_bind].
  case_bool_decide; [intros [= <-]; apply NoDup_singleton|].
  destruct (mapM _ _) as [pss|] eqn:Em; [|done]. intros [= <-]. apply (NoDup_fmap_2 (cons x)).
  apply (NoDup_concat _ (fun p => match p with y :: _ => pc_id y | [] => [] end) _ _) in Em; [by destruct Em| |].
  - rewrite set_order_perm. apply NoDup_elements.
  - intros j qs _ Eq. split; [by eapply IH|]. intros q Hq. destruct (getAllPaths_head _ _ _ _ Eq Hq) as (y & q' & -> & Hy).
    by apply d_ids.
Qed.
End once.

(** ** Texts *)
Lemma lit_app a b : lit (a +:+ b) = lit a ++ lit b.
Proof. unfold lit. induction a as [|c a IH]; [done|]. exact (f_equal (cons c) IH). Qed.

Lemma space_in c : bool_decide (c ∈ spaces) = true -> c ∈ spaces.
Proof. apply bool_decide_eq_true_1. Qed.

Lemma digit_not_space c : isdigit c = true -> c ∉ spaces.
Proof. intros Hd Hin. apply (bool_decide_eq_true_2 (c ∈ spaces)) in Hin. by destruct c as [[] [] [] [] [] [] [] []]. Qed.

(** The text of a 64-bit number is its digits. *)
Lemma to_string_dec x : lit (to_string x) = dec (u64 x).
Proof.
  unfold to_string, dec. pose proof (wrap_range 64 x ltac:(lia)) as Hr. change (wrap 64 x) with (u64 x) in Hr.
  destruct (u64 x) as [|p|p]; [reflexivity..|lia].
Qed.
Lemma u64_nonneg x : 0 <= u64 x.
Proof. apply (wrap_range 64 x). lia. Qed.

Lemma py_int_dec z : 0 <= z -> py_int (dec z) = Some z.
Proof.
  intros Hz. destruct (dec_digits z Hz) as (Hd & Hv & Hne). pose proof (py_int_digits false (dec z) Hne Hd) as E. cbn [app] in E.
  by rewrite E, Hv.
Qed.

Lemma interval_texts xs : py_split (lit (interval_text xs)) = map (fun x => dec (u64 x)) xs.
Proof.
  unfold py_split. induction xs as [|x xs IH]; cbn [map interval_text]; [done|].
  rewrite !lit_app, <- app_assoc, to_string_dec. destruct (dec_digits (u64 x) (u64_nonneg x)) as (Hd & _ & Hne).
  rewrite tokens_token; [f_equal| |apply Forall_forall|].
  - rewrite tokens_skip; [done|]. change (lit " ") with [" "%char]. constructor; [|constructor]. apply space_in. reflexivity.
  - done.
  - intros c Hc. apply digit_not_space. rewrite forallb_forall in Hd. apply Hd. by apply list_elem_of_In.
  - cbn. intros Hn. apply Hn, space_in. reflexivity.
Qed.

Lemma interval_text_nonempty xs : xs <> [] -> interval_text xs <> "".
Proof.
  destruct xs as [|x xs]; [done|]. intros _ E. apply (f_equal lit) in E. cbn [interval_text] in E. rewrite !lit_app, to_string_dec in E.
  destruct (dec_digits (u64 x) (u64_nonneg x)) as (_ & _ & Hne). by destruct (dec (u64 x)).
Qed.

(** ** The table of a context's metrics *)
Definition info_key (i : metric_info_t) : str := lit (event_name i) ++ lit ":" ++ lit (event_measure i).

(** What is in front of the last separator. *)
Lemma last_separator (c : ascii) m m' : c ∉ m -> c ∉ m' -> forall x y, x ++ c :: m = y ++ c :: m' -> x = y /\ m = m'.
Proof.
  intros Hm Hm'. induction x as [|d x IH]; intros [|e y] E; cbn in E.
  - by injection E as ->.
  - injection E as _ E. exfalso. apply Hm. rewrite E, elem_of_app. right. by left.
  - injection E as _ E. exfalso. apply Hm'. rewrite <- E, elem_of_app. right. by left.
  - injection E as -> E. by destruct (IH y E) as [-> ->].
Qed.

(** The measures contain no colon, so that a key says which event and which measure it is for. *)
Definition c_colon : ascii := ":"%char.
Lemma key_event a b m m' : c_colon ∉ lit m -> c_colon ∉ lit m' ->
  lit a ++ lit ":" ++ lit m = lit b ++ lit ":" ++ lit m' -> lit a = lit b /\ lit m = lit m'.
Proof. intros Hm Hm'. by apply (last_separator c_colon). Qed.

Lemma lit_inj a b : lit a = lit b -> a = b.
Proof.
  intros E. rewrite <- (String.string_of_list_ascii_of_string a), <- (String.string_of_list_ascii_of_string b). unfold lit in E. by rewrite E.
Qed.

Definition measures : list string := ["COUNT"; "Start"; "End"; "MEAN"; "VARIANCE"; "M2"; "CV"].
Lemma measure_plain m : m ∈ measures -> c_colon ∉ lit m.
Proof.
  intros Hm Hc. unfold measures in Hm. apply (bool_decide_eq_true_2 (c_colon ∈ lit m)) in Hc.
  repeat (apply elem_of_cons in Hm as [->|Hm]; [discriminate Hc|]). by apply not_elem_of_nil in Hm.
Qed.

Lemma infos_from client k ev th i : i ∈ infos client k ev th -> event_name i = ev /\ event_measure i ∈ measures.
Proof.
  unfold infos, measures. destruct k; intros Hi; repeat (apply elem_of_cons in Hi as [->|Hi]; [split; [done|set_solver]|]);
    by apply not_elem_of_nil in Hi.
Qed.

Lemma infos_keys client k ev th : NoDup (map info_key (infos client k ev th)).
Proof.
  assert (map info_key (infos client k ev th) =
    map (fun m => lit ev ++ lit ":" ++ lit m) (map event_measure (infos client k ev th))) as -> by (by destruct k).
  apply NoDup_fmap_2_strong.
  - intros m m' (a & -> & [_ Hm]%infos_from)%list_elem_of_fmap (b & -> & [_ Hm']%infos_from)%list_elem_of_fmap E.
    by apply key_event in E as [_ E%lit_inj]; [|apply measure_plain..].
  - destruct k; apply (bool_decide_eq_true_1 (NoDup _)); reflexivity.
Qed.

Lemma all_infos_from client events i : i ∈ all_infos client events -> event_name i ∈ map fst events /\ event_measure i ∈ measures.
Proof.
  intros (l & [j Hj]%list_elem_of_In%list_elem_of_lookup & Hi%list_elem_of_In)%list_elem_of_In%in_concat.
  rewrite list_lookup_imap in Hj. destruct (events !! j) as [[ev th]|] eqn:Ej; [|done]. injection Hj as <-.
  apply infos_from in Hi as [-> Hm]. split; [|done]. apply list_elem_of_fmap. exists (ev, th). split; [done|by eapply list_elem_of_lookup_2].
Qed.

Lemma all_infos_keys client events : NoDup (map fst events) -> NoDup (map info_key (all_infos client events)).
Proof.
  unfold all_infos. intros Hnd.
  assert (forall n, NoDup (map info_key (concat (imap (fun k e => infos client (n + k) e.1 e.2) events))) /\
    forall i, i ∈ concat (imap (fun k e => infos client (n + k) e.1 e.2) events) -> event_name i ∈ map fst events /\ event_measure i ∈ measures) as Hall.
  { induction events as [|[ev th] events IH]; intros n; [split; [constructor|by intros i ?%not_elem_of_nil]|].
    cbn [map fst] in Hnd. apply NoDup_cons in Hnd as [Hev Hnd]. rewrite imap_cons. cbn [concat fst snd].
    destruct (IH Hnd (S n)) as [Hnd' Hin]. rewrite (imap_ext _ (fun k e => infos client (S n + k) e.1 e.2)) by (intros k e _; cbn; by rewrite Nat.add_succ_r).
    split.
    - rewrite map_app. apply NoDup_app. split_and!; [apply infos_keys| |done].
      intros k (a & -> & [Ea Ma]%infos_from)%list_elem_of_fmap (b & E & [Eb Mb]%Hin)%list_elem_of_fmap.
      apply key_event in E as [E%lit_inj _]; [|by apply measure_plain..]. apply Hev. by rewrite <- Ea, E.
    - intros i [[Ei Mi]%infos_from|[Ei Mi]%Hin]%elem_of_app; (split; [|done]); [rewrite Ei; by left|by right]. }
  apply (Hall 0%nat).
Qed.

Lemma all_infos_length client events : (0 < length events <= 5)%nat -> length (all_infos client events) = (6 * length events - 5)%nat.
Proof. unfold all_infos. intros Hl. do 6 (destruct events as [|[] events]; [cbn in *; lia|]). cbn in Hl. lia. Qed.

Section table.
Context {D : Type} (show_double : D -> str) (infos : list metric_info_t).
Hypothesis keys : NoDup (map info_key infos).

Lemma metric_table_other vals : forall i j info d, infos !! j = Some info -> (j < i)%nat ->
  metric_table show_double infos i vals d !! info_key info = d !! info_key info.
Proof.
  induction vals as [|v vals IH]; intros i j info d Hj Hlt; cbn [metric_table]; [done|].
  destruct (infos !! i) as [inf|] eqn:Ei; [|done]. rewrite (IH (S i) j) by (done || lia). apply lookup_insert_ne.
  intros E. assert (i = j); [|lia]. eapply NoDup_lookup; [exact keys| |]; rewrite list_lookup_fmap; [by rewrite Ei|].
  rewrite Hj. cbn. f_equal. symmetry. exact E.
Qed.

Lemma metric_table_at vals : forall i j info d v, infos !! (i + j)%nat = Some info -> vals !! j = Some v ->
  (i + length vals <= length infos)%nat ->
  metric_table show_double infos i vals d !! info_key info = Some (metric_value show_double v).
Proof.
  induction vals as [|w vals IH]; intros i j info d v Hj Hv Hl; [done|]. cbn [metric_table length] in *.
  destruct (lookup_lt_is_Some_2 infos i) as [inf Ei]; [lia|]. rewrite Ei. destruct j as [|j].
  - rewrite Nat.add_0_r in Hj. assert (inf = info) as -> by congruence. injection Hv as ->.
    rewrite (metric_table_other _ (S i) i) by (done || lia). apply lookup_insert_eq.
  - apply (IH (S i) j); [by rewrite Nat.add_succ_comm|done|lia].
Qed.
End table.

(** ** Source positions do not depend on what was asked before *)
Section positions.
Context {T : Type} `{RBTreeLaws T}.
Abbreviation methods := (gmap str (PyMethod T)).

Lemma queryTree_total (tree : T) p : is_Some (queryTree tree p).
Proof.
  unfold queryTree. destruct (is_empty tree) eqn:Em; [by eexists|]. destruct (not_empty tree Em) as [k Hk].
  destruct (min_spec tree k Hk) as (k1 & v1 & -> & Hk1 & _). cbn [mbind option_bind]. case_match; [by eexists|].
  destruct (floor_spec tree p k1) as (k2 & [e2 d2] & -> & _); [by eexists|lia|]. by eexists.
Qed.

(** The methods of a table are under their keys, and their versions are plain. *)
Definition table_ok (d : methods) : Prop :=
  forall k p, d !! k = Some p -> k = method_key (pm_id p) (pm_version p) /\ c_hash ∉ pm_version p.

Lemma method_key_inj p q v w : c_hash ∉ v -> c_hash ∉ w -> method_key p v = method_key q w -> p = q /\ v = w.
Proof. intros Hv Hw. by apply (last_separator c_hash). Qed.

(** The copies that were made change no answer. *)
Definition same_answers (d0 d : methods) : Prop :=
  table_ok d /\ forall id v, c_hash ∉ v -> (manager_getMethod id v d).1 = (manager_getMethod id v d0).1.

Lemma getMethod_same id v d0 d : c_hash ∉ v -> same_answers d0 d -> same_answers d0 (manager_getMethod id v d).2.
Proof.
  intros Hv [Hd Hs]. unfold manager_getMethod at 1. destruct (d !! method_key id v) as [p|] eqn:Ek; [done|].
  case_bool_decide as Ev; [done|]. destruct (decide (v = lit "0")) as [->|?]; [|tauto].
  destruct (d !! method_key id (lit "1")) as [cand|] eqn:Ec; [|done]. cbn [snd].
  destruct (Hd _ _ Ec) as [Ekey Hver]. apply method_key_inj in Ekey as [-> _]; [|by apply (bool_decide_eq_true_1 (c_hash ∉ lit "1"))|done].
  unfold manager_addMethod. change (pm_id (interpreted_copy cand)) with (pm_id cand).
  change (pm_version (interpreted_copy cand)) with (lit "0"). rewrite Ek. split.
  - intros k p [[<- <-]|[_ Hk]]%lookup_insert_Some; [|by apply Hd]. split; [done|exact Hv].
  - intros id' v' Hv'. rewrite <- Hs by done. unfold manager_getMethod.
    destruct (decide (method_key (pm_id cand) (lit "0") = method_key id' v')) as [E|E].
    + rewrite <- E, lookup_insert_eq, Ek. apply method_key_inj in E as [<- <-]; [|done|done].
      rewrite bool_decide_false by tauto. by rewrite Ec.
    + rewrite lookup_insert_ne by done. destruct (d !! method_key id' v'); [done|]. case_bool_decide; [done|].
      rewrite lookup_insert_ne; [by destruct (d !! method_key id' (lit "1"))|]. intros E'. by apply method_key_inj in E' as [_ ?]; [|exact Hv|apply (bool_decide_eq_true_1 (c_hash ∉ lit "1"))].
Qed.

(** The position of a frame, by its key. *)
Definition position (d : methods) (k : Z * Z * Z * Z) : str :=
  let '(bci, method_id, binary_addr, method_version) := k in
  match (manager_getMethod (show_ptr method_id) (show_int method_version) d).1 with
  | Some p =>
      let line := if binary_addr =? 0 then py_bci2line (show_int bci) p else py_addr2line (show_int binary_addr) p in
      src_text (Some (pm_class p)) (Some (pm_name p)) (Some (pm_file p)) (default None line)
  | None => src_text None None None None
  end.

Lemma show_int_hash z : c_hash ∉ show_int z.
Proof.
  destruct (show_int_split z) as (neg & s & -> & _ & Hd & _). rewrite elem_of_app. intros [Hc|Hc].
  - destruct neg; [by apply list_elem_of_singleton in Hc|by apply not_elem_of_nil in Hc].
  - rewrite forallb_forall in Hd. apply list_elem_of_In, Hd in Hc. discriminate Hc.
Qed.

(** What the reader knows of a frame. *)
Definition frame_read (f : ContextFrame) (x : PyCtx) : Prop :=
  py_attr "method_id" (pc_obj x) = Some (show_ptr (method_id f)) /\
  py_attr "method_version" (pc_obj x) = Some (show_int (method_version f)) /\
  py_attr "binary_addr" (pc_obj x) = Some (show_int (binary_addr f)) /\ py_attr "bci" (pc_obj x) = Some (show_int (bci f)).

Lemma getSrcPosition_ok m x f d0 d :
  frame_read f x -> pc_id x ∉ cm_roots m -> same_answers d0 d ->
  exists d', getSrcPosition m x d = Some (position d0 (frame_key f), d') /\ same_answers d0 d'.
Proof.
  intros (Ei & Ev & Ea & Eb) Hroot Hs. unfold getSrcPosition. rewrite bool_decide_false by done.
  rewrite Ei, Ev, Ea. cbn [mbind option_bind frame_key position].
  pose proof (getMethod_same (show_ptr (method_id f)) (show_int (method_version f)) d0 d (show_int_hash _) Hs) as Hs'.
  pose proof (proj2 Hs (show_ptr (method_id f)) _ (show_int_hash (method_version f))) as E1. rewrite <- E1. clear E1.
  destruct (manager_getMethod _ _ d) as [r d']. cbn [fst snd] in *. exists d'. split; [|done].
  destruct (Z.eqb_spec (binary_addr f) 0) as [E0|E0].
  - rewrite E0, bool_decide_true by done. cbn [negb]. destruct r as [p|]; [|done]. rewrite Eb. cbn [mbind option_bind].
    unfold py_bci2line. rewrite str2int_show. cbn [mbind option_bind].
    destruct (queryTree_total (bci2line_tree p) (bci f)) as [q ->]. done.
  - rewrite bool_decide_false. 2: { intros [= E]. apply E0. by apply (show_int_inj _ 0). }
    cbn [negb]. rewrite py_int_show. destruct r as [p|]; [|done]. cbn [mbind option_bind].
    unfold py_addr2line. rewrite str2int_show. cbn [mbind option_bind].
    destruct (queryTree_total (addr2line_tree p) (binary_addr f)) as [q ->]. done.
Qed.

Lemma src_positions_snoc m l x d : src_positions m (l ++ [x]) d =
  ('(ss, d) ← src_positions m l d; '(s, d) ← getSrcPosition m x d; Some (ss ++ [s], d)).
Proof.
  revert d. induction l as [|y l IH]; intros d; cbn [app src_positions].
  - cbn [mbind option_bind]. by destruct (getSrcPosition m x d) as [[s d']|].
  - destruct (getSrcPosition m y d) as [[s d1]|]; [|done]. cbn [mbind option_bind]. rewrite IH.
    destruct (src_positions m l d1) as [[ss d2]|]; [|done]. cbn [mbind option_bind].
    by destruct (getSrcPosition m x d2) as [[s' d3]|].
Qed.
End positions.

Lemma load_method_table {T : Type} `{RBTree T} (xs : list PyObj) : forall d d' : gmap str (PyMethod T),
  Forall (fun x => forall v, py_attr "version" x = Some v -> c_hash ∉ v) xs -> table_ok d -> load_method xs d = Some d' -> table_ok d'.
Proof.
  induction xs as [|x xs IH]; intros d d' Hx Hd E; cbn [load_method] in E; [by injection E as <-|].
  apply Forall_cons in Hx as [Hv Hx]. destruct (load_one x) as [p|] eqn:Ep; [|done]. cbn [mbind option_bind] in E.
  apply (IH _ _ Hx) in E; [done|]. unfold manager_addMethod. destruct (d !! _); [done|].
  intros k q [[<- <-]|[_ Hk]]%lookup_insert_Some; [|by apply Hd]. split; [done|].
  unfold load_one in Ep. destruct (py_attr "version" x) as [v|] eqn:Ev; simplify_option_eq. case_match. simplify_option_eq. by apply Hv.
Qed.

(** ** The rows of a thread *)
Section rows.
Context {D : Type} `{DoubleOps D} (d_sqrt : D -> D) (show_double : D -> str).
Context {T : Type} `{RBTreeLaws T} {F : Type} `{PyFloat F}.
(** What a printed number is read as. *)
Context (to_float : D -> F).
Hypothesis float_read : forall x, py_float (show_double x) = Some (to_float x).

(** The events: calls, and at position [k] instructions. *)
Context (client : string) (events : list (string * Z)) (wm : watermarks) (infos : list metric_info_t) (k : nat) (th0 th : Z).
Hypothesis set_up : setup_all client events (no_watermarks, []) = RET (wm, infos).
Hypothesis event_count : (length events <= 5)%nat.
Hypothesis event_names : NoDup (map fst events).
Hypothesis calls_event : events !! 0%nat = Some ("BR_INST_RETIRED.NEAR_CALL"%string, th0).
Hypothesis instructions_event : events !! k = Some ("PERF_COUNT_HW_INSTRUCTIONS"%string, th) /\ (0 < k)%nat.

Abbreviation event_of := (event_recorded d_sqrt k).
Abbreviation whole := (fully_recorded d_sqrt wm (Z.of_nat (length infos))).
Abbreviation recorded_calls calls := (recorded d_sqrt wm (Z.of_nat (length infos)) calls (fun _ => calls)).

Lemma infos_are : infos = all_infos client events /\ setup_inv (length events) wm.
Proof.
  destruct (setup_all_spec client events event_count) as (w & E & Hw). rewrite set_up in E. by injection E as -> ->.
Qed.

Lemma info_at : infos !! 0%nat = Some (mkInfo client "BR_INST_RETIRED.NEAR_CALL" "COUNT" (u32 th0) METRIC_VAL_INT).
Proof.
  destruct infos_are as [-> _]. unfold all_infos. destruct events as [|e es]; [done|]. injection calls_event as ->. done.
Qed.
Lemma infos_at j i : (j < 6)%nat -> Metrics.infos client 1 "PERF_COUNT_HW_INSTRUCTIONS" th !! j = Some i ->
  infos !! (6 * k - 5 + j)%nat = Some i.
Proof.
  intros Hj Hi. destruct infos_are as [-> _], instructions_event as [Ek Hk].
  rewrite (all_infos_lookup client events k j _ th Ek Hk Hj). by destruct k; [lia|].
Qed.

(** What the reader's table has of a context whose metrics are those of whole calls. *)
Record call_table (m : ContextMetrics D) (ivs : list (Z * Z)) (metrics : gmap str str) : Prop := {
  tab_count : metrics !! COUNT = Some (dec (Z.of_nat (length ivs)));
  tab_start : metrics !! metric "Start" = Some (lit (interval_text (map fst ivs)));
  tab_end : metrics !! metric "End" = Some (lit (interval_text (map iv_stop ivs)));
  tab_mean : metrics !! metric "MEAN" = Some (show_double (w_mean (stats ivs)));
  tab_cv : metrics !! metric "CV" = Some (show_double (cv_of d_sqrt (stats ivs)));
}.

Lemma recorded_table m : whole m ->
  exists ivs, recorded_calls (length ivs) m /\ event_of ivs m /\
    (Z.of_nat (length ivs) < 2 ^ 63 -> call_table m ivs (metric_table show_double infos 0 m ∅)).
Proof.
  intros (calls & Hpos & Hrec). pose proof Hrec as [Hc He Hl]. destruct infos_are as [Einf (Hcur & _)], instructions_event as [Ek Hk].
  destruct (He k) as (ivs & Hlen & Hev).
  { unfold watermark_ids. rewrite Hcur, Nat2Z.id. apply list_elem_of_In, in_seq. apply lookup_lt_Some in Ek. lia. }
  exists ivs. rewrite Hlen. split_and!; [done|done|]. intros Hsmall.
  assert (Hiv : ivs <> []) by (intros ->; cbn in Hlen; lia).
  pose proof (er_length _ _ _ _ Hev Hiv) as Hlm. assert (Hkeys : NoDup (map info_key infos)) by (rewrite Einf; by apply all_infos_keys).
  assert (Hat : forall j info v, infos !! j = Some info -> (j <= 6 * k)%nat -> val_at m (Z.of_nat j) = v ->
    metric_table show_double infos 0 m ∅ !! info_key info = Some (metric_value show_double v)).
  { intros j info v Hj Hjk <-. apply metric_table_at with j; [done|done| |lia]. unfold val_at. rewrite Nat2Z.id.
    by destruct (lookup_lt_is_Some_2 m j ltac:(lia)) as [v ->]. }
  destruct (er_stats _ _ _ _ Hev) as (w & Hw & Hmean & _ & _ & Hcv). assert (w = stats ivs) as -> by (apply Hw; lia). split.
  - etrans; [exact (Hat _ _ _ info_at ltac:(lia) eq_refl)|]. change (Z.of_nat 0) with 0. unfold metric_value. rewrite (proj1 Hc), Hlen. unfold i64.
    rewrite swrap_small by lia. by rewrite (proj2 (Z.eqb_neq _ 0)) by lia.
  - etrans; [refine (Hat _ _ (str_val (interval_text (map fst ivs))) (infos_at 0 _ ltac:(lia) eq_refl) ltac:(lia) _)|].
    + rewrite <- (er_start _ _ _ _ Hev). f_equal. lia.
    + unfold metric_value. cbn. rewrite bool_decide_false; [done|]. apply interval_text_nonempty. by destruct ivs.
  - etrans; [refine (Hat _ _ (str_val (interval_text (map iv_stop ivs))) (infos_at 1 _ ltac:(lia) eq_refl) ltac:(lia) _)|].
    + rewrite <- (er_end _ _ _ _ Hev). f_equal. lia.
    + unfold metric_value. cbn. rewrite bool_decide_false; [done|]. apply interval_text_nonempty. by destruct ivs.
  - etrans; [refine (Hat _ _ (real_val (w_mean (stats ivs))) (infos_at 2 _ ltac:(lia) eq_refl) ltac:(lia) _)|done].
    rewrite <- Hmean. f_equal. lia.
  - etrans; [refine (Hat _ _ (real_val (cv_of d_sqrt (stats ivs))) (infos_at 5 _ ltac:(lia) eq_refl) ltac:(lia) _)|done].
    rewrite <- (Hcv Hiv). f_equal. lia.
Qed.

(** The trace of one call of a context. *)
Definition call_trace (key : str) (calls : nat) (mean : Z) (cv : F) (iv : Z * Z) : Trace :=
  mkTrace (u64 iv.1) (iv_stop iv)
    [(lit "INSTRUCTIONS_COUNT:TOTAL", VInt (Z.of_nat calls * mean)); (lit "METHOD_INSTANCE_COUNT", VStr (dec (Z.of_nat calls)));
     (lit "INSTRUCTIONS_COUNT:MEAN", VInt mean); (lit "INSTRUCTIONS_COUNT:DISPERSION", VStr (py_fixed2 cv))] key.

Lemma mapM_seq_map {A B} (f : nat -> option B) (g : A -> B) (l : list A) :
  (forall j a, l !! j = Some a -> f j = Some (g a)) -> mapM f (seq 0 (length l)) = Some (map g l).
Proof.
  intros Hf. apply mapM_Some. apply Forall2_same_length_lookup. split; [by rewrite length_seq, length_map|].
  intros i j b Hj Hb. apply lookup_seq in Hj as [-> _]. rewrite list_lookup_fmap in Hb.
  destruct (l !! i) as [a|] eqn:E; [|done]. cbn in Hb. injection Hb as <-. by apply Hf.
Qed.

Lemma context_traces m ivs metrics mean key : call_table m ivs metrics -> py_round (to_float (w_mean (stats ivs))) = Some mean ->
  mapM (one_trace metrics key (py_split (lit (interval_text (map fst ivs)))) (py_split (lit (interval_text (map iv_stop ivs)))))
    (seq 0 (length (py_split (lit (interval_text (map fst ivs)))))) =
  Some (map (call_trace key (length ivs) mean (to_float (cv_of d_sqrt (stats ivs)))) ivs).
Proof.
  intros [Hc _ _ Hm Hcv] Hmean. rewrite !interval_texts, !length_map. apply mapM_seq_map. intros j iv Hj.
  unfold one_trace. rewrite !list_lookup_fmap, Hj. cbn [fmap option_fmap option_map mbind option_bind].
  rewrite !py_int_dec by apply u64_nonneg. cbn [mbind option_bind]. rewrite Hc. cbn [mbind option_bind].
  rewrite py_int_dec by lia. cbn [mbind option_bind]. rewrite Hm. cbn [mbind option_bind]. rewrite float_read. cbn [mbind option_bind].
  rewrite Hmean. cbn [mbind option_bind]. rewrite Hcv. cbn [mbind option_bind]. rewrite float_read. cbn [mbind option_bind].
  unfold call_trace. do 2 f_equal. unfold iv_stop, u64. apply wrap_wrap.
Qed.

(** *** The paths of a tree that was read back *)
Section tree.
Context (t : ContextTree (M := ContextMetrics D)) (cs : list nat) (m : manager).
Hypothesis Htree : call_tree (fun _ => whole) t.
Hypothesis roots : cm_roots m = {[lit "0"]}.
(** No counter has wrapped, and every mean is a number. *)
Hypothesis calls_fit : forall c n ms calls, heap t !! c = Some n -> n_metrics n = Some ms -> recorded_calls calls ms ->
  Z.of_nat calls < 2 ^ 63.
Hypothesis means_fit : forall c n ms, heap t !! c = Some n -> n_metrics n = Some ms ->
  is_Some (py_round (to_float (m_r (val_at ms (6 * Z.of_nat k - 3))))).
Abbreviation entry := (Offline.entry show_double infos t cs m).

(** The nodes from the root to [c]. *)
Inductive walk_to : list nat -> list (Z * Z * Z * Z) -> nat -> Prop :=
  | walk_root : walk_to [tree_root t] [] (tree_root t)
  | walk_step l ks c d dn : walk_to l ks c -> heap t !! d = Some dn -> n_parent dn = Some c ->
      walk_to (l ++ [d]) (ks ++ [frame_key (n_frame dn)]) d.

Let Ht : tree_ok t := ct_ok _ _ Htree.

Lemma parent_lists c d dn : heap t !! d = Some dn -> n_parent dn = Some c -> d <> tree_root t /\
  exists cn, heap t !! c = Some cn /\ d ∈ n_children cn.
Proof.
  intros Hd Hp. assert (d <> tree_root t) as Hne.
  { intros ->. destruct (ok_root t Ht) as (r & Hr & _ & Hn). congruence. }
  split; [done|]. destruct (ok_parent t Ht d dn Hd Hne) as (p & pn & Hpp & Hpn & Hch). exists pn. split; congruence.
Qed.

Lemma walk_path l ks c : walk_to l ks c -> has_path t c ks.
Proof.
  induction 1 as [|l ks c d dn _ IH Hd Hp]; [constructor|]. destruct (parent_lists c d dn Hd Hp) as (_ & cn & Hc & Hch).
  by eapply path_step.
Qed.

Lemma entry_frame c x : entry c x -> exists n, heap t !! c = Some n /\ frame_read (n_frame n) x /\ pc_id x = show_int (n_id n).
Proof.
  intros (n & Hn & _ & Hid & _ & (n' & Hn' & _ & _ & Hm & Hv & Ha & Hb & _) & _). assert (n' = n) as -> by congruence. exists n. by split_and!.
Qed.

Lemma not_root c x : entry c x -> c <> tree_root t -> pc_id x ∉ cm_roots m.
Proof.
  intros (n & Hn & _ & Hid & _)  Hne. rewrite roots, Hid, elem_of_singleton. intros E. apply Hne.
  destruct (ok_root t Ht) as (r & Hr & Hr0 & _). apply (id_inj t Ht c (tree_root t) n r); [done..|]. by rewrite Hr0.
Qed.

Lemma is_root x : entry (tree_root t) x -> pc_id x ∈ cm_roots m.
Proof.
  intros (n & Hn & _ & Hid & _). destruct (ok_root t Ht) as (r & Hr & Hr0 & _). assert (n = r) as -> by congruence.
  rewrite roots, Hid, Hr0. by apply elem_of_singleton.
Qed.

(** The key of a row: the source positions of the frames on the path, one on a line. *)
Definition path_text (d : gmap str (PyMethod T)) (ks : list (Z * Z * Z * Z)) : str := join [c_newline] ([] :: map (position d) ks).

Lemma positions_ok d0 l ks c : walk_to l ks c -> forall p d, Forall2 entry l p -> same_answers d0 d ->
  exists d', src_positions m p d = Some ([] :: map (position d0) ks, d') /\ same_answers d0 d'.
Proof.
  induction 1 as [|l ks c d dn _ IH Hd Hp]; intros p dm Hlp Hs.
  - apply Forall2_cons_inv_l in Hlp as (x & p' & Hx & ->%Forall2_nil_inv_l & ->). exists dm. split; [|done]. cbn [src_positions].
    unfold getSrcPosition. rewrite bool_decide_true by by apply is_root. done.
  - apply Forall2_app_inv_l in Hlp as (p1 & p2 & Hp1 & Hp2 & ->).
    apply Forall2_cons_inv_l in Hp2 as (x & p' & Hx & ->%Forall2_nil_inv_l & ->).
    destruct (IH p1 dm Hp1 Hs) as (d1 & E1 & Hs1). destruct (entry_frame d x Hx) as (n & Hn & Hf & _).
    assert (n = dn) as -> by congruence. destruct (parent_lists c d dn Hd Hp) as [Hne _].
    destruct (getSrcPosition_ok m x (n_frame dn) d0 d1 Hf (not_root d x Hx Hne) Hs1) as (d2 & E2 & Hs2).
    exists d2. split; [|done]. rewrite src_positions_snoc, E1. cbn [mbind option_bind]. rewrite E2. cbn [mbind option_bind].
    by rewrite map_app.
Qed.

(** The rows of the context [c]. *)
Definition traced (d0 : gmap str (PyMethod T)) (c : nat) (rows : list Trace) (row : str * gmap str str) : Prop :=
  exists n ms ks ivs mean, heap t !! c = Some n /\ n_metrics n = Some ms /\ has_path t c ks /\
    m_i (val_at ms 0) = Z.of_nat (length ivs) /\ event_of ivs ms /\ py_round (to_float (w_mean (stats ivs))) = Some mean /\
    rows = map (call_trace (path_text d0 ks) (length ivs) mean (to_float (cv_of d_sqrt (stats ivs)))) ivs /\
    row = (path_text d0 ks, Offline.metrics_of show_double infos n).

Lemma no_metrics n : n_metrics n = None -> Offline.metrics_of show_double infos n = ∅.
Proof. unfold Offline.metrics_of. by intros ->. Qed.

(** A context with metrics gives its rows. *)
Lemma output_measured d0 lb ks c before x n ms s :
  walk_to (lb ++ [c]) ks c -> Forall2 entry lb before -> entry c x -> heap t !! c = Some n -> n_metrics n = Some ms ->
  same_answers d0 (out_methods s) ->
  exists s' rows row, output_context m (before ++ [x]) x s = Some s' /\ same_answers d0 (out_methods s') /\
    traced d0 c rows row /\ trace_list s' = trace_list s ++ rows /\ dump_data s' = dump_data s ++ [row].
Proof.
  intros Hw Hb Hx Hn Hms Hs. pose proof Hx as (n' & Hn' & _ & _ & Hme & _). assert (n' = n) as -> by congruence.
  destruct (recorded_table ms) as (ivs & Hrec & Hev & Htab); [by apply (ct_metrics _ _ Htree c n)|].
  pose proof (calls_fit c n ms _ Hn Hms Hrec) as Hfit. specialize (Htab Hfit).
  destruct (means_fit c n ms Hn Hms) as [mean Hmean].
  destruct (er_stats _ _ _ _ Hev) as (w & Hst & Hm & _). rewrite Hm, (Hst Hfit) in Hmean. cbn [m_r real_val] in Hmean.
  destruct (positions_ok d0 _ ks c Hw (before ++ [x]) (out_methods s)) as (d & Ep & Hd); [by apply Forall2_app; [|constructor]|done|].
  assert (Em : pc_metrics x = metric_table show_double infos 0 ms ∅) by (rewrite Hme; unfold Offline.metrics_of; by rewrite Hms).
  pose proof Htab as [Hcount Hstart Hend _ _]. pose proof (context_traces ms ivs _ mean (path_text d0 ks) Htab Hmean) as Etr.
  unfold output_context. rewrite Em. rewrite bool_decide_false by (intros E0; rewrite E0 in Hcount; done).
  rewrite Hcount. cbn [mbind option_bind]. rewrite py_int_dec by lia. cbn [mbind option_bind]. rewrite Ep. cbn [mbind option_bind].
  fold (path_text d0 ks). rewrite Hstart, Hend. cbn [mbind option_bind]. unfold mbind in Etr |- *. rewrite Etr. cbn [option_bind].
  eexists _, _, _. split; [reflexivity|]. cbn. split; [done|]. split; [|done].
  exists n, ms, ks, ivs, mean. split_and!; [done|done|by eapply walk_path| |done|done|done|].
  - rewrite (proj1 (rec_count _ _ _ _ _ _ Hrec)). unfold i64. apply swrap_small; lia.
  - by rewrite <- Em, Hme.
Qed.

Definition has_metrics (c : nat) : bool := match heap t !! c ≫= n_metrics with Some _ => true | None => false end.
(** The context that a path gives rows for. *)
Definition measured_last (l : list nat) : list nat :=
  match last l with Some c => if has_metrics c then [c] else [] | None => [] end.

Lemma output_unmeasured before c x n s : entry c x -> heap t !! c = Some n -> n_metrics n = None ->
  output_context m before x s = Some s.
Proof.
  intros (n' & Hn' & _ & _ & Hme & _) Hn Hms. assert (n' = n) as -> by congruence.
  unfold output_context. by rewrite Hme, no_metrics, bool_decide_true.
Qed.

(** What one step of the script adds: the rows of the contexts [l]. *)
Definition adds (d0 : gmap str (PyMethod T)) (l : list nat) (s s' : out_state (T := T)) : Prop :=
  same_answers d0 (out_methods s') /\ exists rowss rows, Forall3 (traced d0) l rowss rows /\
    trace_list s' = trace_list s ++ concat rowss /\ dump_data s' = dump_data s ++ rows.

Lemma adds_nothing d0 s : same_answers d0 (out_methods s) -> adds d0 [] s s.
Proof. intros Hs. split; [done|]. exists [], []. rewrite !app_nil_r. split_and!; [constructor|done..]. Qed.

Lemma adds_trans d0 l1 l2 s1 s2 s3 : adds d0 l1 s1 s2 -> adds d0 l2 s2 s3 -> adds d0 (l1 ++ l2) s1 s3.
Proof.
  intros [_ (rss1 & rs1 & HA & E1 & F1)] [Hs (rss2 & rs2 & HB & E2 & F2)]. split; [done|].
  exists (rss1 ++ rss2), (rs1 ++ rs2). rewrite E2, E1, F2, F1, concat_app, !app_assoc. split_and!; [by apply Forall3_app|done..].
Qed.

Lemma leaf_path_nonempty c l : leaf_path t cs c l -> exists l', l = c :: l'.
Proof. by destruct 1; eexists. Qed.

(** A path adds the rows of its last context, if that has metrics. *)
Lemma output_path_adds d0 d l : leaf_path t cs d l -> forall lb ks before p s,
  walk_to (lb ++ [d]) ks d -> Forall2 entry lb before -> Forall2 entry l p -> same_answers d0 (out_methods s) ->
  exists s', output_path m before p s = Some s' /\ adds d0 (measured_last l) s s'.
Proof.
  induction 1 as [c Hc Hleaf|c d dn l Hc Hd Hdn Hp Hl IH]; intros lb ks before p s Hw Hb Hlp Hs;
    apply Forall2_cons_inv_l in Hlp as (x & p' & Hx & Hlp & ->); cbn [output_path].
  - apply Forall2_nil_inv_l in Hlp as ->. pose proof Hx as (n & Hn & _). cbn [output_path]. unfold measured_last, has_metrics. cbn [last].
    rewrite Hn. cbn [mbind option_bind]. destruct (n_metrics n) as [ms|] eqn:Ems.
    + destruct (output_measured d0 lb ks c before x n ms s Hw Hb Hx Hn Ems Hs) as (s' & rows & row & E & Hs' & Htr & Et & Ed).
      exists s'. rewrite E. cbn [mbind option_bind]. split; [done|]. split; [done|]. exists [rows], [row].
      cbn [concat]. rewrite app_nil_r. split_and!; [by repeat constructor|done..].
    + rewrite (output_unmeasured _ c x n s) by done. cbn [mbind option_bind]. exists s. split; [done|by apply adds_nothing].
  - pose proof Hx as (n & Hn & _). assert (n_metrics n = None) as Hms.
    { destruct (parent_lists c d dn Hdn Hp) as (_ & cn & Hcn & Hch). assert (cn = n) as -> by congruence.
      destruct (n_metrics n) as [ms|] eqn:Ems; [|done]. rewrite (measured_leaf _ t c n ms Htree Hn Ems) in Hch.
      by apply not_elem_of_nil in Hch. }
    rewrite (output_unmeasured _ c x n s) by done. cbn [mbind option_bind].
    destruct (leaf_path_nonempty d l Hl) as [l' ->].
    destruct (IH (lb ++ [c]) (ks ++ [frame_key (n_frame dn)]) (before ++ [x]) p' s) as (s' & E & Ha).
    + by eapply walk_step.
    + apply Forall2_app; [done|by constructor].
    + done.
    + done.
    + exists s'. split; [done|]. exact Ha.
Qed.

Lemma output_paths_adds d0 ls ps : Forall2 (fun l p => leaf_path t cs (tree_root t) l /\ Forall2 entry l p) ls ps ->
  forall s, same_answers d0 (out_methods s) ->
  exists s', output_paths m ps s = Some s' /\ adds d0 (concat (map measured_last ls)) s s'.
Proof.
  induction 1 as [|l p ls ps [Hl Hlp] _ IH]; intros s Hs; [exists s; split; [done|by apply adds_nothing]|]. cbn [output_paths].
  destruct (output_path_adds d0 (tree_root t) l Hl [] [] [] p s) as (s1 & E1 & HA); [constructor|constructor|done|done|].
  rewrite E1. cbn [mbind option_bind]. destruct (IH s1) as (s2 & E2 & HB); [by apply HA|]. exists s2. split; [done|].
  cbn [map concat]. by eapply adds_trans.
Qed.

(** *** Every measured context, once *)
Lemma walk_fun l ks c : walk_to l ks c -> forall l' ks', walk_to l' ks' c -> l = l'.
Proof.
  induction 1 as [|l ks c d dn Hw IH Hd Hp]; intros l' ks' Hw'.
  - inversion Hw' as [|l2 ks2 c2 d2 dn2 _ Hd2 Hp2]; subst; [done|]. by destruct (parent_lists _ _ _ Hd2 Hp2).
  - inversion Hw' as [|l2 ks2 c2 d2 dn2 Hw2 Hd2 Hp2]; subst; [by destruct (parent_lists _ _ _ Hd Hp)|].
    assert (dn2 = dn) as -> by congruence. assert (c2 = c) as -> by congruence. f_equal. by eapply IH.
Qed.

Lemma leaf_walk d l : leaf_path t cs d l -> forall lb ks, walk_to (lb ++ [d]) ks d ->
  exists c ks', last l = Some c /\ walk_to (lb ++ l) ks' c.
Proof.
  induction 1 as [c Hc _|c d dn l Hc Hd Hdn Hp Hl IH]; intros lb ks Hw; [by exists c, ks|].
  destruct (IH (lb ++ [c]) (ks ++ [frame_key (n_frame dn)])) as (e & ks' & El & Hw'); [by eapply walk_step|].
  exists e, ks'. rewrite <- app_assoc in Hw'. split; [|done]. destruct (leaf_path_nonempty d l Hl) as [l' ->]. exact El.
Qed.

Lemma measured_last_in l c : c ∈ measured_last l <-> last l = Some c /\ has_metrics c = true.
Proof.
  unfold measured_last. destruct (last l) as [d|]; [|split; [by intros ?%not_elem_of_nil|by intros [? _]]].
  destruct (has_metrics d) eqn:E; rewrite ?list_elem_of_singleton.
  - split; [by intros ->|intros [? _]; congruence].
  - split; [by intros ?%not_elem_of_nil|intros [? ?]; congruence].
Qed.

Lemma NoDup_concat_map {A B} (f : A -> list B) (ls : list A) :
  NoDup ls -> (forall l, NoDup (f l)) -> (forall l l' b, l ∈ ls -> l' ∈ ls -> b ∈ f l -> b ∈ f l' -> l = l') -> NoDup (concat (map f ls)).
Proof.
  intros Hnd Hf. induction Hnd as [|l ls Hl _ IH]; intros Hinj; [constructor|]. cbn [map concat]. apply NoDup_app. split_and!; [done| |].
  - intros b Hb (bs & (l' & <- & Hl')%in_map_iff & Hb')%list_elem_of_In%in_concat. apply list_elem_of_In in Hl', Hb'.
    apply Hl. rewrite (Hinj l l' b); [done|by left|by right|done..].
  - apply IH. intros x y b Hx Hy. apply Hinj; by right.
Qed.

Lemma entry_fun c x y : entry c x -> entry c y -> x = y.
Proof. intros (n & Hn & Hx & _) (n' & Hn' & Hy & _). congruence. Qed.
Lemma entries_fun l p p' : Forall2 entry l p -> Forall2 entry l p' -> p = p'.
Proof.
  intros Hp. revert p'. induction Hp as [|c x l p Hx _ IH]; intros p' Hp'; [by apply Forall2_nil_inv_l in Hp'|].
  apply Forall2_cons_inv_l in Hp' as (y & q & Hy & Hq & ->). f_equal; [by eapply entry_fun|by apply IH].
Qed.

Hypothesis up : closed t cs.

Lemma leaf_path_up c l : is_Some (heap t !! c) -> leaf_path t cs c l -> exists l', leaf_path t cs (tree_root t) l' /\ last l' = last l.
Proof.
  revert l. induction c as [c IH] using lt_wf_ind. intros l [n Hn] Hl. destruct (decide (c = tree_root t)) as [->|Hne]; [by exists l|].
  assert (Hc : c ∈ cs) by (by destruct Hl). destruct (leaf_path_nonempty c l Hl) as [l0 ->].
  destruct (ok_parent t Ht c n Hn Hne) as (p & pn & Hp & Hpn & Hch). destruct (ok_child t Ht p pn c Hpn Hch) as (_ & _ & _ & Hlt).
  destruct (IH p Hlt (p :: c :: l0)) as (l' & Hl' & E); [by eexists|eapply leaf_below; [by eapply up|done..]|by exists l'].
Qed.

(** A written context with metrics is the end of a path. *)
Lemma measured_path c : c ∈ cs -> has_metrics c = true -> exists l, leaf_path t cs (tree_root t) l /\ last l = Some c.
Proof.
  intros Hc Hm. unfold has_metrics in Hm. destruct (heap t !! c) as [n|] eqn:Hn; [|done]. cbn [mbind option_bind] in Hm.
  destruct (n_metrics n) as [ms|] eqn:Ems; [|done]. destruct (leaf_path_up c [c]) as (l & Hl & El); [by eexists| |by exists l].
  constructor; [done|]. intros d dn _ Hd Hp. destruct (parent_lists c d dn Hd Hp) as (_ & cn & Hcn & Hch).
  assert (cn = n) as -> by congruence. rewrite (measured_leaf _ t c n ms Htree Hn Ems) in Hch. by apply not_elem_of_nil in Hch.
Qed.

Lemma entry_inj c c' x : entry c x -> entry c' x -> c = c'.
Proof.
  intros (n & Hn & _ & Hid & _) (n' & Hn' & _ & Hid' & _). apply (id_inj t Ht c c' n n'); [done..|congruence].
Qed.
Lemma entries_inj l p : Forall2 entry l p -> forall l', Forall2 entry l' p -> l = l'.
Proof.
  induction 1 as [|c x l p Hx _ IH]; intros l' Hp'; [by apply Forall2_nil_inv_r in Hp'|].
  apply Forall2_cons_inv_r in Hp' as (d & q & Hy & Hq & ->). f_equal; [by eapply entry_inj|by apply IH].
Qed.

Lemma leaf_path_in c l : leaf_path t cs c l -> forall d, d ∈ l -> d ∈ cs.
Proof.
  induction 1 as [c Hc _|c d dn l Hc _ _ _ _ IH]; intros e He; [by apply list_elem_of_singleton in He as ->|].
  apply elem_of_cons in He as [->|He]; auto.
Qed.

Section listed.
(** The paths listed, and the nodes on them. *)
Context (ps : list (list PyCtx)) (ls : list (list nat)).
Hypothesis listed : forall p, p ∈ ps <-> exists l, leaf_path t cs (tree_root t) l /\ Forall2 entry l p.
Hypothesis listed_once : NoDup ps.
Hypothesis read : forall c, c ∈ cs -> exists x, entry c x.
Hypothesis nodes : Forall2 (fun l p => leaf_path t cs (tree_root t) l /\ Forall2 entry l p) ls ps.

Lemma all_nodes l : l ∈ ls <-> leaf_path t cs (tree_root t) l.
Proof.
  split.
  - intros [i Hi]%list_elem_of_lookup. by destruct (Forall2_lookup_l _ _ _ _ _ nodes Hi) as (p & _ & Hl & _).
  - intros Hl. assert (exists p, Forall2 entry l p) as [p Hp].
    { clear nodes listed. induction Hl as [c Hc _|c d dn l Hc _ _ _ _ [p Hp]]; destruct (read c Hc) as [x Hx];
        [exists [x]; by repeat constructor|exists (x :: p); by constructor]. }
    assert (p ∈ ps) as [i Hi]%list_elem_of_lookup by (apply listed; by exists l).
    destruct (Forall2_lookup_r _ _ _ _ _ nodes Hi) as (l' & Hl' & _ & Hp').
    rewrite (entries_inj l p Hp l' Hp'). by eapply list_elem_of_lookup_2.
Qed.

Lemma nodes_once : NoDup ls.
Proof.
  apply NoDup_alt. intros i j l Hi Hj. destruct (Forall2_lookup_l _ _ _ _ _ nodes Hi) as (p & Hp & _ & Hlp).
  destruct (Forall2_lookup_l _ _ _ _ _ nodes Hj) as (q & Hq & _ & Hlq). rewrite (entries_fun l q p Hlq Hlp) in Hq.
  by eapply NoDup_lookup.
Qed.

Lemma measured_once : NoDup (concat (map measured_last ls)).
Proof.
  apply NoDup_concat_map; [apply nodes_once| |].
  - intros l. unfold measured_last. destruct (last l) as [c|]; [destruct (has_metrics c)|]; [apply NoDup_singleton|constructor..].
  - intros l l' c Hl%all_nodes Hl'%all_nodes [Ec _]%measured_last_in [Ec' _]%measured_last_in.
    destruct (leaf_walk _ l Hl [] [] walk_root) as (d & ks & Ed & Hw). destruct (leaf_walk _ l' Hl' [] [] walk_root) as (d' & ks' & Ed' & Hw').
    assert (d = c) as -> by congruence. assert (d' = c) as -> by congruence. by eapply walk_fun.
Qed.

Lemma measured_all c : c ∈ concat (map measured_last ls) <-> c ∈ cs /\ has_metrics c = true.
Proof.
  rewrite list_elem_of_In, in_concat. split.
  - intros (bs & (l & <- & Hl)%in_map_iff & Hb). apply list_elem_of_In in Hl, Hb. apply all_nodes in Hl.
    apply measured_last_in in Hb as [El Hm]. split; [|done]. apply (leaf_path_in _ l Hl). rewrite last_lookup in El.
    by eapply list_elem_of_lookup_2.
  - intros [Hc Hm]. destruct (measured_path c Hc Hm) as (l & Hl & El). exists (measured_last l). split.
    + apply in_map, list_elem_of_In. by apply all_nodes.
    + apply list_elem_of_In, measured_last_in. done.
Qed.
End listed.

(** The rows of the text output and of the timeline are those of the measured contexts. *)
Lemma output_all d0 set_order : table_ok d0 -> (forall u, set_order u ≡ₚ elements u) ->
  read_back show_double infos t set_order cs m ->
  exists s' l, output_to_file set_order (length cs) d0 m = Some s' /\ adds d0 l (mkOut 0 [] [] d0) s' /\
    NoDup l /\ forall c, c ∈ l <-> c ∈ cs /\ has_metrics c = true.
Proof.
  intros Hd Hso [_ Hent Honly (ps & Eps & Hps)]. unfold output_to_file. rewrite Eps. cbn [mbind option_bind].
  assert (Hnd : NoDup ps) by (eapply getAllPaths_NoDup; [done|by intros i x [? _]%Honly|done]).
  assert (exists ls, Forall2 (fun l p => leaf_path t cs (tree_root t) l /\ Forall2 entry l p) ls ps) as [ls Hls].
  { assert (Hin : forall p, p ∈ ps -> exists l, leaf_path t cs (tree_root t) l /\ Forall2 entry l p) by (intros p; apply Hps).
    clear Eps Hps Hnd. induction ps as [|p ps' IH]; [exists []; constructor|]. destruct (Hin p) as [l Hl]; [by left|].
    destruct IH as [ls Hls]; [intros q Hq; apply Hin; by right|]. exists (l :: ls). by constructor. }
  destruct (output_paths_adds d0 ls ps Hls (mkOut 0 [] [] d0)) as (s' & E & Ha); [by split|].
  exists s', (concat (map measured_last ls)). split_and!; [done|done|by apply (measured_once ps)|by apply (measured_all ps)].
Qed.
End tree.

(** *** The texts that the file carries need no escaping *)
Lemma interval_text_plain xs : value_ok (lit (interval_text xs)).
Proof.
  unfold value_ok. induction xs as [|x xs IH]; cbn [interval_text]; [done|]. rewrite !lit_app, !forallb_app, IH, andb_true_r, andb_true_r.
  rewrite to_string_dec. apply forallb_forall. intros c Hc. destruct (dec_digits (u64 x) (u64_nonneg x)) as (Hd & _).
  rewrite forallb_forall in Hd. apply Hd in Hc. by destruct c as [[] [] [] [] [] [] [] []].
Qed.

Lemma whole_plain ms : whole ms -> metrics_plain infos ms.
Proof.
  intros (calls & Hpos & [[_ Hc] He Hl]). split; [lia|]. apply Forall_lookup. intros j v Hj.
  assert (Ev : v = val_at ms (Z.of_nat j)) by (unfold val_at; by rewrite Nat2Z.id, Hj). subst v.
  destruct (decide (j = 0%nat)) as [->|Hne]; [change (Z.of_nat 0) with 0; by rewrite Hc|].
  destruct infos_are as [Einf (Hcur & _)], instructions_event as [Ek Hk]. apply lookup_lt_Some in Ek.
  set (i := ((j + 5) / 6)%nat). assert (Hi : (6 * i - 5 <= j <= 6 * i)%nat /\ (1 <= i)%nat) by (subst i; pose proof (Nat.div_mod_eq (j + 5) 6); pose proof (Nat.mod_upper_bound (j + 5) 6); lia).
  destruct (He i) as (ivs & Hlen & [Hs Hend (w & _ & H3 & H4 & H5 & H6) _]).
  { unfold watermark_ids. rewrite Hcur, Nat2Z.id. apply list_elem_of_In, in_seq. apply lookup_lt_Some in Hj.
    pose proof (all_infos_length client events) as Hil. rewrite <- Einf in Hil. lia. }
  specialize (H6 ltac:(intros ->; cbn in Hlen; lia)).
  assert (Hcase : exists e, Z.of_nat j = 6 * Z.of_nat i - e /\ 0 <= e <= 5) by (exists (6 * Z.of_nat i - Z.of_nat j); lia).
  destruct Hcase as (e & -> & He5).
  assert (e = 0 \/ e = 1 \/ e = 2 \/ e = 3 \/ e = 4 \/ e = 5) as [->|[->|[->|[->|[->| ->]]]]] by lia.
  all: rewrite ?Z.sub_0_r, ?H6, ?H5, ?H4, ?H3, ?Hend, ?Hs; try done; apply interval_text_plain.
Qed.

Lemma infos_plain : Forall (fun e => value_ok (lit e.1)) events ->
  Forall (fun i => value_ok (lit (event_measure i)) /\ value_ok (lit (event_name i))) infos.
Proof.
  intros Hev. destruct infos_are as [-> _]. apply Forall_forall. intros i [Hn Hm]%all_infos_from. split.
  - unfold measures in Hm. repeat (apply elem_of_cons in Hm as [->|Hm]; [done|]). by apply not_elem_of_nil in Hm.
  - rewrite Forall_forall in Hev. apply list_elem_of_fmap in Hn as (e & -> & He). by apply Hev.
Qed.
End rows.

(** C21: Every recorded call becomes one slice of the timeline, when the first of at most five distinct events is
    BR_INST_RETIRED.NEAR_CALL, another one is PERF_COUNT_HW_INSTRUCTIONS and the tables have a mean that
    can be rounded: the script has these names built in, and with others (run_attach.sh configures
    L1D:MISS) it raises. Take a tree as a thread of such a run leaves it, with its counters
    not wrapped: it is written, parsed by threads in any order and loaded; then [output_to_file] ends without
    an error, with the rows of exactly the contexts that have metrics, each once. The row of a context is the source
    positions of the frames on its path in the tree, with the table of its metrics; and for each recorded call there
    is one [Trace] from the call's start to its end, under the same text, with the number
    of the calls, their mean and its variation coefficient. *)
Theorem calls_traced {D : Type} `{DoubleOps D} {T : Type} `{RBTreeLaws T} {F : Type} `{PyFloat F}
    (d_sqrt : D -> D) (show_double : D -> str) (to_float : D -> F)
    (order : gmap str str -> list (str * str)) (set_order : gset str -> list str) (arrive : list PyObj -> list PyObj)
    (client : string) (events : list (string * Z)) (wm : watermarks) (infos : list metric_info_t) (k : nat) (th0 th : Z)
    (t : ContextTree (M := ContextMetrics D)) (elems : list nat) (cache : CodeCache) (s : dump_state)
    (method_manager : gmap str (PyMethod T)) :
  (forall d, value_ok (show_double d)) -> (forall x, py_float (show_double x) = Some (to_float x)) ->
  (forall m, order m ≡ₚ map_to_list m) -> (forall u, set_order u ≡ₚ elements u) -> (forall l, arrive l ≡ₚ l) ->
  setup_all client events (no_watermarks, []) = RET (wm, infos) -> (length events <= 5)%nat ->
  NoDup (map fst events) -> Forall (fun e => value_ok (lit e.1)) events ->
  events !! 0%nat = Some ("BR_INST_RETIRED.NEAR_CALL"%string, th0) ->
  events !! k = Some ("PERF_COUNT_HW_INSTRUCTIONS"%string, th) /\ (0 < k)%nat ->
  call_tree (fun _ => fully_recorded d_sqrt wm (Z.of_nat (length infos))) t ->
  (forall c n, heap t !! c = Some n -> 0 <= method_id (n_frame n)) ->
  (forall c n ms calls, heap t !! c = Some n -> n_metrics n = Some ms ->
    recorded d_sqrt wm (Z.of_nat (length infos)) calls (fun _ => calls) ms -> Z.of_nat calls < 2 ^ 63) ->
  (forall c n ms, heap t !! c = Some n -> n_metrics n = Some ms ->
    is_Some (py_round (to_float (m_r (val_at ms (6 * Z.of_nat k - 3)))))) ->
  elems ≡ₚ (map_to_list (context_map t)).*2 ->
  dump_tree t elems (mkDump ∅ [] cache) = Some s -> written s <> [] -> table_ok method_manager ->
  exists texts os m out cs rowss, dump_text show_double order infos t s = Some texts /\
    HomoXMLParser arrive (lit "context") (lit XML_FILE_HEADER ++ [c_newline] ++ concat texts) = Some (mkPy (lit "root") ∅ os) /\
    load_context os = Some m /\ output_to_file set_order (length (written s)) method_manager m = Some out /\
    NoDup cs /\ (forall c, c ∈ cs <-> Report.measured t c) /\
    Forall3 (traced d_sqrt show_double to_float infos k t method_manager) cs rowss (dump_data out) /\
    trace_list out = concat rowss.
Proof.
  intros Hd Hf Ho Hso Harr Hset Hev Hnames Hvals He0 Hek Htree Hid Hfit Hmeans Hel E Hne Htab.
  pose proof (ct_ok _ _ Htree) as Ht.
  destruct (contexts_read show_double order set_order arrive infos t elems cache s) as (Hup & Hw & texts & os & m & E1 & E2 & E3 & Hr); try done.
  - by eapply infos_plain.
  - destruct (infos_are client events wm infos Hset Hev) as [-> _]. rewrite all_infos_length; [lia|]. apply lookup_lt_Some in He0. lia.
  - intros c n Hn. split; [by eapply Hid|]. intros ms Hms. eapply whole_plain; [done..|]. by apply (ct_metrics _ _ Htree c n).
  - destruct (output_all d_sqrt show_double to_float Hf client events wm infos k th0 th Hset Hev Hnames He0 Hek t (written s) m Htree
      (rb_root _ _ _ _ _ _ Hr) Hfit Hmeans Hup method_manager set_order Htab Hso Hr) as (out & cs & Eo & (_ & rowss & rows & H3 & Et & Ed) & Hnd & Hcs).
    exists texts, os, m, out, cs, rowss. cbn in Et, Ed. rewrite Et, Ed. split_and!; [done..| |done|done].
    intros c. rewrite Hcs. split.
    + intros [_ Hm]. unfold has_metrics in Hm. destruct (heap t !! c) as [n|] eqn:Hn; [|done]. cbn in Hm.
      destruct (n_metrics n) as [ms|] eqn:Hms; [|done]. by exists n, ms.
    + intros (n & ms & Hn & Hms). split; [apply Hw; exists c; split; [by exists n, ms|constructor]|].
      unfold has_metrics. rewrite Hn. cbn. by rewrite Hms.
Qed.

(** ** The call recorded in the demonstration of the tracer *)
Module Demo.
Import Methods.Demo Tracer.Demo.

Definition show_double (q : Q) : str := show_int (Qround.Qfloor q).
#[export] Instance floor_float : PyFloat Z := { py_float := py_int; py_round := Some; py_fixed2 := show_int }.

Definition demo_events : list (string * Z) := [("BR_INST_RETIRED.NEAR_CALL", 1000%Z); ("PERF_COUNT_HW_INSTRUCTIONS", 1000%Z)]%string.
Definition demo_infos : list metric_info_t := all_infos "T" demo_events.
Definition demo_tree : ContextTree (M := ContextMetrics Q) := context_state (client demo_returned).
Definition demo_elems : list nat := (map_to_list (context_map demo_tree)).*2.
Definition demo_dump : dump_state := default (mkDump ∅ [] CodeCache_new) (dump_tree demo_tree demo_elems (mkDump ∅ [] CodeCache_new)).
(** The method 8, with a line for its one instruction. *)
Definition demo_method8 : PyMethod (gmap Z (Z * str)) :=
  mkPyMethod (lit "0x8") (lit "1") (lit "Main.java") (lit "2000") (lit "1") (lit "callee") (lit "pkg.Main") {[2000%Z := (2000%Z, lit "12")]} ∅.
Definition demo_table : gmap str (PyMethod (gmap Z (Z * str))) := {[lit "0x8#1" := demo_method8]}.

Definition demo_output : option (out_state (T := gmap Z (Z * str))) :=
  texts ← dump_text show_double map_to_list demo_infos demo_tree demo_dump;
  o ← HomoXMLParser (@rev PyObj) (lit "context") (lit XML_FILE_HEADER ++ [c_newline] ++ concat texts);
  m ← load_context (py_children o);
  output_to_file elements (length (written demo_dump)) demo_table m.

(** Its one call, under the positions of the call and of the callee. *)
Example demo_traces : (map (fun r => (t_start r, t_end r, callpath r)) ∘ trace_list) <$> demo_output =
  Some [(2, 5, lit "" ++ [c_newline] ++ lit "pkg.Main.callee(Main.java:12)" ++ [c_newline] ++ lit "pkg.Main.callee(Main.java:12)")]%Z.
Proof. vm_compute. reflexivity. Qed.

Lemma demo_nodes c n : heap demo_tree !! c = Some n ->
  (0 <= method_id (n_frame n))%Z /\ forall ms, n_metrics n = Some ms -> ms = demo_metrics.
Proof.
  intros Hc%elem_of_map_to_list. revert Hc.
  assert (Forall (fun cn : nat * node => (0 <= method_id (n_frame cn.2))%Z /\ forall ms, n_metrics cn.2 = Some ms -> ms = demo_metrics)
    (map_to_list (heap demo_tree))) as Hall.
  { vm_compute. repeat constructor; try discriminate; intros ms Hms; try discriminate Hms. by injection Hms as <-. }
  rewrite Forall_forall in Hall. intros Hc. exact (Hall _ Hc).
Qed.

Lemma demo_calls calls : recorded (fun q => q) demo_wm 7 calls (fun _ => calls) demo_metrics -> calls = 1%nat.
Proof.
  intros [_ He _]. destruct (He 1%nat) as (ivs & <- & [Hs _ _ _]); [vm_compute; by left|]. cbn in Hs.
  assert (E : interval_text (map fst ivs) = "2 "%string) by (injection Hs; auto).
  apply (f_equal (fun s => length (py_split (lit s)))) in E. rewrite interval_texts, !length_map in E. exact E.
Qed.

Lemma demo_dumped : dump_tree demo_tree demo_elems (mkDump ∅ [] CodeCache_new) = Some demo_dump /\ written demo_dump = [4; 3; 0]%nat.
Proof. split; vm_compute; reflexivity. Qed.

Lemma demo_events_ok : setup_all "T" demo_events (no_watermarks, []) = RET (demo_wm, demo_infos) /\ length demo_infos = 7%nat.
Proof. split; vm_compute; reflexivity. Qed.

Lemma calls_traced_witness : exists texts os m out,
  dump_text show_double map_to_list demo_infos demo_tree demo_dump = Some texts /\
  HomoXMLParser (@rev PyObj) (lit "context") (lit XML_FILE_HEADER ++ [c_newline] ++ concat texts) = Some (mkPy (lit "root") ∅ os) /\
  load_context os = Some m /\ output_to_file elements 3 demo_table m = Some out.
Proof.
  destruct demo_events_ok as [Hset Hlen]. destruct demo_dumped as [Hdump Hw].
  destruct (calls_traced (T := gmap Z (Z * str)) (F := Z) (fun q => q) show_double Qround.Qfloor map_to_list elements (@rev PyObj)
    "T" demo_events demo_wm demo_infos 1 1000 1000 demo_tree demo_elems CodeCache_new demo_dump demo_table)
    as (texts & os & m & out & cs & rowss & E1 & E2 & E3 & E4 & _).
  - intros d. apply show_int_value.
  - intros x. apply py_int_show.
  - intros m. reflexivity.
  - intros u. reflexivity.
  - intros l. symmetry. apply Permutation_rev.
  - exact Hset.
  - vm_compute. lia.
  - apply (bool_decide_eq_true_1 (NoDup _)). reflexivity.
  - repeat constructor.
  - reflexivity.
  - split; [reflexivity|lia].
  - rewrite Hlen. exact demo_call_tree.
  - intros c n Hn. by apply demo_nodes in Hn as [? _].
  - intros c n ms calls Hn Hms Hr. rewrite Hlen in Hr. apply demo_nodes in Hn as [_ Hn]. rewrite (Hn ms Hms) in Hr.
    rewrite (demo_calls calls Hr). lia.
  - intros c n ms _ _. by eexists.
  - reflexivity.
  - exact Hdump.
  - rewrite Hw. discriminate.
  - intros k p Hk. unfold demo_table in Hk. apply lookup_singleton_Some in Hk as [<- <-]. split; [reflexivity|]. apply (bool_decide_eq_true_1 (_ ∉ _)). reflexivity.
  - rewrite Hw in E4. exists texts, os, m, out. exact (conj E1 (conj E2 (conj E3 E4))).
Defined.
End Demo.
