(* ===== verification/Lifecycle.v ===== *)
(** * Lifecycle: what a thread owns from its start to its end

    thread_data.cpp (the data behind a [pthread] key), the part of perf_interface.cpp that
    opens and closes the events of a thread, and [Profiler::threadStart] and
    [Profiler::threadEnd]. The watchpoint library appears through the class [ThreadWatch],
    of which Watchpoint.v gives an instance; the contexts of a thread and what it writes
    about them are those of Report.v.

    A program works on the variables of its thread ([locals]) and on what the process shares
    ([shared]): the open descriptors of events, the mapped buffers, the blocks of thread
    data, the code cache, the files. [EXC] is a failed assertion, or the use of a pointer or
    an index that is not good. What [printf] style debugging prints is left out, as in the
    program's build. *)
From stdpp Require Import base numbers list strings pretty gmap.
From Stdlib Require Import ZArith Lia SpecFloat.
From S2P Require Import Prelude RingBuffer PerfEvents Metrics ContextTree CodeCache Xml HomoXml Report Support Watchpoint.
Local Open Scope Z_scope.

(** ** The watchpoint library, seen from the thread that starts and ends

    [P] is the state of the library for the thread. *)
Class ThreadWatch (P : Type) := {
  watch_init : P -> bool * P;              (* WP_ThreadInit *)
  watch_terminate : P -> exc P;            (* WP_ThreadTerminate *)
  watch_open : P -> gset Z;                (* the descriptors of breakpoints that are open *)
  watch_ready : P -> Prop;                 (* it can be initialised *)
  watch_runs : P -> Prop;                  (* it is initialised and in order *)
}.
Class ThreadWatchLaws (P : Type) `{ThreadWatch P} : Prop := {
  watch_init_ok p : watch_ready p -> exists p', watch_init p = (true, p') /\ watch_runs p';
  watch_terminate_ok p : watch_runs p -> exists p', watch_terminate p = RET p' /\ watch_open p' = ∅;
}.

Section code.
Context {P D : Type} `{ThreadWatch P} `{DoubleOps D}.
Abbreviation ctree := (ContextTree (M := list (metric_val_t D))).

(** How doubles are printed, the order of the attributes of a tag and of the contexts of a tree. *)
Variable show_double : D -> str.
Variable order : gmap str str -> list (str * str).
Variable tree_order : ctree -> list nat.
(** What the process has set up: the kernel's number of the thread, the sample types of the
    events in [event_info], the metrics; and /proc/self/maps with [realpath]. *)
Variable gettid : Z.
Variable event_info : list Z.
Variable infos : list metric_info_t.
Variable realpath : option str -> str -> str.
Variable pagesize : Z.
Variable maps : option str.
Variable tmpname : str.

Definition num_events : nat := length event_info.

(** ** State *)

(** An event of a thread, with the address of its buffer. *)
Record event_thread := mkET { et_event : perf_event_thread_t; et_buf : Z }.

(** [thread_data_t]; the objects its pointers lead to are part of it. *)
Record thread_data := mkThread {
  td_tid : Z;
  td_inside : bool;
  td_perf : option (list event_thread);
  td_context : option ctree;
  td_output : option (list str);   (* what was printed to the OUTPUT object *)
}.

(** The variables of the thread: the value of the key, the descriptors for the profiler,
    the watchpoint library, a counter. *)
Record locals := mkLocals {
  l_key : Z;
  l_eventFd : list Z;
  l_curEventId : Z;
  l_watch : P;
  l_total : Z;
}.

Record shared := mkShared {
  s_fds : kfds;                        (* descriptors of events, and which are enabled *)
  s_maps : gset Z;                     (* addresses of mapped buffers *)
  s_blocks : gmap Z thread_data;       (* blocks of thread data *)
  s_next : Z;                          (* the next address [new] returns *)
  s_cache : CodeCache;
  s_black : list (Z * Z);
  s_files : list (Z * list str);       (* the files of threads, with what was printed *)
  s_methods : list str;                (* what was printed to the file of methods *)
  s_gc : Z;
  s_total : Z;
}.

(** ** Programs *)
Definition prog (A : Type) : Type := locals * shared -> exc (A * (locals * shared)).
#[export] Instance prog_ret : MRet prog := fun A a w => RET (a, w).
#[export] Instance prog_bind : MBind prog := fun A B f x w =>
  match x w with RET (a, w') => f a w' | EXC => EXC end.

Definition gets {A} (f : locals * shared -> A) : prog A := fun w => RET (f w, w).
Definition fail {A} : prog A := fun _ => EXC.
Definition lift {A} (x : exc A) : prog A := fun w => match x with RET a => RET (a, w) | EXC => EXC end.
Definition passert (b : bool) : prog unit := lift (assert_exc b).
Definition put_locals (f : locals -> locals) : prog unit := fun w => RET (tt, (f w.1, w.2)).
Definition put_shared (f : shared -> shared) : prog unit := fun w => RET (tt, (w.1, f w.2)).

Definition set_key k (l : locals) := mkLocals k (l_eventFd l) (l_curEventId l) (l_watch l) (l_total l).
Definition set_events f i (l : locals) := mkLocals (l_key l) f i (l_watch l) (l_total l).
Definition set_watch p (l : locals) := mkLocals (l_key l) (l_eventFd l) (l_curEventId l) p (l_total l).

Definition set_fds k (s : shared) := mkShared k (s_maps s) (s_blocks s) (s_next s) (s_cache s) (s_black s) (s_files s) (s_methods s) (s_gc s) (s_total s).
Definition set_maps m (s : shared) := mkShared (s_fds s) m (s_blocks s) (s_next s) (s_cache s) (s_black s) (s_files s) (s_methods s) (s_gc s) (s_total s).
Definition set_blocks b (s : shared) := mkShared (s_fds s) (s_maps s) b (s_next s) (s_cache s) (s_black s) (s_files s) (s_methods s) (s_gc s) (s_total s).
Definition set_next n (s : shared) := mkShared (s_fds s) (s_maps s) (s_blocks s) n (s_cache s) (s_black s) (s_files s) (s_methods s) (s_gc s) (s_total s).
Definition set_cache c (s : shared) := mkShared (s_fds s) (s_maps s) (s_blocks s) (s_next s) c (s_black s) (s_files s) (s_methods s) (s_gc s) (s_total s).
Definition set_black b (s : shared) := mkShared (s_fds s) (s_maps s) (s_blocks s) (s_next s) (s_cache s) b (s_files s) (s_methods s) (s_gc s) (s_total s).
Definition set_files f (s : shared) := mkShared (s_fds s) (s_maps s) (s_blocks s) (s_next s) (s_cache s) (s_black s) f (s_methods s) (s_gc s) (s_total s).
Definition set_methods m (s : shared) := mkShared (s_fds s) (s_maps s) (s_blocks s) (s_next s) (s_cache s) (s_black s) (s_files s) m (s_gc s) (s_total s).
Definition set_gc g (s : shared) := mkShared (s_fds s) (s_maps s) (s_blocks s) (s_next s) (s_cache s) (s_black s) (s_files s) (s_methods s) g (s_total s).
Definition set_total t (s : shared) := mkShared (s_fds s) (s_maps s) (s_blocks s) (s_next s) (s_cache s) (s_black s) (s_files s) (s_methods s) (s_gc s) t.

(** ** Thread data (thread_data.cpp) *)
Definition thread_data_alloc : prog Z :=
  p ← gets (fun w => s_next w.2);
  _ ← put_shared (fun s => set_next (p + 1) (set_blocks (<[p := mkThread gettid false None None None]> (s_blocks s)) s));
  _ ← put_locals (set_key p);
  mret p.

Definition thread_data_get : prog Z :=
  p ← gets (fun w => l_key w.1);
  if p =? 0 then thread_data_alloc else mret p.

Definition load (p : Z) : prog thread_data :=
  b ← gets (fun w => s_blocks w.2 !! p);
  match b with Some b => mret b | None => fail end.

(** Reading and writing through [TD_GET]. *)
Definition TD_GET {A} (field : thread_data -> A) : prog A :=
  p ← thread_data_get; b ← load p; mret (field b).
Definition TD_SET (f : thread_data -> thread_data) : prog unit :=
  p ← thread_data_get; b ← load p; put_shared (fun s => set_blocks (<[p := f b]> (s_blocks s)) s).

Definition with_inside i (b : thread_data) := mkThread (td_tid b) i (td_perf b) (td_context b) (td_output b).
Definition with_perf l (b : thread_data) := mkThread (td_tid b) (td_inside b) l (td_context b) (td_output b).
Definition with_context c (b : thread_data) := mkThread (td_tid b) (td_inside b) (td_perf b) c (td_output b).
Definition with_output o (b : thread_data) := mkThread (td_tid b) (td_inside b) (td_perf b) (td_context b) o.

Definition is_null {A} (x : option A) : bool := match x with None => true | Some _ => false end.

Definition thread_data_dealloc : prog unit :=
  p ← gets (fun w => l_key w.1);
  if p =? 0 then mret tt else
  b ← load p;
  _ ← passert (is_null (td_perf b));
  _ ← passert (is_null (td_context b));
  _ ← passert (is_null (td_output b));
  _ ← put_shared (fun s => set_blocks (delete p (s_blocks s)) s);
  put_locals (set_key 0).

(** ** The events of a thread (perf_interface.cpp)

    The kernel's answers while one event is set up: the results of [perf_event_open], of the
    calls of [fcntl], and the address and the contents of the mapped buffer, unless [mmap] fails. *)
Record answers := mkAnswers {
  a_open : Z; a_getfl : Z; a_setfl : Z; a_setown : Z; a_setsig : Z; a_mmap : option (Z * list byte) }.

(** [perf_set_mmap], which clears the head and the tail; null if [mmap] failed. *)
Definition perf_set_mmap (a : answers) : prog (option (Z * perf_mmap_t)) :=
  match a_mmap a with
  | None => mret None
  | Some (addr, page) =>
      _ ← put_shared (fun s => set_maps ({[addr]} ∪ s_maps s) s);
      mret (Some (addr, mkMmap 0 0 page))
  end.

Definition perf_unmmap (addr : Z) : prog unit :=
  if addr =? 0 then mret tt else put_shared (fun s => set_maps (s_maps s ∖ {[addr]}) s).

(** [eventFd[curEventId++] = fd]: beyond the array is memory of others. *)
Definition SetupEventFd (fd : Z) : prog unit :=
  i ← gets (fun w => l_curEventId w.1);
  _ ← passert ((0 <=? i) && (i <? MAX_EVENTS));
  put_locals (fun l => set_events (<[Z.to_nat i := fd]> (l_eventFd l)) (i + 1) l).

(** One turn of the loop of [setupEvents]; [false] is its early return. *)
Definition setup_event (i : Z) (sample_type : Z) (a : answers) : prog bool :=
  let fd := a_open a in
  if fd =? -1 then mret false else
  _ ← put_shared (fun s => set_fds (<[fd := false]> (s_fds s)) s);
  _ ← put_shared (fun s => set_fds (ioctl_reset fd (s_fds s)).2 s);
  if a_getfl a <? 0 then mret false else
  if a_setfl a <? 0 then mret false else
  if a_setown a <? 0 then mret false else
  if a_setsig a <? 0 then mret false else
  m ← perf_set_mmap a;
  match m with
  | None => fail
  | Some (addr, mmap_buf) =>
      let event_thread := mkET (mkEvent i fd mmap_buf sample_type) addr in
      _ ← TD_SET (fun b => with_perf ((fun l => l ++ [event_thread]) <$> td_perf b) b);
      _ ← SetupEventFd fd;
      mret true
  end.

Fixpoint setup_loop (i : nat) (event_info : list Z) (ans : nat -> answers) : prog bool :=
  match event_info with
  | [] => mret true
  | sample_type :: event_info =>
      ok ← setup_event (Z.of_nat i) sample_type (ans i);
      if ok : bool then setup_loop (S i) event_info ans else mret false
  end.

(** [perf_start_all] and [perf_stop_all] on the vector. *)
Definition perf_switch (on : bool) (l : list event_thread) : prog bool :=
  k ← gets (fun w => s_fds w.2);
  let r := perf_set_all on (et_event <$> l) k in
  _ ← put_shared (set_fds r.2);
  mret r.1.

Definition setupEvents (ans : nat -> answers) : prog bool :=
  l ← TD_GET td_perf;
  _ ← (if is_null l then TD_SET (with_perf (Some [])) else mret tt);
  _ ← TD_GET td_tid;
  ok ← setup_loop 0 event_info ans;
  if ok : bool then
    l ← TD_GET td_perf;
    match l with
    | Some l => _ ← perf_switch true l; mret true
    | None => fail
    end
  else mret false.

Fixpoint close_loop (idx : list nat) (l : list event_thread) : prog unit :=
  match idx with
  | [] => mret tt
  | i :: idx =>
      match l !! i with
      | None => fail
      | Some e =>
          _ ← (if 0 <=? ev_fd (et_event e) then
                 put_shared (fun s => set_fds (delete (ev_fd (et_event e)) (s_fds s)) s)
               else mret tt);
          _ ← perf_unmmap (et_buf e);
          close_loop idx l
      end
  end.

Definition closeEvents : prog bool :=
  l ← TD_GET td_perf;
  match l with
  | None => mret true
  | Some l =>
      _ ← perf_switch false l;
      _ ← close_loop (seq 0 num_events) l;
      _ ← TD_SET (with_perf None);
      mret true
  end.

Definition perf_wrapper (on : bool) : prog bool :=
  l ← TD_GET td_perf;
  match l with Some l => perf_switch on l | None => fail end.
Definition perf_start_all_wrapper : prog bool := perf_wrapper true.
Definition perf_stop_all_wrapper : prog bool := perf_wrapper false.

(** [ret] is the result of [read], an [int] that is compared with a [size_t]. *)
Definition perf_read_event_counter (fd ret : Z) : bool := if fd <? 0 then false else negb (u64 ret <? 24).

Definition readCounter (event_idx ret : Z) : prog bool :=
  l ← TD_GET td_perf;
  match l with
  | None => fail
  | Some l =>
      if (event_idx <? 0) || (i32 (Z.of_nat (length l)) <=? event_idx) then mret false
      else match l !! Z.to_nat event_idx with
           | Some e => mret (perf_read_event_counter (ev_fd (et_event e)) ret)
           | None => fail
           end
  end.

(** ** Start and end of a thread (profiler.cpp) *)
Definition header_line : str := lit XML_FILE_HEADER ++ [c_newline].

Definition threadStart (ans : nat -> answers) : prog unit :=
  _ ← put_locals (fun l => set_events (replicate (Z.to_nat MAX_EVENTS) (-1)) (l_curEventId l) l);
  _ ← thread_data_alloc;
  _ ← TD_SET (with_context (Some ContextTree_new));
  _ ← TD_GET td_tid;
  _ ← TD_SET (with_output (Some [header_line]));
  p ← gets (fun w => l_watch w.1);
  _ ← passert (watch_init p).1;
  _ ← put_locals (set_watch (watch_init p).2);
  black ← gets (fun w => s_black w.2);
  black ← lift (PopulateBlackListAddresses realpath pagesize maps tmpname black);
  _ ← put_shared (set_black black);
  _ ← setupEvents ans;
  mret tt.

(** The walk over the tree, and what it prints. *)
Definition dump_contexts (t : ctree) : prog (list str) :=
  c ← gets (fun w => s_cache w.2);
  match dump_tree t (tree_order t) (mkDump ∅ [] c) with
  | None => fail
  | Some s =>
      _ ← put_shared (set_cache (dump_cache s));
      match dump_text show_double order infos t s with Some texts => mret texts | None => fail end
  end.

Definition threadEnd : prog unit :=
  _ ← closeEvents;
  p ← gets (fun w => l_watch w.1);
  p ← lift (watch_terminate p);
  _ ← put_locals (set_watch p);
  ctxt_tree ← TD_GET td_context;
  output_stream ← TD_GET td_output;
  texts ← match ctxt_tree with Some t => dump_contexts t | None => mret [] end;
  _ ← match output_stream with
      | Some out =>
          tid ← TD_GET td_tid;
          put_shared (fun s => set_files (s_files s ++ [(tid, out ++ texts)]) s)
      | None => passert (bool_decide (texts = []))
      end;
  _ ← TD_SET (with_output None);
  _ ← TD_SET (with_context None);
  _ ← thread_data_dealloc;
  n ← gets (fun w => l_total w.1);
  put_shared (fun s => set_total (u64 (s_total s + n)) s).

(** ** The callbacks of the agent for threads (agent.cpp) *)
Definition BLOCK_SAMPLE : prog unit := TD_SET (with_inside true).
Definition UNBLOCK_SAMPLE : prog unit := TD_SET (with_inside false).

Definition callbackThreadStart (ans : nat -> answers) : prog unit :=
  _ ← BLOCK_SAMPLE; _ ← threadStart ans; UNBLOCK_SAMPLE.
Definition callbackThreadEnd : prog unit :=
  _ ← BLOCK_SAMPLE; _ ← threadEnd; UNBLOCK_SAMPLE.
Definition callbackGCEnd : prog unit :=
  _ ← BLOCK_SAMPLE; _ ← put_shared (fun s => set_gc (u64 (s_gc s + 1)) s); UNBLOCK_SAMPLE.
End code.

(** ** Reasoning about programs *)
Section logic.
Context {P D : Type}.
Abbreviation world := (locals (P := P) * shared (D := D))%type.
Abbreviation pg := (prog (P := P) (D := D)).

(** [m] returns, with a result and a world that satisfy [Q]. *)
Definition runs {A} (m : pg A) (w : world) (Q : A -> world -> Prop) : Prop :=
  exists a w', m w = RET (a, w') /\ Q a w'.

Lemma runs_ret {A} (a : A) w (Q : A -> world -> Prop) : Q a w -> runs (mret a) w Q.
Proof. intros HQ. by exists a, w. Qed.

Lemma runs_bind {A B} (m : pg A) (f : A -> pg B) w Q :
  runs m w (fun a w' => runs (f a) w' Q) -> runs (m ≫= f) w Q.
Proof. intros (a & w' & E & b & w'' & E' & HQ). exists b, w''. split; [|done]. unfold mbind, prog_bind. by rewrite E. Qed.

Lemma bind_after {A B} (m : pg A) (f : A -> pg B) w r :
  runs m w (fun a w' => f a w' = r) -> (m ≫= f) w = r.
Proof. intros (a & w' & E & <-). unfold mbind, prog_bind. by rewrite E. Qed.

Lemma runs_mono {A} (m : pg A) w (Q Q' : A -> world -> Prop) :
  runs m w Q -> (forall a w', Q a w' -> Q' a w') -> runs m w Q'.
Proof. intros (a & w' & E & HQ) HQQ. exists a, w'. eauto. Qed.

Lemma runs_gets {A} (f : world -> A) w (Q : A -> world -> Prop) : Q (f w) w -> runs (gets f) w Q.
Proof. intros HQ. by exists (f w), w. Qed.
Lemma runs_put_locals f (w : world) (Q : unit -> world -> Prop) : Q tt (f w.1, w.2) -> runs (put_locals f) w Q.
Proof. intros HQ. by exists tt, (f w.1, w.2). Qed.
Lemma runs_put_shared f (w : world) (Q : unit -> world -> Prop) : Q tt (w.1, f w.2) -> runs (put_shared f) w Q.
Proof. intros HQ. by exists tt, (w.1, f w.2). Qed.
Lemma runs_lift {A} (x : exc A) a (w : world) (Q : A -> world -> Prop) : x = RET a -> Q a w -> runs (lift x) w Q.
Proof. intros -> HQ. by exists a, w. Qed.
Lemma runs_passert b (w : world) (Q : unit -> world -> Prop) : b = true -> Q tt w -> runs (passert b) w Q.
Proof. intros -> HQ. by exists tt, w. Qed.

(** The thread's block. *)
Definition owns (w : world) (b : thread_data) : Prop :=
  l_key w.1 <> 0 /\ s_blocks w.2 !! l_key w.1 = Some b.
(** The world with another block. *)
Definition put_block (b : thread_data) (w : world) : world :=
  (w.1, set_blocks (<[l_key w.1 := b]> (s_blocks w.2)) w.2).

Lemma owns_put b b' w : owns w b -> owns (put_block b' w) b'.
Proof. intros [Hk Hb]. split; [done|]. cbn. by rewrite lookup_insert_eq. Qed.

Variable gettid : Z.

Lemma get_owned w b : owns w b -> thread_data_get gettid w = RET (l_key w.1, w).
Proof. intros [Hk Hb]. unfold thread_data_get, mbind, prog_bind, gets. by rewrite (proj2 (Z.eqb_neq _ _)). Qed.

Lemma runs_TD_GET {A} (field : thread_data -> A) w b (Q : A -> world -> Prop) :
  owns w b -> Q (field b) w -> runs (TD_GET gettid field) w Q.
Proof.
  intros Ho HQ. exists (field b), w. split; [|done]. unfold TD_GET, mbind, prog_bind, load, gets, prog_bind.
  rewrite (get_owned w b Ho). unfold mbind, prog_bind. destruct Ho as [_ ->]. done.
Qed.

Lemma runs_TD_SET f w b (Q : unit -> world -> Prop) :
  owns w b -> Q tt (put_block (f b) w) -> runs (TD_SET gettid f) w Q.
Proof.
  intros Ho HQ. exists tt, (put_block (f b) w). split; [|done]. unfold TD_SET, load, mbind, prog_bind, gets.
  rewrite (get_owned w b Ho). unfold mbind, prog_bind. by destruct Ho as [_ ->].
Qed.
End logic.

(** ** Opening the events *)

(** The answers of a kernel that opens the event: a good descriptor, and a mapping whose page
    size is a power of two. *)
Definition opens (a : answers) : Prop :=
  0 <= a_open a /\ 0 <= a_getfl a /\ 0 <= a_setfl a /\ 0 <= a_setown a /\ 0 <= a_setsig a /\
  exists addr page, a_mmap a = Some (addr, page) /\ 0 < addr /\ exists k, 0 <= k < 31 /\ Z.of_nat (length page) = 2 ^ k.

Definition event_of (i : nat) (sample_type : Z) (a : answers) : event_thread :=
  let m := default (0, []) (a_mmap a) in
  mkET (mkEvent (Z.of_nat i) (a_open a) (mkMmap 0 0 m.2) sample_type) m.1.
Fixpoint events_of (i : nat) (event_info : list Z) (ans : nat -> answers) : list event_thread :=
  match event_info with
  | [] => []
  | st :: event_info => event_of i st (ans i) :: events_of (S i) event_info ans
  end.

Definition et_fd (e : event_thread) : Z := ev_fd (et_event e).
Definition fds_of (l : list event_thread) : list Z := et_fd <$> l.
Definition bufs_of (l : list event_thread) : list Z := et_buf <$> l.

Lemma length_events_of i ei ans : length (events_of i ei ans) = length ei.
Proof. revert i; induction ei as [|st ei IH]; intros i; [done|]. cbn. by rewrite IH. Qed.

(** Descriptors that were opened and are not enabled yet. *)
Definition add_fds (fds : list Z) (k : kfds) : kfds := foldl (fun k fd => <[fd := false]> k) k fds.

Lemma add_fds_lookup fds : forall k fd, add_fds fds k !! fd = if decide (fd ∈ fds) then Some false else k !! fd.
Proof.
  unfold add_fds. induction fds as [|f fds IH]; intros k fd; cbn [foldl]; [by rewrite decide_False by apply not_elem_of_nil|].
  rewrite IH. destruct (decide (fd ∈ fds)) as [Hin|Hni]; [by rewrite decide_True by (by right)|].
  destruct (decide (fd = f)) as [->|Hne]; [by rewrite lookup_insert_eq, decide_True by (by left)|].
  rewrite lookup_insert_ne, decide_False; [done| |done]. by intros [|]%elem_of_cons.
Qed.

Lemma reset_same fd k : (ioctl_reset fd k).2 = k.
Proof. unfold ioctl_reset. by case_match. Qed.

(** Worlds are compared field by field. *)
Ltac by_fields s :=
  destruct s; unfold set_blocks, set_maps, set_fds, set_events; cbn;
  unfold set_blocks, set_maps, set_fds; cbn; f_equal.

Section opening.
Context {P D : Type}.
Abbreviation world := (locals (P := P) * shared (D := D))%type.
Variable gettid : Z.

(** What the events [es] add to what is shared, beside the thread's block [b]. *)
Definition with_events (key : Z) (b : thread_data) (es : list event_thread) (s : shared) : shared (D := D) :=
  set_blocks (<[key := b]> (s_blocks s))
    (set_maps (list_to_set (bufs_of es) ∪ s_maps s) (set_fds (add_fds (fds_of es) (s_fds s)) s)).

(** The array of descriptors with the first [n] elements from [i] on written. *)
Fixpoint write_fds (i : nat) (fds : list Z) (l : list Z) : list Z :=
  match fds with [] => l | fd :: fds => write_fds (S i) fds (<[i := fd]> l) end.

Lemma with_events_app key b b' es es' (s : shared) :
  with_events key b' es' (with_events key b es s) = with_events key b' (es ++ es') s.
Proof.
  unfold with_events, bufs_of, fds_of, add_fds. by_fields s.
  - by rewrite fmap_app, foldl_app.
  - rewrite fmap_app, list_to_set_app_L. set_solver.
  - by rewrite insert_insert_eq.
Qed.

Lemma setup_event_ok i st a (w : world) b l :
  owns w b -> td_perf b = Some l -> opens a -> 0 <= l_curEventId w.1 < MAX_EVENTS ->
  runs (setup_event gettid (Z.of_nat i) st a) w (fun ok w' => ok = true /\
    w' = (set_events (<[Z.to_nat (l_curEventId w.1) := a_open a]> (l_eventFd w.1)) (l_curEventId w.1 + 1) w.1,
          with_events (l_key w.1) (with_perf (Some (l ++ [event_of i st a])) b) [event_of i st a] w.2)).
Proof.
  intros Ho Hl (Hfd & H1 & H2 & H3 & H4 & addr & page & Hm & _) Hc. unfold setup_event.
  rewrite (proj2 (Z.eqb_neq _ _)) by lia.
  apply runs_bind, runs_put_shared. apply runs_bind, runs_put_shared. rewrite reset_same.
  rewrite !(proj2 (Z.ltb_ge _ _)) by done.
  unfold perf_set_mmap. rewrite Hm. apply runs_bind, runs_bind, runs_put_shared, runs_ret.
  assert (event_of i st a = mkET (mkEvent (Z.of_nat i) (a_open a) (mkMmap 0 0 page) st) addr) as Ee
    by (unfold event_of; by rewrite Hm). rewrite <- Ee.
  destruct w as [lo s]. cbn [fst snd] in *. apply runs_bind. eapply runs_TD_SET; [exact Ho|]. rewrite Hl.
  apply runs_bind. unfold SetupEventFd. apply runs_bind, runs_gets. cbn [put_block fst snd].
  apply runs_bind, runs_passert; [rewrite (proj2 (Z.leb_le _ _)), (proj2 (Z.ltb_lt _ _)) by lia; done|].
  apply runs_put_locals, runs_ret. split; [done|]. f_equal.
  unfold with_events, bufs_of, fds_of, add_fds, et_fd. rewrite Ee. by_fields s. set_solver.
Qed.

Lemma setup_loop_ok ans ei : forall i (w : world) b l,
  owns w b -> td_perf b = Some l -> (forall j, (i <= j < i + length ei)%nat -> opens (ans j)) ->
  0 <= l_curEventId w.1 -> l_curEventId w.1 + Z.of_nat (length ei) <= MAX_EVENTS ->
  runs (setup_loop gettid i ei ans) w (fun ok w' => ok = true /\
    w' = (set_events (write_fds (Z.to_nat (l_curEventId w.1)) (fds_of (events_of i ei ans)) (l_eventFd w.1))
            (l_curEventId w.1 + Z.of_nat (length ei)) w.1,
          with_events (l_key w.1) (with_perf (Some (l ++ events_of i ei ans)) b) (events_of i ei ans) w.2)).
Proof.
  induction ei as [|st ei IH]; intros i w b l Ho Hl Ha H0 Hc; cbn [setup_loop].
  - apply runs_ret. split; [done|]. cbn. rewrite app_nil_r, Z.add_0_r, <- Hl. destruct w as [lo s]. f_equal; [by destruct lo|].
    destruct Ho as [_ Hb]. unfold with_events. cbn in Hb. by_fields s; [set_solver|]. rewrite insert_id; [done|].
    cbn in Hb. rewrite Hb. by destruct b.
  - cbn [length] in Hc. apply runs_bind. eapply runs_mono; [apply (setup_event_ok i st (ans i) w b l); try done; [apply Ha; cbn; lia|lia]|].
    intros ok w1 [-> ->]. cbn iota.
    eapply runs_mono; [apply (IH (S i) _ (with_perf (Some (l ++ [event_of i st (ans i)])) b) (l ++ [event_of i st (ans i)]))|].
    + destruct Ho as [Hk _]. split; [done|]. cbn. by rewrite lookup_insert_eq.
    + done.
    + intros j Hj. apply Ha. cbn. lia.
    + cbn. lia.
    + cbn. lia.
    + intros ok w2 [-> ->]. split; [done|]. cbn [fst snd l_key l_curEventId l_eventFd set_events].
      rewrite with_events_app. cbn [events_of]. rewrite <- app_assoc. cbn [app].
      replace (Z.to_nat (l_curEventId w.1 + 1)) with (S (Z.to_nat (l_curEventId w.1))) by lia.
      by replace (l_curEventId w.1 + 1 + Z.of_nat (length ei))
        with (l_curEventId w.1 + Z.of_nat (length (st :: ei))) by (cbn; lia).
Qed.
End opening.

(** ** Starting a thread *)
Section starting.
Context {P D : Type} `{ThreadWatchLaws P} `{DoubleOps D}.
Abbreviation world := (locals (P := P) * shared (D := D))%type.
Variable gettid : Z.
Variable event_info : list Z.
Variable realpath : option str -> str -> str.
Variable pagesize : Z.
Variable maps : option str.
Variable tmpname : str.
Abbreviation num_events := (length event_info).

(** Fresh addresses are fresh. *)
Definition shared_ok (s : shared (D := D)) : Prop := 0 < s_next s /\ forall p, is_Some (s_blocks s !! p) -> 0 < p < s_next s.

Lemma shared_ok_fresh (s : shared (D := D)) : shared_ok s -> s_blocks s !! s_next s = None.
Proof. intros [_ Hs]. destruct (s_blocks s !! s_next s) eqn:E; [|done]. assert (0 < s_next s < s_next s) by eauto. lia. Qed.

Lemma runs_alloc (w : world) (Q : Z -> world -> Prop) :
  Q (s_next w.2) (set_key (s_next w.2) w.1,
     set_next (s_next w.2 + 1) (set_blocks (<[s_next w.2 := mkThread gettid false None None None]> (s_blocks w.2)) w.2)) ->
  runs (thread_data_alloc gettid) w Q.
Proof.
  intros HQ. apply runs_bind, runs_gets. apply runs_bind, runs_put_shared. apply runs_bind, runs_put_locals.
  by apply runs_ret.
Qed.

(** Two descriptors, or two addresses, that are new. *)
Definition new_fds (es : list event_thread) (k : kfds) : Prop :=
  NoDup (fds_of es) /\ Forall (fun fd => k !! fd = None) (fds_of es).

Lemma opens_events ans ei : forall i,
  (forall j, (i <= j < i + length ei)%nat -> opens (ans j)) ->
  Forall (fun e => 0 <= et_fd e /\ 0 < et_buf e /\ ring_ok (ev_mmap (et_event e)) /\ unread (ev_mmap (et_event e)) = [])
    (events_of i ei ans).
Proof.
  induction ei as [|st ei IH]; intros i Ha; cbn [events_of]; constructor.
  - destruct (Ha i) as (Hf & _ & _ & _ & _ & addr & page & Em & Hp & k & Hk & Epg); [cbn; lia|].
    unfold event_of. rewrite Em. cbn. split_and!; [done|done| |done].
    split; [exists k; by split|]. cbn. unfold page_size. cbn. rewrite Epg.
    assert (0 < 2 ^ k) by (apply Z.pow_pos_nonneg; lia). lia.
  - apply IH. intros j Hj. apply Ha. cbn. lia.
Qed.

Lemma setupEvents_ok ans (w : world) b :
  owns w b -> td_perf b = None -> (forall j, (j < num_events)%nat -> opens (ans j)) ->
  0 <= l_curEventId w.1 -> l_curEventId w.1 + Z.of_nat num_events <= MAX_EVENTS ->
  let es := events_of 0 event_info ans in
  runs (setupEvents gettid event_info ans) w (fun ok w' => ok = true /\ exists k',
    w' = (set_events (write_fds (Z.to_nat (l_curEventId w.1)) (fds_of es) (l_eventFd w.1))
            (l_curEventId w.1 + Z.of_nat num_events) w.1,
          set_fds k' (with_events (l_key w.1) (with_perf (Some es) b) es w.2)) /\
    forall fd, k' !! fd = if decide (fd ∈ fds_of es) then Some true else s_fds w.2 !! fd).
Proof.
  intros Ho Hb Ha Hn0 Hc es. unfold setupEvents. apply runs_bind. eapply runs_TD_GET; [exact Ho|]. rewrite Hb.
  apply runs_bind. cbn [is_null]. eapply runs_TD_SET; [exact Ho|].
  set (w1 := put_block _ w). assert (Ho1 : owns w1 (with_perf (Some []) b)) by (by eapply owns_put).
  apply runs_bind. eapply runs_TD_GET; [exact Ho1|]. apply runs_bind.
  eapply runs_mono; [apply (setup_loop_ok gettid ans event_info 0 w1 (with_perf (Some []) b) []); try done|].
  { intros j Hj. apply Ha. lia. }
  fold es. intros ok w2 [-> ->]. cbn iota.
  set (w2 := (_, _)). assert (Ho2 : owns w2 (with_perf (Some es) b)).
  { destruct Ho as [Hk _]. split; [done|]. subst w2. cbn. by rewrite lookup_insert_eq. }
  apply runs_bind. eapply runs_TD_GET; [exact Ho2|]. cbn [td_perf with_perf].
  unfold perf_switch. apply runs_bind, runs_bind, runs_gets.
  pose proof (opens_events ans event_info 0 ltac:(intros; apply Ha; lia)) as Hes. fold es in Hes.
  destruct (perf_set_all_ok true (et_event <$> es) (s_fds w2.2)) as (k' & E & _ & Hk').
  { apply Forall_fmap, Forall_forall. intros e He. cbn. apply elem_of_dom.
    rewrite add_fds_lookup, decide_True; [eauto|]. by apply (list_elem_of_fmap_2 et_fd). }
  { apply Forall_fmap. eapply Forall_impl; [exact Hes|]. by intros e (? & _). }
  rewrite E. cbn [fst snd]. apply runs_bind, runs_put_shared, runs_ret, runs_ret. split; [done|]. exists k'. split.
  - subst w2 w1. destruct w as [lo s]. cbn. f_equal. unfold with_events. by_fields s. by rewrite insert_insert_eq.
  - intros fd. rewrite Hk'. change (ev_fd <$> (et_event <$> es)) with (ev_fd <$> (et_event <$> es)).
    rewrite <- list_fmap_compose. change (ev_fd ∘ et_event) with et_fd. fold (fds_of es).
    destruct (decide (fd ∈ fds_of es)) as [|Hni]; [done|]. subst w2. cbn. by rewrite add_fds_lookup, decide_False.
Qed.

(** [threadStart] on a thread with any block, or none. *)
Definition fresh_thread : thread_data (D := D) := mkThread gettid false None (Some ContextTree_new) (Some [header_line]).

Lemma threadStart_before ans (w : world) black :
  shared_ok w.2 -> watch_ready (l_watch w.1) ->
  PopulateBlackListAddresses realpath pagesize maps tmpname (s_black w.2) = RET black ->
  exists p' w', watch_runs p' /\ owns w' fresh_thread /\
    w' = (mkLocals (s_next w.2) (replicate (Z.to_nat MAX_EVENTS) (-1)) (l_curEventId w.1) p' (l_total w.1),
       mkShared (s_fds w.2) (s_maps w.2) (<[s_next w.2 := fresh_thread]> (s_blocks w.2))
         (s_next w.2 + 1) (s_cache w.2) black (s_files w.2) (s_methods w.2) (s_gc w.2) (s_total w.2)) /\
    threadStart gettid event_info realpath pagesize maps tmpname ans w =
      (setupEvents gettid event_info ans ≫= fun _ => mret tt) w'.
Proof.
  intros Hs Hw Hb. destruct (watch_init_ok (l_watch w.1) Hw) as (p' & Ep & Hp').
  exists p'. eexists. split; [exact Hp'|]. split; [|split; [reflexivity|]].
  { split; [cbn; destruct Hs; lia|]. cbn. by rewrite lookup_insert_eq. }
  unfold threadStart. destruct w as [lo s]. cbn [fst snd] in *.
  apply bind_after, runs_put_locals. apply bind_after, runs_alloc. cbn [fst snd].
  set (w1 := (_, _)). assert (Ho1 : owns w1 (mkThread gettid false None None None)).
  { subst w1. split; cbn; [destruct Hs; lia|]. by rewrite lookup_insert_eq. }
  apply bind_after. eapply runs_TD_SET; [exact Ho1|].
  pose proof (owns_put _ (with_context (Some ContextTree_new) (mkThread gettid false None None None)) w1 Ho1) as Ho2.
  apply bind_after. eapply runs_TD_GET; [exact Ho2|].
  apply bind_after. eapply runs_TD_SET; [exact Ho2|]. set (w3 := put_block _ (put_block _ w1)).
  apply bind_after, runs_gets. change (l_watch w3.1) with (l_watch lo).
  rewrite Ep. apply bind_after, runs_passert; [done|]. apply bind_after, runs_put_locals.
  apply bind_after, runs_gets. apply bind_after. eapply runs_lift; [exact Hb|].
  apply bind_after, runs_put_shared. cbn [fst snd]. f_equal.
  subst w3 w1. unfold put_block, set_black, set_next. f_equal. by_fields s. by rewrite !insert_insert_eq.
Qed.

Lemma threadStart_ok ans (w : world) black :
  shared_ok w.2 -> watch_ready (l_watch w.1) ->
  PopulateBlackListAddresses realpath pagesize maps tmpname (s_black w.2) = RET black ->
  (forall j, (j < num_events)%nat -> opens (ans j)) ->
  0 <= l_curEventId w.1 -> l_curEventId w.1 + Z.of_nat num_events <= MAX_EVENTS ->
  let es := events_of 0 event_info ans in
  runs (threadStart gettid event_info realpath pagesize maps tmpname ans) w (fun _ w' => exists k' p',
    watch_runs p' /\
    w' = (mkLocals (s_next w.2)
            (write_fds (Z.to_nat (l_curEventId w.1)) (fds_of es) (replicate (Z.to_nat MAX_EVENTS) (-1)))
            (l_curEventId w.1 + Z.of_nat num_events) p' (l_total w.1),
          mkShared k' (list_to_set (bufs_of es) ∪ s_maps w.2)
            (<[s_next w.2 := with_perf (Some es) fresh_thread]> (s_blocks w.2))
            (s_next w.2 + 1) (s_cache w.2) black (s_files w.2) (s_methods w.2) (s_gc w.2) (s_total w.2)) /\
    forall fd, k' !! fd = if decide (fd ∈ fds_of es) then Some true else s_fds w.2 !! fd).
Proof.
  intros Hs Hw Hb Ha Hn0 Hc es. destruct (threadStart_before ans w black Hs Hw Hb) as (p' & w4 & Hp' & Ho4 & Ew & E).
  unfold runs. rewrite E. apply runs_bind.
  eapply runs_mono; [apply (setupEvents_ok ans w4 fresh_thread Ho4 eq_refl Ha); rewrite Ew; cbn; lia|].
  intros ok w5 (-> & k' & -> & Hk'). apply runs_ret. exists k', p'. split; [done|]. subst w4. split; [|done].
  f_equal. unfold with_events. destruct w as [lo s]. by_fields s. by rewrite insert_insert_eq.
Qed.

(** *** When an event cannot be opened *)
Lemma setup_loop_app a ans ei : forall i (w : world),
  setup_loop gettid i (ei ++ a) ans w =
    match setup_loop gettid i ei ans w with
    | RET (true, w') => setup_loop gettid (i + length ei) a ans w'
    | r => r
    end.
Proof.
  induction ei as [|st ei IH]; intros i w; cbn [app setup_loop length]; [by rewrite Nat.add_0_r|].
  unfold mbind, prog_bind. destruct (setup_event _ _ _ _ w) as [[[] w1]|]; [|done|done].
  rewrite IH. by rewrite Nat.add_succ_r.
Qed.

(** The first [k] events are opened, the next one is not. *)
Lemma setupEvents_fails ans (w : world) b k :
  owns w b -> td_perf b = None -> (k < num_events)%nat -> (forall j, (j < k)%nat -> opens (ans j)) ->
  a_open (ans k) = -1 -> 0 <= l_curEventId w.1 -> l_curEventId w.1 + Z.of_nat k <= MAX_EVENTS ->
  let es := events_of 0 (take k event_info) ans in
  runs (setupEvents gettid event_info ans) w (fun ok w' => ok = false /\
    w' = (set_events (write_fds (Z.to_nat (l_curEventId w.1)) (fds_of es) (l_eventFd w.1))
            (l_curEventId w.1 + Z.of_nat k) w.1,
          with_events (l_key w.1) (with_perf (Some es) b) es w.2)).
Proof.
  intros Ho Hb Hk Ha Hf Hn0 Hc es. unfold setupEvents. apply runs_bind. eapply runs_TD_GET; [exact Ho|]. rewrite Hb.
  apply runs_bind. cbn [is_null]. eapply runs_TD_SET; [exact Ho|].
  set (w1 := put_block _ w). assert (Ho1 : owns w1 (with_perf (Some []) b)) by (by eapply owns_put).
  apply runs_bind. eapply runs_TD_GET; [exact Ho1|]. apply runs_bind.
  assert (Hlk : length (take k event_info) = k) by (rewrite length_take; lia).
  destruct (setup_loop_ok gettid ans (take k event_info) 0 w1 (with_perf (Some []) b) []) as (ok & w2 & E & -> & ->);
    [done|done|intros j Hj; apply Ha; lia|done|by rewrite Hlk|].
  destruct (lookup_lt_is_Some_2 event_info k Hk) as [st Hst].
  eexists false, _. split.
  - rewrite <- (take_drop_middle event_info k st Hst) at 1. rewrite setup_loop_app, E, Hlk. cbn [setup_loop Nat.add].
    unfold mbind, prog_bind, setup_event. by rewrite Hf.
  - apply runs_ret. split; [done|]. fold es. rewrite ?Hlk. subst w1. destruct w as [lo s]. unfold put_block, with_events.
    f_equal. by_fields s. by rewrite insert_insert_eq.
Qed.

(** There is no room for a descriptor in the profiler's array. *)
Lemma setup_loop_full ans ei : forall i (w : world) b l,
  owns w b -> td_perf b = Some l -> (forall j, (i <= j < i + length ei)%nat -> opens (ans j)) ->
  0 <= l_curEventId w.1 <= MAX_EVENTS -> MAX_EVENTS < l_curEventId w.1 + Z.of_nat (length ei) ->
  setup_loop gettid i ei ans w = EXC.
Proof.
  induction ei as [|st ei IH]; intros i w b l Ho Hl Ha Hn0 Hc; [cbn in Hc; lia|]. cbn [length] in Hc.
  cbn [setup_loop]. unfold mbind at 1, prog_bind at 1.
  destruct (decide (l_curEventId w.1 < MAX_EVENTS)) as [Hlt|Hge].
  - destruct (setup_event_ok gettid i st (ans i) w b l) as (ok & w1 & -> & -> & ->); [done|done|apply Ha; cbn; lia|lia|].
    eapply (IH (S i)); [| |intros j Hj; apply Ha; cbn; lia|cbn; lia|cbn; lia].
    + destruct Ho as [Hk _]. split; [done|]. cbn. by rewrite lookup_insert_eq.
    + done.
  - destruct (Ha i) as (Hfd & H1' & H2' & H3' & H4' & addr & page & Hm & _); [cbn; lia|].
    assert (setup_event gettid (Z.of_nat i) st (ans i) w = EXC) as ->; [|done].
    unfold setup_event. rewrite (proj2 (Z.eqb_neq _ _)) by lia.
    rewrite !(proj2 (Z.ltb_ge _ _)) by done. unfold perf_set_mmap. rewrite Hm.
    unfold mbind, prog_bind, put_shared, mret, prog_ret. cbn [fst snd].
    set (w1 := (_, _)). assert (Ho1 : owns w1 b) by exact Ho.
    destruct (runs_TD_SET gettid (fun b => with_perf ((fun l => l ++ [mkET (mkEvent (Z.of_nat i) (a_open (ans i))
       (mkMmap 0 0 page) st) addr]) <$> td_perf b) b) w1 b (fun _ w2 => l_curEventId w2.1 = l_curEventId w.1) Ho1 eq_refl)
      as (? & w2 & -> & Ec). unfold SetupEventFd, mbind, prog_bind, gets, passert, lift, assert_exc.
    rewrite Ec. rewrite (proj2 (Z.ltb_ge _ _)) by lia. by rewrite andb_false_r.
Qed.

Lemma setupEvents_full ans (w : world) b :
  owns w b -> td_perf b = None -> (forall j, (j < num_events)%nat -> opens (ans j)) ->
  0 <= l_curEventId w.1 <= MAX_EVENTS -> MAX_EVENTS < l_curEventId w.1 + Z.of_nat num_events ->
  setupEvents gettid event_info ans w = EXC.
Proof.
  intros Ho Hb Ha Hn0 Hc. unfold setupEvents. apply bind_after. eapply runs_TD_GET; [exact Ho|]. rewrite Hb.
  apply bind_after. cbn [is_null]. eapply runs_TD_SET; [exact Ho|].
  pose proof (owns_put b (with_perf (Some []) b) w Ho) as Ho1.
  apply bind_after. eapply runs_TD_GET; [exact Ho1|]. unfold mbind at 1, prog_bind at 1.
  rewrite (setup_loop_full ans event_info 0 _ (with_perf (Some []) b) []); try done. intros j Hj. apply Ha. lia.
Qed.
End starting.

(** ** Ending a thread *)
Definition del_fds (fds : list Z) (k : kfds) : kfds := foldl (fun k fd => delete fd k) k fds.

Lemma del_fds_lookup fds : forall k fd, del_fds fds k !! fd = if decide (fd ∈ fds) then None else k !! fd.
Proof.
  unfold del_fds. induction fds as [|f fds IH]; intros k fd; cbn [foldl]; [by rewrite decide_False by apply not_elem_of_nil|].
  rewrite IH. destruct (decide (fd ∈ fds)) as [Hin|Hni]; [by rewrite decide_True by (by right)|].
  destruct (decide (fd = f)) as [->|Hne]; [by rewrite lookup_delete_eq, decide_True by (by left)|].
  rewrite lookup_delete_ne, decide_False; [done| |done]. by intros [|]%elem_of_cons.
Qed.

(** Switching counters leaves all other descriptors alone. *)
Lemma perf_set_all_frame on l : forall k fd, fd ∉ (ev_fd <$> l) -> (perf_set_all on l k).2 !! fd = k !! fd.
Proof.
  induction l as [|e l IH]; intros k fd Hni; [done|]. cbn [perf_set_all]. cbn in Hni. apply not_elem_of_cons in Hni as [Hne Hni].
  destruct (ev_fd e <? 0); [auto|]. unfold ioctl_set. destruct (k !! ev_fd e); [|done].
  change (0 <? 0) with false. cbn iota. rewrite IH by done. by rewrite lookup_insert_ne.
Qed.

(** The world of a step, its fields computed. *)
Ltac normal_world_cbv :=
  cbv [put_block fst snd set_key set_events set_watch set_fds set_maps set_blocks set_next set_cache set_black set_files
       set_methods set_gc set_total l_key l_eventFd l_curEventId l_watch l_total
       s_fds s_maps s_blocks s_next s_cache s_black s_files s_methods s_gc s_total].
Tactic Notation "normal_world" := normal_world_cbv.
Tactic Notation "normal_world" "in" "*" :=
  cbv [put_block fst snd set_key set_events set_watch set_fds set_maps set_blocks set_next set_cache set_black set_files
       set_methods set_gc set_total l_key l_eventFd l_curEventId l_watch l_total
       s_fds s_maps s_blocks s_next s_cache s_black s_files s_methods s_gc s_total] in *.

Section ending.
Context {P D : Type} `{ThreadWatchLaws P} `{DoubleOps D}.
Abbreviation world := (locals (P := P) * shared (D := D))%type.
Abbreviation ctree := (ContextTree (M := list (metric_val_t D))).
Variable show_double : D -> str.
Variable order : gmap str str -> list (str * str).
Variable tree_order : ctree -> list nat.
Variable gettid : Z.
Variable event_info : list Z.
Variable infos : list metric_info_t.
Hypothesis show_double_value : forall d, value_ok (show_double d).
Hypothesis order_perm : forall m, order m ≡ₚ map_to_list m.
Hypothesis infos_plain : Forall (fun i => value_ok (lit (event_measure i)) /\ value_ok (lit (event_name i))) infos.
Hypothesis infos_few : Z.of_nat (length infos) < 2 ^ 31.

(** The events of a thread, as [closeEvents] finds them. *)
Definition closable (l : list event_thread) : Prop :=
  length l = length event_info /\ Forall (fun e => 0 <= et_fd e /\ 0 < et_buf e) l.

(** What is shared without some events. *)
Definition without_events (es : list event_thread) (s : shared (D := D)) : shared :=
  set_maps (s_maps s ∖ list_to_set (bufs_of es)) (set_fds (del_fds (fds_of es) (s_fds s)) s).

Lemma close_loop_ok l n : forall i (w : world),
  (i + n <= length l)%nat -> Forall (fun e => 0 <= et_fd e /\ 0 < et_buf e) l ->
  runs (close_loop (seq i n) l) w (fun _ w' => w' = (w.1, without_events (take n (drop i l)) w.2)).
Proof.
  induction n as [|n IH]; intros i w Hi Hl; cbn [seq close_loop].
  - apply runs_ret. rewrite take_0. destruct w as [lo s]. unfold without_events. f_equal. by_fields s. set_solver.
  - destruct (lookup_lt_is_Some_2 l i) as [e He]; [lia|]. rewrite He.
    rewrite Forall_lookup in Hl. destruct (Hl i e He) as [Hf Hb].
    unfold et_fd in Hf. rewrite (proj2 (Z.leb_le _ _)) by done. apply runs_bind, runs_put_shared.
    unfold perf_unmmap. rewrite (proj2 (Z.eqb_neq _ _)) by lia. apply runs_bind, runs_put_shared.
    eapply runs_mono; [apply IH; [lia|by apply Forall_lookup]|]. intros _ w' ->. cbn [fst snd]. f_equal.
    rewrite (drop_S _ _ _ He). cbn [take]. destruct w as [lo s]. unfold without_events. by_fields s. set_solver.
Qed.

Lemma closeEvents_ok (w : world) b l :
  owns w b -> td_perf b = Some l -> closable l ->
  runs (closeEvents gettid event_info) w (fun _ w' => exists k',
    w' = (w.1, set_blocks (<[l_key w.1 := with_perf None b]> (s_blocks w.2))
                 (set_maps (s_maps w.2 ∖ list_to_set (bufs_of l)) (set_fds k' w.2))) /\
    forall fd, k' !! fd = if decide (fd ∈ fds_of l) then None else s_fds w.2 !! fd).
Proof.
  intros Ho Hb [Hlen Hl]. unfold closeEvents. apply runs_bind. eapply runs_TD_GET; [exact Ho|]. rewrite Hb.
  unfold perf_switch. apply runs_bind, runs_bind, runs_gets. apply runs_bind, runs_put_shared, runs_ret.
  set (k1 := (perf_set_all false (et_event <$> l) (s_fds w.2)).2). set (w1 := (w.1, _)).
  assert (Ho1 : owns w1 b) by exact Ho.
  apply runs_bind. unfold num_events. rewrite <- Hlen. eapply runs_mono; [by apply close_loop_ok|].
  intros _ w2 ->. rewrite drop_0, firstn_all. apply runs_bind. eapply runs_TD_SET; [exact Ho1|]. apply runs_ret.
  exists (del_fds (fds_of l) k1). split.
  - subst w1. destruct w as [lo s]. cbn. unfold put_block, without_events. f_equal; by_fields s.
  - intros fd. rewrite del_fds_lookup. case_decide as Hd; [done|]. subst k1. apply perf_set_all_frame.
    rewrite <- list_fmap_compose. exact Hd.
Qed.

(** A tree that can be written. *)
Record reportable (t : ctree) : Prop := {
  rep_tree : tree_ok t;
  rep_order : tree_order t ≡ₚ (map_to_list (context_map t)).*2;
  rep_plain : forall c n, heap t !! c = Some n ->
    0 <= method_id (n_frame n) /\ forall m, n_metrics n = Some m -> metrics_plain infos m;
}.

(** A file of nodes with the same tag is read. *)
Lemma file_read arrive tag os texts :
  (forall m, order m ≡ₚ map_to_list m) -> name_ok tag -> Forall (node_ok tag) os -> Forall2 (text_of order) os texts ->
  HomoXMLParser arrive tag (concat (header_line :: texts)) = Some (mkPy (lit "root") ∅ (arrive (map reading os))).
Proof.
  intros Ho Ht Hos Hts. cbn [concat]. unfold header_line. rewrite <- app_assoc. by apply (HomoXMLParser_texts order).
Qed.

(** What the report [texts] of the tree [t] says, and what the cache knows then. *)
Definition reports (t : ctree) (texts : list str) (c : CodeCache) : Prop :=
  exists cs os, texts = map (context_text order) os /\ Forall (node_ok (lit "context")) os /\
    Forall2 (reads_as show_double infos t) cs (map reading os) /\
    NoDup cs /\ (forall x, x ∈ cs <-> exists d, measured t d /\ above t d x) /\
    forall d dn, heap t !! d = Some dn -> known c (method_id (n_frame dn)).

Lemma dump_contexts_ok t (w : world) :
  reportable t ->
  runs (dump_contexts show_double order tree_order infos t) w (fun texts w' => exists c',
    w' = (w.1, set_cache c' w.2) /\ reports t texts c' /\ grows (s_cache w.2) c').
Proof.
  intros Hr. unfold dump_contexts. apply runs_bind, runs_gets.
  destruct (dump_whole t (rep_tree t Hr) (tree_order t) (s_cache w.2) (rep_order t Hr)) as (s & E & Hs & Hw & Hk & Hg).
  rewrite E. apply runs_bind, runs_put_shared.
  destruct (contexts_ok show_double show_double_value order infos infos_plain infos_few t (rep_tree t Hr) (rep_plain t Hr)
    (written s)) as (os & Et & Hos & Hra); [apply Forall_forall, (inv_heap _ _ _ Hs)|].
  unfold dump_text. rewrite Et. apply runs_ret. exists (dump_cache s). split_and!; [done| |done].
  exists (written s), os. split_and!; [done..|apply Hs|done|done].
Qed.

(** A running thread: its block, its events, its tree, what it printed so far. *)
Record running (w : world) (b : thread_data) (l : list event_thread) (t : ctree) (out : list str) : Prop := {
  run_owns : owns w b;
  run_perf : td_perf b = Some l;
  run_closable : closable l;
  run_context : td_context b = Some t;
  run_reportable : reportable t;
  run_output : td_output b = Some out;
  run_watch : watch_runs (l_watch w.1);
}.

Lemma put_block_running w b l t out i :
  running w b l t out -> running (put_block (with_inside i b) w) (with_inside i b) l t out.
Proof. intros [Ho ? ? ? ? ? ?]. split; try done. by eapply owns_put. Qed.

Lemma threadEnd_ok (w : world) b l t out :
  running w b l t out ->
  runs (threadEnd show_double order tree_order gettid event_info infos) w (fun _ w' => exists k' c' p' texts,
    w' = (mkLocals 0 (l_eventFd w.1) (l_curEventId w.1) p' (l_total w.1),
          mkShared k' (s_maps w.2 ∖ list_to_set (bufs_of l)) (delete (l_key w.1) (s_blocks w.2)) (s_next w.2)
            c' (s_black w.2) (s_files w.2 ++ [(td_tid b, out ++ texts)]) (s_methods w.2) (s_gc w.2)
            (u64 (s_total w.2 + l_total w.1))) /\
    (forall fd, k' !! fd = if decide (fd ∈ fds_of l) then None else s_fds w.2 !! fd) /\
    watch_open p' = ∅ /\ reports t texts c' /\ grows (s_cache w.2) c').
Proof.
  intros [Ho Hp Hcl Hc Hr Hout Hw]. unfold threadEnd.
  apply runs_bind. eapply runs_mono; [by apply (closeEvents_ok w b l)|]. intros _ w1 (k' & -> & Hk').
  destruct w as [[key ef ci wt tot] [k m bl nx ca bk fi me gc st]]. destruct Ho as [Hkey Hbl]. normal_world in *.
  apply runs_bind, runs_gets. destruct (watch_terminate_ok wt Hw) as (p' & Ep & Hp').
  normal_world. apply runs_bind. eapply runs_lift; [exact Ep|]. apply runs_bind, runs_put_locals. normal_world.
  set (bl1 := <[key := with_perf None b]> bl). assert (Hb1 : bl1 !! key = Some (with_perf None b)) by apply lookup_insert_eq.
  apply runs_bind. eapply runs_TD_GET; [by split|]. apply runs_bind. eapply runs_TD_GET; [by split|].
  cbn [td_context td_output with_perf]. rewrite Hc, Hout.
  apply runs_bind. eapply runs_mono; [by apply dump_contexts_ok|]. intros texts w3 (c' & -> & Hrep & Hg). normal_world in *.
  apply runs_bind, runs_bind. eapply runs_TD_GET; [by split|]. apply runs_put_shared. normal_world.
  apply runs_bind. eapply runs_TD_SET; [by split|]. normal_world.
  set (b2 := with_output None (with_perf None b)).
  apply runs_bind. eapply (runs_TD_SET _ _ _ b2); [split; [done|]; cbn; apply lookup_insert_eq|]. normal_world.
  apply runs_bind. unfold thread_data_dealloc. apply runs_bind, runs_gets. normal_world.
  rewrite (proj2 (Z.eqb_neq _ _)) by done. rewrite insert_insert_eq.
  apply runs_bind. unfold load. apply runs_bind, runs_gets. normal_world. rewrite lookup_insert_eq. apply runs_ret.
  do 3 (apply runs_bind, runs_passert; [done|]). apply runs_bind, runs_put_shared, runs_put_locals. normal_world.
  apply runs_bind, runs_gets, runs_put_shared. normal_world.
  exists k', c', p', texts. split_and!; [|done..]. subst bl1. by rewrite insert_insert_eq, delete_insert_eq.
Qed.
End ending.

(** ** A thread's life *)
Section life.
Context {P D : Type} `{ThreadWatchLaws P} `{DoubleOps D}.
Abbreviation world := (locals (P := P) * shared (D := D))%type.
Abbreviation ctree := (ContextTree (M := list (metric_val_t D))).
Variable show_double : D -> str.
Variable order : gmap str str -> list (str * str).
Variable tree_order : ctree -> list nat.
Variable gettid : Z.
Variable event_info : list Z.
Variable infos : list metric_info_t.
Variable realpath : option str -> str -> str.
Variable pagesize : Z.
Variable maps : option str.
Variable tmpname : str.

Abbreviation num_events := (length event_info).
Abbreviation start := (callbackThreadStart gettid event_info realpath pagesize maps tmpname).
Abbreviation finish := (callbackThreadEnd show_double order tree_order gettid event_info infos).
Abbreviation no_data inside := (mkThread gettid inside None None (None : option (list str))).

Lemma runs_BLOCK_new (w : world) (Q : unit -> world -> Prop) inside :
  l_key w.1 = 0 -> shared_ok w.2 ->
  Q tt (set_key (s_next w.2) w.1,
        set_next (s_next w.2 + 1) (set_blocks (<[s_next w.2 := no_data inside]> (s_blocks w.2)) w.2)) ->
  runs (TD_SET gettid (with_inside inside)) w Q.
Proof.
  intros Hk Hs HQ. unfold TD_SET, thread_data_get. apply runs_bind, runs_bind, runs_gets. rewrite Hk.
  apply runs_alloc. destruct w as [lo s]. cbn in *. apply runs_bind. unfold load. apply runs_bind, runs_gets. cbn.
  rewrite lookup_insert_eq. apply runs_ret, runs_put_shared. cbn [fst snd].
  eapply eq_ind; [exact HQ|]. f_equal. by_fields s. by rewrite insert_insert_eq.
Qed.

(** What the start of a thread needs: fewer events than the profiler's array holds, a kernel that
    opens them on new descriptors, a file of mappings that can be read. *)
Record can_start (w : world) (ans : nat -> answers) (black : list (Z * Z)) : Prop := {
  start_shared : shared_ok w.2;
  start_watch : watch_ready (l_watch w.1);
  start_black : PopulateBlackListAddresses realpath pagesize maps tmpname (s_black w.2) = RET black;
  start_opens : forall j, (j < num_events)%nat -> opens (ans j);
  start_events : 0 <= l_curEventId w.1 /\ l_curEventId w.1 + Z.of_nat num_events <= MAX_EVENTS;
}.

(** The block of a thread that has started. *)
Definition started_block (ans : nat -> answers) : thread_data (D := D) :=
  mkThread gettid false (Some (events_of 0 event_info ans)) (Some ContextTree_new) (Some [header_line]).

Lemma callbackThreadStart_new (w : world) ans black :
  can_start w ans black -> l_key w.1 = 0 ->
  let es := events_of 0 event_info ans in
  runs (start ans) w (fun _ w' => exists k' p',
    watch_runs p' /\
    w' = (mkLocals (s_next w.2 + 1)
            (write_fds (Z.to_nat (l_curEventId w.1)) (fds_of es) (replicate (Z.to_nat MAX_EVENTS) (-1)))
            (l_curEventId w.1 + Z.of_nat num_events) p' (l_total w.1),
          mkShared k' (list_to_set (bufs_of es) ∪ s_maps w.2)
            (<[s_next w.2 + 1 := started_block ans]> (<[s_next w.2 := no_data true]> (s_blocks w.2)))
            (s_next w.2 + 2) (s_cache w.2) black (s_files w.2) (s_methods w.2) (s_gc w.2) (s_total w.2)) /\
    forall fd, k' !! fd = if decide (fd ∈ fds_of es) then Some true else s_fds w.2 !! fd).
Proof.
  intros [Hs Hw Hb Ha [Hn0 Hc]] Hk es. unfold callbackThreadStart, BLOCK_SAMPLE, UNBLOCK_SAMPLE.
  apply runs_bind, runs_BLOCK_new; [done|done|]. set (w1 := (_, _)).
  assert (Hs1 : shared_ok w1.2).
  { destruct Hs as [Hp Hs]. split; cbn; [lia|]. intros p [b Hpb]. destruct (decide (p = s_next w.2)) as [->|]; [lia|].
    rewrite lookup_insert_ne in Hpb by done. assert (0 < p < s_next w.2) by eauto. lia. }
  apply runs_bind. eapply runs_mono; [by apply (threadStart_ok gettid event_info realpath pagesize maps tmpname ans w1 black)|].
  intros _ w2 (k' & p' & Hp' & -> & Hk'). set (w2 := (_, _)).
  assert (Ho2 : owns w2 (started_block ans)).
  { split; cbn; [destruct Hs; lia|]. by rewrite lookup_insert_eq. }
  eapply runs_TD_SET; [exact Ho2|]. exists k', p'. split; [done|]. split; [|done].
  subst w2 w1. destruct w as [lo s]. unfold put_block. f_equal. by_fields s.
  - by rewrite insert_insert_eq.
  - lia.
Qed.

(** One step of a thread that runs, or of the others while it runs. The thread's events keep
    their descriptors and buffers, its tree stays one that can be written, its output is not
    touched; [others] are blocks of other threads. *)
Variable others : gset Z.
Definition thread_step (w w' : world) : Prop :=
  l_key w'.1 = l_key w.1 /\ shared_ok w'.2 /\ s_next w.2 <= s_next w'.2 /\
  (forall p, p < s_next w.2 -> p ∉ others -> p <> l_key w.1 -> s_blocks w'.2 !! p = s_blocks w.2 !! p) /\
  forall b l t out, running tree_order event_info infos w b l t out ->
    exists b' l' t', running tree_order event_info infos w' b' l' t' out /\ td_tid b' = td_tid b /\
      fds_of l' = fds_of l /\ bufs_of l' = bufs_of l.

Lemma thread_steps_running (w w' : world) b l t out :
  rtc thread_step w w' -> shared_ok w.2 -> running tree_order event_info infos w b l t out ->
  exists b' l' t', running tree_order event_info infos w' b' l' t' out /\ td_tid b' = td_tid b /\
    fds_of l' = fds_of l /\ bufs_of l' = bufs_of l /\ shared_ok w'.2 /\ l_key w'.1 = l_key w.1 /\
    s_next w.2 <= s_next w'.2 /\
    forall p, p < s_next w.2 -> p ∉ others -> p <> l_key w.1 -> s_blocks w'.2 !! p = s_blocks w.2 !! p.
Proof.
  intros Hst. revert b l t. induction Hst as [w|w w1 w2 (Hk & Hs1 & Hn & Hbl & Hrun) _ IH]; intros b l t Hs Hr.
  - exists b, l, t. by split_and!.
  - destruct (Hrun b l t out Hr) as (b1 & l1 & t1 & Hr1 & Et & Ef & Eb).
    destruct (IH b1 l1 t1 Hs1 Hr1) as (b2 & l2 & t2 & Hr2 & Et2 & Ef2 & Eb2 & Hs2 & Hk2 & Hn2 & Hbl2).
    exists b2, l2, t2. split_and!; try congruence || done || lia.
    intros p Hp Ho Hne. rewrite Hbl2 by (lia || congruence || done). by apply Hbl.
Qed.
End life.


(** *** Ending, and starts that go wrong *)
Section ends.
Context {P D : Type} `{ThreadWatchLaws P} `{DoubleOps D}.
Abbreviation world := (locals (P := P) * shared (D := D))%type.
Abbreviation ctree := (ContextTree (M := list (metric_val_t D))).
Context (show_double : D -> str) (order : gmap str str -> list (str * str)) (tree_order : ctree -> list nat).
Context (gettid : Z) (event_info : list Z) (infos : list metric_info_t).
Context (realpath : option str -> str -> str) (pagesize : Z) (maps : option str) (tmpname : str).
Hypothesis show_double_value : forall d, value_ok (show_double d).
Hypothesis order_perm : forall m, order m ≡ₚ map_to_list m.
Hypothesis infos_plain : Forall (fun i => value_ok (lit (event_measure i)) /\ value_ok (lit (event_name i))) infos.
Hypothesis infos_few : Z.of_nat (length infos) < 2 ^ 31.

Lemma callbackThreadEnd_running (w : world) b l t out :
  shared_ok w.2 -> running tree_order event_info infos w b l t out ->
  runs (callbackThreadEnd show_double order tree_order gettid event_info infos) w (fun _ w' =>
    (forall fd, s_fds w'.2 !! fd = if decide (fd ∈ fds_of l) then None else s_fds w.2 !! fd) /\
    s_maps w'.2 = s_maps w.2 ∖ list_to_set (bufs_of l) /\
    watch_open (l_watch w'.1) = ∅ /\
    (exists texts, s_files w'.2 = s_files w.2 ++ [(td_tid b, out ++ texts)] /\ reports show_double order infos t texts (s_cache w'.2)) /\
    (forall p, p < s_next w.2 -> s_blocks w'.2 !! p = delete (l_key w.1) (s_blocks w.2) !! p) /\
    s_blocks w'.2 !! l_key w'.1 = Some (mkThread gettid false None None None) /\
    s_methods w'.2 = s_methods w.2 /\ grows (s_cache w.2) (s_cache w'.2)).
Proof.
  intros Hs Hr. pose proof (run_owns _ _ _ _ _ _ _ _ Hr) as Ho. unfold callbackThreadEnd, BLOCK_SAMPLE, UNBLOCK_SAMPLE.
  apply runs_bind. eapply runs_TD_SET; [exact Ho|]. apply (put_block_running _ _ _ _ _ _ _ _ true) in Hr.
  apply runs_bind. eapply runs_mono; [by eapply (threadEnd_ok show_double order tree_order gettid event_info infos)|].
  intros _ w1 (k' & c' & p' & texts & -> & Hk' & Hp' & Hrep & Hgrows).
  destruct w as [[key ef ci wt tot] [k m bl nx ca bk fi me gc st]]. normal_world in *. rewrite delete_insert_eq.
  apply runs_BLOCK_new; [done| |].
  - destruct Hs as [Hs0 Hs1]. split; cbn in *; [lia|]. intros p [b' Hb]. apply lookup_delete_Some in Hb as [_ Hb]. eauto.
  - normal_world. split_and!; try done.
    + by exists texts.
    + intros p Hp. by rewrite lookup_insert_ne by lia.
    + by rewrite lookup_insert_eq.
Qed.

Lemma shared_ok_new (w : world) b :
  shared_ok w.2 -> shared_ok (set_next (s_next w.2 + 1) (set_blocks (<[s_next w.2 := b]> (s_blocks w.2)) w.2)).
Proof.
  intros [Hp Hs]. split; cbn; [lia|]. intros p [b' Hpb]. destruct (decide (p = s_next w.2)) as [->|]; [lia|].
  rewrite lookup_insert_ne in Hpb by done. assert (0 < p < s_next w.2) by eauto. lia.
Qed.

Lemma shared_ok_put (w : world) b b' : shared_ok w.2 -> owns w b -> shared_ok (put_block b' w).2.
Proof.
  intros [Hp Hs] [Hk Hb]. split; cbn; [done|]. intros p [b'' Hpb]. apply Hs.
  destruct (decide (p = l_key w.1)) as [->|]; [eauto|]. rewrite lookup_insert_ne in Hpb by done. eauto.
Qed.

(** A vector with fewer events than there are. *)
Lemma close_loop_short l idx : forall (w : world),
  Exists (fun i => l !! i = None) idx -> close_loop idx l w = EXC.
Proof.
  induction idx as [|i idx IH]; intros w He; [by apply Exists_nil in He|]. cbn [close_loop].
  destruct (l !! i) as [e|] eqn:El; [|done]. apply Exists_cons in He as [He|He]; [congruence|].
  unfold perf_unmmap. destruct (0 <=? _), (_ =? 0); apply IH, He.
Qed.

Lemma callbackThreadEnd_short (w : world) b l :
  owns w b -> td_perf b = Some l -> (length l < length event_info)%nat ->
  callbackThreadEnd show_double order tree_order gettid event_info infos w = EXC.
Proof.
  intros Ho Hl Hn. unfold callbackThreadEnd, BLOCK_SAMPLE, threadEnd, closeEvents.
  destruct (runs_TD_SET gettid (with_inside true) w b (fun _ w' => w' = put_block (with_inside true b) w) Ho eq_refl)
    as ([] & w1 & E1 & ->).
  pose proof (owns_put b (with_inside true b) w Ho) as Ho1.
  destruct (runs_TD_GET gettid td_perf (put_block (with_inside true b) w) _ (fun l' w' => l' = Some l /\ w' = put_block (with_inside true b) w) Ho1 (conj Hl eq_refl))
    as (l' & w2 & E2 & -> & ->).
  unfold mbind, prog_bind. rewrite E1, E2. unfold perf_switch, mbind, prog_bind, gets, put_shared, mret, prog_ret.
  rewrite close_loop_short; [done|]. apply Exists_exists. exists (length l). split; [|by apply lookup_ge_None].
  apply elem_of_seq. unfold num_events. lia.
Qed.

Lemma callbackThreadStart_failed (w : world) ans black k :
  shared_ok w.2 -> watch_ready (l_watch w.1) ->
  PopulateBlackListAddresses realpath pagesize maps tmpname (s_black w.2) = RET black ->
  l_key w.1 = 0 -> l_curEventId w.1 = 0 -> (k < length event_info)%nat -> Z.of_nat k <= MAX_EVENTS ->
  (forall j, (j < k)%nat -> opens (ans j)) -> a_open (ans k) = -1 ->
  let es := events_of 0 (take k event_info) ans in
  runs (callbackThreadStart gettid event_info realpath pagesize maps tmpname ans) w (fun _ w' =>
    (exists b, owns w' b /\ td_perf b = Some es) /\ s_fds w'.2 = add_fds (fds_of es) (s_fds w.2)).
Proof.
  intros Hs Hw Hb Hkey Hc Hk Hk5 Ha Hf es. unfold callbackThreadStart, BLOCK_SAMPLE, UNBLOCK_SAMPLE.
  apply runs_bind, runs_BLOCK_new; [done|done|]. set (w1 := (_, _)).
  destruct (threadStart_before gettid event_info realpath pagesize maps tmpname ans w1 black) as (p' & w2 & Hp' & Ho2 & Ew & E);
    [by apply shared_ok_new|done|done|].
  apply runs_bind. unfold runs at 1. rewrite E. apply runs_bind.
  eapply runs_mono; [apply (setupEvents_fails gettid event_info ans w2 (fresh_thread gettid) k Ho2 eq_refl Hk Ha Hf); subst w2 w1; cbn; lia|].
  intros ok w3 [-> ->]. apply runs_ret. fold es. set (w3 := (_, _)).
  assert (Ho3 : owns w3 (with_perf (Some es) (fresh_thread gettid))).
  { destruct Ho2 as [Hk2 _]. split; [done|]. subst w3. cbn. by rewrite lookup_insert_eq. }
  eapply runs_TD_SET; [exact Ho3|]. split; [|subst w3; cbn; by rewrite Ew].
  exists (with_inside false (with_perf (Some es) (fresh_thread gettid))). split; [|done]. by eapply owns_put.
Qed.

Lemma callbackThreadStart_full (w : world) b ans black :
  shared_ok w.2 -> owns w b -> watch_ready (l_watch w.1) ->
  PopulateBlackListAddresses realpath pagesize maps tmpname (s_black w.2) = RET black ->
  (forall j, (j < length event_info)%nat -> opens (ans j)) -> 0 <= l_curEventId w.1 <= MAX_EVENTS ->
  MAX_EVENTS < l_curEventId w.1 + Z.of_nat (length event_info) ->
  callbackThreadStart gettid event_info realpath pagesize maps tmpname ans w = EXC.
Proof.
  intros Hs Ho Hw Hb Ha Hn0 Hc. unfold callbackThreadStart, BLOCK_SAMPLE.
  apply bind_after. eapply runs_TD_SET; [exact Ho|]. set (w1 := put_block _ w).
  destruct (threadStart_before gettid event_info realpath pagesize maps tmpname ans w1 black) as (p' & w2 & Hp' & Ho2 & Ew & E);
    [by eapply shared_ok_put|done|done|].
  unfold mbind at 1, prog_bind at 1. rewrite E. unfold mbind at 1, prog_bind at 1.
  rewrite (setupEvents_full gettid event_info ans w2 (fresh_thread gettid)); [done|done|done|done|by subst w2|by subst w2].
Qed.
End ends.

(** ** Steps

    What a running thread does between its start and its end: here the operations of this
    file, and any change of its tree into one that can be written. *)
Section steps.
Context {P D : Type} `{ThreadWatch P} `{DoubleOps D}.
Abbreviation world := (locals (P := P) * shared (D := D))%type.
Abbreviation ctree := (ContextTree (M := list (metric_val_t D))).
Context (tree_order : ctree -> list nat) (gettid : Z) (event_info : list Z) (infos : list metric_info_t) (others : gset Z).
Abbreviation runs_on := (running tree_order event_info infos).
Abbreviation step := (thread_step tree_order event_info infos others).

(** The thread's own block has changed, and nothing else of what a step may not change. *)
Lemma own_step (w w' : world) b l t out b' t' :
  shared_ok w.2 -> runs_on w b l t out -> runs_on w' b' l t' out -> td_tid b' = td_tid b ->
  l_key w'.1 = l_key w.1 -> s_next w'.2 = s_next w.2 -> s_blocks w'.2 = <[l_key w.1 := b']> (s_blocks w.2) ->
  step w w'.
Proof.
  intros Hs Hr Hr' Et Hk Hn Hb. pose proof (run_owns _ _ _ _ _ _ _ _ Hr) as [Hk0 Hbl].
  split_and!; [done| |lia| |].
  - destruct Hs as [Hp Hs]. split; rewrite Hn; [done|]. intros p. rewrite Hb, lookup_insert_is_Some'. intros [<-|]; eauto.
  - intros p _ _ Hp. by rewrite Hb, lookup_insert_ne.
  - intros b2 l2 t2 out2 [[_ Hb2] Hp2 _ Hc2 _ Ho2 _]. rewrite Hbl in Hb2. simplify_eq.
    rewrite (run_perf _ _ _ _ _ _ _ _ Hr) in Hp2. rewrite (run_context _ _ _ _ _ _ _ _ Hr) in Hc2.
    rewrite (run_output _ _ _ _ _ _ _ _ Hr) in Ho2. simplify_eq. eauto 10.
Qed.

Lemma callbackGCEnd_step (w : world) b l t out :
  shared_ok w.2 -> runs_on w b l t out ->
  runs (callbackGCEnd gettid) w (fun _ w' => step w w' /\ runs_on w' (with_inside false b) l t out /\
    s_gc w'.2 = u64 (s_gc w.2 + 1)).
Proof.
  intros Hs Hr. pose proof (run_owns _ _ _ _ _ _ _ _ Hr) as Ho. unfold callbackGCEnd, BLOCK_SAMPLE, UNBLOCK_SAMPLE.
  apply runs_bind. eapply runs_TD_SET; [exact Ho|]. apply runs_bind, runs_put_shared.
  eapply runs_TD_SET; [by eapply (owns_put b (with_inside true b) w)|].
  set (w' := put_block _ _). assert (Hr' : runs_on w' (with_inside false b) l t out).
  { destruct Hr as [Ho' ? ? ? ? ? ?]. split; try done. subst w'. split; [apply Ho|]. cbn. by rewrite lookup_insert_eq. }
  split; [|done]. eapply own_step; [done..|]. subst w'. cbn. by rewrite insert_insert_eq.
Qed.

Lemma perf_wrapper_step on (w : world) b l t out :
  shared_ok w.2 -> runs_on w b l t out ->
  runs (perf_wrapper gettid on) w (fun _ w' => step w w' /\ runs_on w' b l t out).
Proof.
  intros Hs Hr. pose proof (run_owns _ _ _ _ _ _ _ _ Hr) as Ho. unfold perf_wrapper.
  apply runs_bind. eapply runs_TD_GET; [exact Ho|]. rewrite (run_perf _ _ _ _ _ _ _ _ Hr). unfold perf_switch.
  apply runs_bind, runs_gets. apply runs_bind, runs_put_shared, runs_ret. set (w' := (_, _)).
  assert (Hr' : runs_on w' b l t out) by (destruct Hr as [Ho' ? ? ? ? ? ?]; by split).
  split; [|done]. eapply own_step; [done..|]. cbn. rewrite insert_id; [done|]. apply Ho.
Qed.

Lemma context_step (w : world) b l t out t' :
  shared_ok w.2 -> runs_on w b l t out -> reportable tree_order infos t' ->
  runs (TD_SET gettid (with_context (Some t'))) w (fun _ w' => step w w' /\ runs_on w' (with_context (Some t') b) l t' out).
Proof.
  intros Hs Hr Ht. pose proof (run_owns _ _ _ _ _ _ _ _ Hr) as Ho. eapply runs_TD_SET; [exact Ho|].
  assert (Hr' : runs_on (put_block (with_context (Some t') b) w) (with_context (Some t') b) l t' out).
  { destruct Hr as [Ho' ? ? ? ? ? ?]. split; try done. by eapply owns_put. }
  split; [|done]. by eapply own_step.
Qed.
End steps.

(** ** Properties *)
Section properties.
Context {P D : Type} `{ThreadWatchLaws P} `{DoubleOps D}.
Abbreviation ctree := (ContextTree (M := list (metric_val_t D))).
Context (show_double : D -> str) (order : gmap str str -> list (str * str)) (tree_order : ctree -> list nat).
Context (gettid : Z) (event_info : list Z) (infos : list metric_info_t).
Context (realpath : option str -> str -> str) (pagesize : Z) (maps : option str) (tmpname : str).
Abbreviation start := (callbackThreadStart gettid event_info realpath pagesize maps tmpname).
Abbreviation finish := (callbackThreadEnd show_double order tree_order gettid event_info infos).
Abbreviation startable := (can_start event_info realpath pagesize maps tmpname).

Lemma find_fd_at es i e :
  NoDup (fds_of es) -> es !! i = Some e -> find_fd (et_fd e) (et_event <$> es) = Some (i, et_event e).
Proof.
  intros Hnd He. unfold find_fd. apply list_find_Some. split_and!; [by rewrite list_lookup_fmap, He|done|].
  intros j y Hj Hji E. apply list_lookup_fmap_Some in Hj as (e' & -> & Hj).
  assert (j = i); [|lia]. eapply NoDup_lookup; [exact Hnd|by apply list_lookup_fmap_Some; eauto|].
  apply list_lookup_fmap_Some. exists e. split; [|done]. exact E.
Qed.

Lemma start_running (w : locals (P := P) * shared (D := D)) ans black :
  startable w ans black -> l_key w.1 = 0 -> reportable tree_order infos ContextTree_new ->
  runs (start ans) w (fun _ w' =>
    running tree_order event_info infos w' (started_block gettid event_info ans) (events_of 0 event_info ans)
      ContextTree_new [header_line] /\ shared_ok w'.2).
Proof.
  intros Hst Hk Hnew. destruct (start_shared _ _ _ _ _ _ _ _ Hst) as [Hs0 Hs1].
  pose proof (opens_events ans event_info 0 ltac:(intros; apply (start_opens _ _ _ _ _ _ _ _ Hst); lia)) as Hes.
  eapply runs_mono; [by apply (callbackThreadStart_new gettid event_info realpath pagesize maps tmpname w ans black)|].
  intros _ w' (k' & p' & Hp' & -> & _). split.
  - split; try done; [split; [cbn; lia|]; cbn; by rewrite lookup_insert_eq|].
    split; [apply length_events_of|]. eapply Forall_impl; [exact Hes|]. by intros e (? & ? & _).
  - split; cbn; [lia|]. intros p [b Hb]. destruct (decide (p = s_next w.2 + 1)); [lia|]. rewrite lookup_insert_ne in Hb by done.
    destruct (decide (p = s_next w.2)); [lia|]. rewrite lookup_insert_ne in Hb by done.
    assert (0 < p < s_next w.2) by eauto. lia.
Qed.

(** C15: When the kernel opens its events, a new thread is ready to be sampled after
    [callbackThreadStart]: its block has the flag down, an empty context tree, an output that
    begins with the header, and one event per entry of [event_info], each enabled, with an empty
    ring; the rings, descriptors and the search for a descriptor are as the signal handler
    needs them; descriptors of others are untouched. But the flag that [BLOCK_SAMPLE] raised is in another
    block, which [threadStart] replaces by a new one without freeing it. *)
Theorem threadStart_contract (lo : locals (P := P)) (s : shared (D := D)) (ans : nat -> answers) (black : list (Z * Z)) :
  startable (lo, s) ans black -> l_key lo = 0 -> NoDup (fds_of (events_of 0 event_info ans)) ->
  let es := events_of 0 event_info ans in
  exists lo' s', start ans (lo, s) = RET (tt, (lo', s')) /\
    s_blocks s' !! l_key lo' = Some (mkThread gettid false (Some es) (Some ContextTree_new) (Some [header_line])) /\
    watch_runs (l_watch lo') /\
    (forall fd, s_fds s' !! fd = if decide (fd ∈ fds_of es) then Some true else s_fds s !! fd) /\
    s_maps s' = list_to_set (bufs_of es) ∪ s_maps s /\
    events_open (et_event <$> es) (s_fds s') /\
    (forall i e, es !! i = Some e -> find_fd (et_fd e) (et_event <$> es) = Some (i, et_event e) /\
       ring_ok (ev_mmap (et_event e)) /\ unread (ev_mmap (et_event e)) = []) /\
    s_next s <> l_key lo' /\ s_blocks s' !! s_next s = Some (mkThread gettid true None None None).
Proof.
  intros Hst Hk Hnd es.
  destruct (callbackThreadStart_new gettid event_info realpath pagesize maps tmpname (lo, s) ans black Hst Hk)
    as ([] & w' & E & k' & p' & Hp' & -> & Hk').
  pose proof (opens_events ans event_info 0 ltac:(intros; apply (start_opens _ _ _ _ _ _ _ _ Hst); lia)) as Hes.
  fold es in Hes, Hk'. eexists _, _. split; [exact E|]. cbn. split_and!; try done.
  - by rewrite lookup_insert_eq.
  - split.
    + apply Forall_fmap, Forall_forall. intros e He. apply elem_of_dom. cbn. rewrite Hk'.
      rewrite decide_True; [eauto|]. by apply (list_elem_of_fmap_2 et_fd).
    + apply Forall_fmap. eapply Forall_impl; [exact Hes|]. by intros e (? & _).
  - intros i e He. split; [by apply find_fd_at|]. rewrite Forall_lookup in Hes. by destruct (Hes i e He) as (_ & _ & ? & ?).
  - lia.
  - by rewrite lookup_insert_ne, lookup_insert_eq by lia.
Qed.

(** C14: A thread gives back what it was given: it starts, it runs through any steps of its own (samples,
    contexts, traps) that keep it running in order and of other threads, and it ends; then its descriptors are closed and its buffers
    unmapped, no breakpoint of it is open, and the file with its number holds a text that
    the offline reader accepts: one object for each context with metrics and each ancestor of one. Two
    blocks of thread data stay behind: the one that [BLOCK_SAMPLE] made when it started,
    and one that [UNBLOCK_SAMPLE] makes after the thread's own was freed. *)
Theorem thread_lifetime (others : gset Z) (lo : locals (P := P)) (s : shared (D := D)) (ans : nat -> answers) (black : list (Z * Z)) :
  (forall d, value_ok (show_double d)) -> (forall m, order m ≡ₚ map_to_list m) ->
  Forall (fun i => value_ok (lit (event_measure i)) /\ value_ok (lit (event_name i))) infos ->
  Z.of_nat (length infos) < 2 ^ 31 -> reportable tree_order infos ContextTree_new ->
  startable (lo, s) ans black -> l_key lo = 0 -> s_next s ∉ others ->
  let es := events_of 0 event_info ans in
  exists w1, start ans (lo, s) = RET (tt, w1) /\
    forall w2, rtc (thread_step tree_order event_info infos others) w1 w2 ->
      exists w3 t texts cs os, finish w2 = RET (tt, w3) /\
        (forall fd, s_fds w3.2 !! fd = if decide (fd ∈ fds_of es) then None else s_fds w2.2 !! fd) /\
        s_maps w3.2 = s_maps w2.2 ∖ list_to_set (bufs_of es) /\
        watch_open (l_watch w3.1) = ∅ /\
        s_files w3.2 = s_files w2.2 ++ [(gettid, header_line :: texts)] /\
        (forall arrive, HomoXMLParser arrive (lit "context") (concat (header_line :: texts)) =
          Some (mkPy (lit "root") ∅ (arrive os))) /\
        Forall2 (reads_as show_double infos t) cs os /\ NoDup cs /\ (forall x, x ∈ cs <-> exists d, measured t d /\ above (D := D) t d x) /\
        s_blocks w3.2 !! l_key w1.1 = None /\
        s_blocks w3.2 !! s_next s = Some (mkThread gettid true None None None) /\
        s_blocks w3.2 !! l_key w3.1 = Some (mkThread gettid false None None None).
Proof.
  intros Hd Ho Hi Hn Hnew Hst Hk Hoth es.
  destruct (callbackThreadStart_new gettid event_info realpath pagesize maps tmpname (lo, s) ans black Hst Hk)
    as ([] & w1 & E & k' & p' & Hp' & -> & Hk').
  pose proof (opens_events ans event_info 0 ltac:(intros; apply (start_opens _ _ _ _ _ _ _ _ Hst); lia)) as Hes.
  fold es in Hes, Hk', E. set (w1 := (mkLocals _ _ _ _ _, _)) in E. exists w1. split; [exact E|]. intros w2 Hsteps.
  destruct (start_shared _ _ _ _ _ _ _ _ Hst) as [Hs0 Hs1]. cbn in Hs0, Hs1.
  destruct (start_running (lo, s) ans black Hst Hk Hnew) as ([] & w1' & E' & Hr1 & Hsh1).
  rewrite E in E'. injection E' as <-. fold es in Hr1.
  destruct (thread_steps_running tree_order event_info infos others w1 w2 _ _ _ _ Hsteps Hsh1 Hr1)
    as (b2 & l2 & t2 & Hr2 & Et & Ef & Eb & Hsh2 & Hk2 & Hn2 & Hbl).
  destruct (callbackThreadEnd_running show_double order tree_order gettid event_info infos Hd Ho Hi Hn w2 b2 l2 t2 _ Hsh2 Hr2)
    as ([] & w3 & E3 & Hfd & Hm & Hw & (texts & Hf & (cs & os & -> & Hos & Hra & Hnd & Hcs & _)) & Hb3 & Hb3' & _).
  rewrite Ef in Hfd. rewrite Eb in Hm. rewrite Et in Hf.
  exists w3, t2, (map (context_text order) os), cs, (map reading os). split_and!; try done.
  - intros arrive. by apply (file_read order), context_texts_of.
  - rewrite Hb3, Hk2; [by rewrite lookup_delete_eq|]. rewrite <- Hk2. destruct (run_owns _ _ _ _ _ _ _ _ Hr2) as [_ Ho2].
    assert (l_key w2.1 < s_next w2.2) by (destruct Hsh2 as [_ Hx]; apply Hx; eauto). lia.
  - rewrite Hb3 by (cbn in Hn2; lia). rewrite Hk2, lookup_delete_ne by (cbn; lia).
    rewrite Hbl; [|cbn; lia|done|cbn; lia]. cbn. by rewrite lookup_insert_ne, lookup_insert_eq by lia.
Qed.

(** C16: An event that cannot be opened goes unnoticed until the thread ends: [threadStart] ignores that
    [setupEvents] gave up, and the thread runs with the events before it opened and none
    enabled; at its end [closeEvents] walks over [num_events] elements of a vector that has fewer. *)
Theorem setup_failure (lo : locals (P := P)) (s : shared (D := D)) (ans : nat -> answers) (black : list (Z * Z)) (k : nat) :
  shared_ok s -> watch_ready (l_watch lo) ->
  PopulateBlackListAddresses realpath pagesize maps tmpname (s_black s) = RET black ->
  l_key lo = 0 -> l_curEventId lo = 0 -> (k < length event_info)%nat -> Z.of_nat k <= MAX_EVENTS ->
  (forall j, (j < k)%nat -> opens (ans j)) -> a_open (ans k) = -1 ->
  let es := events_of 0 (take k event_info) ans in
  exists w', start ans (lo, s) = RET (tt, w') /\
    (forall fd, s_fds w'.2 !! fd = if decide (fd ∈ fds_of es) then Some false else s_fds s !! fd) /\
    finish w' = EXC.
Proof.
  intros Hs Hw Hb Hkey Hc Hk Hk5 Ha Hf es.
  destruct (callbackThreadStart_failed gettid event_info infos realpath pagesize maps tmpname (lo, s) ans black k)
    as ([] & w' & E & (b & Hown & Hperf) & Hfds); [done..|].
  exists w'. split; [exact E|]. fold es in Hfds, Hperf. split; [intros fd; by rewrite Hfds, add_fds_lookup|].
  eapply callbackThreadEnd_short; [exact Hown|exact Hperf|]. subst es. rewrite length_events_of, length_take. lia.
Qed.

(** The index into the profiler's array of descriptors is never reset: a thread that starts again
    after it has ended (it is attached to the machine a second time) writes behind the array
    if it has more than two events, even though the kernel opens them all. *)
Theorem restart_overflow (w : locals (P := P) * shared (D := D)) (b : thread_data) (ans : nat -> answers) (black : list (Z * Z)) :
  shared_ok w.2 -> owns w b -> watch_ready (l_watch w.1) ->
  PopulateBlackListAddresses realpath pagesize maps tmpname (s_black w.2) = RET black ->
  l_curEventId w.1 = Z.of_nat (length event_info) -> (3 <= length event_info <= 5)%nat ->
  (forall j, (j < length event_info)%nat -> opens (ans j)) ->
  start ans w = EXC.
Proof.
  intros Hs Hown Hw Hb Hc Hn Ha.
  eapply callbackThreadStart_full; try done; unfold MAX_EVENTS; lia.
Qed.
End properties.

(** ** The watchpoint library as a [ThreadWatch]

    The interface is what Watchpoint.v proves of [WP_ThreadInit] and [WP_ThreadTerminate];
    [junk] is the memory of the slots, the rest what the thread's data starts with. *)
Section watch_instance.
Context {C R : Type} (cfg : WP_Config_t C).
Context (junk : list WP_RegisterInfo_t) (rnd : R) (c : counters) (client : C).
Abbreviation library := (option (WP_ThreadData_t (C := C) (R := R))).

Definition no_breakpoints : kernel := mkKernel ∅ 0 0.
Definition kernel_of (p : library) : kernel := match p with Some st => kern st | None => no_breakpoints end.

#[export] Instance WP_watch : ThreadWatch library := {
  watch_init p := WP_ThreadInit (Some junk) true true true rnd (kernel_of p) c client;
  watch_terminate p := st ← WP_ThreadTerminate p; RET (Some st);
  watch_open p := dom (k_bps (kernel_of p));
  watch_ready p := k_bps (kernel_of p) = ∅ /\ 0 <= k_next (kernel_of p);
  watch_runs p := exists st, p = Some st /\ wp_inv cfg eq st;
}.

#[export] Instance WP_watch_laws : ThreadWatchLaws library.
Proof.
  split.
  - intros p [Hk Hn]. eexists. split; [done|]. eexists. split; [done|]. by apply init_inv.
  - intros p (st & -> & Hinv). destruct (WP_ThreadTerminate_ok cfg eq st Hinv) as (st' & E & Hb & _).
    exists (Some st'). split; [unfold watch_terminate, WP_watch; by rewrite E|]. unfold watch_open, WP_watch. cbn.
    by rewrite Hb, dom_empty_L.
Qed.
End watch_instance.

(** ** A thread on a kernel that opens what it is asked for *)
Module Demo.
Definition tree_order (t : ContextTree (M := list (metric_val_t spec_float))) : list nat := (map_to_list (context_map t)).*2.
Definition realpath (name : option str) (tmp : str) : str := default tmp name.
Definition maps : option str := Some (maps_text [Support.Demo.java; Support.Demo.jvm; Support.Demo.stack]).
Definition ans (j : nat) : answers :=
  mkAnswers (10 + Z.of_nat j) 0 0 0 0 (Some (4096 * (Z.of_nat j + 1), replicate 8 Init.Byte.x00)).
(** The second event cannot be opened. *)
Definition ans_one (j : nat) : answers := if (j =? 1)%nat then mkAnswers (-1) 0 0 0 0 None else ans j.

#[local] Instance library : ThreadWatch (option (WP_ThreadData_t (C := unit) (R := unit))) :=
  WP_watch (Watchpoint.Demo.demo_cfg true) [Watchpoint.Demo.demo_slot] tt (mkCnt 2 [0; 0; 0; 0; 0] 0) tt.
#[local] Instance library_laws : ThreadWatchLaws (option (WP_ThreadData_t (C := unit) (R := unit))) := WP_watch_laws _ _ _ _ _.

Definition locals_at (n : Z) : locals (P := option (WP_ThreadData_t (C := unit) (R := unit))) :=
  mkLocals 0 (replicate 5 (-1)) n None 0.
Definition shared0 : shared (D := spec_float) := mkShared {[3 := true]} ∅ ∅ 4096 CodeCache_new [] [] [] 0 0.
Definition start event_info ans := callbackThreadStart (D := spec_float) 77 event_info realpath 4096 maps [] ans.
Definition finish event_info :=
  callbackThreadEnd Report.Demo.show_double map_to_list tree_order 77 event_info Report.Demo.infos.

Lemma demo_opens j : opens (ans j).
Proof.
  unfold opens, ans. cbn. split_and!; try lia. exists (4096 * (Z.of_nat j + 1)), (replicate 8 Init.Byte.x00).
  split; [done|]. split; [lia|]. by exists 3.
Qed.

Lemma demo_start n st : (length st <= 5)%nat -> n + Z.of_nat (length st) <= 5 -> 0 <= n ->
  exists black, can_start st realpath 4096 maps [] (locals_at n, shared0) ans black.
Proof.
  intros Hst Hn H0. eexists. split.
  - split; [done|]. intros p [b Hb]. done.
  - by split.
  - vm_compute. reflexivity.
  - intros j _. apply demo_opens.
  - cbn. unfold MAX_EVENTS. lia.
Qed.

Lemma threadStart_contract_witness :
  exists lo' s', start [1; 2] ans (locals_at 0, shared0) = RET (tt, (lo', s')) /\
    s_fds s' = {[3 := true; 10 := true; 11 := true]} /\ watch_runs (l_watch lo').
Proof.
  destruct (demo_start 0 [1; 2]) as (black & Hst); [cbn; lia..|].
  destruct (threadStart_contract 77 [1; 2] realpath 4096 maps [] (locals_at 0) shared0 ans black Hst eq_refl)
    as (lo' & s' & E & _ & Hw & _); [apply (bool_decide_unpack _); vm_compute; exact I|].
  exists lo', s'. split; [|split; [|exact Hw]].
  - exact E.
  - assert ((fun r => match r with RET (_, (_, s)) => s_fds s | EXC => ∅ end) (start [1; 2] ans (locals_at 0, shared0)) = {[3 := true; 10 := true; 11 := true]}) as Hf
      by (vm_compute; reflexivity). unfold start in Hf. by rewrite E in Hf.
Defined.

Lemma demo_reportable : reportable tree_order Report.Demo.infos ContextTree_new.
Proof.
  split; [apply ContextTree_new_ok|done|]. intros c n Hc. unfold ContextTree_new in Hc. cbn [heap] in Hc. apply lookup_singleton_Some in Hc as [_ <-].
  split; [cbn; lia|done].
Qed.

Lemma demo_values : (forall d, value_ok (Report.Demo.show_double d)) /\
  Forall (fun i => value_ok (lit (event_measure i)) /\ value_ok (lit (event_name i))) Report.Demo.infos.
Proof.
  split; [intros d; reflexivity|repeat constructor].
Qed.

(** A collection while the thread runs. *)
Lemma thread_lifetime_witness :
  exists w1 w2 w3, start [1; 2] ans (locals_at 0, shared0) = RET (tt, w1) /\ callbackGCEnd 77 w1 = RET (tt, w2) /\
    finish [1; 2] w2 = RET (tt, w3) /\ s_fds w3.2 !! 10 = None /\ s_fds w3.2 !! 3 = s_fds w2.2 !! 3 /\
    watch_open (l_watch w3.1) = ∅.
Proof.
  destruct (demo_start 0 [1; 2]) as (black & Hst); [cbn; lia..|]. destruct demo_values as [Hd Hi].
  destruct (thread_lifetime Report.Demo.show_double map_to_list tree_order 77 [1; 2] Report.Demo.infos realpath 4096 maps []
    ∅ (locals_at 0) shared0 ans black Hd (fun m => reflexivity (map_to_list m)) Hi ltac:(vm_compute; reflexivity) demo_reportable Hst eq_refl
    ltac:(set_solver)) as (w1 & E & H).
  destruct (start_running tree_order 77 [1; 2] Report.Demo.infos realpath 4096 maps [] _ ans black Hst eq_refl demo_reportable)
    as ([] & w1' & E' & Hr & Hs).
  rewrite E in E'. injection E' as <-.
  destruct (callbackGCEnd_step tree_order 77 [1; 2] Report.Demo.infos ∅ w1 _ _ _ _ Hs Hr) as ([] & w2 & E2 & Hstep & _).
  destruct (H w2 (rtc_once _ _ Hstep)) as (w3 & _ & _ & _ & _ & E3 & Hf & _ & Hw & _).
  exists w1, w2, w3. split_and!; [exact E|exact E2|exact E3|by rewrite Hf|by rewrite Hf|exact Hw].
Defined.

Lemma setup_failure_witness :
  exists w', start [1; 2] ans_one (locals_at 0, shared0) = RET (tt, w') /\ s_fds w'.2 !! 10 = Some false /\
    finish [1; 2] w' = EXC.
Proof.
  destruct (demo_start 0 [1; 2]) as (black & Hst); [cbn; lia..|].
  destruct (setup_failure Report.Demo.show_double map_to_list tree_order 77 [1; 2] Report.Demo.infos realpath 4096 maps []
    (locals_at 0) shared0 ans_one black 1 (start_shared _ _ _ _ _ _ _ _ Hst) (start_watch _ _ _ _ _ _ _ _ Hst)
    (start_black _ _ _ _ _ _ _ _ Hst) eq_refl eq_refl ltac:(cbn; lia) ltac:(done)) as (w' & E & Hf & E');
    [|done|].
  - intros j Hj. assert (j = 0%nat) as -> by lia. apply (demo_opens 0).
  - exists w'. split_and!; [exact E|by rewrite Hf|exact E'].
Defined.

(** A thread that has run once with three events. *)
Lemma restart_overflow_witness :
  exists w b, owns w b /\ l_curEventId w.1 = 3 /\ start [1; 2; 3] ans w = EXC.
Proof.
  destruct (demo_start 0 [1; 2; 3]) as (black & Hst); [cbn; lia..|].
  set (b := mkThread (D := spec_float) 77 false None None (None : option (list str))).
  set (w := (set_key 1 (locals_at 3), set_blocks {[1 := b]} shared0)).
  assert (Ho : owns w b) by (split; [done|apply lookup_singleton_eq]).
  exists w, b. split; [exact Ho|]. split; [done|].
  apply (restart_overflow 77 [1; 2; 3] realpath 4096 maps [] w b ans black).
  - split; [done|]. intros p [b' Hb]. cbn in Hb. apply lookup_singleton_Some in Hb as [<- _]. done.
  - exact Ho.
  - apply (start_watch _ _ _ _ _ _ _ _ Hst).
  - apply (start_black _ _ _ _ _ _ _ _ Hst).
  - done.
  - cbn. lia.
  - intros j _. apply demo_opens.
Defined.
End Demo.
