(* ===== verification/Agent.v ===== *)
(** * Agent: the callbacks of the virtual machine, and what the reader finds of methods

    agent.cpp: the callbacks for compiled code and for the end of the machine, over the state
    of Lifecycle.v. The theorem puts the parts together with the offline reader (HomoXml.v, Methods.v,
    Offline.v): whatever happens in whatever order, at the end the contexts of every
    file make a tree, and every context finds its method.

    A load gives up the lock of the code cache between its two critical sections, so
    [callbackCompiledMethodLoad] is made of two parts, which other events may separate. *)
From stdpp Require Import base numbers list strings gmap.
From Stdlib Require Import ZArith Lia Ascii SpecFloat.
From S2P Require Import Prelude Support Metrics ContextTree CallTree RangeSet CodeCache Xml HomoXml Report Methods Offline Watchpoint Lifecycle.
Local Open Scope Z_scope.

Section code.
Context {P D : Type} `{ThreadWatch P} `{DoubleOps D}.
(** The virtual machine; the order of the attributes of a tag and of the elements of a set
    of methods; the kernel's number of the thread. *)
Variable jvm : jvmti.
Variable order : gmap str str -> list (str * str).
Variable set_order : gset Z -> list Z.
Variable gettid : Z.
Abbreviation pg := (prog (P := P) (D := D)).

(** ** The callbacks *)
Definition output_method (buf : str) : pg unit := put_shared (fun s => set_methods (s_methods s ++ [buf]) s).

(** Up to the end of the first critical section of [addMethod]; the result is the version. *)
Definition load_begin (method : Z) : pg Z :=
  _ ← BLOCK_SAMPLE gettid;
  c ← gets (fun w => s_cache w.2);
  let '(version, c) := add_begin method (cache_removeMethod method c) in
  _ ← put_shared (set_cache c);
  mret version.

Definition load_end (method version code_size code_addr : Z) (map : list (Z * Z)) : pg unit :=
  m ← lift (build_method jvm method version code_size code_addr map);
  c ← gets (fun w => s_cache w.2);
  r ← lift (add_commit method m c);
  _ ← put_shared (set_cache r.2);
  _ ← output_method (getXMLStr order 0 (createXMLObj_compiled m));
  UNBLOCK_SAMPLE gettid.

Definition callbackCompiledMethodLoad (method code_size code_addr : Z) (map : list (Z * Z)) : pg unit :=
  version ← load_begin method; load_end method version code_size code_addr map.

Definition callbackCompiledMethodUnload (method code_addr : Z) : pg unit :=
  _ ← BLOCK_SAMPLE gettid;
  c ← gets (fun w => s_cache w.2);
  c ← lift (removeMethod method code_addr c);
  _ ← put_shared (set_cache c);
  UNBLOCK_SAMPLE gettid.

Definition dump_uncompiled_method (method : Z) : pg unit :=
  if method =? 0 then mret tt else
  m ← lift (Method_new jvm method);
  output_method (getXMLStr order 0 (createXMLObj_interpret m)).

(** [MethodCache::performActionAll]. *)
Fixpoint performActionAll (cb : Z -> pg unit) (elems : list Z) : pg unit :=
  match elems with
  | [] => mret tt
  | elem :: elems => _ ← cb elem; performActionAll cb elems
  end.

Definition callbackVMDeath : pg unit :=
  _ ← BLOCK_SAMPLE gettid;
  c ← gets (fun w => s_cache w.2);
  _ ← performActionAll dump_uncompiled_method (set_order (method_set c));
  UNBLOCK_SAMPLE gettid.

Definition callbackNativeMethodBind : pg unit := _ ← BLOCK_SAMPLE gettid; UNBLOCK_SAMPLE gettid.
End code.

(** ** The machine's answers *)

(** A text that needs no escaping once its slashes are dots. *)
Definition signature_ok (s : str) : Prop := forallb (fun c => value_char c || bool_decide (c = c_slash)) s = true.

(** Names and signatures that need no escaping, signatures that are not empty, and tables of
    lines that are in order. *)
Record jvm_ok (jvm : jvmti) : Prop := {
  jvm_names : forall id n, GetMethodName jvm id = Some n -> value_ok (lit n);
  jvm_files : forall c n, GetSourceFileName jvm c = Some n -> value_ok (lit n);
  jvm_signatures : forall c n, GetClassSignature jvm c = Some n -> signature_ok (lit n) /\ n <> "";
  jvm_lines : forall id a e table, GetMethodLocation jvm id = Some (a, e) -> GetLineNumberTable jvm id = Some table ->
    table_ok 0 e table /\ e < 2 ^ 63 /\ Z.of_nat (length table) < 2 ^ 31;
}.

Lemma emplace_length (k : Z) (r : Range Z) m : (length (emplace k r m) <= S (length m))%nat.
Proof. induction m as [|e m IH]; cbn; [lia|]. destruct (k <? e.1); [done|]. destruct (k =? e.1); cbn; lia. Qed.

Lemma load_lines_length e table : forall m m', load_lines e table m = RET m' -> (length m' <= length m + length table)%nat.
Proof.
  induction table as [|[s n] table IH]; intros m m'; cbn [load_lines]; [intros [= ->]; cbn; lia|].
  destruct (_ <? s); [intros E%IH; cbn; lia|]. unfold insert, Range_new. destruct (_ <=? _); cbn; [|done].
  intros E%IH. match type of E with context [emplace ?k ?r ?l] => pose proof (emplace_length k r l) end. lia.
Qed.

Lemma lit_replace_ok s : signature_ok (lit s) -> value_ok (lit (replace_char "/"%char "."%char s)).
Proof.
  induction s as [|c s IH]; [done|]. cbn. intros [Hc Hs]%andb_prop. apply andb_true_intro. split; [|by apply IH].
  apply orb_prop in Hc as [Hc|Hc%bool_decide_eq_true]; [|subst c; reflexivity].
  destruct (decide (c = "/"%char)); [reflexivity|exact Hc].
Qed.

Lemma lit_substring_ok s : forall n m, signature_ok (lit s) -> signature_ok (lit (String.substring n m s)).
Proof.
  induction s as [|c s IH]; intros n m Hs; [by destruct n, m|]. cbn in Hs. apply andb_prop in Hs as [Hc Hs].
  destruct n, m; cbn; try done; [|by apply IH..]. apply andb_true_intro. split; [done|by apply IH].
Qed.

Lemma Method_new_total jvm id : jvm_ok jvm -> exists m, Method_new jvm id = RET m /\ m_id m = id /\ plain_method m /\ lines_ok (bci2line_rangeset m).
Proof.
  intros Hj. unfold Method_new.
  assert (Hn : value_ok (lit (default "" (GetMethodName jvm id)))).
  { destruct (GetMethodName jvm id) eqn:E; [by eapply jvm_names|done]. }
  assert (Hl : exists lines, loadBCILineTable jvm id (default false (IsMethodNative jvm id)) [] = RET lines /\ lines_ok lines).
  { assert (H0 : exists lines : list (Z * Range Z), RET [] = RET lines /\ lines_ok lines) by (exists []; split; [done|split; [split; constructor|done]]).
    unfold loadBCILineTable. destruct (default false (IsMethodNative jvm id)); [done|]. destruct (GetMethodLocation jvm id) as [[a e]|] eqn:Eloc; [|done].
    destruct (GetLineNumberTable jvm id) as [table|] eqn:Etab; [|done]. cbn.
    destruct (jvm_lines jvm Hj id a e table Eloc Etab) as (Ht & He & Hlen).
    destruct (load_lines_spec e table 0 [] ltac:(lia) He Ht) as (lines & E & Hd & _); [split; constructor|by intros x ?%not_elem_of_nil|].
    exists lines. split; [done|split; [done|]]. apply load_lines_length in E. cbn in E. lia. }
  destruct Hl as (lines & El & Hlines). destruct (GetMethodDeclaringClass jvm id) as [c|]; rewrite El; [|eexists; split; [done|split; [done|split; [|done]]]; by split].
  assert (exists cls, match GetClassSignature jvm c with Some sig => class_of_signature sig | None => RET "" end = RET cls /\
    value_ok (lit cls)) as (cls & -> & Hc).
  { destruct (GetClassSignature jvm c) as [sig|] eqn:Es; [|by exists ""].
    destruct (jvm_signatures jvm Hj c sig Es) as [Hv Hne]. unfold class_of_signature.
    destruct sig as [|a sig]; [done|]. cbn [String.length Nat.eqb]. eexists. split; [done|].
    by apply lit_replace_ok, lit_substring_ok. }
  cbn. eexists. split; [done|split; [done|split; [|done]]]. split; [done| |done]. cbn.
  destruct (GetSourceFileName jvm c) eqn:Ef; [by eapply jvm_files|done].
Qed.

(** The addresses of a compiled method's map are not null, and their number is an [int]. *)
Definition map_plain (map : list (Z * Z)) : Prop :=
  Forall (fun e => 0 < e.1 < 2 ^ 64) map /\ Z.of_nat (length map) < 2 ^ 31.

Lemma load_addrs_disjoint lines ce map : forall prev m m',
  Forall (fun e : Z * Z => 0 < e.1 < 2 ^ 64) map -> disjoint_set m -> (forall x, x ∈ m -> end_ x.2 < prev) ->
  load_addrs lines ce prev map m = RET m' -> disjoint_set m' /\ (length m' <= length m + length map)%nat.
Proof.
  induction map as [|[next loc] map IH]; intros prev m m' Hmap Hd Hm; cbn [load_addrs]; [intros [= ->]; cbn; split; [done|lia]|].
  apply Forall_cons in Hmap as [Hn Hmap]. cbn in Hn. assert (Eu : u64 (next - 1) = next - 1) by (apply wrap_small; lia).
  rewrite Eu. unfold assert_exc.
  destruct (Z.leb_spec prev (next - 1)) as [Hle|]; cbn; [|done]. destruct (_ <=? ce); cbn; [|done].
  destruct (getData _ lines) as [lineno|]; [|intros [= ->]; split; [done|lia]].
  unfold insert, Range_new. rewrite (proj2 (Z.leb_le _ _)) by done. cbn.
  destruct (getData_emplace_above prev prev (next - 1) lineno m Hd Hm ltac:(lia)) as (Hd1 & Hm1 & _).
  intros E. apply IH in E as [Hd' Hl]; [|done|done|intros x Hx; specialize (Hm1 x Hx); lia]. split; [done|].
  pose proof (emplace_length prev (mkRange prev (next - 1) lineno) m). lia.
Qed.

Lemma loadAddrLocationMap_disjoint map c c' :
  map_plain map -> addr2line_rangeset c = [] -> loadAddrLocationMap map c = RET c' -> lines_ok (addr2line_rangeset c').
Proof.
  intros [Hmap Hlen] Hc. assert (H0 : lines_ok (addr2line_rangeset c)) by (rewrite Hc; split; [split; constructor|done]).
  unfold loadAddrLocationMap. destruct (m_native _); [by intros [= <-]|]. destruct map as [|[first loc] rest]; [by intros [= <-]|].
  destruct (isEmpty _); [by intros [= <-]|]. apply Forall_cons in Hmap as [Hf Hrest]. cbn in Hf, Hlen.
  assert (Eu : u64 (first - 1) = first - 1) by (apply wrap_small; lia). rewrite Eu. unfold assert_exc. destruct (Z.leb_spec (start_addr c) (first - 1)) as [Hle|]; cbn; [|done].
  destruct (getData _ _) as [lineno|]; [|by intros [= <-]]. unfold insert, Range_new. rewrite (proj2 (Z.leb_le _ _)) by done. cbn.
  intros (m & E & [= <-])%exc_bind_ret. cbn. rewrite Hc in E. cbn [emplace] in E.
  apply load_addrs_disjoint in E as [Hd Hl]; [|done| |].
  - split; [done|]. cbn in Hl. lia.
  - split; repeat constructor; cbn; lia.
  - intros x ->%list_elem_of_singleton. cbn. lia.
Qed.

(** ** A run of the process

    The events of all threads, in any order. [sys_pending] are the loads that are between
    their two parts, with the version they got; [sys_loaded] the methods and versions whose
    loads are complete. *)
Section run.
Context {P D T : Type} `{ThreadWatchLaws P} `{DoubleOps D} `{RBTreeLaws T}.
Abbreviation world := (locals (P := P) * shared (D := D))%type.
Abbreviation pg := (prog (P := P) (D := D)).
Abbreviation ctree := (ContextTree (M := list (metric_val_t D))).
Context (jvm : jvmti) (order : gmap str str -> list (str * str)) (set_order : gset Z -> list Z).
Context (show_double : D -> str) (tree_order : ctree -> list nat) (event_info : list Z) (infos : list metric_info_t).
Hypothesis show_double_value : forall d, value_ok (show_double d).
Hypothesis order_perm : forall m, order m ≡ₚ map_to_list m.
Hypothesis infos_plain : Forall (fun i => value_ok (lit (event_measure i)) /\ value_ok (lit (event_name i))) infos.
Hypothesis infos_few : Z.of_nat (length infos) < 2 ^ 31.

(** An object of the method [id] in the version [v]. *)
Definition known_method (id : Z) (m : Method) : Prop := Method_new jvm id = RET m.
Definition entry_of (id v : Z) (o : XMLObj) : Prop := node_ok (lit "method") o /\ entry_read (T := T) known_method id v (reading o).
Definition is_entry (o : XMLObj) : Prop := exists id v, entry_of id v o.

Record sys := mkSys { sys_shared : shared (D := D); sys_pending : list (Z * Z); sys_loaded : gset (Z * Z) }.

(** What the reports are made of has not changed. *)
Definition same_reports (s s' : shared (D := D)) : Prop :=
  s_cache s' = s_cache s /\ s_methods s' = s_methods s /\ s_files s' = s_files s.

(** The frames of a tree have methods of the machine, in versions that were loaded or none. *)
Definition frames_loaded (t : ctree) (loaded : gset (Z * Z)) : Prop :=
  forall c n, heap t !! c = Some n -> method_version (n_frame n) = 0 \/
    (method_id (n_frame n), method_version (n_frame n)) ∈ loaded.

Inductive sys_step : sys -> sys -> Prop :=
  | step_load_begin gettid lo lo' s s' pending loaded id version :
      load_begin (P := P) gettid id (lo, s) = RET (version, (lo', s')) ->
      sys_step (mkSys s pending loaded) (mkSys s' ((id, version) :: pending) loaded)
  | step_load_end gettid lo lo' s s' pending1 pending2 loaded id version code_size code_addr map :
      map_plain map ->
      load_end (P := P) jvm order gettid id version code_size code_addr map (lo, s) = RET (tt, (lo', s')) ->
      sys_step (mkSys s (pending1 ++ (id, version) :: pending2) loaded)
        (mkSys s' (pending1 ++ pending2) ({[(id, version)]} ∪ loaded))
  | step_unload gettid lo lo' s s' pending loaded id code_addr :
      callbackCompiledMethodUnload (P := P) gettid id code_addr (lo, s) = RET (tt, (lo', s')) ->
      sys_step (mkSys s pending loaded) (mkSys s' pending loaded)
  | step_thread_end gettid lo lo' s s' pending loaded b l t :
      shared_ok s -> running tree_order event_info infos (lo, s) b l t [header_line] -> frames_loaded t loaded ->
      callbackThreadEnd show_double order tree_order gettid event_info infos (lo, s) = RET (tt, (lo', s')) ->
      sys_step (mkSys s pending loaded) (mkSys s' pending loaded)
  | step_other s s' pending loaded :
      same_reports s s' -> sys_step (mkSys s pending loaded) (mkSys s' pending loaded).

(** The process as [Profiler::init] leaves it. *)
Definition sys_init (S : sys) : Prop :=
  s_cache (sys_shared S) = CodeCache_new /\ s_methods (sys_shared S) = [header_line] /\
  s_files (sys_shared S) = [] /\ sys_pending S = [] /\ sys_loaded S = ∅.

(** *** What the callbacks do *)
Lemma bind_RET {A B} (m : pg A) (f : A -> pg B) w b w' :
  (m ≫= f) w = RET (b, w') -> exists a w1, m w = RET (a, w1) /\ f a w1 = RET (b, w').
Proof. unfold mbind, prog_bind. destruct (m w) as [[a w1]|]; [eauto|done]. Qed.

Lemma lift_RET {A} (x : exc A) (w : world) a w' : lift x w = RET (a, w') -> x = RET a /\ w' = w.
Proof. unfold lift. destruct x; [|done]. by intros [= -> ->]. Qed.

Lemma TD_SET_same gettid f (w w' : world) : TD_SET gettid f w = RET (tt, w') -> same_reports w.2 w'.2.
Proof.
  unfold TD_SET. intros (p & w1 & E1 & (b & w2 & E2 & E3)%bind_RET)%bind_RET.
  assert (w2 = w1) as ->.
  { unfold load, mbind, prog_bind, gets in E2. cbn in E2. destruct (s_blocks w1.2 !! p); [by injection E2|done]. }
  injection E3 as <-. unfold thread_data_get, mbind, prog_bind, gets in E1.
  destruct (l_key w.1 =? 0); injection E1 as <- <-; by split_and!.
Qed.

Lemma load_begin_ret gettid id (w w' : world) version :
  load_begin gettid id w = RET (version, w') ->
  (version, s_cache w'.2) = add_begin id (cache_removeMethod id (s_cache w.2)) /\
  s_methods w'.2 = s_methods w.2 /\ s_files w'.2 = s_files w.2.
Proof.
  intros ([] & w1 & (Ec & Em & Ef)%TD_SET_same & E)%bind_RET. rewrite <- Ec, <- Em, <- Ef.
  injection E as <- <-. by split_and!.
Qed.

Lemma load_end_ret gettid id version size addr map (w w' : world) :
  load_end jvm order gettid id version size addr map w = RET (tt, w') ->
  exists m p, build_method jvm id version size addr map = RET m /\
    add_commit id m (s_cache w.2) = RET (p, s_cache w'.2) /\
    s_methods w'.2 = s_methods w.2 ++ [getXMLStr order 0 (createXMLObj_compiled m)] /\ s_files w'.2 = s_files w.2.
Proof.
  intros (m & w1 & (Em & ->)%lift_RET & (c & w2 & Hc & (r & w3 & (Er & ->)%lift_RET & E)%bind_RET)%bind_RET)%bind_RET.
  injection Hc as <- <-. apply bind_RET in E as ([] & w4 & E4 & ([] & w5 & E5 & E6)%bind_RET).
  injection E4 as <-. injection E5 as <-. apply TD_SET_same in E6 as (Ec & Emt & Ef).
  exists m, r.1. rewrite Ec, Emt, Ef. cbn. split_and!; [done| |done..]. rewrite Er. by destruct r.
Qed.

Lemma unload_ret gettid id addr (w w' : world) :
  callbackCompiledMethodUnload gettid id addr w = RET (tt, w') ->
  removeMethod id addr (s_cache w.2) = RET (s_cache w'.2) /\ s_methods w'.2 = s_methods w.2 /\ s_files w'.2 = s_files w.2.
Proof.
  intros ([] & w1 & (Ec & Em & Ef)%TD_SET_same & E)%bind_RET.
  apply bind_RET in E as (c & w2 & Hc & (c' & w3 & (Er & ->)%lift_RET & E)%bind_RET). injection Hc as <- <-.
  apply bind_RET in E as ([] & w4 & E4 & (Ec' & Em' & Ef')%TD_SET_same). injection E4 as <-.
  rewrite Ec', Em', Ef'. rewrite Ec in Er. cbn. by rewrite Em, Ef.
Qed.

(** The two parts of a load are [addMethodAndRemoveFromUncompiledSet] and the method's entry. *)
Lemma callbackCompiledMethodLoad_ret gettid id size addr map (w w' : world) :
  callbackCompiledMethodLoad jvm order gettid id size addr map w = RET (tt, w') ->
  exists p m, addMethodAndRemoveFromUncompiledSet jvm id size addr map (s_cache w.2) = RET (p, s_cache w'.2) /\
    cc_heap (s_cache w'.2) !! p = Some m /\
    s_methods w'.2 = s_methods w.2 ++ [getXMLStr order 0 (createXMLObj_compiled m)].
Proof.
  intros (version & w1 & (Eb & Em & _)%load_begin_ret & (m & p & Ebm & Eac & Em' & _)%load_end_ret)%bind_RET.
  exists p, m. unfold addMethodAndRemoveFromUncompiledSet, addMethod. rewrite <- Eb. cbn. rewrite Ebm. cbn.
  rewrite Em', Em. split_and!; [done| |done].
  unfold add_commit in Eac. destruct (insert _ _ _ _) as [[ok ms]|]; [|done]. cbn in Eac. destruct ok; [|done].
  injection Eac as <- <-. cbn. apply lookup_insert_eq.
Qed.

(** *** The invariant *)

(** What a file says of a context: its method is known, and its version was loaded. *)
Definition context_loaded (c : CodeCache) (loaded : gset (Z * Z)) (o : XMLObj) : Prop :=
  exists id v, py_attr "method_id" (reading o) = Some (show_ptr id) /\
    py_attr "method_version" (reading o) = Some (show_int v) /\ known c id /\ (v = 0 \/ (id, v) ∈ loaded).

(** The objects of a thread's file: some contexts of a tree, with their ancestors. *)
Definition context_file (os : list XMLObj) : Prop :=
  Forall (node_ok (lit "context")) os /\ exists (t : ctree) cs,
    tree_ok t /\ Forall2 (reads_as show_double infos t) cs (map reading os) /\ NoDup cs /\ closed t cs.

Record sys_inv (S : sys) : Prop := {
  inv_first : forall id, is_Some (method_id_map (s_cache (sys_shared S)) !! id) ->
    (id, 1) ∈ sys_loaded S \/ (id, 1) ∈ sys_pending S;
  inv_begun : forall id v, (id, v) ∈ sys_pending S -> is_Some (method_id_map (s_cache (sys_shared S)) !! id);
  inv_methods : exists os, s_methods (sys_shared S) = header_line :: map (getXMLStr order 0) os /\ Forall is_entry os /\
    forall id v, (id, v) ∈ sys_loaded S -> exists o, o ∈ os /\ entry_of id v o;
  inv_files : forall tid texts, (tid, texts) ∈ s_files (sys_shared S) -> exists os,
    texts = header_line :: map (context_text order) os /\ context_file os /\
    Forall (context_loaded (s_cache (sys_shared S)) (sys_loaded S)) os;
}.

(** A cache knows at least what another one knew. *)
Definition knows_more (c c' : CodeCache) : Prop := forall id, known c id -> known c' id.

Lemma context_loaded_mono c c' loaded loaded' o :
  knows_more c c' -> loaded ⊆ loaded' -> context_loaded c loaded o -> context_loaded c' loaded' o.
Proof. intros Hc Hl (id & v & Ei & Ev & Hk & Hv). exists id, v. split_and!; [done..|by apply Hc|]. destruct Hv; [by left|right; set_solver]. Qed.

(** Steps that leave the files alone. *)
Lemma inv_files_mono (s s' : shared (D := D)) loaded loaded' :
  s_files s' = s_files s -> knows_more (s_cache s) (s_cache s') -> loaded ⊆ loaded' ->
  (forall tid texts, (tid, texts) ∈ s_files s -> exists os, texts = header_line :: map (context_text order) os /\
    context_file os /\ Forall (context_loaded (s_cache s) loaded) os) ->
  forall tid texts, (tid, texts) ∈ s_files s' -> exists os, texts = header_line :: map (context_text order) os /\
    context_file os /\ Forall (context_loaded (s_cache s') loaded') os.
Proof.
  intros Ef Hk Hl Hs tid texts Hin. rewrite Ef in Hin. destruct (Hs _ _ Hin) as (os & E & Hos & Hc).
  exists os. split_and!; [done..|]. eapply Forall_impl; [exact Hc|]. intros o. by apply context_loaded_mono.
Qed.

(** *** The cache *)
Lemma begin_known id c version c' :
  (version, c') = add_begin id (cache_removeMethod id c) ->
  knows_more c c' /\ (forall i, is_Some (method_id_map c' !! i) <-> i = id \/ is_Some (method_id_map c !! i)) /\
  (method_id_map c !! id = None -> version = 1).
Proof.
  intros [= -> ->]. cbn. split_and!.
  - intros i [Hi|Hi]; unfold known; cbn; rewrite lookup_insert_is_Some'; [by left; right|].
    destruct (decide (i = id)) as [->|Hne]; [by left; left|]. right. set_solver.
  - intros i. rewrite lookup_insert_is_Some'. naive_solver.
  - intros Hn. unfold group_of. cbn. by rewrite Hn.
Qed.

Lemma commit_known id m c p c' :
  add_commit id m c = RET (p, c') ->
  knows_more c c' /\ forall i, is_Some (method_id_map c' !! i) <-> i = id \/ is_Some (method_id_map c !! i).
Proof.
  intros E. unfold add_commit in E. apply exc_bind_ret in E as (r & _ & E). apply exc_bind_ret in E as (_ & _ & E).
  injection E as <- <-. split.
  - intros i [Hi|Hi]; [left|by right]. cbn. rewrite lookup_insert_is_Some'. by right.
  - intros i. cbn. rewrite lookup_insert_is_Some'. naive_solver.
Qed.

Lemma remove_known id addr c c' :
  removeMethod id addr c = RET c' ->
  knows_more c c' /\ forall i, is_Some (method_id_map c' !! i) <-> is_Some (method_id_map c !! i).
Proof.
  intros E. assert (Hd : (forall i, is_Some (method_id_map c' !! i) <-> is_Some (method_id_map c !! i)) /\ method_set c' = method_set c).
  { unfold removeMethod in E. destruct (method_id_map c !! id) as [g|] eqn:Eg; [|by injection E as <-].
    apply exc_bind_ret in E as (c1 & E1 & E). destruct (remove _ _) as [ok ms]. apply exc_bind_ret in E as (_ & _ & [= <-]). cbn.
    unfold removeMethodByAddr in E1. destruct (address_method_map g !! addr); [|by injection E1 as <-].
    destruct (cc_heap c !! n); [|done]. injection E1 as <-. cbn. split; [|done]. intros i.
    rewrite lookup_insert_is_Some'. split; [|by right]. intros [<-|]; [|done]. by rewrite Eg. }
  destruct Hd as [Hm Hset]. split; [|exact Hm]. intros i [Hi|Hi]; [left; by apply Hm|right]. by rewrite Hset.
Qed.

Hypothesis Hjvm : jvm_ok jvm.

Lemma build_entry id version size addr map m : map_plain map ->
  build_method jvm id version size addr map = RET m -> entry_of id version (createXMLObj_compiled m).
Proof.
  intros Hmap E. destruct (build_fields _ _ _ _ _ _ _ E) as (Hi & Hv & _). apply exc_bind_ret in E as (m0 & E0 & E).
  destruct (Method_new_total jvm id Hjvm) as (m1 & E1 & Hid & Hm & Hl). assert (m0 = m1) as -> by congruence.
  pose proof (loadAddrLocationMap_disjoint map (mkCompiled m1 version size addr []) m Hmap eq_refl E) as HA.
  apply loadAddrLocationMap_fields in E as (Ec & _). cbn in Ec.
  split; [apply createXMLObj_compiled_ok; by rewrite Ec|].
  destruct (load_one_compiled (T := T) m HA) as (p & Ep & Hp); [by rewrite Ec|]. rewrite Hi, Hv, Ec in Hp.
  exists p, m1, (addr2line_rangeset m). by split_and!.
Qed.

Lemma interpret_entry id m : Method_new jvm id = RET m -> entry_of id 0 (createXMLObj_interpret m).
Proof.
  intros E. destruct (Method_new_total jvm id Hjvm) as (m1 & E1 & Hid & Hm & Hl). assert (m1 = m) as -> by congruence.
  split; [by apply createXMLObj_interpret_ok|]. destruct (load_one_interpret (T := T) m Hl) as (p & Ep & Hp). rewrite Hid in Hp.
  exists p, m, []. by split_and!.
Qed.

(** *** Every step keeps the invariant *)
Lemma load_begin_inv s s' pending loaded id version :
  sys_inv (mkSys s pending loaded) ->
  (version, s_cache s') = add_begin id (cache_removeMethod id (s_cache s)) ->
  s_methods s' = s_methods s -> s_files s' = s_files s ->
  sys_inv (mkSys s' ((id, version) :: pending) loaded).
Proof.
  intros [Hf Hb Hm Hfs] (Hk & Hd & Hone)%begin_known Em Ef. cbn in *. split; cbn.
  - intros i [->|Hi]%Hd; [|destruct (Hf i Hi); [by left|by right; right]].
    destruct (method_id_map (s_cache s) !! id) as [g|] eqn:Eg; [|right; rewrite Hone; [by left|done]].
    destruct (Hf id); [by rewrite Eg|by left|by right; right].
  - intros i v [[= -> ->]|Hin]%elem_of_cons; apply Hd; [by left|right; by eapply Hb].
  - by rewrite Em.
  - by eapply inv_files_mono.
Qed.

Lemma load_end_inv s s' pending1 pending2 loaded id version m p :
  sys_inv (mkSys s (pending1 ++ (id, version) :: pending2) loaded) ->
  add_commit id m (s_cache s) = RET (p, s_cache s') -> entry_of id version (createXMLObj_compiled m) ->
  s_methods s' = s_methods s ++ [getXMLStr order 0 (createXMLObj_compiled m)] -> s_files s' = s_files s ->
  sys_inv (mkSys s' (pending1 ++ pending2) ({[(id, version)]} ∪ loaded)).
Proof.
  intros [Hf Hb (os & Eo & Hos & Hl) Hfs] (Hk & Hd)%commit_known He Em Ef. cbn in *. split; cbn.
  - intros i Hi. assert (is_Some (method_id_map (s_cache s) !! i)) as [Hi'|Hi']%Hf.
    { apply Hd in Hi as [->|]; [|done]. apply (Hb id version), elem_of_app. right. by left. }
    + left. set_solver.
    + rewrite elem_of_app, elem_of_cons in Hi'. destruct Hi' as [?|[[= -> ->]|?]]; [|left; set_solver|];
        right; apply elem_of_app; auto.
  - intros i v Hin. apply Hd. right. apply (Hb i v). apply elem_of_app in Hin as [|]; apply elem_of_app; [by left|right; by right].
  - exists (os ++ [createXMLObj_compiled m]). split_and!.
    + by rewrite Em, Eo, map_app.
    + apply Forall_app. split; [done|]. apply Forall_singleton. by exists id, version.
    + intros i v [[= -> ->]%elem_of_singleton|Hin]%elem_of_union; [eexists; split; [|exact He]; set_solver|].
      destruct (Hl i v Hin) as (o & Ho & Heo). exists o. split; [set_solver|done].
  - eapply inv_files_mono; [done..| |exact Hfs]. set_solver.
Qed.

(** A cache that knows as much, with the same ids of groups. *)
Lemma cache_inv s s' pending loaded :
  sys_inv (mkSys s pending loaded) -> knows_more (s_cache s) (s_cache s') ->
  (forall i, is_Some (method_id_map (s_cache s') !! i) <-> is_Some (method_id_map (s_cache s) !! i)) ->
  s_methods s' = s_methods s ->
  (forall tid texts, (tid, texts) ∈ s_files s' -> (tid, texts) ∈ s_files s \/ exists os,
    texts = header_line :: map (context_text order) os /\ context_file os /\ Forall (context_loaded (s_cache s') loaded) os) ->
  sys_inv (mkSys s' pending loaded).
Proof.
  intros [Hf Hb Hm Hfs] Hk Hd Em Ef. cbn in *. split; cbn.
  - intros i Hi%Hd. auto.
  - intros i v Hin. apply Hd. by eapply Hb.
  - by rewrite Em.
  - intros tid texts Hin. destruct (Ef tid texts Hin) as [Hold|Hnew]; [|done].
    destruct (Hfs _ _ Hold) as (os & E & Hos & Hc). exists os. split_and!; [done..|].
    eapply Forall_impl; [exact Hc|]. intros o. by apply context_loaded_mono.
Qed.

Lemma reports_loaded (t : ctree) texts c loaded :
  tree_ok t -> reports show_double order infos t texts c -> frames_loaded t loaded ->
  exists os, texts = map (context_text order) os /\ context_file os /\ Forall (context_loaded c loaded) os.
Proof.
  intros Ht (cs & os & -> & Hos & Hr & Hnd & Hcs & Hk) Hfr. exists os. split; [done|split; [split; [done|exists t, cs; split_and!; try done]|]].
  { intros x xn p Hx Hxn Hp. apply Hcs in Hx as (d & Hd & Ha). apply Hcs. exists d. split; [done|]. by eapply above_up. }
  apply Forall_forall. intros o [i Hi]%list_elem_of_lookup_1.
  destruct (Forall2_lookup_r _ _ _ i (reading o) Hr) as (d & _ & n & Hn & _ & _ & Emi & Ev & _).
  { rewrite list_lookup_fmap, Hi. done. }
  exists (method_id (n_frame n)), (method_version (n_frame n)). split_and!; [done..|by eapply Hk|by eapply Hfr].
Qed.

Lemma sys_step_inv S S' : sys_step S S' -> sys_inv S -> sys_inv S'.
Proof.
  intros Hst Hinv. destruct Hst as
    [gettid lo lo' s s' pending loaded id version E|gettid lo lo' s s' pending1 pending2 loaded id version size addr map Hmap E|
     gettid lo lo' s s' pending loaded id addr E|gettid lo lo' s s' pending loaded b l t Hs Hr Hfr E|s s' pending loaded (Ec & Em & Ef)].
  - apply load_begin_ret in E as (Ec & Em & Ef). by eapply load_begin_inv.
  - apply load_end_ret in E as (m & p & Eb & Ec & Em & Ef). by eapply load_end_inv; eauto using build_entry.
  - apply unload_ret in E as ((Hk & Hd)%remove_known & Em & Ef). cbn in *. eapply cache_inv; [done..|].
    intros tid texts. rewrite Ef. auto.
  - destruct (callbackThreadEnd_running show_double order tree_order gettid event_info infos show_double_value order_perm infos_plain
      infos_few (lo, s) b l t _ Hs Hr) as ([] & w' & E' & _ & _ & _ & (texts & Ef & Hrep) & _ & _ & Em & Hg).
    rewrite E in E'. injection E' as <-. cbn in *. eapply cache_inv; [done| | |done|].
    + intros id. by apply grows_known.
    + intros i. by destruct Hg as [-> _].
    + intros tid ts. rewrite Ef, elem_of_app, list_elem_of_singleton. intros [|[= -> ->]]; [by left|right].
      destruct (reports_loaded t texts _ loaded (rep_tree _ _ _ (run_reportable _ _ _ _ _ _ _ _ Hr)) Hrep Hfr) as (os & -> & Hos & Hc). by exists os.
  - eapply cache_inv; [done|by intros id; rewrite Ec|by intros id; rewrite Ec|done|]. intros tid texts. rewrite Ef. auto.
Qed.

Lemma sys_init_inv S : sys_init S -> sys_inv S.
Proof.
  destruct S as [s pending loaded]. intros (Ec & Em & Ef & Ep & El). cbn in *. subst. split; cbn.
  - intros id. rewrite Ec. cbn. rewrite lookup_empty. by intros [? ?].
  - by intros id v ?%not_elem_of_nil.
  - exists []. rewrite Em. split_and!; [done..|]. set_solver.
  - intros tid texts. rewrite Ef. by intros ?%not_elem_of_nil.
Qed.

Lemma sys_reachable_inv S S' : sys_init S -> rtc sys_step S S' -> sys_inv S'.
Proof. intros Hi%sys_init_inv Hst. induction Hst; [done|]. eauto using sys_step_inv. Qed.

(** *** The end of the machine *)

(** The thread has a block of data, or gets one. *)
Definition has_block (w : world) : Prop := shared_ok w.2 /\ (l_key w.1 = 0 \/ exists b, owns w b).

Lemma flag_runs gettid i (w : world) :
  has_block w -> runs (TD_SET gettid (with_inside i)) w (fun _ w' => same_reports w.2 w'.2 /\ has_block w' /\ exists b, owns w' b).
Proof.
  intros [[Hn Hb] [Hk|[b Ho]]].
  - apply runs_BLOCK_new; [done|done|]. assert (Hown : owns (P := P) (D := D) (set_key (s_next w.2) w.1,
      set_next (s_next w.2 + 1) (set_blocks (<[s_next w.2 := mkThread gettid i None None None]> (s_blocks w.2)) w.2)) (mkThread gettid i None None None))
      by (split; cbn; [lia|by rewrite lookup_insert_eq]).
    split; [by split_and!|]. split; [|by eexists]. split; [|right; by eexists].
    split; cbn; [lia|]. intros q [<-|[_ Hq]]%lookup_insert_is_Some; [lia|]. specialize (Hb q Hq). lia.
  - eapply runs_TD_SET; [exact Ho|]. pose proof (owns_put b (with_inside i b) w Ho) as Hown. split; [by split_and!|].
    split; [|by eexists]. split; [|right; by eexists]. split; cbn; [lia|].
    intros q [<-|[_ Hq]]%lookup_insert_is_Some; [|by apply Hb]. apply Hb. destruct Ho as [_ ->]. by eexists.
Qed.

Lemma dump_uncompiled_ok l : forall (w : world),
  runs (performActionAll (dump_uncompiled_method jvm order) l) w (fun _ w' => exists os,
    w' = (w.1, set_methods (s_methods w.2 ++ map (getXMLStr order 0) os) w.2) /\ Forall is_entry os /\
    forall id, id ∈ l -> id <> 0 -> exists o, o ∈ os /\ entry_of id 0 o).
Proof.
  induction l as [|id l IH]; intros w; cbn [performActionAll].
  - apply runs_ret. exists []. split_and!; [|done|by intros id ?%not_elem_of_nil].
    destruct w as [lo s]. cbn. rewrite app_nil_r. by destruct s.
  - apply runs_bind. unfold dump_uncompiled_method at 1. destruct (Z.eqb_spec id 0) as [->|Hne].
    + apply runs_ret. eapply runs_mono; [apply IH|]. intros _ w' (os & -> & Hos & Hl). exists os. split_and!; [done..|].
      intros i [->|Hi]%elem_of_cons Hi0; [done|by apply Hl].
    + destruct (Method_new_total jvm id Hjvm) as (m & Em & _).
      apply runs_bind. eapply runs_lift; [exact Em|]. apply runs_put_shared.
      eapply runs_mono; [apply IH|]. intros _ w' (os & -> & Hos & Hl).
      pose proof (interpret_entry id m Em) as He.
      exists (createXMLObj_interpret m :: os). split_and!.
      * destruct w as [lo s]. unfold set_methods. cbn. by rewrite <- app_assoc.
      * constructor; [by exists id, 0|done].
      * intros i [->|Hi]%elem_of_cons Hi0; [eexists; split; [by left|done]|].
        destruct (Hl i Hi Hi0) as (o & Ho & Heo). exists o. split; [by right|done].
Qed.

Hypothesis set_order_perm : forall m, set_order m ≡ₚ elements m.

Lemma callbackVMDeath_ok gettid (w : world) :
  has_block w -> runs (callbackVMDeath jvm order set_order gettid) w (fun _ w' => has_block w' /\ exists os,
    s_methods w'.2 = s_methods w.2 ++ map (getXMLStr order 0) os /\ s_files w'.2 = s_files w.2 /\ Forall is_entry os /\
    forall id, id ∈ method_set (s_cache w.2) -> id <> 0 -> exists o, o ∈ os /\ entry_of id 0 o).
Proof.
  intros Hw. unfold callbackVMDeath. apply runs_bind. eapply runs_mono; [by apply flag_runs|].
  intros [] w1 ((Ec & Em & Ef) & [Hs _] & b & Ho). apply runs_bind, runs_gets, runs_bind. rewrite Ec.
  eapply runs_mono; [apply dump_uncompiled_ok|]. intros [] w2 (os & -> & Hos & Hl).
  set (w2 := (_, _)). assert (Hw2 : has_block w2) by (split; [exact Hs|right; exists b; exact Ho]). unfold UNBLOCK_SAMPLE.
  eapply runs_mono; [by apply flag_runs|]. intros [] w3 ((Ec3 & Em3 & Ef3) & Hw3 & _). split; [done|]. exists os.
  rewrite Em3, Ef3. cbn. rewrite Em, Ef. split_and!; [done..|].
  intros id Hid. apply Hl. rewrite set_order_perm. by apply elem_of_elements.
Qed.

(** *** The offline reader's table *)
Lemma entries_ok os : Forall is_entry os -> Forall (node_ok (lit "method")) os.
Proof. intros Hos. eapply Forall_impl; [exact Hos|]. by intros o (id & v & Ho & _). Qed.

(** The offline reader accepts the file of methods and those of the threads, in whatever order its
    threads end; the contexts of a file, if any, make a tree; and for every context, but those whose method is null,
    [MethodManager.getMethod] has an answer, with the names and the lines by bytecode index
    of the context's method. *)
Definition every_method_found (s : shared (D := D)) : Prop :=
  forall arrive : list PyObj -> list PyObj, (forall l, arrive l ≡ₚ l) ->
  exists ms (d : gmap str (PyMethod T)), HomoXMLParser arrive (lit "method") (concat (s_methods s)) = Some (mkPy (lit "root") ∅ ms) /\
    load_method ms ∅ = Some d /\
    forall tid texts, (tid, texts) ∈ s_files s -> exists os,
      HomoXMLParser arrive (lit "context") (concat texts) = Some (mkPy (lit "root") ∅ os) /\
      (os = [] \/ exists m, load_context os = Some m /\ cm_roots m = {[lit "0"]}) /\
      forall o, o ∈ os -> exists id version,
        py_attr "method_id" o = Some (show_ptr id) /\ py_attr "method_version" o = Some version /\
        (id = 0 \/ exists p d', manager_getMethod (show_ptr id) version d = (Some p, d') /\ is_method known_method id p).

Lemma methods_read S s os :
  sys_inv S -> sys_pending S = [] -> s_files s = s_files (sys_shared S) ->
  s_methods s = s_methods (sys_shared S) ++ map (getXMLStr order 0) os -> Forall is_entry os ->
  (forall id, id ∈ method_set (s_cache (sys_shared S)) -> id <> 0 -> exists o, o ∈ os /\ entry_of id 0 o) ->
  every_method_found s.
Proof.
  intros [Hf _ (os1 & Em & Hos & Hl) Hfs] Hp Ef Em' Hos' Hl' arrive Harr. rewrite Em in Em'.
  assert (Hall : Forall is_entry (os1 ++ os)) by (by apply Forall_app).
  set (xs := arrive (map reading (os1 ++ os))).
  assert (Hxs : Forall (fun x => exists id v, entry_read (T := T) known_method id v x) xs).
  { subst xs. rewrite Harr. apply Forall_map. eapply Forall_impl; [exact Hall|]. intros o (id & v & _ & Ho). eauto. }
  destruct (load_method_ok known_method xs ∅ Hxs) as (d & Ed & _ & Hkeys & _).
  exists xs, d. split_and!; [|done|].
  { rewrite Em'. cbn [app]. rewrite <- map_app. apply (file_read order); [done|done|by apply entries_ok|apply texts_of]. }
  intros tid texts Hin. rewrite Ef in Hin. destruct (Hfs tid texts Hin) as (cs & -> & Hcs & Hc).
  exists (arrive (map reading cs)). split; [apply (file_read order); [done|done|apply Hcs|apply context_texts_of]|]. split.
  { destruct Hcs as (_ & t & ids & Ht & Hr & Hnd & Hup). destruct (decide (ids = [])) as [->|Hne]; [left|right].
    - apply Forall2_nil_inv_l in Hr. rewrite Hr. apply Permutation_nil. by rewrite Harr.
    - destruct (load_context_any show_double infos t Ht elements ids (map reading cs) (arrive (map reading cs)))
        as (m & E & Hb); [done..|apply Harr|]. exists m. split; [exact E|apply Hb]. }
  intros x Hx. rewrite Harr in Hx. apply list_elem_of_fmap in Hx as (o & -> & Ho). rewrite Forall_forall in Hc.
  destruct (Hc o Ho) as (id & v & Ei & Ev & Hk & Hv). exists id, (show_int v). split_and!; [done..|].
  destruct (decide (id = 0)) as [->|Hid]; [by left|right].
  assert (Hkey : forall i u o, o ∈ os1 ++ os -> entry_of i u o -> is_Some (d !! method_key (show_ptr i) (show_int u))).
  { intros i u e He [_ Her]. eapply Hkeys; [|exact Her]. subst xs. rewrite Harr. by apply list_elem_of_fmap_2. }
  assert (Hloaded : forall u, (id, u) ∈ sys_loaded S -> is_Some (d !! method_key (show_ptr id) (show_int u))).
  { intros u Hu. destruct (Hl id u Hu) as (e & He & Hent). eapply Hkey; [apply elem_of_app; by left|exact Hent]. }
  assert (Hmeth : forall u p, d !! method_key (show_ptr id) u = Some p -> is_method known_method id p)
    by (intros u p; by apply (loaded_method known_method xs)).
  unfold manager_getMethod. destruct (d !! method_key (show_ptr id) (show_int v)) as [p|] eqn:Edv; [by eauto|].
  destruct Hv as [->|Hv]; [|destruct (Hloaded v Hv); congruence].
  rewrite bool_decide_eq_false_2 by (intros Hn; apply Hn; reflexivity). destruct Hk as [Hmap|Hset].
  - destruct (Hf id Hmap) as [Hone|Hone]; [|rewrite Hp in Hone; by apply not_elem_of_nil in Hone].
    destruct (Hloaded 1 Hone) as [m Hm]. change (show_int 1) with (lit "1") in Hm. rewrite Hm.
    eexists _, _. split; [done|]. by eapply copy_method, Hmeth.
  - destruct (Hl' id Hset Hid) as (e & He & Hent). destruct (Hkey id 0 e) as [m Hm]; [apply elem_of_app; by right|done|congruence].
Qed.

Lemma death_found (S S' : sys) (gettid : Z) (lo : locals) :
  sys_init S -> rtc sys_step S S' -> sys_pending S' = [] -> has_block (lo, sys_shared S') ->
  runs (callbackVMDeath jvm order set_order gettid) (lo, sys_shared S')
    (fun _ w => every_method_found w.2 /\ s_files w.2 = s_files (sys_shared S') /\ has_block w).
Proof.
  intros Hi Hst Hp Hb. eapply runs_mono; [by apply callbackVMDeath_ok|]. intros [] w (Hw & os & Em & Ef & Hos & Hl).
  split; [|done]. eapply methods_read; [by eapply sys_reachable_inv|done|exact Ef|exact Em|done|exact Hl].
Qed.

(** C20: Every context finds its method. Whatever loads and unloads of compiled code, ends of threads and
    other events happen in whatever order, with the two halves of loads interleaved in any way: when no
    load is under way, [callbackVMDeath] returns, and then the offline reader accepts the
    file of methods and the file of every thread, whose contexts make a tree with one root, and for
    every context, but those whose method is null, [MethodManager.getMethod] has an answer: the version
    that was running if the sample knew it, and for a frame without a version the interpreted
    method or a copy of the first compiled one. The answer has the method's names, and gives a
    bytecode index the line that the machine's table does. *)
Theorem methods_found (S S' : sys) (gettid : Z) (lo : locals) :
  sys_init S -> rtc sys_step S S' -> sys_pending S' = [] -> has_block (lo, sys_shared S') ->
  exists lo' s', callbackVMDeath jvm order set_order gettid (lo, sys_shared S') = RET (tt, (lo', s')) /\
    s_files s' = s_files (sys_shared S') /\ every_method_found s'.
Proof.
  intros Hi Hst Hp Hb. destruct (death_found S S' gettid lo Hi Hst Hp Hb) as ([] & [lo' s'] & E & Hf & Ef & _).
  by exists lo', s'.
Qed.
End run.

(** ** A method that is loaded, and a thread that ends *)
Module Demo.
#[local] Existing Instances Methods.Demo.list_tree Methods.Demo.list_tree_laws.
#[local] Instance library : ThreadWatch (option (WP_ThreadData_t (C := unit) (R := unit))) :=
  WP_watch (Watchpoint.Demo.demo_cfg true) [Watchpoint.Demo.demo_slot] tt (mkCnt 2 [0; 0; 0; 0; 0] 0) tt.
#[local] Instance library_laws : ThreadWatchLaws (option (WP_ThreadData_t (C := unit) (R := unit))) := WP_watch_laws _ _ _ _ _.
Abbreviation world := (locals (P := option (WP_ThreadData_t (C := unit) (R := unit))) * shared (D := spec_float))%type.
Abbreviation pg := (prog (P := option (WP_ThreadData_t (C := unit) (R := unit))) (D := spec_float)).

Definition jvm : jvmti :=
  mkJvmti (fun _ => Some "<init>"%string) (fun _ => Some 1) (fun _ => Some false) (fun _ => Some "Main.java"%string)
    (fun _ => Some "LMain;"%string) (fun _ => Some (0, 9)) (fun _ => Some [(0, 3); (4, 4)]).

Lemma demo_jvm_ok : jvm_ok jvm.
Proof.
  split; cbn; try (by intros ? ? [= <-]).
  intros _ a e table [= <- <-] [= <-]. split; [cbn; lia|]. split; [lia|done].
Qed.

Definition tree1 := setMetrics 1 [mkVal 5 (d_of_Z 0) ""] (Report.Demo.add_or 0 (Report.Demo.frame 16) Report.Demo.tree0).

Lemma demo_tree_nodes c n : heap tree1 !! c = Some n ->
  (c = 0%nat /\ n_frame n = no_frame /\ n_metrics n = None \/
   c = 1%nat /\ n_frame n = Report.Demo.frame 16 /\ n_metrics n = Some [mkVal 5 (d_of_Z 0) ""]).
Proof.
  intros Hc%elem_of_map_to_list. vm_compute map_to_list in Hc.
  repeat (apply elem_of_cons in Hc as [Hc|Hc]; [injection Hc as -> ->; auto|]). by apply not_elem_of_nil in Hc.
Qed.

Lemma demo_reportable1 : reportable Lifecycle.Demo.tree_order Report.Demo.infos tree1.
Proof.
  split; [|done|].
  - apply setMetrics_ok. destruct (Report.Demo.add_or_ok 0 (Report.Demo.frame 16) Report.Demo.tree0 []) as (Ht & _);
      [apply ContextTree_new_ok|constructor|done|exact Ht].
  - intros c n Hc. destruct (demo_tree_nodes c n Hc) as [(_ & -> & ->)|(_ & -> & ->)]; (split; [cbn; lia|]); [done|].
    intros m [= <-]. split; [cbn; lia|by apply Forall_singleton].
Qed.

Definition block : thread_data (D := spec_float) := mkThread 77 false (Some []) (Some tree1) (Some [header_line]).
Definition w0 : world :=
  (mkLocals 1 (replicate 5 (-1)) 0 (Some Watchpoint.Demo.demo_st0) 0,
   mkShared ∅ ∅ {[1 := block]} 4096 CodeCache_new [] [] [header_line] 0 0).

Definition run_or (m : pg unit) (w : world) : world := match m w with RET (_, w') => w' | EXC => w end.
Definition begin_or (m : pg Z) (w : world) : world := match m w with RET (_, w') => w' | EXC => w end.

(** The load of method 16 is under way while the thread ends. *)
Definition w1 : world := begin_or (load_begin 77 16) w0.
Definition w2 : world := run_or (load_end jvm map_to_list 77 16 1 16 100 []) w1.
Definition finish := callbackThreadEnd Report.Demo.show_double map_to_list Lifecycle.Demo.tree_order 77 [] Report.Demo.infos.
Definition w3 : world := run_or finish w2.

Abbreviation step := (sys_step jvm map_to_list Report.Demo.show_double Lifecycle.Demo.tree_order [] Report.Demo.infos).

Lemma demo_load : rtc step (mkSys w0.2 [] ∅) (mkSys w2.2 [] ({[(16, 1)]} ∪ ∅)).
Proof.
  eapply rtc_l; [apply (step_load_begin _ _ _ _ _ _ 77 w0.1 w1.1 w0.2 w1.2 [] ∅ 16 1); vm_compute; reflexivity|].
  apply rtc_once. apply (step_load_end _ _ _ _ _ _ 77 w1.1 w2.1 w1.2 w2.2 [] [] ∅ 16 1 16 100 []); [by split|vm_compute; reflexivity].
Qed.

Lemma demo_running : running Lifecycle.Demo.tree_order [] Report.Demo.infos w2 block [] tree1 [header_line].
Proof.
  split; [|done|by split|done|exact demo_reportable1|done|].
  - split; [done|]. vm_compute. reflexivity.
  - exists Watchpoint.Demo.demo_st0. split; [reflexivity|exact Watchpoint.Demo.demo_inv0].
Qed.

Lemma demo_frames : frames_loaded tree1 ({[(16, 1)]} ∪ ∅).
Proof.
  intros c n Hc. destruct (demo_tree_nodes c n Hc) as [(_ & -> & _)|(_ & -> & _)]; [by left|right]. set_solver.
Qed.

Lemma demo_end : step (mkSys w2.2 [] ({[(16, 1)]} ∪ ∅)) (mkSys w3.2 [] ({[(16, 1)]} ∪ ∅)).
Proof.
  apply (step_thread_end _ _ _ _ _ _ 77 w2.1 w3.1 w2.2 w3.2 [] _ block [] tree1).
  - split; [done|]. intros p [b Hb]. assert (s_blocks w2.2 = {[1 := block]}) as Es by (vm_compute; reflexivity).
    rewrite Es in Hb. apply lookup_singleton_Some in Hb as [<- _]. split; [lia|]. vm_compute. reflexivity.
  - exact demo_running.
  - exact demo_frames.
  - vm_compute. reflexivity.
Qed.

Lemma methods_found_witness :
  rtc step (mkSys w0.2 [] ∅) (mkSys w3.2 [] ({[(16, 1)]} ∪ ∅)) /\ length (s_files w3.2) = 1%nat /\
  exists w' ms, callbackVMDeath jvm map_to_list elements 77 w3 = RET (tt, w') /\ s_files w'.2 = s_files w3.2 /\
    HomoXMLParser (@rev PyObj) (lit "method") (concat (s_methods w'.2)) = Some (mkPy (lit "root") ∅ ms).
Proof.
  assert (Hst : rtc step (mkSys w0.2 [] ∅) (mkSys w3.2 [] ({[(16, 1)]} ∪ ∅)))
    by (etrans; [exact demo_load|apply rtc_once; exact demo_end]).
  split; [exact Hst|]. split; [vm_compute; reflexivity|]. destruct Lifecycle.Demo.demo_values as [Hd Hi].
  destruct (methods_found (T := gmap Z (Z * str)) jvm map_to_list elements Report.Demo.show_double Lifecycle.Demo.tree_order [] Report.Demo.infos
    Hd (fun m => reflexivity (map_to_list m)) Hi ltac:(vm_compute; reflexivity) demo_jvm_ok (fun m => reflexivity (elements m))
    (mkSys w0.2 [] ∅) (mkSys w3.2 [] ({[(16, 1)]} ∪ ∅)) 77 w3.1) as (lo' & s' & E & Ef & Hfound).
  - by split_and!.
  - exact Hst.
  - reflexivity.
  - split; [|right; exists (mkThread 77 false None None None); split; vm_compute; [discriminate|reflexivity]].
    split; [done|]. intros q [b Hb]. change (({[4096 := mkThread 77 false None None None]} : gmap Z (thread_data (D := spec_float))) !! q = Some b) in Hb.
    apply lookup_singleton_Some in Hb as [<- _]. vm_compute. split; [reflexivity|reflexivity].
  - destruct (Hfound (@rev PyObj)) as (ms & d & Ems & _); [intros l; symmetry; apply Permutation_rev|].
    exists (lo', s'), ms. split; [destruct w3; exact E|]. split; [exact Ef|exact Ems].
Defined.
End Demo.
