(* ===== verification/Session.v ===== *)
(** * Session: the agent from its load to its unload

    The entry points of agent.cpp ([Agent_OnLoad], [Agent_OnAttach], [Agent_OnUnload]), [JVM::init] and
    [JVM::shutdown], [Profiler::init] and [Profiler::shutdown], and the key of thread_data.cpp.
    They work on the whole process: what the threads share (Lifecycle.v), the options
    (Config.v), the watchpoint library (Watchpoint.v), the keys for thread data and what the
    virtual machine has been told.

    [EXC] is a failed assertion, an exception, or an access to memory that is not the agent's. *)
From stdpp Require Import base numbers list strings gmap.
From Stdlib Require Import ZArith Lia Ascii SpecFloat.
From S2P Require Import Prelude Support Metrics ContextTree RangeSet CodeCache Xml HomoXml Report Methods Watchpoint Lifecycle Agent Config.
Local Open Scope Z_scope.

(** ** State *)

Inductive jvmti_event :=
  | VM_INIT | VM_DEATH | THREAD_START | THREAD_END | GARBAGE_COLLECTION_FINISH | COMPILED_METHOD_LOAD
  | COMPILED_METHOD_UNLOAD | DYNAMIC_CODE_GENERATED | CLASS_LOAD | CLASS_PREPARE.
Inductive capability :=
  | can_generate_garbage_collection_events | can_get_source_file_name | can_get_line_numbers
  | can_generate_method_entry_events | can_generate_compiled_method_load_events.

(** What the machine has been told: capabilities, the events that have a callback and those
    that are enabled. *)
Record jvmti_env := mkEnv { capabilities : list capability; callbacks : list jvmti_event; enabled : list jvmti_event }.

(** A [std::ofstream]; what has been written to its file is kept next to it. *)
Record ofstream := mkStream { is_open : bool; good : bool }.
Definition stream_new : ofstream := mkStream false true.

(** The answers to one initialisation: of the machine, the file system and the kernel. *)
Record platform := mkPlatform {
  o_env : bool;                      (* GetEnv *)
  o_location : option bool;          (* GetJLocationFormat, and whether it is JVMBCI *)
  o_capabilities : bool;
  o_callbacks : bool;
  o_mode : jvmti_event -> bool;      (* SetEventNotificationMode *)
  o_method_file : bool;
  o_statistics_file : bool;
  o_pfm : bool;
  o_sigaction : bool;
  o_sigmask : bool;
  o_wp_sigaction : bool;
}.

Section code.
Context {P D C : Type} `{ThreadWatch P} `{DoubleOps D}.

Record process := mkProcess {
  p_onload : bool;                   (* onload_flag *)
  p_argument : option (list str);
  p_envs : list jvmti_env;           (* those the machine has made, the current one first *)
  p_config : config;
  p_keys : gset Z;                   (* the keys that exist *)
  p_vals : gmap Z Z;                 (* their values in the thread that calls the agent *)
  p_key : Z;                         (* the key of thread_data.cpp *)
  p_wp_key : Z;
  p_wp : option (WP_Config_t C * nat);
  p_kernel : kernel;
  p_method : ofstream;
  p_statistics : ofstream;
  p_statistics_text : list str;
  p_locals : locals (P := P);
  p_shared : shared (D := D);
}.

Definition set_onload b (p : process) := mkProcess b (p_argument p) (p_envs p) (p_config p) (p_keys p) (p_vals p) (p_key p)
  (p_wp_key p) (p_wp p) (p_kernel p) (p_method p) (p_statistics p) (p_statistics_text p) (p_locals p) (p_shared p).
Definition set_argument a (p : process) := mkProcess (p_onload p) a (p_envs p) (p_config p) (p_keys p) (p_vals p) (p_key p)
  (p_wp_key p) (p_wp p) (p_kernel p) (p_method p) (p_statistics p) (p_statistics_text p) (p_locals p) (p_shared p).
Definition set_envs e (p : process) := mkProcess (p_onload p) (p_argument p) e (p_config p) (p_keys p) (p_vals p) (p_key p)
  (p_wp_key p) (p_wp p) (p_kernel p) (p_method p) (p_statistics p) (p_statistics_text p) (p_locals p) (p_shared p).
Definition set_config c (p : process) := mkProcess (p_onload p) (p_argument p) (p_envs p) c (p_keys p) (p_vals p) (p_key p)
  (p_wp_key p) (p_wp p) (p_kernel p) (p_method p) (p_statistics p) (p_statistics_text p) (p_locals p) (p_shared p).
Definition set_keys k v (p : process) := mkProcess (p_onload p) (p_argument p) (p_envs p) (p_config p) k v (p_key p)
  (p_wp_key p) (p_wp p) (p_kernel p) (p_method p) (p_statistics p) (p_statistics_text p) (p_locals p) (p_shared p).
Definition set_td_key k (p : process) := mkProcess (p_onload p) (p_argument p) (p_envs p) (p_config p) (p_keys p) (p_vals p) k
  (p_wp_key p) (p_wp p) (p_kernel p) (p_method p) (p_statistics p) (p_statistics_text p) (p_locals p) (p_shared p).
Definition set_wp k w n (p : process) := mkProcess (p_onload p) (p_argument p) (p_envs p) (p_config p) (p_keys p) (p_vals p) (p_key p)
  k w n (p_method p) (p_statistics p) (p_statistics_text p) (p_locals p) (p_shared p).
Definition set_streams m s t (p : process) := mkProcess (p_onload p) (p_argument p) (p_envs p) (p_config p) (p_keys p) (p_vals p) (p_key p)
  (p_wp_key p) (p_wp p) (p_kernel p) m s t (p_locals p) (p_shared p).
Definition set_world lo s (p : process) := mkProcess (p_onload p) (p_argument p) (p_envs p) (p_config p) (p_keys p) (p_vals p) (p_key p)
  (p_wp_key p) (p_wp p) (p_kernel p) (p_method p) (p_statistics p) (p_statistics_text p) lo s.

(** ** Programs on the process *)
Definition agent (A : Type) : Type := process -> exc (A * process).
#[export] Instance agent_ret : MRet agent := fun A a p => RET (a, p).
#[export] Instance agent_bind : MBind agent := fun A B f x p =>
  match x p with RET (a, p') => f a p' | EXC => EXC end.

Definition read {A} (f : process -> A) : agent A := fun p => RET (f p, p).
Definition put (f : process -> process) : agent unit := fun p => RET (tt, f p).
Definition from {A} (x : exc A) : agent A := fun p => match x with RET a => RET (a, p) | EXC => EXC end.

(** The outside: the kernel's number of the thread, the pages, the breakpoints it accepts,
    whether
    they can be modified, a key that is free, libpfm, the environment. *)
Context (gettid pagesize : Z) (fast : bool) (accepts : Z -> bp_attr -> bool) (dummyWP : nat -> Z).
Context (new_key : gset Z -> option Z).
Context (perf_encode_event : str -> PerfEvents.perf_event_attr -> option PerfEvents.perf_event_attr) (precise_env : option str).
(** What the watchpoint library calls around a trap. *)
Context (perf_stop_all perf_start_all : C -> exc C).

(** *** Keys

    A key that does not exist has the value null and cannot be set; a new one has the value null. *)
Definition pthread_key_create : agent (option Z) := fun p =>
  match new_key (p_keys p) with
  | Some k => RET (Some k, set_keys ({[k]} ∪ p_keys p) (<[k := 0]> (p_vals p)) p)
  | None => RET (None, p)
  end.
Definition pthread_key_delete (k : Z) : agent unit := put (fun p => set_keys (p_keys p ∖ {[k]}) (delete k (p_vals p)) p).
Definition pthread_getspecific (k : Z) (p : process) : Z := if bool_decide (k ∈ p_keys p) then default 0 (p_vals p !! k) else 0.
Definition pthread_setspecific (k v : Z) (p : process) : process :=
  if bool_decide (k ∈ p_keys p) then set_keys (p_keys p) (<[k := v]> (p_vals p)) p else p.

(** A program of the thread: it sees the value of the key as its own. *)
Definition in_thread {A} (m : prog (P := P) (D := D) A) : agent A := fun p =>
  match m (set_key (pthread_getspecific (p_key p) p) (p_locals p), p_shared p) with
  | RET (a, (lo, s)) => RET (a, pthread_setspecific (p_key p) (l_key lo) (set_world lo s p))
  | EXC => EXC
  end.

Definition thread_data_init : agent unit :=
  k ← pthread_key_create;
  match k with Some k => put (set_td_key k) | None => from EXC end.
Definition thread_data_shutdown : agent unit := k ← read p_key; pthread_key_delete k.

(** *** Files *)
Definition stream_open (ok : bool) (s : ofstream) : ofstream :=
  if is_open s then mkStream true false else mkStream ok ok.
Definition stream_close (s : ofstream) : ofstream :=
  if is_open s then mkStream false (good s) else mkStream false false.
(** The file is empty after it has been opened. *)
Definition truncated (ok : bool) (s : ofstream) (text : list str) : list str :=
  if negb (is_open s) && ok then [] else text.

Definition open_method_file (ok : bool) : agent unit := put (fun p =>
  set_world (p_locals p) (set_methods (truncated ok (p_method p) (s_methods (p_shared p))) (p_shared p))
    (set_streams (stream_open ok (p_method p)) (p_statistics p) (p_statistics_text p) p)).
Definition open_statistics_file (ok : bool) : agent unit := put (fun p =>
  set_streams (p_method p) (stream_open ok (p_statistics p)) (truncated ok (p_statistics p) (p_statistics_text p)) p).
Definition print_method (text : str) : agent unit := put (fun p =>
  if good (p_method p) then set_world (p_locals p) (set_methods (s_methods (p_shared p) ++ [text]) (p_shared p)) p else p).
Definition print_statistics (text : str) : agent unit := put (fun p =>
  if good (p_statistics p) then set_streams (p_method p) (p_statistics p) (p_statistics_text p ++ [text]) p else p).
Definition close_files : agent unit := put (fun p =>
  set_streams (stream_close (p_method p)) (stream_close (p_statistics p)) (p_statistics_text p) p).

(** ** The profiler (profiler.cpp) *)

(** [std::fill_n(a, MAX_EVENTS, -1)] *)
Definition fill_n (a : gmap Z Z) : gmap Z Z := foldr (fun k a => <[k := -1]> a) a (seqZ 0 MAX_EVENTS).
Definition fill_metrics (c : config) : config :=
  let '(w, l) := watermarks_ c in
  mkConfig (event_info c) (num_events c) (decodeThreshold c) (selectedMethod c)
    (mkWM (curWatermarkId w) (sample_cnt_metric_id w) (start_metric_id w) (end_metric_id w) (fill_n (mean_metric_id w))
       (fill_n (variance_metric_id w)) (fill_n (m2_metric_id w)) (fill_n (cv_metric_id w)), l).

(** [clientName], which nothing ever sets. *)
Definition clientName : str := [].
Definition GENERIC : str := lit "GENERIC".
Definition output_statistics : agent unit :=
  if bool_decide (clientName = GENERIC) then
    total ← read (fun p => s_total (p_shared p));
    _ ← print_statistics (clientName ++ [c_newline]);
    print_statistics (show_int total ++ [c_newline])
  else mret tt.

Definition WP_Init_agent (sigaction_ok : bool) : agent bool :=
  k ← pthread_key_create;
  n ← read p_kernel;
  r ← from (WP_Init (C := C) accepts fast (bool_decide (is_Some k)) sigaction_ok dummyWP pagesize n);
  match r, k with
  | Some (cfg, maxWP, n), Some k => _ ← put (set_wp k (Some (cfg, maxWP)) n); mret true
  | _, _ => mret false
  end.

Definition WP_SetPerf_agent : agent bool :=
  w ← read p_wp;
  match w with
  | Some (cfg, maxWP) =>
      let '(ok, cfg) := WP_SetPerfPauseAndResumeFunctions (Some perf_stop_all) (Some perf_start_all) cfg in
      _ ← put (fun p => set_wp (p_wp_key p) (Some (cfg, maxWP)) (p_kernel p) p);
      mret ok
  | None => mret true
  end.

Definition Profiler_init (o : platform) : agent unit :=
  _ ← put (fun p => set_config (fill_metrics (p_config p)) p);
  _ ← open_method_file (o_method_file o);
  _ ← print_method header_line;
  _ ← open_statistics_file (o_statistics_file o);
  _ ← thread_data_init;
  a ← read p_argument;
  c ← read p_config;
  r ← match a with
      | Some l => from (processInit perf_encode_event precise_env (o_pfm o) (o_sigaction o) (o_sigmask o) l c)
      | None => from EXC
      end;
  _ ← put (set_config r.2);
  _ ← from (assert_exc r.1);
  ok ← WP_Init_agent (o_wp_sigaction o);
  _ ← from (assert_exc ok);
  ok ← WP_SetPerf_agent;
  from (assert_exc ok).

(** [WP_Shutdown] is empty and [processShutdown] only ends libpfm. *)
Definition Profiler_shutdown : agent unit :=
  _ ← thread_data_shutdown;
  _ ← output_statistics;
  close_files.

(** ** The agent (agent.cpp) *)
Definition parseArgs (arg : str) : agent unit :=
  a ← from (Argument arg); put (set_argument (Some a)).

Definition agent_capabilities : list capability :=
  [can_generate_garbage_collection_events; can_get_source_file_name; can_get_line_numbers;
   can_generate_method_entry_events; can_generate_compiled_method_load_events].
Definition agent_callbacks : list jvmti_event :=
  [VM_INIT; VM_DEATH; THREAD_START; THREAD_END; GARBAGE_COLLECTION_FINISH; COMPILED_METHOD_LOAD;
   COMPILED_METHOD_UNLOAD; CLASS_LOAD; CLASS_PREPARE].
Definition agent_events : list jvmti_event :=
  [VM_INIT; VM_DEATH; THREAD_START; THREAD_END; GARBAGE_COLLECTION_FINISH; COMPILED_METHOD_LOAD;
   COMPILED_METHOD_UNLOAD; DYNAMIC_CODE_GENERATED; CLASS_LOAD; CLASS_PREPARE].

(** [GetEnv] makes a new environment; nothing ever disposes of one. *)
Definition GetEnv : agent unit := put (fun p => set_envs (mkEnv [] [] [] :: p_envs p) p).
Definition in_env (f : jvmti_env -> jvmti_env) : agent unit :=
  put (fun p => set_envs (match p_envs p with e :: es => f e :: es | [] => [] end) p).
Definition AddCapabilities (ok : bool) : agent unit :=
  in_env (fun e => if ok then mkEnv agent_capabilities (callbacks e) (enabled e) else e).
Definition SetEventCallbacks (ok : bool) : agent unit :=
  in_env (fun e => if ok then mkEnv (capabilities e) agent_callbacks (enabled e) else e).
Fixpoint SetEventNotificationModes (ok : jvmti_event -> bool) (l : list jvmti_event) : agent unit :=
  match l with
  | [] => mret tt
  | ev :: l =>
      _ ← in_env (fun e => if ok ev then mkEnv (capabilities e) (callbacks e) (enabled e ++ [ev]) else e);
      SetEventNotificationModes ok l
  end.

Definition JVM_init (o : platform) (arg : str) : agent bool :=
  _ ← parseArgs arg;
  if negb (o_env o) then mret false else
  _ ← GetEnv;
  _ ← from (assert_exc (bool_decide (o_location o = Some true)));
  _ ← AddCapabilities (o_capabilities o);
  _ ← SetEventCallbacks (o_callbacks o);
  _ ← SetEventNotificationModes (o_mode o) agent_events;
  _ ← Profiler_init o;
  mret true.

Definition JVM_shutdown : agent bool :=
  _ ← Profiler_shutdown;
  _ ← put (set_argument None);
  mret true.

Definition JNI_OK : Z := 0.
Definition JNI_ERR : Z := -1.

Definition Agent_OnLoad (o : platform) (options : str) : agent Z :=
  _ ← in_thread (BLOCK_SAMPLE gettid);
  _ ← put (set_onload true);
  ok ← JVM_init o options;
  _ ← in_thread (UNBLOCK_SAMPLE gettid);
  mret (if ok : bool then JNI_OK else JNI_ERR).

(** The last character says whether the profiler starts or ends. *)
Definition Agent_OnAttach (o : platform) (options : str) : agent Z :=
  _ ← in_thread (BLOCK_SAMPLE gettid);
  _ ← put (set_onload false);
  _ ← match last options with
      | None => from EXC
      | Some c => if bool_decide (c = "s"%char) then JVM_init o (removelast options) else JVM_shutdown
      end;
  _ ← in_thread (UNBLOCK_SAMPLE gettid);
  mret 0.

Definition Agent_OnUnload : agent unit :=
  _ ← in_thread (BLOCK_SAMPLE gettid);
  onload ← read p_onload;
  _ ← (if onload : bool then _ ← JVM_shutdown; mret tt else mret tt);
  in_thread (UNBLOCK_SAMPLE gettid).

(** ** Predicates *)

(** The thread can use its data: the key's value is null or a block. *)
Definition thread_ok (p : process) : Prop :=
  shared_ok (p_shared p) /\
  let v := pthread_getspecific (p_key p) p in v = 0 \/ is_Some (s_blocks (p_shared p) !! v).

(** What the threads do while the agent's entry points rest. *)
Definition during (p p' : process) : Prop :=
  thread_ok p' /\ exists v lo s, p' = set_keys (p_keys p) v (set_world lo s p).
(** Only the variables of the thread, its block and the values of its keys differ. *)
Definition quiet (p p' : process) : Prop := during p p' /\ same_reports (p_shared p) (p_shared p').

(** Every call of an initialisation succeeds. *)
Record platform_ok (o : platform) : Prop := {
  ok_env : o_env o = true;
  ok_location : o_location o = Some true;
  ok_capabilities : o_capabilities o = true;
  ok_callbacks : o_callbacks o = true;
  ok_mode : forall e, o_mode o e = true;
  ok_method_file : o_method_file o = true;
  ok_statistics_file : o_statistics_file o = true;
  ok_pfm : o_pfm o = true;
  ok_sigaction : o_sigaction o = true;
  ok_sigmask : o_sigmask o = true;
  ok_wp_sigaction : o_wp_sigaction o = true;
}.

(** Descriptors are below the next one. *)
Definition kernel_ok (k : kernel) : Prop := 0 <= k_next k /\ forall fd, is_Some (k_bps k !! fd) -> fd < k_next k.

(** The agent does not run: its key is not there and its files are closed. *)
Record off (p : process) : Prop := {
  off_key : p_key p ∉ p_keys p;
  off_method : is_open (p_method p) = false;
  off_statistics : is_open (p_statistics p) = false;
  off_shared : shared_ok (p_shared p);
  off_kernel : kernel_ok (p_kernel p);
  off_events : length (event_info (p_config p)) = 10%nat;
  off_count : 0 <= curWatermarkId (watermarks_ (p_config p)).1;
}.

Definition PTHREAD_KEYS_MAX : nat := 1024.
(** A thread library that has a key as long as there are fewer than it can have. *)
Definition new_key_ok : Prop :=
  forall K, (size K < PTHREAD_KEYS_MAX)%nat -> exists k, new_key K = Some k /\ k ∉ K.
(** The kernel has a debug register for the probe. *)
Definition accepts_ok : Prop := forall fd, 0 <= fd -> accepts fd (probe_attr (dummyWP 0%nat)) = true.

Abbreviation options_ok := (options_ok perf_encode_event).
Abbreviation cur p := (curWatermarkId (watermarks_ (p_config p)).1).

(** The agent runs with the options [opts]: [p] is the process before, [keys] are the
    keys that it had. *)
Record on (opts : options) (p p' : process) : Prop := {
  on_argument : p_argument p' = Some (pieces opts);
  on_reads : reads opts (fill_metrics (p_config p)) (p_config p');
  on_events : length (event_info (p_config p')) = 10%nat;
  on_keys : exists k kw, k ∉ p_keys p /\ kw ∉ p_keys p /\ k <> kw /\ p_keys p' = {[k; kw]} ∪ p_keys p /\
    p_key p' = k /\ p_wp_key p' = kw;
  on_envs : p_envs p' = mkEnv agent_capabilities agent_callbacks agent_events :: p_envs p;
  on_wp : exists cfg, p_wp p' = Some (cfg, 1%nat) /\ userPerfPause cfg = Some perf_stop_all /\ userPerfResume cfg = Some perf_start_all;
  on_kernel : kernel_ok (p_kernel p') /\ k_bps (p_kernel p') = k_bps (p_kernel p);
  on_streams : p_method p' = mkStream true true /\ p_statistics p' = mkStream true true;
  on_methods : s_methods (p_shared p') = [header_line];
  on_reports : s_cache (p_shared p') = s_cache (p_shared p) /\ s_files (p_shared p') = s_files (p_shared p);
  on_thread : thread_ok p';
}.

(** ** Running programs *)
Definition aruns {A} (m : agent A) (p : process) (Q : A -> process -> Prop) : Prop := exists a p', m p = RET (a, p') /\ Q a p'.

Lemma aruns_bind {A B} (m : agent A) (f : A -> agent B) p Q : aruns m p (fun a p' => aruns (f a) p' Q) -> aruns (m ≫= f) p Q.
Proof. intros (a & p1 & E & b & p2 & E2 & HQ). exists b, p2. unfold mbind, agent_bind. by rewrite E. Qed.
Lemma aruns_ret {A} (a : A) p (Q : A -> process -> Prop) : Q a p -> aruns (mret a) p Q.
Proof. by exists a, p. Qed.
Lemma aruns_put f p (Q : unit -> process -> Prop) : Q tt (f p) -> aruns (put f) p Q.
Proof. by exists tt, (f p). Qed.
Lemma aruns_read {A} (f : process -> A) p Q : Q (f p) p -> aruns (read f) p Q.
Proof. by exists (f p), p. Qed.
Lemma aruns_from {A} (x : exc A) a p Q : x = RET a -> Q a p -> aruns (from x) p Q.
Proof. intros -> HQ. by exists a, p. Qed.
Lemma aruns_mono {A} (m : agent A) p (Q Q' : A -> process -> Prop) :
  aruns m p Q -> (forall a p', Q a p' -> Q' a p') -> aruns m p Q'.
Proof. intros (a & p' & E & HQ) HQ'. exists a, p'. auto. Qed.

Lemma fails_after {A B} (m : agent A) (f : A -> agent B) p : aruns m p (fun a p' => f a p' = EXC) -> (m ≫= f) p = EXC.
Proof. intros (a & p1 & E & Ef). unfold mbind, agent_bind. by rewrite E. Qed.
Lemma fails_first {A B} (m : agent A) (f : A -> agent B) p : m p = EXC -> (m ≫= f) p = EXC.
Proof. intros E. unfold mbind, agent_bind. by rewrite E. Qed.

(** *** The flag of the thread *)
Lemma key_set v lo s p :
  pthread_getspecific (p_key p) (pthread_setspecific (p_key p) v (set_world lo s p)) =
    if bool_decide (p_key p ∈ p_keys p) then v else 0.
Proof.
  unfold pthread_setspecific. cbn. case_bool_decide as E; unfold pthread_getspecific; cbn.
  - rewrite bool_decide_true by done. by rewrite lookup_insert_eq.
  - by rewrite bool_decide_false.
Qed.

Lemma flag_quiet i p Q :
  thread_ok p -> (forall p', quiet p p' -> Q tt p') -> aruns (in_thread (TD_SET gettid (with_inside i))) p Q.
Proof.
  intros [Hs Hv] HQ. unfold aruns, in_thread. set (v := pthread_getspecific _ _) in *.
  assert (runs (TD_SET gettid (with_inside i)) (set_key v (p_locals p), p_shared p) (fun _ w =>
    same_reports (p_shared p) w.2 /\ shared_ok w.2 /\ is_Some (s_blocks w.2 !! l_key w.1))) as ([] & [lo s] & E & Hr & Hok & Hb).
  { destruct Hs as [Hn Hbl]. destruct (decide (v = 0)) as [E|Hne].
    - apply runs_BLOCK_new; [done|done|]. cbn. split; [done|]. split; [|by rewrite lookup_insert_eq; eexists].
      split; cbn; [lia|]. intros q [<-|[_ Hq]]%lookup_insert_is_Some; [lia|]. specialize (Hbl q Hq). lia.
    - destruct Hv as [?|[b Hb]]; [done|]. apply (runs_TD_SET _ _ _ b); [by split|]. cbn. split; [done|].
      split; [|by rewrite lookup_insert_eq; eexists]. split; cbn; [lia|].
      intros q [<-|[_ Hq]]%lookup_insert_is_Some; [|auto]. apply Hbl. by eexists. }
  rewrite E. eexists _, _. split; [done|]. apply HQ. split; [split|].
  - split; [unfold pthread_setspecific; case_bool_decide; exact Hok|].
    replace (p_key (pthread_setspecific _ _ _)) with (p_key p) by (unfold pthread_setspecific; by case_bool_decide).
    rewrite key_set. case_bool_decide; [right|by left]. unfold pthread_setspecific. by case_bool_decide.
  - unfold pthread_setspecific. cbn. case_bool_decide; [by eexists _, lo, s|]. by exists (p_vals p), lo, s; destruct p.
  - unfold pthread_setspecific. by case_bool_decide.
Qed.

(** ** Starting *)
Hypothesis Hkeys : new_key_ok.
Hypothesis Haccepts : accepts_ok.

Lemma runs_key_create p Q :
  (size (p_keys p) < PTHREAD_KEYS_MAX)%nat ->
  (forall k, k ∉ p_keys p -> Q (Some k) (set_keys ({[k]} ∪ p_keys p) (<[k := 0]> (p_vals p)) p)) ->
  aruns pthread_key_create p Q.
Proof.
  intros Hs HQ. destruct (Hkeys (p_keys p) Hs) as (k & E & Hk). unfold aruns, pthread_key_create. rewrite E.
  eexists _, _. split; [done|]. by apply HQ.
Qed.

Lemma open_close k : kernel_ok k ->
  open_bp accepts (probe_attr (dummyWP 0%nat)) k =
    (k_next k, mkKernel (<[k_next k := mkBp (probe_attr (dummyWP 0%nat)) true]> (k_bps k)) (k_next k + 1) (k_time k)) /\
  close_bp (k_next k) (mkKernel (<[k_next k := mkBp (probe_attr (dummyWP 0%nat)) true]> (k_bps k)) (k_next k + 1) (k_time k)) =
    (0, mkKernel (k_bps k) (k_next k + 1) (k_time k)).
Proof.
  intros [Hz Hb]. unfold open_bp, close_bp. rewrite Haccepts by done. split; [done|]. cbn. rewrite lookup_insert_eq.
  unfold with_bps. cbn. rewrite delete_insert_id; [done|]. destruct (k_bps k !! k_next k) eqn:E; [|done].
  specialize (Hb (k_next k) ltac:(by eexists)). lia.
Qed.

Lemma WP_Init_ok k : kernel_ok k -> exists cfg k', WP_Init (C := C) accepts fast true true dummyWP pagesize k = RET (Some (cfg, 1%nat, k')) /\
  kernel_ok k' /\ k_bps k' = k_bps k.
Proof.
  intros Hk. unfold WP_Init. cbn [negb].
  assert (exists lbr k1, (if fast then let '(fd, k0) := open_bp accepts (probe_attr (dummyWP 0%nat)) k in
      k1 ← CHECK (close_bp fd k0); RET (negb (fd =? -1), k1) else RET (false, k)) = RET (lbr, k1) /\
    kernel_ok k1 /\ k_bps k1 = k_bps k) as (lbr & k1 & -> & Hk1 & Eb1).
  { destruct fast; [|by eexists _, _]. destruct (open_close k Hk) as [-> Ec]. rewrite Ec. cbn. eexists _, _. split; [done|].
    split; [|done]. destruct Hk as [Hz Hb]. split; cbn; [lia|]. intros fd Hfd. specialize (Hb fd Hfd). lia. }
  cbn [mbind exc_bind assert_exc]. change (dummyWP <$> seq 0 MAX_WP_SLOTS) with [dummyWP 0%nat]. cbn [probe_slots].
  destruct (open_close k1 Hk1) as [-> Ec]. rewrite (proj2 (Z.eqb_neq _ _)) by (destruct Hk1; lia). cbn [length].
  rewrite bool_decide_false by done. cbn [negb mbind exc_bind assert_exc close_all]. rewrite Ec. cbn. eexists _, _.
  split; [done|]. split; [|done]. destruct Hk1 as [Hz Hb]. split; cbn; [lia|]. intros fd Hfd. specialize (Hb fd Hfd). lia.
Qed.

Lemma fill_cur c : curWatermarkId (watermarks_ (fill_metrics c)).1 = curWatermarkId (watermarks_ c).1 /\
  event_info (fill_metrics c) = event_info c /\ decodeThreshold (fill_metrics c) = decodeThreshold c /\
  selectedMethod (fill_metrics c) = selectedMethod c.
Proof. unfold fill_metrics. destruct (watermarks_ c) as [w l]. by split_and!. Qed.

(** What [Profiler::init] leaves alone. *)
Definition profiler_frame (p p' : process) : Prop :=
  p_onload p' = p_onload p /\ p_argument p' = p_argument p /\ p_envs p' = p_envs p /\ p_locals p' = p_locals p.

Section start.
Context (o : platform) (opts : options).
Hypothesis Ho : platform_ok o.
Hypothesis Hopts : options_ok opts.

(** There is room for the metrics and for two more keys. *)
Definition room (p : process) : Prop :=
  cur p + Z.of_nat (length (op_events opts)) <= MAX_EVENTS /\ (S (size (p_keys p)) < PTHREAD_KEYS_MAX)%nat.

Lemma few_events : (length (op_events opts) <= 10)%nat.
Proof. destruct (opt_count _ opts Hopts). lia. Qed.

Lemma Profiler_init_ok p :
  room p -> off p -> p_argument p = Some (pieces opts) ->
  aruns (Profiler_init o) p (fun _ p' =>
    profiler_frame p p' /\ reads opts (fill_metrics (p_config p)) (p_config p') /\ length (event_info (p_config p')) = 10%nat /\
    (exists k kw, k ∉ p_keys p /\ kw ∉ p_keys p /\ k <> kw /\ p_keys p' = {[k; kw]} ∪ p_keys p /\ p_key p' = k /\
      p_wp_key p' = kw /\ pthread_getspecific k p' = 0) /\
    (exists cfg, p_wp p' = Some (cfg, 1%nat) /\ userPerfPause cfg = Some perf_stop_all /\ userPerfResume cfg = Some perf_start_all) /\
    (kernel_ok (p_kernel p') /\ k_bps (p_kernel p') = k_bps (p_kernel p)) /\
    (p_method p' = mkStream true true /\ p_statistics p' = mkStream true true) /\
    p_shared p' = set_methods [header_line] (p_shared p)).
Proof.
  intros [Hroom Hsize] [Hoff Hm Hst Hsh Hk He Hc] Ea. destruct (fill_cur (p_config p)) as (Ec & Eev & _).
  destruct (process_options perf_encode_event precise_env opts (fill_metrics (p_config p))) as (c' & Ep & Hr & Hl);
    [done|rewrite Eev, He; apply few_events|lia|lia|].
  destruct p as [onl arg envs conf keys vals key wkey wp kern meth stat text lo sh]. cbn in *.
  unfold Profiler_init. rewrite (ok_method_file o Ho), (ok_statistics_file o Ho).
  apply aruns_bind, aruns_put, aruns_bind, aruns_put, aruns_bind, aruns_put, aruns_bind, aruns_put.
  cbn. unfold stream_open, truncated. rewrite Hm. cbn. rewrite Hst. cbn.
  apply aruns_bind, aruns_bind, runs_key_create; [cbn; lia|]. cbn. intros k Hkk. apply aruns_put.
  do 2 (apply aruns_bind, aruns_read). cbn. apply aruns_bind. rewrite Ea.
  eapply aruns_from. { unfold processInit. rewrite (ok_pfm o Ho). cbn [negb]. rewrite Ep. done. }
  apply aruns_bind, aruns_put. unfold installSignal. rewrite (ok_sigaction o Ho), (ok_sigmask o Ho). cbn.
  apply aruns_bind. eapply aruns_from; [done|]. apply aruns_bind, aruns_bind, runs_key_create.
  { cbn. rewrite size_union by set_solver. rewrite size_singleton. lia. }
  cbn. intros kw Hkw. apply aruns_bind, aruns_read. cbn. rewrite (ok_wp_sigaction o Ho).
  destruct (WP_Init_ok kern Hk) as (cfg & n & Ew & Hn & Eb). apply aruns_bind. eapply aruns_from; [exact Ew|].
  apply aruns_bind, aruns_put, aruns_ret, aruns_bind. eapply aruns_from; [done|]. unfold WP_SetPerf_agent.
  apply aruns_bind, aruns_bind, aruns_read. cbn. apply aruns_bind, aruns_put, aruns_ret. eapply aruns_from; [done|].
  cbn. split; [by split_and!|]. split; [done|]. split; [by rewrite Hl, Eev|]. split.
  { exists k, kw. split_and!; try done; [set_solver|set_solver|set_solver|]. unfold pthread_getspecific. cbn.
    rewrite lookup_insert_ne by set_solver. rewrite lookup_insert_eq. by case_bool_decide. }
  split; [by eexists|]. split; [done|]. split; [done|]. done.
Qed.

Lemma modes_ok l p0 e es (Q : unit -> process -> Prop) :
  p_envs p0 = e :: es ->
  Q tt (set_envs (mkEnv (capabilities e) (callbacks e) (enabled e ++ l) :: es) p0) ->
  aruns (SetEventNotificationModes (o_mode o) l) p0 Q.
Proof.
  revert p0 e. induction l as [|ev l IH]; intros p0 e He HQ.
  - apply aruns_ret. eapply eq_ind; [exact HQ|]. destruct p0, e. cbn in *. by rewrite app_nil_r, He.
  - apply aruns_bind, aruns_put. eapply IH; [cbn; rewrite He; done|]. cbn. rewrite (ok_mode o Ho). cbn.
    by rewrite <- app_assoc.
Qed.

Lemma JVM_init_ok p :
  room p -> off p -> aruns (JVM_init o (join (pieces opts))) p (fun ok p' => ok = true /\ p_onload p' = p_onload p /\ on opts p p').
Proof.
  intros Hroom Hoff. unfold JVM_init, parseArgs. apply aruns_bind, aruns_bind.
  eapply aruns_from; [by apply (Argument_pieces perf_encode_event)|]. apply aruns_put. rewrite (ok_env o Ho). cbn [negb].
  apply aruns_bind, aruns_put, aruns_bind. eapply aruns_from; [by rewrite (ok_location o Ho)|].
  apply aruns_bind, aruns_put, aruns_bind, aruns_put, aruns_bind. eapply modes_ok; [done|].
  cbn. rewrite (ok_capabilities o Ho), (ok_callbacks o Ho). cbn. apply aruns_bind.
  set (p1 := set_envs _ _). assert (Hp1 : off p1 /\ p_argument p1 = Some (pieces opts) /\ p_config p1 = p_config p /\
    p_keys p1 = p_keys p /\ p_kernel p1 = p_kernel p /\ p_shared p1 = p_shared p /\ p_onload p1 = p_onload p /\
    p_envs p1 = mkEnv agent_capabilities agent_callbacks agent_events :: p_envs p).
  { split; [by destruct Hoff; split|by split_and!]. }
  clearbody p1. destruct Hp1 as (Hoff1 & Ea & Ecf & Eky & Ekn & Esh & Eon & Een).
  eapply aruns_mono; [apply (Profiler_init_ok p1); [unfold room; by rewrite Ecf, Eky|done..]|].
  rewrite Ecf, Eky, Ekn, Esh. intros [] p' ((Fo & Fa & Fe & _) & Hr & Hl & (k & kw & H1 & H2 & H3 & H4 & H5 & H6 & H7) & Hw & Hk & Hs & Esh').
  apply aruns_ret. split; [done|]. split; [congruence|]. split; try done.
  - congruence.
  - by exists k, kw.
  - congruence.
  - by rewrite Esh'.
  - by rewrite Esh'.
  - split; [rewrite Esh'; exact (off_shared p Hoff)|left]. by rewrite H5.
Qed.
End start.

(** *** The entry points *)
Lemma off_thread p : off p -> thread_ok p.
Proof. intros Hoff. split; [apply Hoff|left]. unfold pthread_getspecific. by rewrite bool_decide_false by apply Hoff. Qed.

Lemma off_quiet p p1 b : off p -> during p p1 -> off (set_onload b p1).
Proof. intros [] ([Hs _] & v & lo & s & ->). by split. Qed.

Lemma on_before opts p p1 p' b : quiet p p1 -> on opts (set_onload b p1) p' -> on opts p p'.
Proof.
  intros [(_ & v & lo & s & ->) (Ec & _ & Ef)] []. cbn in *. split; try done. destruct on_reports0 as [-> ->]. by rewrite Ec, Ef.
Qed.

Lemma on_after opts p p' p'' : on opts p p' -> quiet p' p'' -> on opts p p''.
Proof.
  intros [] [(Ht & v & lo & s & ->) (Ec & Em & Ef)]. cbn in *. split; try done; cbn in *; [by rewrite Em|].
  by destruct on_reports0 as [<- <-].
Qed.

(** The agent is loaded with the virtual machine, or attached to it later. *)
Inductive entry := by_load | by_attach.
Definition c_s : ascii := "s"%char.
Definition start (e : entry) (o : platform) (opts : options) : agent Z :=
  match e with
  | by_load => Agent_OnLoad o (join (pieces opts))
  | by_attach => Agent_OnAttach o (join (pieces opts) ++ [c_s])
  end.
(** An attached agent ends with any other text. *)
Definition stop (e : entry) (o : platform) (text : str) : agent Z :=
  match e with
  | by_load => _ ← Agent_OnUnload; mret 0
  | by_attach => Agent_OnAttach o text
  end.
Definition is_load (e : entry) : bool := match e with by_load => true | by_attach => false end.

Lemma start_eq e o opts : start e o opts =
  (_ ← in_thread (BLOCK_SAMPLE gettid); _ ← put (set_onload (is_load e));
   ok ← JVM_init o (join (pieces opts)); _ ← in_thread (UNBLOCK_SAMPLE gettid);
   mret (if is_load e then if ok : bool then JNI_OK else JNI_ERR else 0)).
Proof. destruct e; [done|]. unfold start, Agent_OnAttach. rewrite last_snoc, removelast_last. by rewrite bool_decide_true. Qed.

Lemma start_ok e o opts p :
  platform_ok o -> options_ok opts -> room opts p -> off p ->
  aruns (start e o opts) p (fun r p' => r = 0 /\ p_onload p' = is_load e /\ on opts p p').
Proof.
  intros Ho Hopts Hroom Hoff. rewrite start_eq. apply aruns_bind, flag_quiet; [by apply off_thread|].
  intros p1 Hq1. apply aruns_bind, aruns_put, aruns_bind. eapply aruns_mono.
  { apply (JVM_init_ok o opts Ho Hopts (set_onload (is_load e) p1)); [|by eapply off_quiet; [|apply Hq1]].
    destruct Hq1 as [(_ & v & lo & s & ->) _]. exact Hroom. }
  intros ok p2 (-> & El & Hon). apply aruns_bind, flag_quiet; [apply Hon|]. intros p3 Hq3. apply aruns_ret.
  split; [by destruct e|]. split.
  - destruct Hq3 as [(_ & v & lo & s & ->) _]. cbn. rewrite El. by destruct Hq1 as [(_ & ? & ? & ? & ->) _].
  - eapply on_after; [|exact Hq3]. by eapply on_before.
Qed.

Lemma start_full e o opts p :
  platform_ok o -> options_ok opts -> off p -> (size (p_keys p) < PTHREAD_KEYS_MAX)%nat ->
  cur p <= MAX_EVENTS -> MAX_EVENTS < cur p + Z.of_nat (length (op_events opts)) -> start e o opts p = EXC.
Proof.
  intros Ho Hopts Hoff Hsize Hle Hgt. rewrite start_eq. apply fails_after, flag_quiet; [by apply off_thread|].
  intros p1 Hq1. apply fails_after, aruns_put, fails_first. pose proof (off_quiet p p1 (is_load e) Hoff (proj1 Hq1)) as Hoff1.
  assert (Hp1 : p_config (set_onload (is_load e) p1) = p_config p /\ p_keys (set_onload (is_load e) p1) = p_keys p)
    by (by destruct Hq1 as [(_ & ? & ? & ? & ->) _]).
  destruct Hp1 as [Ec Ek]. generalize dependent (set_onload (is_load e) p1). clear p1 Hq1. intros p1 Hoff1 Ec Ek.
  unfold JVM_init, parseArgs. apply fails_after, aruns_bind.
  eapply aruns_from; [by apply (Argument_pieces perf_encode_event)|]. apply aruns_put. rewrite (ok_env o Ho). cbn [negb].
  apply fails_after, aruns_put, fails_after. eapply aruns_from; [by rewrite (ok_location o Ho)|].
  apply fails_after, aruns_put, fails_after, aruns_put, fails_after. eapply modes_ok; [done|done|].
  apply fails_first. set (p2 := set_envs _ _). assert (Ea : p_argument p2 = Some (pieces opts)) by done.
  assert (Ec2 : p_config p2 = p_config p) by done. assert (Ek2 : p_keys p2 = p_keys p) by done. clearbody p2.
  unfold Profiler_init. apply fails_after, aruns_put, fails_after, aruns_put, fails_after, aruns_put, fails_after, aruns_put.
  set (p3 := set_streams _ _ _ _). assert (Ep3 : p_argument p3 = Some (pieces opts) /\ p_keys p3 = p_keys p /\ p_config p3 = fill_metrics (p_config p)).
  { subst p3. cbn. case_match; cbn; by rewrite ?Ea, ?Ek2, ?Ec2. }
  clearbody p3. destruct Ep3 as (Ea3 & Ek3 & Ec3).
  apply fails_after, aruns_bind, runs_key_create; [by rewrite Ek3|]. intros k _. apply aruns_put.
  do 2 (apply fails_after, aruns_read). cbn. rewrite Ea3, Ec3. apply fails_first. unfold from, processInit.
  rewrite (ok_pfm o Ho). cbn [negb]. destruct (fill_cur (p_config p)) as (Ecur & Eev & _).
  rewrite (process_options_full perf_encode_event precise_env opts); [done|done| |rewrite Ecur; destruct Hoff; lia|by rewrite Ecur].
  rewrite Eev, (off_events p Hoff). by apply few_events.
Qed.

(** ** Ending *)

(** The agent runs: its key is there and its files are open. *)
Record alive (p : process) : Prop := {
  al_key : p_key p ∈ p_keys p;
  al_streams : p_method p = mkStream true true /\ p_statistics p = mkStream true true;
  al_thread : thread_ok p;
  al_kernel : kernel_ok (p_kernel p);
  al_events : length (event_info (p_config p)) = 10%nat;
  al_count : 0 <= cur p;
}.

Lemma on_alive opts p p' : 0 <= cur p -> on opts p p' -> alive p'.
Proof.
  intros Hc [? Hr ? (k & kw & H1 & H2 & H3 & Ek & Ekk & H6) ? ? ? ? ? ? ?]. split; try done; [rewrite Ek, Ekk; set_solver|tauto|].
  destruct Hr as (Hn & _ & _ & _ & ->). destruct (fill_cur (p_config p)) as (-> & _). lia.
Qed.

Lemma alive_during p p' b : alive p -> during p p' -> alive (set_onload b p').
Proof. intros [] (Ht & v & lo & s & ->). by split. Qed.

(** What is left when the agent has ended: [p] is the process before. *)
Record ended (p p' : process) : Prop := {
  end_argument : p_argument p' = None;
  end_keys : p_keys p' = p_keys p ∖ {[p_key p]};
  end_config : p_config p' = p_config p;
  end_envs : p_envs p' = p_envs p;
  end_wp : p_wp p' = p_wp p /\ p_wp_key p' = p_wp_key p;
  end_kernel : p_kernel p' = p_kernel p;
  end_reports : same_reports (p_shared p) (p_shared p');
  end_off : off p';
}.

Lemma JVM_shutdown_ok p Q :
  alive p -> (forall p', ended p p' -> Q true p') -> aruns JVM_shutdown p Q.
Proof.
  intros [Hk [Hm Hs] [Hsh Hv] Hkn He Hc] HQ. unfold JVM_shutdown, Profiler_shutdown, thread_data_shutdown, output_statistics.
  rewrite bool_decide_false by done. apply aruns_bind, aruns_bind, aruns_bind, aruns_read, aruns_put, aruns_bind, aruns_ret, aruns_put.
  apply aruns_bind, aruns_put, aruns_ret, HQ. split; try done. split; try done; cbn; [set_solver|by rewrite Hm|by rewrite Hs].
Qed.

Lemma ended_quiet p p1 p2 p3 b : quiet p p1 -> ended (set_onload b p1) p2 -> quiet p2 p3 -> ended p p3.
Proof.
  intros [(_ & v & lo & s & ->) (Ec & Em & Ef)] [? Hk ? ? ? ? (Ec2 & Em2 & Ef2) Hoff] [Hd (Ec3 & Em3 & Ef3)].
  pose proof (off_quiet p2 p3 (p_onload p3) Hoff Hd) as Hoff3. replace (set_onload (p_onload p3) p3) with p3 in Hoff3 by (by destruct p3).
  destruct Hd as (_ & v3 & lo3 & s3 & ->). cbn in *. split; try done. unfold same_reports in *. cbn in *. split_and!; congruence.
Qed.

(** The text that ends an attached agent. *)
Definition stop_text (text : str) : Prop := exists c, last text = Some c /\ c <> c_s.

Lemma Agent_OnUnload_ok p Q :
  alive p -> p_onload p = true -> (forall p', ended p p' -> Q tt p') -> aruns Agent_OnUnload p Q.
Proof.
  intros Hal Hload HQ. unfold Agent_OnUnload. apply aruns_bind, flag_quiet; [apply Hal|]. intros p1 Hq1.
  assert (Hp1 : alive (set_onload (p_onload p1) p1)) by (eapply alive_during; [exact Hal|apply Hq1]).
  replace (set_onload (p_onload p1) p1) with p1 in Hp1 by (by destruct p1).
  apply aruns_bind, aruns_read, aruns_bind. replace (p_onload p1) with true by (by destruct Hq1 as [(_ & ? & ? & ? & ->) _]).
  apply aruns_bind, JVM_shutdown_ok; [done|]. intros p2 He. apply aruns_ret, flag_quiet; [by apply off_thread, He|].
  intros p3 Hq3. apply HQ. eapply (ended_quiet _ _ _ _ (p_onload p1)); [exact Hq1| |exact Hq3]. by destruct p1.
Qed.

Lemma stop_ok e o text p :
  alive p -> p_onload p = is_load e -> (e = by_attach -> stop_text text) ->
  aruns (stop e o text) p (fun r p' => r = 0 /\ ended p p').
Proof.
  intros Hal Hload Htext. destruct e.
  - apply aruns_bind, Agent_OnUnload_ok; [done|done|]. intros p' He. by apply aruns_ret.
  - unfold stop, Agent_OnAttach. apply aruns_bind, flag_quiet; [apply Hal|]. intros p1 Hq1.
    apply aruns_bind, aruns_put. destruct (Htext eq_refl) as (c & -> & Hc). rewrite bool_decide_false by done.
    apply aruns_bind, JVM_shutdown_ok; [by eapply alive_during; [|apply Hq1]|]. intros p2 He.
    apply aruns_bind, flag_quiet; [by apply off_thread, He|]. intros p3 Hq3. apply aruns_ret. split; [done|].
    by eapply ended_quiet.
Qed.

(** ** Histories: the agent is started, runs and is ended, again and again *)
Inductive history : process -> list options -> process -> Prop :=
  | history_none p : history p [] p
  | history_session p p1 p2 p3 p4 e o text opts l :
      platform_ok o -> options_ok opts -> (e = by_attach -> stop_text text) ->
      start e o opts p = RET (0, p1) -> during p1 p2 -> stop e o text p2 = RET (0, p3) ->
      history p3 l p4 -> history p (opts :: l) p4.

Definition events_of (l : list options) : Z := foldr (fun o n => Z.of_nat (length (op_events o)) + n) 0 l.

(** What the sessions [l] have left: their keys for watchpoints, their environments, their metrics. *)
Record left_behind (l : list options) (p p' : process) : Prop := {
  left_off : off p';
  left_metrics : cur p' = cur p + events_of l;
  left_limit : cur p' <= MAX_EVENTS;
  left_keys : size (p_keys p') = (size (p_keys p) + length l)%nat;
  left_envs : exists es, p_envs p' = es ++ p_envs p /\ length es = length l /\
    Forall (fun e => callbacks e = agent_callbacks /\ enabled e = agent_events) es;
}.

Lemma session_left p p1 p2 p3 e o text opts :
  off p -> cur p <= MAX_EVENTS -> (S (size (p_keys p)) < PTHREAD_KEYS_MAX)%nat ->
  platform_ok o -> options_ok opts -> (e = by_attach -> stop_text text) ->
  start e o opts p = RET (0, p1) -> during p1 p2 -> stop e o text p2 = RET (0, p3) -> left_behind [opts] p p3.
Proof.
  intros Hoff Hle Hsize Ho Hopts Htext Est Hd Esp.
  destruct (decide (cur p + Z.of_nat (length (op_events opts)) <= MAX_EVENTS)) as [Hroom|Hroom];
    [|rewrite (start_full e o opts p) in Est by (done || lia); done].
  destruct (start_ok e o opts p Ho Hopts (conj Hroom Hsize) Hoff) as (r & q & E & -> & El & Hon).
  rewrite Est in E. injection E as <-. pose proof (on_alive opts p p1 (off_count p Hoff) Hon) as Hal.
  assert (Hal2 : alive p2 /\ p_onload p2 = is_load e).
  { pose proof (alive_during p1 p2 (p_onload p2) Hal Hd) as Ha. split; [by destruct p2|]. by destruct Hd as (_ & v & lo & s & ->). }
  destruct (stop_ok e o text p2 (proj1 Hal2) (proj2 Hal2) Htext) as (r & q & E & -> & Hend).
  rewrite Esp in E. injection E as <-.
  assert (Hp2 : p_config p2 = p_config p1 /\ p_keys p2 = p_keys p1 /\ p_key p2 = p_key p1 /\ p_envs p2 = p_envs p1)
    by (by destruct Hd as (_ & v & lo & s & ->)).
  destruct Hp2 as (Ecf & Eky & Ek & Een). destruct Hon as [_ Hr _ (k & kw & H1 & H2 & H3 & Ekeys & Ekk & _) Eenv _ _ _ _ _ _].
  destruct Hr as (Hn & _ & _ & _ & Hcur). destruct (fill_cur (p_config p)) as (Efc & _).
  assert (Ecur : cur p3 = cur p + Z.of_nat (length (op_events opts))) by (rewrite (end_config p2 p3 Hend), Ecf, Hcur, Efc, Hn; lia).
  split; [apply Hend|rewrite Ecur; cbn; lia|lia| |].
  - rewrite (end_keys p2 p3 Hend), Eky, Ek, Ekeys, Ekk. replace (({[k; kw]} ∪ p_keys p) ∖ {[k]}) with ({[kw]} ∪ p_keys p) by set_solver.
    rewrite size_union by set_solver. rewrite size_singleton. cbn. lia.
  - exists [mkEnv agent_capabilities agent_callbacks agent_events]. rewrite (end_envs p2 p3 Hend), Een, Eenv. split_and!; [done..|].
    by apply Forall_singleton.
Qed.

Lemma history_left p l p' :
  history p l p' -> off p -> cur p <= MAX_EVENTS -> (size (p_keys p) + length l < PTHREAD_KEYS_MAX)%nat -> left_behind l p p'.
Proof.
  induction 1 as [p|p p1 p2 p3 p4 e o text opts l Ho Hopts Htext Est Hd Esp _ IH]; intros Hoff Hle Hsize.
  - split; [done|cbn; lia|done|cbn; lia|]. exists []. by split_and!.
  - cbn [length] in Hsize. destruct (session_left p p1 p2 p3 e o text opts) as [Hoff3 Hc3 Hl3 Hk3 (es & Ee & Hle1 & Hes)]; [done|done|lia|done..|].
    change (events_of [opts]) with (Z.of_nat (length (op_events opts)) + 0) in Hc3. cbn in Hk3, Hle1. destruct IH as [Hoff4 Hc4 Hl4 Hk4 (es' & Ee' & Hle' & Hes')]; [done|done|lia|].
    split; [done|change (events_of (opts :: l)) with (Z.of_nat (length (op_events opts)) + events_of l); lia|done|cbn; lia|]. exists (es' ++ es). rewrite Ee', Ee, app_assoc, length_app, Hle', Hle1.
    split_and!; [done|cbn in *; lia|by apply Forall_app].
Qed.

(** *** A whole run

    The virtual machine loads the agent, runs, dies and unloads it. What happens in between are
    the steps of Agent.v, with the events and metrics that the options have made. *)
Section run.
Context `{!ThreadWatchLaws P} {T : Type} `{RBTreeLaws T}.
Context (jvm : jvmti) (order : gmap str str -> list (str * str)) (set_order : gset Z -> list Z).
Context (show_double : D -> str) (tree_order : ContextTree (M := list (metric_val_t D)) -> list nat).
Hypothesis show_double_value : forall d, value_ok (show_double d).
Hypothesis order_perm : forall m, order m ≡ₚ map_to_list m.
Hypothesis Hjvm : jvm_ok jvm.
Hypothesis set_order_perm : forall l, set_order l ≡ₚ elements l.

(** What a thread opens for every event, and the metrics. *)
Definition sample_types (p : process) : list Z :=
  (fun e => PerfEvents.sample_type (ei_attr e)) <$> take (Z.to_nat (num_events (p_config p))) (event_info (p_config p)).
Definition metric_infos (p : process) : list metric_info_t := (watermarks_ (p_config p)).2.
(** The names need no escaping. *)
Definition plain_metrics (p : process) : Prop :=
  Forall (fun i => value_ok (lit (event_measure i)) /\ value_ok (lit (event_name i))) (metric_infos p) /\
  Z.of_nat (length (metric_infos p)) < 2 ^ 31.

Lemma thread_has_block p : thread_ok p -> has_block (P := P) (set_key (pthread_getspecific (p_key p) p) (p_locals p), p_shared p).
Proof.
  intros [Hs Hv]. split; [done|]. cbn. destruct (decide (pthread_getspecific (p_key p) p = 0)) as [|Hne]; [by left|].
  destruct Hv as [?|[b Hb]]; [done|]. right. by exists b.
Qed.

Lemma in_thread_during {A} (m : prog (P := P) (D := D) A) p Q :
  p_key p ∈ p_keys p ->
  runs m (set_key (pthread_getspecific (p_key p) p) (p_locals p), p_shared p)
    (fun a w => has_block w /\ forall p', during p p' -> p_shared p' = w.2 -> Q a p') ->
  aruns (in_thread m) p Q.
Proof.
  intros Hk (a & [lo s] & E & [Hs Hb] & HQ). unfold aruns, in_thread. rewrite E. eexists _, _. split; [done|].
  unfold pthread_setspecific. rewrite bool_decide_true by done. apply HQ; [|done]. split; [|by eexists _, lo, s].
  split; [exact Hs|]. cbn. unfold pthread_getspecific. cbn. rewrite bool_decide_true, lookup_insert_eq by done. cbn.
  destruct Hb as [Hb|[b [Hl Hb]]]; [by left|right; by exists b].
Qed.

Lemma key_during p p' : during p p' -> p_keys p' ∖ {[p_key p']} = p_keys p ∖ {[p_key p]}.
Proof. by intros (_ & v & lo & s & ->). Qed.

(** C18: A whole run. The virtual machine loads the agent with any options that have room, makes and
    unloads code and starts and ends threads in any order, dies, and unloads the agent: every
    entry point returns, the key of the threads' data is deleted and no other, the files are closed, and
    then the offline reader finds the method of every context that any thread has written, with its
    names and its lines. *)
Theorem whole_run (o : platform) (opts : options) (p : process) :
  platform_ok o -> options_ok opts -> room opts p -> off p ->
  s_cache (p_shared p) = CodeCache_new -> s_files (p_shared p) = [] ->
  aruns (Agent_OnLoad o (join (pieces opts))) p (fun r p1 => r = JNI_OK /\
    forall S p2, plain_metrics p1 -> during p1 p2 -> p_shared p2 = sys_shared S -> sys_pending S = [] ->
      rtc (sys_step (P := P) jvm order show_double tree_order (sample_types p1) (metric_infos p1)) (mkSys (p_shared p1) [] ∅) S ->
      aruns (in_thread (callbackVMDeath jvm order set_order gettid)) p2 (fun _ p3 =>
        aruns Agent_OnUnload p3 (fun _ p4 => off p4 /\ p_keys p4 = p_keys p1 ∖ {[p_key p1]} /\
          every_method_found (T := T) jvm (p_shared p4) /\ s_files (p_shared p4) = s_files (sys_shared S)))).
Proof.
  intros Ho Hopts Hroom Hoff Hcache Hfiles. eapply aruns_mono; [apply (start_ok by_load o opts p); done|].
  intros r p1 (-> & El & Hon). split; [done|]. intros S p2 [Hplain Hfew] Hd Es Hpend Hst.
  pose proof (on_alive opts p p1 (off_count p Hoff) Hon) as Hal.
  assert (Hal2 : alive p2 /\ p_onload p2 = true).
  { pose proof (alive_during p1 p2 (p_onload p2) Hal Hd) as Ha. split; [by destruct p2|]. by destruct Hd as (_ & v & lo & s & ->). }
  destruct Hal2 as [Hal2 Hload2]. apply in_thread_during; [apply Hal2|]. rewrite Es.
  eapply runs_mono; [apply (death_found (T := T) jvm order set_order show_double tree_order (sample_types p1) (metric_infos p1) show_double_value
    order_perm Hplain Hfew Hjvm set_order_perm (mkSys (p_shared p1) [] ∅)); [|done|done|]|].
  - destruct Hon as [_ _ _ _ _ _ _ _ Em [Ec Ef] _]. unfold sys_init. cbn. by rewrite Ec, Ef, Em, Hcache, Hfiles.
  - rewrite <- Es. apply thread_has_block, Hal2.
  - intros [] w (Hfound & Ew & Hb). split; [done|]. intros p3 Hd3 Es3. apply Agent_OnUnload_ok.
    + pose proof (alive_during p2 p3 (p_onload p3) Hal2 Hd3). by destruct p3.
    + by destruct Hd3 as (_ & v & lo & s & ->).
    + intros p4 He. split; [apply He|]. split; [by rewrite (end_keys p3 p4 He), (key_during p2 p3 Hd3), (key_during p1 p2 Hd)|]. destruct (end_reports p3 p4 He) as (_ & Em & Ef). rewrite Ef, Es3. split; [|done].
      unfold every_method_found in *. by rewrite Em, Ef, Es3.
Qed.
End run.

(** ** Properties of the entry points *)

(** Loading and attaching the agent do the same. With room for the metrics of its events and for two keys,
    [Agent_OnLoad] and [Agent_OnAttach] return 0, and the agent runs with just the options
    that were printed: every event is enabled in a new environment, the two keys are new, the watchpoint library has one
    slot, no breakpoint of the probe is left, and the file of methods has its header. Without the room the process ends. *)
Theorem agent_start (e : entry) (o : platform) (opts : options) (p : process) :
  platform_ok o -> options_ok opts -> off p -> cur p <= MAX_EVENTS -> (S (size (p_keys p)) < PTHREAD_KEYS_MAX)%nat ->
  (cur p + Z.of_nat (length (op_events opts)) <= MAX_EVENTS ->
     exists p', start e o opts p = RET (0, p') /\ p_onload p' = is_load e /\ on opts p p') /\
  (MAX_EVENTS < cur p + Z.of_nat (length (op_events opts)) -> start e o opts p = EXC).
Proof.
  intros Ho Hopts Hoff Hle Hsize. split; intros Hroom.
  - destruct (start_ok e o opts p Ho Hopts (conj Hroom Hsize) Hoff) as (r & p' & E & -> & El & Hon). by exists p'.
  - apply start_full; try done. lia.
Qed.

(** C19: What sessions leave behind. However often the agent is loaded or attached and ended, it gives back the
    key of its threads' data and closes its files, but every session leaves a key of the watchpoint
    library and an environment of the machine in which every event is still enabled with its callback;
    and the events of all sessions together are no more than five. *)
Theorem agent_sessions (p p' : process) (l : list options) :
  history p l p' -> off p -> cur p <= MAX_EVENTS -> (size (p_keys p) + length l < PTHREAD_KEYS_MAX)%nat ->
  left_behind l p p'.
Proof. apply history_left. Qed.
End code.

(** ** Two sessions, and a run *)
Module Demo.
#[local] Existing Instances Methods.Demo.list_tree Methods.Demo.list_tree_laws.
#[local] Existing Instance Agent.Demo.library.
#[local] Existing Instance Agent.Demo.library_laws.
Abbreviation library := (option (WP_ThreadData_t (C := unit) (R := unit))).
Abbreviation proc := (process (P := library) (D := spec_float) (C := unit)).

Definition new_key (K : gset Z) : option Z :=
  if (size K <? PTHREAD_KEYS_MAX)%nat then Some (1 + foldr Z.max 0 (elements K)) else None.
Lemma demo_keys : new_key_ok new_key.
Proof.
  intros K HK. unfold new_key. rewrite (proj2 (Nat.ltb_lt _ _) HK). eexists. split; [done|].
  assert (Hmax : forall k l, k ∈ l -> k <= foldr Z.max 0 l).
  { intros k l Hk. induction Hk as [|a b l' _ IH]; cbn in *; [lia|]. etrans; [exact IH|]. apply Z.le_max_r. }
  intros Hk%elem_of_elements%Hmax. lia.
Qed.

Definition o : platform := mkPlatform true (Some true) true true (fun _ => true) true true true true true true.
Lemma demo_platform : platform_ok o.
Proof. by split. Qed.

Definition p0 : proc :=
  mkProcess false None [] config0 ∅ ∅ 0 0 None (mkKernel ∅ 7 0) stream_new stream_new []
    (mkLocals 0 (replicate 5 (-1)) 0 (Some Watchpoint.Demo.demo_st0) 0) (mkShared ∅ ∅ ∅ 4096 CodeCache_new [] [] [] 0 0).

Lemma demo_off : off p0.
Proof.
  split; try done.
  - split; [done|]. intros q. cbn. rewrite lookup_empty. by intros [? ?].
  - split; [done|]. intros q. cbn. rewrite lookup_empty. by intros [? ?].
Qed.

Lemma demo_size : (S (size (p_keys p0)) < PTHREAD_KEYS_MAX)%nat.
Proof. apply Nat.ltb_lt. vm_compute. reflexivity. Qed.

Abbreviation accepts := (fun (_ : Z) (_ : bp_attr) => true).
Abbreviation dummy := (fun _ : nat => 4096).
Abbreviation start e l := (start (P := library) (D := spec_float) (C := unit) 77 4096 true accepts dummy new_key Config.Demo.encode None RET RET e o l).
Abbreviation stop e t := (stop (P := library) (D := spec_float) (C := unit) 77 4096 true accepts dummy new_key Config.Demo.encode None RET RET e o t).
Definition state_after {A} (m : agent A) (p : proc) : proc := match m p with RET (_, p') => p' | EXC => p end.

Lemma agent_start_witness :
  (exists p', start by_attach Config.Demo.attach p0 = RET (0, p') /\ p_onload p' = false) /\
  start by_load Config.Demo.many p0 = EXC.
Proof.
  split.
  - destruct (agent_start 77 4096 true accepts dummy new_key Config.Demo.encode None (RET (A := unit)) RET demo_keys ltac:(done)
      by_attach o Config.Demo.attach p0 demo_platform Config.Demo.attach_options_ok demo_off ltac:(vm_compute; discriminate)
      demo_size) as [Hs _].
    destruct Hs as (p' & E & El & _); [vm_compute; discriminate|]. exists p'. exact (conj E El).
  - apply (agent_start 77 4096 true accepts dummy new_key Config.Demo.encode None (RET (A := unit)) RET demo_keys ltac:(done)
      by_load o Config.Demo.many p0 demo_platform Config.Demo.many_options_ok demo_off ltac:(vm_compute; discriminate)
      demo_size). vm_compute. reflexivity.
Defined.

(** An agent that is attached and detached twice. *)
Definition p1 : proc := state_after (start by_attach Config.Demo.attach) p0.
Definition p2 : proc := state_after (stop by_attach (lit "end")) p1.
Definition p3 : proc := state_after (start by_attach Config.Demo.attach) p2.
Definition p4 : proc := state_after (stop by_attach (lit "end")) p3.

(** The blocks of a process, checked one by one. *)
Lemma blocks_ok (s : shared (D := spec_float)) :
  0 <? s_next s = true -> forallb (fun b => (0 <? b.1) && (b.1 <? s_next s)) (map_to_list (s_blocks s)) = true -> shared_ok s.
Proof.
  intros Hn Hb. split; [lia|]. intros q [b Hq%elem_of_map_to_list]. rewrite forallb_forall in Hb.
  specialize (Hb (q, b) (proj1 (list_elem_of_In _ _) Hq)). cbn in Hb. lia.
Qed.

Lemma demo_during (p : proc) : 
  0 <? s_next (p_shared p) = true -> forallb (fun b => (0 <? b.1) && (b.1 <? s_next (p_shared p))) (map_to_list (s_blocks (p_shared p))) = true ->
  bool_decide (is_Some (s_blocks (p_shared p) !! pthread_getspecific (p_key p) p)) = true -> thread_ok p.
Proof. intros Hn Hb Hv%bool_decide_eq_true. split; [by apply blocks_ok|by right]. Qed.

Lemma quiet_during (p : proc) : thread_ok p -> during p p.
Proof. intros Ht. split; [done|]. exists (p_vals p), (p_locals p), (p_shared p). by destruct p. Qed.
Lemma world_shared (p : proc) lo s : p_shared (set_world lo s p) = s.
Proof. done. Qed.
Lemma world_during (p : proc) lo s : thread_ok (set_world lo s p) -> during p (set_world lo s p).
Proof. intros Ht. split; [done|]. by exists (p_vals p), lo, s. Qed.

Lemma two_sessions : history 77 4096 true accepts dummy new_key Config.Demo.encode None (RET (A := unit)) RET
  p0 [Config.Demo.attach; Config.Demo.attach] p4.
Proof.
  assert (Htext : by_attach = by_attach -> stop_text (lit "end")) by (intros _; by exists "d"%char).
  eapply (history_session _ _ _ _ _ _ _ _ _ _ p0 p1 p1 p2 p4 by_attach o (lit "end"));
    [exact demo_platform|exact Config.Demo.attach_options_ok|exact Htext|vm_compute; reflexivity| |vm_compute; reflexivity|].
  { apply quiet_during, demo_during; vm_compute; reflexivity. }
  eapply (history_session _ _ _ _ _ _ _ _ _ _ p2 p3 p3 p4 p4 by_attach o (lit "end"));
    [exact demo_platform|exact Config.Demo.attach_options_ok|exact Htext|vm_compute; reflexivity| |vm_compute; reflexivity|].
  { apply quiet_during, demo_during; vm_compute; reflexivity. }
  apply history_none.
Qed.

Lemma agent_sessions_witness :
  size (p_keys p4) = 2%nat /\ length (p_envs p4) = 2%nat /\ curWatermarkId (watermarks_ (p_config p4)).1 = 4 /\
  left_behind [Config.Demo.attach; Config.Demo.attach] p0 p4.
Proof.
  split; [vm_compute; reflexivity|]. split; [vm_compute; reflexivity|]. split; [vm_compute; reflexivity|].
  apply (agent_sessions 77 4096 true accepts dummy new_key Config.Demo.encode None (RET (A := unit)) RET demo_keys ltac:(done)
    p0 p4 _ two_sessions demo_off); [vm_compute; discriminate|apply Nat.ltb_lt; vm_compute; reflexivity].
Defined.

(** A run in which a method is loaded. *)
Definition q1 : proc := state_after (start by_load Config.Demo.attach) p0.
Definition other : locals (P := library) := mkLocals 0 (replicate 5 (-1)) 0 (Some Watchpoint.Demo.demo_st0) 0.
Definition w1 : Agent.Demo.world := Agent.Demo.begin_or (load_begin 78 16) (other, p_shared q1).
Definition w2 : Agent.Demo.world := Agent.Demo.run_or (load_end Agent.Demo.jvm map_to_list 78 16 1 16 100 []) w1.
Definition q2 : proc := set_world (p_locals q1) w2.2 q1.
Definition death := in_thread (P := library) (D := spec_float) (C := unit) (callbackVMDeath Agent.Demo.jvm map_to_list elements 77).
Definition q3 : proc := state_after death q2.

Lemma demo_steps : rtc (sys_step (P := library) Agent.Demo.jvm map_to_list Report.Demo.show_double Lifecycle.Demo.tree_order
  (sample_types q1) (metric_infos q1)) (mkSys (p_shared q1) [] ∅) (mkSys w2.2 [] ({[(16, 1)]} ∪ ∅)).
Proof.
  eapply rtc_l; [apply (step_load_begin _ _ _ _ _ _ 78 other w1.1 (p_shared q1) w1.2 [] ∅ 16 1); vm_compute; reflexivity|].
  apply rtc_once. apply (step_load_end _ _ _ _ _ _ 78 w1.1 w2.1 w1.2 w2.2 [] [] ∅ 16 1 16 100 []); [by split|vm_compute; reflexivity].
Qed.

Lemma attach_room : room Config.Demo.attach p0.
Proof. split; [vm_compute; discriminate|exact demo_size]. Qed.
Lemma attach_plain : plain_metrics q1.
Proof.
  assert (E : metric_infos q1 = ltac:(let l := eval vm_compute in (metric_infos q1) in exact l)) by (vm_compute; reflexivity).
  split; [rewrite E; repeat constructor|vm_compute; reflexivity].
Qed.
Lemma demo_q2 : during q1 q2.
Proof. apply world_during, demo_during; vm_compute; reflexivity. Qed.

Lemma demo_shared : p_shared q2 = w2.2.
Proof. exact (world_shared q1 (p_locals q1) w2.2). Qed.

Lemma RET_pair {A B} (a a' : A) (b b' : B) : RET (a, b) = RET (a', b') -> a = a' /\ b = b'.
Proof. by intros [= -> ->]. Qed.

Lemma whole_run_witness :
  start by_load Config.Demo.attach p0 = RET (0, q1) /\ length (s_methods (p_shared q2)) = 2%nat /\
  exists p5, Agent_OnUnload 77 q3 = RET (tt, p5) /\ off p5 /\ every_method_found (T := gmap Z (Z * str)) Agent.Demo.jvm (p_shared p5).
Proof.
  assert (E1 : start by_load Config.Demo.attach p0 = RET (0, q1)) by (vm_compute; reflexivity).
  assert (E3 : death q2 = RET (tt, q3)) by (vm_compute; reflexivity).
  split; [exact E1|]. split; [vm_compute; reflexivity|]. destruct Lifecycle.Demo.demo_values as [Hd _].
  pose proof (whole_run (T := gmap Z (Z * str)) 77 4096 true accepts dummy new_key Config.Demo.encode None (RET (A := unit)) RET demo_keys (fun _ _ => eq_refl)
    Agent.Demo.jvm map_to_list elements Report.Demo.show_double Lifecycle.Demo.tree_order Hd (fun m => reflexivity (map_to_list m))
    Agent.Demo.demo_jvm_ok (fun m => reflexivity (elements m)) o Config.Demo.attach p0 demo_platform
    Config.Demo.attach_options_ok attach_room demo_off eq_refl eq_refl) as Hrun.
  destruct Hrun as (r & p & E & _ & Hrun). change (start by_load Config.Demo.attach p0 = RET (r, p)) in E.
  destruct (RET_pair _ _ _ _ (eq_trans (eq_sym E1) E)) as [<- <-].
  destruct (Hrun (mkSys w2.2 [] ({[(16, 1)]} ∪ ∅)) q2 attach_plain demo_q2 demo_shared eq_refl demo_steps) as ([] & p & E' & [] & p5 & E5 & Hoff & _ & Hfound & _).
  change (death q2 = RET (tt, p)) in E'. destruct (RET_pair _ _ _ _ (eq_trans (eq_sym E3) E')) as [_ <-].
  exists p5. split; [exact E5|]. split; [exact Hoff|exact Hfound].
Defined.
End Demo.
